(** * Octanify: the Cycles -> Octane material converter, embedded in Rocq.

    The development follows the layout of the Python package:
    - [Py]                helpers for the Python data the code manipulates
                          (insertion-ordered dicts, [str.lower], [in]);
    - [ShaderDetection]   [core/shader_detection.py]: snapshots and flags;
    - [GraphEngine]       [core/graph_engine.py]: schedule computation;
    - [NodeRegistry]      [core/node_registry.py]: socket resolution;
    - [PropertyMapper]    [core/property_mapper.py]: Principled transfer;
    - [Cache]             [utils/cache.py];
    - [ConversionEngine]  [core/conversion_engine.py]: post-processors and
                          the per-material / batch orchestration;
    - [ConversionPasses]  [core/conversion_engine.py]: link reconstruction,
                          alpha, emission and normal-map fallback passes;
    - [VolumetricHandler] [core/volumetric_handler.py];
    - [NodeCreation]      [core/node_registry.py], [core/graph_engine.py]:
                          the node type tables and node creation;
    - [GammaSystem]       [core/gamma_system.py].

    Floats are modelled by rationals ([Q]): the code only compares them
    with literal thresholds and multiplies them. *)

From Stdlib Require Import QArith Qabs.
From Stdlib Require Import Ascii String.
From stdpp Require Import gmap strings list fin_maps relations.

Set Warnings "-clear-no-such-hyp".

Local Open Scope string_scope.
Local Open Scope list_scope.
Local Open Scope nat_scope.

(* ===================================================================== *)
(** * Python data *)
(* ===================================================================== *)

Module Py.

(** A [dict] keeps insertion order; assigning to an existing key keeps the
    key's position. *)
Definition dict (V : Type) : Type := list (string * V).

Fixpoint dict_get {V} (k : string) (d : dict V) : option V :=
  match d with
  | [] => None
  | (k', v) :: d' => if decide (k' = k) then Some v else dict_get k d'
  end.

Fixpoint dict_set {V} (k : string) (v : V) (d : dict V) : dict V :=
  match d with
  | [] => [(k, v)]
  | (k', v') :: d' =>
      if decide (k' = k) then (k, v) :: d' else (k', v') :: dict_set k v d'
  end.

Definition dict_keys {V} (d : dict V) : list string := d.*1.

(** An image datablock, as far as the converter reads it. *)
Record Image : Type := mkImage {
  img_name : string;
  img_filepath : string;
  img_colorspace : string;
}.

(** The values a socket default or a node property can hold. *)
Inductive Value : Type :=
  | VNum (q : Q)                       (* int / float *)
  | VTuple (l : list Q)                (* colour or vector, as a tuple *)
  | VStr (s : string)                  (* enum setting, name *)
  | VBool (b : bool)
  | VImage (img : Image)               (* reference to an image *)
  | VStops (stops : list (Q * list Q)) (* colour-ramp stops *)
  | VTreeRef (tree_name : string).     (* reference to a node group tree *)

(** [isinstance(v, (int, float))]: the number [v] stands for, if any
    ([bool] is a subclass of [int]). *)
Definition as_number (v : Value) : option Q :=
  match v with
  | VNum q => Some q
  | VBool b => Some (if b then 1%Q else 0%Q)
  | _ => None
  end.

(** [x > y] on floats. *)
Definition Qgt_bool (x y : Q) : bool := negb (Qle_bool x y).

(** The exceptions the code meets. *)
Inductive exn : Type :=
  | TypeError | AttributeError | ValueError | KeyError
  | RuntimeError | IndexError | RecursionError | ReferenceError.

(** A computation that returns or raises. *)
Inductive result (A : Type) : Type :=
  | Ok (a : A)
  | Raise (e : exn).
Arguments Ok {A} a.
Arguments Raise {A} e.

#[global] Instance result_ret : MRet result := fun A a => Ok a.
#[global] Instance result_bind : MBind result := fun A B f m =>
  match m with
  | Ok a => f a
  | Raise e => Raise e
  end.

#[global] Instance result_fmap : FMap result := fun A B f m =>
  match m with
  | Ok a => Ok (f a)
  | Raise e => Raise e
  end.

(** [a or-else b]: the first one that is not [None]. *)
Definition or_else {A} (a b : option A) : option A :=
  match a with
  | Some x => Some x
  | None => b
  end.
Infix "orelse" := or_else (at level 61, left associativity).

(** [for x in xs: acc = step(acc, x)], stopping at the first exception. *)
Fixpoint fold_result {A B} (step : A -> B -> result A) (acc : A) (xs : list B)
  : result A :=
  match xs with
  | [] => Ok acc
  | x :: xs' =>
      match step acc x with
      | Ok acc' => fold_result step acc' xs'
      | Raise e => Raise e
      end
  end.

(** [v > q] where [v] is whatever the socket holds: comparing a tuple or a
    string with a float raises [TypeError]. *)
Definition value_gt (v : Value) (q : Q) : result bool :=
  match as_number v with
  | Some x => Ok (Qgt_bool x q)
  | None => Raise TypeError
  end.

(** [any(c > 0.0 for c in tuple(v)[:3])] *)
Definition any_positive3 (v : Value) : result bool :=
  match v with
  | VTuple l => Ok (existsb (fun c => Qgt_bool c 0) (take 3 l))
  | VStr "" => Ok false
  | _ => Raise TypeError
  end.

End Py.

(* ===================================================================== *)
(** * Python strings *)
(* ===================================================================== *)

Module PyStr.
Import Ascii String.

(** [str.lower()] on one character.  Strings are sequences of bytes here;
    only the ASCII letters have a lower-case form. *)
Definition lower_ascii (c : ascii) : ascii :=
  let n := nat_of_ascii c in
  if (65 <=? n) && (n <=? 90) then ascii_of_nat (n + 32) else c.

(** [s.lower()] *)
Fixpoint lower (s : string) : string :=
  match s with
  | EmptyString => EmptyString
  | String c s' => String (lower_ascii c) (lower s')
  end.

(** [needle in hay] for strings: [needle] occurs as a substring. *)
Fixpoint str_in (needle hay : string) : bool :=
  String.prefix needle hay ||
  match hay with
  | EmptyString => false
  | String _ hay' => str_in needle hay'
  end.

End PyStr.

(* ===================================================================== *)
(** * The host's graph objects, as far as the converter relies on them *)
(* ===================================================================== *)

Module Bpy.
Import Py.

(** A node socket.  [sock_default = None] means that the socket has no
    [default_value] attribute. *)
Record NodeSocket : Type := mkNodeSocket {
  sock_name : string;
  sock_identifier : string;
  sock_default : option Value;
}.

(** The colour ramp of a ColorRamp node. *)
Record ColorRamp : Type := mkColorRamp {
  cr_interpolation : string;
  cr_color_mode : string;
  cr_elements : list (Q * list Q);
}.

(** A node.  A socket is referred to by its position in [node_inputs] or
    [node_outputs]; [node_props] holds the settable attributes of the node
    type with their current values. *)
Record Node : Type := mkNode {
  node_name : string;
  node_idname : string;
  node_label : string;
  node_location : Q * Q;
  node_inputs : list NodeSocket;
  node_outputs : list NodeSocket;
  node_props : dict Value;
  node_image : option Image;
  node_color_ramp : option ColorRamp;
}.

(** A link, from an output socket of one node to an input socket of
    another; nodes are referred to by their (unique) name in the tree. *)
Record NodeLink : Type := mkNodeLink {
  link_from_node : string;
  link_from_socket : nat;
  link_to_node : string;
  link_to_socket : nat;
}.

#[global] Instance NodeLink_eq_dec : EqDecision NodeLink.
Proof. solve_decision. Defined.

Record NodeTree : Type := mkNodeTree {
  tree_nodes : list Node;
  tree_links : list NodeLink;
}.

(** [collection.get(key)] with the socket found: the first socket named
    [key]. *)
Definition collection_find (collection : list NodeSocket) (key : string)
  : option (nat * NodeSocket) :=
  list_find (fun sock => sock_name sock = key) collection.

(** [collection.get(key)]: the position of the first socket named [key]. *)
Definition collection_get (collection : list NodeSocket) (key : string)
  : option nat :=
  fst <$> collection_find collection key.

(** [collection[i]] for an index known to be within [0, len). *)
Definition collection_at (collection : list NodeSocket) (i : Z) : option nat :=
  if decide (0 ≤ i < Z.of_nat (length collection))%Z
  then Some (Z.to_nat i) else None.

(** [tree.nodes[name]] *)
Definition tree_node (tree : NodeTree) (name : string) : option Node :=
  snd <$> list_find (fun n => node_name n = name) (tree_nodes tree).

(** [socket.links] of input socket [i] of the node named [n], in the order
    of the tree's links. *)
Definition links_into (tree : NodeTree) (n : string) (i : nat) : list NodeLink :=
  filter (fun l => link_to_node l = n ∧ link_to_socket l = i) (tree_links tree).

(** [socket.links] of output socket [i] of the node named [n]. *)
Definition links_out_of (tree : NodeTree) (n : string) (i : nat) : list NodeLink :=
  filter (fun l => link_from_node l = n ∧ link_from_socket l = i) (tree_links tree).

(** [tree.links.remove(link)] *)
Definition links_remove (tree : NodeTree) (link : NodeLink) : NodeTree :=
  mkNodeTree (tree_nodes tree) (filter (fun l => l ≠ link) (tree_links tree)).

(** [tree.links.new(output, input)]: an input socket holds one link, so
    that the host drops the link it held before adding the new one at the
    end. *)
Definition links_new (tree : NodeTree) (output input : string * nat) : NodeTree :=
  mkNodeTree (tree_nodes tree)
    (filter (fun l => ¬ (link_to_node l = input.1 ∧ link_to_socket l = input.2))
            (tree_links tree)
     ++ [mkNodeLink output.1 output.2 input.1 input.2]).

(** What the host does with [socket.default_value = value]. *)
Inductive assign_outcome : Type :=
  | Stored (socket : NodeSocket)   (* the value is taken *)
  | Rejected                       (* TypeError / AttributeError *)
  | Failed (e : exn).              (* any other exception *)

(** The host takes a value of the shape the socket already holds: a number
    for a number, a sequence of the same length for a sequence.  A value of
    another kind is a [TypeError], a sequence of another length a
    [ValueError]. *)
Definition socket_assign (socket : NodeSocket) (value : Value) : assign_outcome :=
  let stored := Stored (mkNodeSocket (sock_name socket) (sock_identifier socket)
                          (Some value)) in
  match sock_default socket, value with
  | None, _ => Rejected
  | Some (VNum _), VNum _ => stored
  | Some (VNum _), VBool b => Stored (mkNodeSocket (sock_name socket)
                                (sock_identifier socket)
                                (Some (VNum (if b then 1 else 0)%Q)))
  | Some (VTuple l), VTuple l' =>
      if decide (length l = length l') then stored else Failed ValueError
  | Some (VStr _), VStr _ => stored
  | Some (VBool _), VBool _ => stored
  | Some (VImage _), VImage _ => stored
  | Some _, _ => Rejected
  end.

(** What the host does with [setattr(node, attr, value)]: an attribute the
    node type does not have is an [AttributeError], a value of another kind
    a [TypeError]; both leave the node as it is. *)
Definition node_setattr (node : Node) (attr : string) (value : Value)
  : option Node :=
  let same_kind (old new : Value) : bool :=
    match old, new with
    | VNum _, VNum _ | VBool _, VBool _ | VStr _, VStr _
    | VTuple _, VTuple _ | VImage _, VImage _ => true
    | _, _ => false
    end in
  match dict_get attr (node_props node) with
  | Some old =>
      if same_kind old value
      then Some (mkNode (node_name node) (node_idname node) (node_label node)
                   (node_location node) (node_inputs node) (node_outputs node)
                   (dict_set attr value (node_props node))
                   (node_image node) (node_color_ramp node))
      else None
  | None => None
  end.

(** The node with its input sockets replaced. *)
Definition with_inputs (node : Node) (inputs : list NodeSocket) : Node :=
  mkNode (node_name node) (node_idname node) (node_label node)
    (node_location node) inputs (node_outputs node) (node_props node)
    (node_image node) (node_color_ramp node).

(** A material datablock. *)
Record Material : Type := mkMaterial {
  mat_name : string;
  mat_use_nodes : bool;
  mat_node_tree : option NodeTree;
}.

(** An object of the scene.  Materials are referred to by their handle in
    the host's material store; [material_slots = None] is an object type
    without material slots. *)
Record Object : Type := mkObject {
  obj_name : string;
  obj_scale : Q * Q * Q;
  material_slots : option (list (option nat));
}.

End Bpy.
(* ===================================================================== *)
(** * core/shader_detection.py : data classes *)
(* ===================================================================== *)

Module ShaderDetection.
Import Py Bpy.

(** [NodeInfo]: snapshot of a single Cycles node.  A socket whose default
    is missing is recorded with value [None]. *)
Record NodeInfo : Type := mkNodeInfo {
  name : string;
  bl_idname : string;
  label : string;
  location : Q * Q;
  inputs : dict (option Value);
  outputs : dict (option Value);
  properties : dict Value;
  input_identifiers : dict string;
  output_identifiers : dict string;
}.

(** [LinkInfo]: snapshot of a single link (reroutes already resolved). *)
Record LinkInfo : Type := mkLinkInfo {
  from_node : string;
  from_socket : string;
  to_node : string;
  to_socket : string;
  from_socket_identifier : string;
  to_socket_identifier : string;
  to_socket_index : Z;
}.

(** [TreeAnalysis]: complete analysis of a Cycles node tree. *)
Record TreeAnalysis : Type := mkTreeAnalysis {
  nodes : dict NodeInfo;
  links : list LinkInfo;
  has_glass : bool;
  has_emission : bool;
  has_volume : bool;
  has_alpha : bool;
  has_bump : bool;
  has_normal_map : bool;
  has_sss : bool;
  has_displacement : bool;
  transmission_weight : Q;
}.

Definition empty_analysis : TreeAnalysis :=
  mkTreeAnalysis [] [] false false false false false false false false 0%Q.

(** Setters for the pattern flags. *)
Definition with_nodes (a : TreeAnalysis) (ns : dict NodeInfo) : TreeAnalysis :=
  mkTreeAnalysis ns (links a) (has_glass a) (has_emission a) (has_volume a)
    (has_alpha a) (has_bump a) (has_normal_map a) (has_sss a)
    (has_displacement a) (transmission_weight a).

Definition with_links (a : TreeAnalysis) (ls : list LinkInfo) : TreeAnalysis :=
  mkTreeAnalysis (nodes a) ls (has_glass a) (has_emission a) (has_volume a)
    (has_alpha a) (has_bump a) (has_normal_map a) (has_sss a)
    (has_displacement a) (transmission_weight a).

Definition set_has_glass (a : TreeAnalysis) : TreeAnalysis :=
  mkTreeAnalysis (nodes a) (links a) true (has_emission a) (has_volume a)
    (has_alpha a) (has_bump a) (has_normal_map a) (has_sss a)
    (has_displacement a) (transmission_weight a).

Definition set_transmission_weight (a : TreeAnalysis) (tw : Q) : TreeAnalysis :=
  mkTreeAnalysis (nodes a) (links a) (has_glass a) (has_emission a) (has_volume a)
    (has_alpha a) (has_bump a) (has_normal_map a) (has_sss a)
    (has_displacement a) tw.

Definition set_has_emission (a : TreeAnalysis) : TreeAnalysis :=
  mkTreeAnalysis (nodes a) (links a) (has_glass a) true (has_volume a)
    (has_alpha a) (has_bump a) (has_normal_map a) (has_sss a)
    (has_displacement a) (transmission_weight a).

Definition set_has_volume (a : TreeAnalysis) : TreeAnalysis :=
  mkTreeAnalysis (nodes a) (links a) (has_glass a) (has_emission a) true
    (has_alpha a) (has_bump a) (has_normal_map a) (has_sss a)
    (has_displacement a) (transmission_weight a).

Definition set_has_alpha (a : TreeAnalysis) : TreeAnalysis :=
  mkTreeAnalysis (nodes a) (links a) (has_glass a) (has_emission a) (has_volume a)
    true (has_bump a) (has_normal_map a) (has_sss a)
    (has_displacement a) (transmission_weight a).

Definition set_has_bump (a : TreeAnalysis) : TreeAnalysis :=
  mkTreeAnalysis (nodes a) (links a) (has_glass a) (has_emission a) (has_volume a)
    (has_alpha a) true (has_normal_map a) (has_sss a)
    (has_displacement a) (transmission_weight a).

Definition set_has_normal_map (a : TreeAnalysis) : TreeAnalysis :=
  mkTreeAnalysis (nodes a) (links a) (has_glass a) (has_emission a) (has_volume a)
    (has_alpha a) (has_bump a) true (has_sss a)
    (has_displacement a) (transmission_weight a).

Definition set_has_sss (a : TreeAnalysis) : TreeAnalysis :=
  mkTreeAnalysis (nodes a) (links a) (has_glass a) (has_emission a) (has_volume a)
    (has_alpha a) (has_bump a) (has_normal_map a) true
    (has_displacement a) (transmission_weight a).

Definition set_has_displacement (a : TreeAnalysis) : TreeAnalysis :=
  mkTreeAnalysis (nodes a) (links a) (has_glass a) (has_emission a) (has_volume a)
    (has_alpha a) (has_bump a) (has_normal_map a) (has_sss a)
    true (transmission_weight a).

(** [bid in (...)] for a tuple or set of type names. *)
Definition one_of (bid : string) (names : list string) : bool :=
  bool_decide (bid ∈ names).

(** Node types that links pass through. *)
Definition _TRANSPARENT_TYPES : list string :=
  [ "ShaderNodeSeparateColor"; "ShaderNodeSeparateRGB"; "ShaderNodeSeparateXYZ";
    "ShaderNodeCombineColor"; "ShaderNodeCombineRGB"; "ShaderNodeCombineXYZ";
    "ShaderNodeNewGeometry"; "ShaderNodeLightPath" ].

(** Node attributes captured per node type. *)
Definition _PROPERTY_KEYS : dict (list string) :=
  [
    ("ShaderNodeMixRGB", ["blend_type"; "use_clamp"]);
    ("ShaderNodeMix", ["blend_type"; "data_type"; "clamp_factor"; "clamp_result"; "factor_mode"]);
    ("ShaderNodeMath", ["operation"; "use_clamp"]);
    ("ShaderNodeMapping", ["vector_type"]);
    ("ShaderNodeNormalMap", ["space"; "uv_map"]);
    ("ShaderNodeBump", ["invert"]);
    ("ShaderNodeTexImage", ["interpolation"; "projection"; "extension"]);
    ("ShaderNodeTexNoise", ["noise_dimensions"]);
    ("ShaderNodeTexVoronoi", ["voronoi_dimensions"; "feature"; "distance"]);
    ("ShaderNodeTexWave", ["wave_type"; "wave_profile"; "bands_direction"; "rings_direction"]);
    ("ShaderNodeTexMusgrave", ["musgrave_dimensions"; "musgrave_type"]);
    ("ShaderNodeTexGradient", ["gradient_type"]);
    ("ShaderNodeMapRange", ["data_type"; "interpolation_type"; "clamp"]);
    ("ShaderNodeClamp", ["clamp_type"]);
    ("ShaderNodeValToRGB", []);
    ("ShaderNodeAttribute", ["attribute_name"; "attribute_type"]);
    ("ShaderNodeUVMap", ["uv_map"]);
    ("ShaderNodeVertexColor", ["layer_name"]);
    ("ShaderNodeTexEnvironment", ["interpolation"; "projection"; "color_space"]);
    ("ShaderNodeTexMagic", ["turbulence_depth"]);
    ("ShaderNodeTexSky", ["sky_type"; "sun_direction"; "turbidity"; "ground_albedo"; "sun_dust"; "air_density"; "dust_density"; "ozone_density"]);
    ("ShaderNodeTexWhiteNoise", ["noise_dimensions"]);
    ("ShaderNodeTexGabor", ["gabor_type"]);
    ("ShaderNodeVectorMath", ["operation"]);
    ("ShaderNodeGroup", ["node_tree"])
  ].

(** [_snapshot_properties]: the captured attributes of [node], added to
    the properties gathered so far. *)
Definition _snapshot_properties (node : Node) : result (dict Value) :=
  let keys := default [] (dict_get (node_idname node) _PROPERTY_KEYS) in
  let props0 :=
    foldl (fun props key =>
             match dict_get key (node_props node) with
             | Some val => dict_set key val props
             | None => props
             end) [] keys in
  (* image texture special handling *)
  let props1 :=
    if decide (node_idname node = "ShaderNodeTexImage") then
      match node_image node with
      | Some img =>
          dict_set "colorspace" (VStr (img_colorspace img))
            (dict_set "filepath" (VStr (img_filepath img))
               (dict_set "image_name" (VStr (img_name img))
                  (dict_set "image" (VImage img) props0)))
      | None => props0
      end
    else props0 in
  (* colour ramp special handling *)
  props2 ←
    (if decide (node_idname node = "ShaderNodeValToRGB") then
       match node_color_ramp node with
       | Some cr =>
           Ok (dict_set "stops" (VStops (cr_elements cr))
                 (dict_set "color_mode" (VStr (cr_color_mode cr))
                    (dict_set "interpolation" (VStr (cr_interpolation cr)) props1)))
       | None => Raise AttributeError
       end
     else Ok props1);
  (* node group special handling *)
  if decide (node_idname node = "ShaderNodeGroup") then
    match dict_get "node_tree" (node_props node) with
    | Some (VTreeRef tree_name) =>
        Ok (dict_set "node_tree_name" (VStr tree_name) props2)
    | _ => Ok props2
    end
  else Ok props2.

(** [_snapshot_default]: the default value of a socket, [None] when the
    socket has none. *)
Definition _snapshot_default (socket : NodeSocket) : option Value :=
  sock_default socket.

(** The two dicts filled from one socket collection: identifier -> default
    and identifier -> display name. *)
Definition snapshot_sockets (sockets : list NodeSocket)
  : dict (option Value) * dict string :=
  foldl (fun acc sock =>
           (dict_set (sock_identifier sock) (_snapshot_default sock) acc.1,
            dict_set (sock_identifier sock) (sock_name sock) acc.2))
        ([], []) sockets.

(** [NodeInfo(...)] filled from [node]. *)
Definition snapshot_node (node : Node) : result NodeInfo :=
  props ← _snapshot_properties node;
  let ins := snapshot_sockets (node_inputs node) in
  let outs := snapshot_sockets (node_outputs node) in
  Ok (mkNodeInfo (node_name node) (node_idname node)
        (if decide (node_label node = "") then node_name node else node_label node)
        (node_location node) ins.1 outs.1 props ins.2 outs.2).

(** [node.inputs.get(first)], or [node.inputs.get(second)] when the first
    is missing. *)
Definition input_or (node : Node) (first second : string) : option NodeSocket :=
  match collection_find (node_inputs node) first with
  | Some (_, sock) => Some sock
  | None => snd <$> collection_find (node_inputs node) second
  end.

(** Pattern detection for a Principled BSDF: transmission, emission and
    subsurface. *)
Definition detect_principled (node : Node) (a : TreeAnalysis)
  : result TreeAnalysis :=
  a1 ←
    match input_or node "Transmission Weight" "Transmission" with
    | Some tw_input =>
        let tw := default (VNum 0) (sock_default tw_input) in
        is_glass ← value_gt tw 0.5;
        Ok (if is_glass : bool
            then set_transmission_weight (set_has_glass a)
                   (default 0%Q (as_number tw))
            else a)
    | None => Ok a
    end;
  let em_input := snd <$> collection_find (node_inputs node) "Emission Color" in
  let em_str := snd <$> collection_find (node_inputs node) "Emission Strength" in
  a2 ←
    match em_input with
    | Some em_input =>
        match sock_default em_input with
        | Some em_col =>
            emits ← any_positive3 em_col;
            Ok (if emits : bool then set_has_emission a1 else a1)
        | None => Ok a1
        end
    | None => Ok a1
    end;
  match input_or node "Subsurface Weight" "Subsurface" with
  | Some ss_input =>
      has ← value_gt (default (VNum 0) (sock_default ss_input)) 0;
      Ok (if has : bool then set_has_sss a2 else a2)
  | None => Ok a2
  end.

(** Pattern detection, run for every snapshotted node. *)
Definition detect_patterns (node : Node) (a : TreeAnalysis) : result TreeAnalysis :=
  let bid := node_idname node in
  let a := if decide (bid = "ShaderNodeBsdfGlass") then set_has_glass a else a in
  a ← (if decide (bid = "ShaderNodeBsdfPrincipled")
       then detect_principled node a else Ok a);
  let a := if decide (bid = "ShaderNodeEmission") then set_has_emission a else a in
  let a := if decide (bid = "ShaderNodeBlackbody") then set_has_emission a else a in
  let a := if one_of bid ["ShaderNodeVolumeAbsorption"; "ShaderNodeVolumeScatter";
                          "ShaderNodeVolumePrincipled"]
           then set_has_volume a else a in
  let a := if decide (bid = "ShaderNodeBump") then set_has_bump a else a in
  let a := if decide (bid = "ShaderNodeNormalMap") then set_has_normal_map a else a in
  let a := if one_of bid ["ShaderNodeDisplacement"; "ShaderNodeVectorDisplacement"]
           then set_has_displacement a else a in
  let a := if decide (bid = "ShaderNodeSubsurfaceScattering")
           then set_has_sss a else a in
  Ok a.

(** One turn of the node loop of [analyze_tree]. *)
Definition analyze_node (a : TreeAnalysis) (node : Node) : result TreeAnalysis :=
  let bid := node_idname node in
  if decide (bid = "NodeFrame") then Ok a
  else if decide (bid = "NodeReroute") then Ok a
  else if one_of bid _TRANSPARENT_TYPES then Ok a
  else
    info ← snapshot_node node;
    detect_patterns node (with_nodes a (dict_set (node_name node) info (nodes a))).

(** The node loop of [analyze_tree]. *)
Definition analyze_nodes (node_tree : NodeTree) : result TreeAnalysis :=
  fold_result analyze_node empty_analysis (tree_nodes node_tree).

(** [link.from_node] / [link.to_node]: the node a link names. *)
Definition link_node (tree : NodeTree) (n : string) : result Node :=
  match tree_node tree n with
  | Some node => Ok node
  | None => Raise KeyError
  end.

(** The statements after the loop of [_trace_reroute_output] (or of
    [_trace_reroute_input], with the sockets of the other side). *)
Definition trace_reroute_exit (current : Node) (sockets : list NodeSocket)
  : result (Node * option nat) :=
  if decide (node_idname current = "NodeReroute") then
    match sockets with
    | [] => Raise IndexError
    | _ :: _ => Ok (current, Some 0)
    end
  else
    Ok (current, match sockets with [] => None | _ :: _ => Some 0 end).

(** The loop of [_trace_reroute_output].  Every turn adds a new name to
    [visited], so that [fuel] = number of nodes + 1 is never used up. *)
Fixpoint trace_reroute_output_loop (fuel : nat) (tree : NodeTree)
    (visited : gset string) (current : Node) : result (Node * option nat) :=
  match fuel with
  | O => Raise RuntimeError
  | S fuel' =>
      if decide (node_idname current = "NodeReroute" ∧
                 node_name current ∉ visited) then
        let visited := {[node_name current]} ∪ visited in
        match node_inputs current, links_into tree (node_name current) 0 with
        | _ :: _, link :: _ =>
            current ← link_node tree (link_from_node link);
            if decide (node_idname current ≠ "NodeReroute")
            then Ok (current, Some (link_from_socket link))
            else trace_reroute_output_loop fuel' tree visited current
        | _, _ => trace_reroute_exit current (node_outputs current)
        end
      else trace_reroute_exit current (node_outputs current)
  end.

(** [_trace_reroute_output]: follow a reroute chain backwards to the real
    source node and socket. *)
Definition _trace_reroute_output (tree : NodeTree) (node : Node)
  : result (Node * option nat) :=
  trace_reroute_output_loop (S (length (tree_nodes tree))) tree ∅ node.

(** The loop of [_trace_reroute_input]. *)
Fixpoint trace_reroute_input_loop (fuel : nat) (tree : NodeTree)
    (visited : gset string) (current : Node) : result (Node * option nat) :=
  match fuel with
  | O => Raise RuntimeError
  | S fuel' =>
      if decide (node_idname current = "NodeReroute" ∧
                 node_name current ∉ visited) then
        let visited := {[node_name current]} ∪ visited in
        match node_outputs current, links_out_of tree (node_name current) 0 with
        | _ :: _, link :: _ =>
            current ← link_node tree (link_to_node link);
            if decide (node_idname current ≠ "NodeReroute")
            then Ok (current, Some (link_to_socket link))
            else trace_reroute_input_loop fuel' tree visited current
        | _, _ => trace_reroute_exit current (node_inputs current)
        end
      else trace_reroute_exit current (node_inputs current)
  end.

(** [_trace_reroute_input]: follow a reroute chain forward to the real
    destination node and socket. *)
Definition _trace_reroute_input (tree : NodeTree) (node : Node)
  : result (Node * option nat) :=
  trace_reroute_input_loop (S (length (tree_nodes tree))) tree ∅ node.

(** The first connected input of [node]: [for inp in node.inputs: if
    inp.links: link = inp.links[0]]. *)
Definition first_connected_input (tree : NodeTree) (node : Node) : option NodeLink :=
  (fix go (i : nat) (socks : list NodeSocket) : option NodeLink :=
     match socks with
     | [] => None
     | _ :: socks' =>
         match links_into tree (node_name node) i with
         | link :: _ => Some link
         | [] => go (S i) socks'
         end
     end) 0 (node_inputs node).

(** [_trace_transparent_source]: trace backward through a transparent node.
    [fuel] bounds the recursion depth; Python gives up with
    [RecursionError] on a cycle of transparent nodes. *)
Fixpoint _trace_transparent_source (fuel : nat) (tree : NodeTree) (node : Node)
  : result (option (Node * option nat)) :=
  match fuel with
  | O => Raise RecursionError
  | S fuel' =>
      match first_connected_input tree node with
      | Some link =>
          source_node ← link_node tree (link_from_node link);
          if decide (node_idname source_node = "NodeReroute")
          then Some <$> _trace_reroute_output tree source_node
          else if one_of (node_idname source_node) _TRANSPARENT_TYPES
          then _trace_transparent_source fuel' tree source_node
          else Ok (Some (source_node, Some (link_from_socket link)))
      | None => Ok None
      end
  end.

(** Python's default recursion limit. *)
Definition recursion_limit : nat := 1000.

(** The running state of the link loop: the analysis and [seen_links]. *)
Definition link_state : Type :=
  TreeAnalysis * gset (string * string * string * string).

(** [socket.name] and [socket.identifier] of a socket given by position;
    [None] for the position is Python's [None] for the socket. *)
Definition socket_at (sockets : list NodeSocket) (i : option nat)
  : result NodeSocket :=
  match i ≫= (sockets !!.) with
  | Some sock => Ok sock
  | None => Raise AttributeError
  end.

(** One turn of the link loop of [analyze_tree]; [Ok st] unchanged is
    [continue]. *)
Definition analyze_link (tree : NodeTree) (st : link_state) (link : NodeLink)
  : result link_state :=
  let '(analysis, seen_links) := st in
  from_node ← link_node tree (link_from_node link);
  to_node ← link_node tree (link_to_node link);
  let from_socket := Some (link_from_socket link) in
  let to_socket := Some (link_to_socket link) in
  (* flatten transparent source nodes *)
  traced ←
    (if one_of (node_idname from_node) _TRANSPARENT_TYPES
     then _trace_transparent_source recursion_limit tree from_node
     else Ok (Some (from_node, from_socket)));
  match traced with
  | None => Ok st   (* dead end: no upstream connection *)
  | Some (from_node, from_socket) =>
      (* skip links to transparent nodes *)
      if one_of (node_idname to_node) _TRANSPARENT_TYPES then Ok st else
      (* resolve reroutes on the source side; [None] is [continue] *)
      source ←
        (if decide (node_idname from_node = "NodeReroute")
         then traced ← _trace_reroute_output tree from_node;
              Ok (if decide (traced.2 = None) then None else Some traced)
         else Ok (Some (from_node, from_socket)));
      match source with None => Ok st | Some (from_node, from_socket) =>
      (* resolve reroutes on the destination side; [None] is [continue] *)
      destination ←
        (if decide (node_idname to_node = "NodeReroute")
         then traced ← _trace_reroute_input tree to_node;
              Ok (if decide (traced.2 = None) then None else Some traced)
         else Ok (Some (to_node, to_socket)));
      match destination with None => Ok st | Some (to_node, to_socket) =>
      (* skip if still reroute or transparent (broken chain) *)
      if one_of (node_idname from_node) ("NodeReroute" :: _TRANSPARENT_TYPES)
      then Ok st else
      if one_of (node_idname to_node) ("NodeReroute" :: _TRANSPARENT_TYPES)
      then Ok st else
      from_sock ← socket_at (node_outputs from_node) from_socket;
      to_sock ← socket_at (node_inputs to_node) to_socket;
      let from_sock_id := sock_identifier from_sock in
      let to_sock_id := sock_identifier to_sock in
      let to_sock_index := Z.of_nat (default 0 to_socket) in
      (* deduplicate flattened links *)
      let link_key :=
        (node_name from_node, from_sock_id, node_name to_node, to_sock_id) in
      if decide (link_key ∈ seen_links) then Ok st else
      let analysis :=
        with_links analysis
          (links analysis ++
           [mkLinkInfo (node_name from_node) (sock_name from_sock)
              (node_name to_node) (sock_name to_sock)
              from_sock_id to_sock_id to_sock_index]) in
      (* alpha detection: image texture alpha output used *)
      let analysis :=
        if decide (node_idname from_node = "ShaderNodeTexImage" ∧
                   sock_name from_sock = "Alpha")
        then set_has_alpha analysis else analysis in
      Ok (analysis, {[link_key]} ∪ seen_links)
      end end
  end.

(** [analyze_tree]: walk a Cycles node tree and return its analysis. *)
Definition analyze_tree (node_tree : NodeTree) : result TreeAnalysis :=
  analysis ← analyze_nodes node_tree;
  fst <$> fold_result (analyze_link node_tree) (analysis, ∅) (tree_links node_tree).

End ShaderDetection.

(* ===================================================================== *)
(** * core/graph_engine.py : GraphEngine *)
(* ===================================================================== *)

Module GraphEngine.
Import Py ShaderDetection.

(** [self._deps.setdefault(k, set())] *)
Definition setdefault (k : string) (deps : gmap string (gset string))
  : gmap string (gset string) :=
  match deps !! k with
  | Some _ => deps
  | None => <[k := ∅]> deps
  end.

(** [self._deps.setdefault(k, set()).add(x)] *)
Definition setdefault_add (k x : string) (deps : gmap string (gset string))
  : gmap string (gset string) :=
  <[k := {[x]} ∪ default ∅ (deps !! k)]> deps.

(** [_build_dependency_graph]: node name -> set of upstream node names. *)
Definition _build_dependency_graph (analysis : TreeAnalysis)
  : gmap string (gset string) :=
  let deps0 :=
    foldl (fun deps node_name => setdefault node_name deps)
          ∅ (dict_keys (nodes analysis)) in
  foldl (fun deps link =>
           setdefault (from_node link)
             (setdefault_add (to_node link) (from_node link) deps))
        deps0 (links analysis).

(** The parameters of [GraphEngine.__init__] besides [self]. *)
Definition init_parameters : list string := ["analysis"].

(** A constructed engine. *)
Record Engine : Type := mkEngine {
  engine_analysis : TreeAnalysis;
  engine_deps : gmap string (gset string);
}.

(** [GraphEngine(analysis, kw1=..., kw2=...)]: a keyword that is not a
    parameter of [__init__] is a [TypeError]. *)
Definition new (analysis : TreeAnalysis) (keywords : list string) : result Engine :=
  if decide (Forall (fun kw => kw ∈ init_parameters ∧ kw ≠ "analysis") keywords)
  then Ok (mkEngine analysis (_build_dependency_graph analysis))
  else Raise TypeError.

(** The mutable part of the engine: [_visited] and [_schedule]. *)
Record VisitState : Type := mkVisitState {
  _visited : gset string;
  _schedule : list string;
}.

Section Traversal.
(** [_deps], and the order in which Python happens to iterate over the
    dependency set stored under a given key. *)
Variable _deps : gmap string (gset string).
Variable set_iter : string -> gset string -> list string.

(** [self._deps.get(node_name, set())] *)
Definition deps_get (node_name : string) : gset string :=
  default ∅ (_deps !! node_name).

(** [for x in xs: self._visit(x)] for an already chosen visiting function. *)
Fixpoint visit_each (visit : string -> VisitState -> option VisitState)
    (xs : list string) (st : VisitState) : option VisitState :=
  match xs with
  | [] => Some st
  | x :: xs' =>
      match visit x st with
      | Some st' => visit_each visit xs' st'
      | None => None
      end
  end.

(** [_visit]: recursive depth-first visit.  [fuel] bounds the recursion
    depth; [None] means the bound was hit. *)
Fixpoint _visit (fuel : nat) (node_name : string) (st : VisitState)
  : option VisitState :=
  match fuel with
  | O => None
  | S fuel' =>
      if decide (node_name ∈ _visited st) then Some st
      else
        let st1 := mkVisitState ({[node_name]} ∪ _visited st) (_schedule st) in
        match visit_each (_visit fuel')
                (set_iter node_name (deps_get node_name)) st1 with
        | Some st2 =>
            Some (mkVisitState (_visited st2) (_schedule st2 ++ [node_name]))
        | None => None
        end
  end.

(** [d] is an upstream dependency of [n]. *)
Definition upstream (d n : string) : Prop := d ∈ deps_get n.

(** Nodes that are visited but not yet scheduled (the recursion stack). *)
Definition in_progress (st : VisitState) (x : string) : Prop :=
  x ∈ _visited st ∧ x ∉ _schedule st.

(** [d] occurs in [l] strictly before an occurrence of [x]. *)
Definition before (l : list string) (d x : string) : Prop :=
  ∃ l1 l2, l = l1 ++ x :: l2 ∧ d ∈ l1.

(** What holds of the engine's state between two calls of [_visit]. *)
Record visit_inv (st : VisitState) : Prop := mk_visit_inv {
  inv_nodup : NoDup (_schedule st);
  inv_visited : ∀ x, x ∈ _schedule st → x ∈ _visited st;
  inv_closed : ∀ x d, x ∈ _schedule st → upstream d x → before (_schedule st) d x;
}.

(** What one call of [_visit] (or one loop of them) does to the state. *)
Record visit_post (st st' : VisitState) : Prop := mk_visit_post {
  post_inv : visit_inv st';
  post_extends : ∃ new, _schedule st' = _schedule st ++ new;
  post_visited : _visited st ⊆ _visited st';
  post_progress : ∀ x, in_progress st' x ↔ in_progress st x;
}.
End Traversal.

(** The output node(s) from which the traversal starts. *)
Definition output_nodes (analysis : TreeAnalysis) : list string :=
  (filter (fun kv => bl_idname kv.2 = "ShaderNodeOutputMaterial")
          (nodes analysis)).*1.

(** [compute_schedule]: the schedule, leaves first and output last.  The
    recursion depth never exceeds the number of keys of [_deps], so one
    more than that is given as fuel. *)
Definition compute_schedule
    (set_iter : string -> gset string -> list string)
    (analysis : TreeAnalysis) : option (list string) :=
  let deps := _build_dependency_graph analysis in
  let fuel := S (size (dom deps)) in
  let start :=
    match output_nodes analysis with
    | [] => dict_keys (nodes analysis)   (* fallback: traverse all nodes *)
    | out_names => out_names
    end in
  _schedule <$> visit_each (_visit deps set_iter fuel) start (mkVisitState ∅ []).

(** The dependency relation of the flattened links: [d] is the source node
    of a link into [n]. *)
Definition link_edge (analysis : TreeAnalysis) (d n : string) : Prop :=
  ∃ l, l ∈ links analysis ∧ from_node l = d ∧ to_node l = n.

(** No node is, through one or more links, upstream of itself. *)
Definition acyclic (analysis : TreeAnalysis) : Prop :=
  ∀ n, ¬ tc (link_edge analysis) n n.

(** A checkable certificate of acyclicity: a rank growing along every link. *)
Definition rank_increases (rank : string -> nat) (analysis : TreeAnalysis) : bool :=
  forallb (fun l => rank (from_node l) <? rank (to_node l)) (links analysis).

(** Python iterates a set in some order over exactly its elements. *)
Definition iterates_sets (set_iter : string -> gset string -> list string) : Prop :=
  ∀ k s, set_iter k s ≡ₚ elements s.

End GraphEngine.


(* ===================================================================== *)
(** * core/node_registry.py : socket tables and socket resolution *)
(* ===================================================================== *)

Module NodeRegistry.
Import Py PyStr Bpy.

(** [INPUT_MAP]: Cycles bl_idname -> Cycles socket name -> Octane candidates. *)
Definition INPUT_MAP : dict (dict (list string)) :=
  [
    ("ShaderNodeBsdfPrincipled",
      [ ("Base Color", ["Albedo color"; "Albedo"; "Diffuse"]);
        ("Metallic", ["Metallic"; "Metallic float"]);
        ("Roughness", ["Roughness"; "Roughness float"]);
        ("Diffuse Roughness", ["Roughness"; "Roughness float"; "Diffuse roughness"]);
        ("Specular IOR Level", ["Specular"; "Specular float"]);
        ("Specular Tint", ["Specular tint"; "Specular map"; "Specular color"]);
        ("IOR", ["Dielectric IOR"; "Index"; "IOR"]);
        ("Transmission Weight", ["Transmission"; "Transmission float"]);
        ("Alpha", ["Opacity"; "Opacity float"]);
        ("Normal", ["Normal"; "Bump"; "ShaderNormal"]);
        ("Tangent", ["Anisotropy rotation"; "Rotation"]);
        ("Coat Weight", ["Coating"; "Coating float"]);
        ("Coat Roughness", ["Coating roughness"; "Coating roughness float"]);
        ("Coat Normal", ["Coating normal"; "Coating bump"]);
        ("Coat IOR", ["Coating IOR"]);
        ("Coat Tint", ["Coating"; "Coating color"]);
        ("Sheen Weight", ["Sheen"; "Sheen float"]);
        ("Sheen Roughness", ["Sheen roughness"; "Sheen roughness float"]);
        ("Sheen Tint", ["Sheen"; "Sheen color"; "Sheen tint"]);
        ("Emission Color", ["Emission"; "Emission color"]);
        ("Emission Strength", ["Emission power"; "Emission weight"]);
        ("Subsurface Weight", ["SSS"; "Subsurface"]);
        ("Subsurface Radius", ["Absorption"; "Medium radius"]);
        ("Subsurface Scale", ["Density"; "Medium scale"]);
        ("Subsurface IOR", ["Index"; "IOR"]);
        ("Subsurface Anisotropy", ["Anisotropy"; "Subsurface anisotropy"]);
        ("Anisotropic", ["Anisotropy"; "Anisotropy float"]);
        ("Anisotropic Rotation", ["Anisotropy rotation"; "Rotation"]);
        ("Thin Film Thickness", ["Film width"; "Thin film thickness"]);
        ("Thin Film IOR", ["Film IOR"; "Thin film IOR"]) ]);
    ("ShaderNodeBsdfGlass",
      [ ("Color", ["Reflection"; "Specular"; "Albedo color"]);
        ("Roughness", ["Roughness"; "Roughness float"]);
        ("IOR", ["Index"; "IOR"; "Dielectric IOR"]);
        ("Normal", ["Normal"; "Bump"]) ]);
    ("ShaderNodeBsdfGlossy",
      [ ("Color", ["Specular"; "Reflection"; "Albedo color"]);
        ("Roughness", ["Roughness"; "Roughness float"]);
        ("Normal", ["Normal"; "Bump"]) ]);
    ("ShaderNodeBsdfDiffuse",
      [ ("Color", ["Diffuse"; "Albedo color"; "Albedo"]);
        ("Roughness", ["Roughness"; "Roughness float"]);
        ("Normal", ["Normal"; "Bump"]) ]);
    ("ShaderNodeEmission",
      [ ("Color", ["Diffuse"; "Emission"; "Albedo color"]);
        ("Strength", ["Emission power"; "Power"]) ]);
    ("ShaderNodeBsdfTranslucent",
      [ ("Color", ["Diffuse"; "Albedo color"; "Albedo"]);
        ("Normal", ["Normal"; "Bump"]) ]);
    ("ShaderNodeBsdfRefraction",
      [ ("Color", ["Reflection"; "Specular"; "Albedo color"]);
        ("Roughness", ["Roughness"; "Roughness float"]);
        ("IOR", ["Index"; "IOR"; "Dielectric IOR"]);
        ("Normal", ["Normal"; "Bump"]) ]);
    ("ShaderNodeMixShader",
      [ ("Fac", ["Amount"; "Factor"]);
        ("Shader", ["Material1"; "Shader1"]);
        ("Shader_001", ["Material2"; "Shader2"]) ]);
    ("ShaderNodeAddShader",
      [ ("Shader", ["Material1"; "Shader1"]);
        ("Shader_001", ["Material2"; "Shader2"]) ]);
    ("ShaderNodeTexImage",
      [ ("Vector", ["Transform"; "Projection"; "UV"; "UVTransform"]) ]);
    ("ShaderNodeTexNoise",
      [ ("Vector", ["Transform"; "UVTransform"]);
        ("Scale", ["Omega"; "W"; "Scale"]);
        ("Detail", ["Octaves"; "Detail"]);
        ("Roughness", ["Lacunarity"; "Roughness"]);
        ("Distortion", ["Distortion"]) ]);
    ("ShaderNodeTexVoronoi",
      [ ("Vector", ["Transform"; "UVTransform"]);
        ("Scale", ["Scale"]);
        ("Randomness", ["Randomness"]) ]);
    ("ShaderNodeTexWave",
      [ ("Vector", ["Transform"; "UVTransform"]);
        ("Scale", ["Scale"]) ]);
    ("ShaderNodeTexMusgrave",
      [ ("Vector", ["Transform"; "UVTransform"]);
        ("Scale", ["Omega"; "W"; "Scale"]);
        ("Detail", ["Octaves"; "Detail"]) ]);
    ("ShaderNodeTexChecker",
      [ ("Vector", ["Transform"; "UVTransform"]);
        ("Color1", ["Color1"; "Checks color 1"]);
        ("Color2", ["Color2"; "Checks color 2"]);
        ("Scale", ["Scale"]) ]);
    ("ShaderNodeTexGradient",
      [ ("Vector", ["Transform"; "UVTransform"]) ]);
    ("ShaderNodeMapping",
      [ ("Vector", ["Input"; "Coordinates"]) ]);
    ("ShaderNodeNormalMap",
      [ ("Color", ["Texture"; "Input"; "Normal"]);
        ("Strength", ["Strength"; "Bump strength"]) ]);
    ("ShaderNodeBump",
      [ ("Strength", ["Strength"; "Height"]);
        ("Height", ["Texture"; "Input"]);
        ("Normal", ["Normal"; "Input normal"]) ]);
    ("ShaderNodeDisplacement",
      [ ("Height", ["Texture"; "Input"]);
        ("Scale", ["Amount"; "Height"]);
        ("Normal", ["Normal"]) ]);
    ("ShaderNodeMixRGB",
      [ ("Fac", ["Amount"; "Factor"]);
        ("Color1", ["Texture1"; "Color1"; "Input1"]);
        ("Color2", ["Texture2"; "Color2"; "Input2"]) ]);
    ("ShaderNodeMix",
      [ ("Factor", ["Amount"; "Factor"]);
        ("A", ["Texture1"; "Color1"; "Input1"]);
        ("B", ["Texture2"; "Color2"; "Input2"]) ]);
    ("ShaderNodeInvert",
      [ ("Fac", ["Amount"; "Factor"]);
        ("Color", ["Texture"; "Input"]) ]);
    ("ShaderNodeHueSaturation",
      [ ("Hue", ["Hue"; "HueShift"]);
        ("Saturation", ["Saturation"]);
        ("Value", ["Brightness"; "Value"]);
        ("Fac", ["Amount"; "Factor"]);
        ("Color", ["Texture"; "Input"]) ]);
    ("ShaderNodeBrightContrast",
      [ ("Color", ["Texture"; "Input"]);
        ("Bright", ["Brightness"]);
        ("Contrast", ["Contrast"]) ]);
    ("ShaderNodeGamma",
      [ ("Color", ["Texture"; "Input"]);
        ("Gamma", ["Gamma"; "Power"]) ]);
    ("ShaderNodeRGBCurves",
      [ ("Color", ["Texture"; "Input"]);
        ("Fac", ["Amount"; "Factor"]) ]);
    ("ShaderNodeMath",
      [ ("Value", ["Input1"; "Value1"; "Value 1"; "Input"; "Value"; "A"]);
        ("Value_001", ["Input2"; "Value2"; "Value 2"; "Value2"; "B"]) ]);
    ("ShaderNodeMapRange",
      [ ("Value", ["Input"; "Value"]);
        ("From Min", ["Input min"; "FromMin"]);
        ("From Max", ["Input max"; "FromMax"]);
        ("To Min", ["Output min"; "ToMin"]);
        ("To Max", ["Output max"; "ToMax"]) ]);
    ("ShaderNodeClamp",
      [ ("Value", ["Input"; "Value"]);
        ("Min", ["Minimum"; "Min"]);
        ("Max", ["Maximum"; "Max"]) ]);
    ("ShaderNodeFresnel",
      [ ("IOR", ["IOR"; "Index"]);
        ("Normal", ["Normal"]) ]);
    ("ShaderNodeLayerWeight",
      [ ("Blend", ["IOR"; "Index"; "Power"]);
        ("Normal", ["Normal"]) ]);
    ("ShaderNodeAmbientOcclusion",
      [ ("Color", ["Inclination color"; "Bright color"; "Color"]);
        ("Distance", ["Radius"; "Distance"]);
        ("Normal", ["Normal"]) ]);
    ("ShaderNodeVolumeAbsorption",
      [ ("Color", ["Absorption"; "Color"]);
        ("Density", ["Density"; "Density float"]) ]);
    ("ShaderNodeVolumeScatter",
      [ ("Color", ["Scattering"; "Color"]);
        ("Density", ["Density"; "Density float"]);
        ("Anisotropy", ["Phase"; "Anisotropy"]) ]);
    ("ShaderNodeValToRGB",
      [ ("Fac", ["Input"; "Value"; "Amount"]) ]);
    ("ShaderNodeOutputMaterial",
      [ ("Surface", ["Surface"; "Shader"; "Material"]);
        ("Volume", ["Volume"; "Medium"]);
        ("Displacement", ["Displacement"; "Height"]) ]);
    ("ShaderNodeBsdfMetallic",
      [ ("Base Color", ["Albedo color"; "Albedo"; "Diffuse"]);
        ("Edge Tint", ["Specular"; "Specular color"; "Specular map"]);
        ("Roughness", ["Roughness"; "Roughness float"]);
        ("Anisotropy", ["Anisotropy"; "Anisotropy float"]);
        ("Rotation", ["Anisotropy rotation"; "Rotation"]);
        ("Normal", ["Normal"; "Bump"; "ShaderNormal"]);
        ("Tangent", ["Anisotropy rotation"; "Rotation"]) ]);
    ("ShaderNodeBsdfSheen",
      [ ("Color", ["Albedo color"; "Albedo"; "Diffuse"]);
        ("Roughness", ["Roughness"; "Roughness float"]);
        ("Normal", ["Normal"; "Bump"; "ShaderNormal"]) ]);
    ("ShaderNodeBsdfToon",
      [ ("Color", ["Albedo color"; "Albedo"; "Diffuse"]);
        ("Size", ["Roughness"; "Roughness float"]);
        ("Smooth", ["Roughness"; "Roughness float"]);
        ("Normal", ["Normal"; "Bump"; "ShaderNormal"]) ]);
    ("ShaderNodeSubsurfaceScattering",
      [ ("Color", ["Albedo color"; "Albedo"; "Diffuse"; "Absorption"]);
        ("Scale", ["Density"; "Medium scale"]);
        ("Radius", ["Absorption"; "Medium radius"]);
        ("IOR", ["Index"; "IOR"]);
        ("Roughness", ["Roughness"; "Roughness float"]);
        ("Anisotropy", ["Anisotropy"; "Anisotropy float"]);
        ("Normal", ["Normal"; "Bump"; "ShaderNormal"]) ]);
    ("ShaderNodeBackground",
      [ ("Color", ["Diffuse"; "Emission"; "Albedo color"]);
        ("Strength", ["Emission power"; "Power"]) ]);
    ("ShaderNodeTexEnvironment",
      [ ("Vector", ["Transform"; "Projection"; "UV"; "UVTransform"]) ]);
    ("ShaderNodeVectorMath",
      [ ("Vector", ["Texture1"; "Color1"; "Input1"; "A"]);
        ("Vector_001", ["Texture2"; "Color2"; "Input2"; "B"]);
        ("Scale", ["Amount"; "Factor"; "Value2"; "B"]) ]);
    ("ShaderNodeBlackbody",
      [ ("Temperature", ["Temperature"]) ]);
    ("ShaderNodeVolumePrincipled",
      [ ("Color", ["Absorption"; "Color"]);
        ("Density", ["Density"; "Density float"]);
        ("Anisotropy", ["Phase"; "Anisotropy"]);
        ("Emission Color", ["Emission"; "Emission color"]);
        ("Emission Strength", ["Emission power"; "Power"]) ])
  ].

(** [OUTPUT_MAP]: the same for output sockets. *)
Definition OUTPUT_MAP : dict (dict (list string)) :=
  [
    ("ShaderNodeBsdfPrincipled",
      [ ("BSDF", ["OutMat"; "Material out"; "Output"]) ]);
    ("ShaderNodeBsdfGlass",
      [ ("BSDF", ["OutMat"; "Material out"; "Output"]) ]);
    ("ShaderNodeBsdfGlossy",
      [ ("BSDF", ["OutMat"; "Material out"; "Output"]) ]);
    ("ShaderNodeBsdfDiffuse",
      [ ("BSDF", ["OutMat"; "Material out"; "Output"]) ]);
    ("ShaderNodeEmission",
      [ ("Emission", ["OutMat"; "Material out"; "Output"]) ]);
    ("ShaderNodeBsdfTransparent",
      [ ("BSDF", ["OutMat"; "Material out"; "Output"]) ]);
    ("ShaderNodeBsdfTranslucent",
      [ ("BSDF", ["OutMat"; "Material out"; "Output"]) ]);
    ("ShaderNodeBsdfRefraction",
      [ ("BSDF", ["OutMat"; "Material out"; "Output"]) ]);
    ("ShaderNodeMixShader",
      [ ("Shader", ["OutMat"; "Material out"; "Output"]) ]);
    ("ShaderNodeAddShader",
      [ ("Shader", ["OutMat"; "Material out"; "Output"]) ]);
    ("ShaderNodeTexImage",
      [ ("Color", ["OutTex"; "Texture out"; "Output"]);
        ("Alpha", ["Alpha"; "OutTex"; "Output"]) ]);
    ("ShaderNodeTexNoise",
      [ ("Fac", ["OutTex"; "Texture out"; "Output"]);
        ("Color", ["OutTex"; "Texture out"; "Output"]) ]);
    ("ShaderNodeTexVoronoi",
      [ ("Distance", ["OutTex"; "Texture out"; "Output"]);
        ("Color", ["OutTex"; "Texture out"; "Output"]) ]);
    ("ShaderNodeTexWave",
      [ ("Fac", ["OutTex"; "Texture out"; "Output"]);
        ("Color", ["OutTex"; "Texture out"; "Output"]) ]);
    ("ShaderNodeTexMusgrave",
      [ ("Fac", ["OutTex"; "Texture out"; "Output"]) ]);
    ("ShaderNodeTexChecker",
      [ ("Color", ["OutTex"; "Texture out"; "Output"]);
        ("Fac", ["OutTex"; "Texture out"; "Output"]) ]);
    ("ShaderNodeTexGradient",
      [ ("Color", ["OutTex"; "Texture out"; "Output"]);
        ("Fac", ["OutTex"; "Texture out"; "Output"]) ]);
    ("ShaderNodeValToRGB",
      [ ("Color", ["OutTex"; "Texture out"; "Output"]);
        ("Alpha", ["OutTex"; "Texture out"; "Output"]) ]);
    ("ShaderNodeMixRGB",
      [ ("Color", ["OutTex"; "Texture out"; "Output"]) ]);
    ("ShaderNodeMix",
      [ ("Result", ["OutTex"; "Texture out"; "Output"]) ]);
    ("ShaderNodeInvert",
      [ ("Color", ["OutTex"; "Texture out"; "Output"]) ]);
    ("ShaderNodeHueSaturation",
      [ ("Color", ["OutTex"; "Texture out"; "Output"]) ]);
    ("ShaderNodeBrightContrast",
      [ ("Color", ["OutTex"; "Texture out"; "Output"]) ]);
    ("ShaderNodeGamma",
      [ ("Color", ["OutTex"; "Texture out"; "Output"]) ]);
    ("ShaderNodeRGBCurves",
      [ ("Color", ["OutTex"; "Texture out"; "Output"]) ]);
    ("ShaderNodeMath",
      [ ("Value", ["OutTex"; "Texture out"; "Output"; "Value"; "Result"]) ]);
    ("ShaderNodeMapRange",
      [ ("Result", ["OutTex"; "Texture out"; "Output"]) ]);
    ("ShaderNodeClamp",
      [ ("Result", ["OutTex"; "Texture out"; "Output"]) ]);
    ("ShaderNodeMapping",
      [ ("Vector", ["OutTransform"; "Transform out"; "Output"]) ]);
    ("ShaderNodeTexCoord",
      [ ("UV", ["OutProjection"; "Projection out"; "Output"]);
        ("Object", ["OutProjection"; "Projection out"; "Output"]);
        ("Camera", ["OutProjection"; "Projection out"; "Output"]);
        ("Window", ["OutProjection"; "Projection out"; "Output"]);
        ("Normal", ["OutProjection"; "Projection out"; "Output"]);
        ("Reflection", ["OutProjection"; "Projection out"; "Output"]);
        ("Generated", ["OutProjection"; "Projection out"; "Output"]) ]);
    ("ShaderNodeUVMap",
      [ ("UV", ["OutProjection"; "Projection out"; "Output"]) ]);
    ("ShaderNodeNormalMap",
      [ ("Normal", ["OutTex"; "Texture out"; "Normal"; "Output"]) ]);
    ("ShaderNodeBump",
      [ ("Normal", ["OutTex"; "Texture out"; "Normal"; "Output"]) ]);
    ("ShaderNodeDisplacement",
      [ ("Displacement", ["OutTex"; "Texture out"; "Output"]) ]);
    ("ShaderNodeVectorDisplacement",
      [ ("Displacement", ["OutTex"; "Texture out"; "Output"]) ]);
    ("ShaderNodeRGB",
      [ ("Color", ["OutTex"; "Texture out"; "Output"]) ]);
    ("ShaderNodeValue",
      [ ("Value", ["OutTex"; "Texture out"; "Output"; "Value"]) ]);
    ("ShaderNodeFresnel",
      [ ("Fac", ["OutTex"; "Texture out"; "Output"]) ]);
    ("ShaderNodeLayerWeight",
      [ ("Fresnel", ["OutTex"; "Texture out"; "Output"]);
        ("Facing", ["OutTex"; "Texture out"; "Output"]) ]);
    ("ShaderNodeVertexColor",
      [ ("Color", ["OutTex"; "Texture out"; "Output"]);
        ("Alpha", ["OutTex"; "Texture out"; "Output"]) ]);
    ("ShaderNodeAttribute",
      [ ("Color", ["OutTex"; "Texture out"; "Output"]);
        ("Fac", ["OutTex"; "Texture out"; "Output"]);
        ("Vector", ["OutTex"; "Texture out"; "Output"]) ]);
    ("ShaderNodeAmbientOcclusion",
      [ ("Color", ["OutTex"; "Texture out"; "Output"]);
        ("AO", ["OutTex"; "Texture out"; "Output"]) ]);
    ("ShaderNodeVolumeAbsorption",
      [ ("Volume", ["OutMedium"; "Medium out"; "Output"]) ]);
    ("ShaderNodeVolumeScatter",
      [ ("Volume", ["OutMedium"; "Medium out"; "Output"]) ]);
    ("ShaderNodeBsdfMetallic",
      [ ("BSDF", ["OutMat"; "Material out"; "Output"]) ]);
    ("ShaderNodeBsdfSheen",
      [ ("BSDF", ["OutMat"; "Material out"; "Output"]) ]);
    ("ShaderNodeBsdfToon",
      [ ("BSDF", ["OutMat"; "Material out"; "Output"]) ]);
    ("ShaderNodeBsdfHair",
      [ ("BSDF", ["OutMat"; "Material out"; "Output"]) ]);
    ("ShaderNodeBsdfHairPrincipled",
      [ ("BSDF", ["OutMat"; "Material out"; "Output"]) ]);
    ("ShaderNodeBsdfRayPortal",
      [ ("BSDF", ["OutMat"; "Material out"; "Output"]) ]);
    ("ShaderNodeSubsurfaceScattering",
      [ ("BSSRDF", ["OutMat"; "Material out"; "Output"]) ]);
    ("ShaderNodeBackground",
      [ ("Background", ["OutMat"; "Material out"; "Output"; "Emission"]) ]);
    ("ShaderNodeHoldout",
      [ ("Holdout", ["OutMat"; "Material out"; "Output"]) ]);
    ("ShaderNodeTexEnvironment",
      [ ("Color", ["OutTex"; "Texture out"; "Output"]) ]);
    ("ShaderNodeVectorMath",
      [ ("Vector", ["OutTex"; "Texture out"; "Output"; "Value"]);
        ("Value", ["OutTex"; "Texture out"; "Output"; "Value"]) ]);
    ("ShaderNodeBlackbody",
      [ ("Color", ["OutTex"; "Texture out"; "Output"; "Emission"]) ]);
    ("ShaderNodeVolumePrincipled",
      [ ("Volume", ["OutMedium"; "Medium out"; "Output"]) ])
  ].

(** [for cand in candidates: sock = find(cand); if sock is not None: return sock] *)
Fixpoint first_hit (find : string -> option nat) (candidates : list string)
  : option nat :=
  match candidates with
  | [] => None
  | cand :: rest =>
      match find cand with
      | Some sock => Some sock
      | None => first_hit find rest
      end
  end.

(** [_find_socket_case_insensitive] *)
Definition _find_socket_case_insensitive (collection : list NodeSocket)
    (name : string) : option nat :=
  let target := lower name in
  fst <$> list_find (fun sock => lower (sock_name sock) = target) collection.

(** [_find_socket_substring] *)
Definition _find_socket_substring (collection : list NodeSocket)
    (name : string) : option nat :=
  let target := lower name in
  fst <$> list_find
    (fun sock =>
       let sock_lower := lower (sock_name sock) in
       str_in target sock_lower || str_in sock_lower target = true)
    collection.

(** [TABLE.get(cycles_type, {}).get(key, [])] *)
Definition candidates_of (table : dict (dict (list string)))
    (cycles_type key : string) : list string :=
  default [] (dict_get key (default [] (dict_get cycles_type table))).

(** [if socket_identifier and socket_identifier != cycles_socket_name] *)
Definition use_identifier (socket_identifier cycles_socket_name : string) : bool :=
  bool_decide (socket_identifier ≠ "") &&
  bool_decide (socket_identifier ≠ cycles_socket_name).

Section ResolveInput.
Variables (cycles_type cycles_socket_name : string) (octane_node : Node).
Variables (socket_identifier : string) (socket_index : Z).

(** Strategy 1: exact name match via [INPUT_MAP] candidates. *)
Definition input_strategy_1 : option nat :=
  first_hit (collection_get (node_inputs octane_node))
    (candidates_of INPUT_MAP cycles_type cycles_socket_name).

(** Strategy 2: identifier-based lookup. *)
Definition input_strategy_2 : option nat :=
  if use_identifier socket_identifier cycles_socket_name
  then first_hit (collection_get (node_inputs octane_node))
         (candidates_of INPUT_MAP cycles_type socket_identifier)
  else None.

(** Strategy 3: literal Cycles socket name. *)
Definition input_strategy_3 : option nat :=
  collection_get (node_inputs octane_node) cycles_socket_name.

(** Strategy 4: case-insensitive match on candidates. *)
Definition input_strategy_4 : option nat :=
  first_hit (_find_socket_case_insensitive (node_inputs octane_node))
    (candidates_of INPUT_MAP cycles_type cycles_socket_name).

(** Strategy 5: case-insensitive match on the Cycles socket name. *)
Definition input_strategy_5 : option nat :=
  _find_socket_case_insensitive (node_inputs octane_node) cycles_socket_name.

(** Strategy 6: substring match on the Cycles socket name. *)
Definition input_strategy_6 : option nat :=
  _find_socket_substring (node_inputs octane_node) cycles_socket_name.

(** Strategy 7: index-based fallback. *)
Definition input_strategy_7 : option nat :=
  collection_at (node_inputs octane_node) socket_index.

(** [resolve_input_socket]: the position of the matching Octane input
    socket, or [None]. *)
Definition resolve_input_socket : option nat :=
  input_strategy_1 orelse input_strategy_2 orelse input_strategy_3 orelse
  input_strategy_4 orelse input_strategy_5 orelse input_strategy_6 orelse
  input_strategy_7.
End ResolveInput.

Section ResolveOutput.
Variables (cycles_type cycles_socket_name : string) (octane_node : Node).
Variable socket_identifier : string.

(** Strategy 1: exact name match via [OUTPUT_MAP] candidates. *)
Definition output_strategy_1 : option nat :=
  first_hit (collection_get (node_outputs octane_node))
    (candidates_of OUTPUT_MAP cycles_type cycles_socket_name).

(** Strategy 2: try identifier. *)
Definition output_strategy_2 : option nat :=
  if use_identifier socket_identifier cycles_socket_name
  then first_hit (collection_get (node_outputs octane_node))
         (candidates_of OUTPUT_MAP cycles_type socket_identifier)
  else None.

(** Strategy 3: literal Cycles socket name. *)
Definition output_strategy_3 : option nat :=
  collection_get (node_outputs octane_node) cycles_socket_name.

(** Strategy 4: case-insensitive match, first on the Cycles socket name and
    then on the candidates. *)
Definition output_strategy_4 : option nat :=
  _find_socket_case_insensitive (node_outputs octane_node) cycles_socket_name
  orelse
  first_hit (_find_socket_case_insensitive (node_outputs octane_node))
    (candidates_of OUTPUT_MAP cycles_type cycles_socket_name).

(** Strategy 5: substring match. *)
Definition output_strategy_5 : option nat :=
  _find_socket_substring (node_outputs octane_node) cycles_socket_name.

(** Strategy 6: first output. *)
Definition output_strategy_6 : option nat :=
  match node_outputs octane_node with
  | [] => None
  | _ :: _ => Some 0
  end.

(** [resolve_output_socket]: the position of the matching Octane output
    socket, or [None]. *)
Definition resolve_output_socket : option nat :=
  output_strategy_1 orelse output_strategy_2 orelse output_strategy_3 orelse
  output_strategy_4 orelse output_strategy_5 orelse output_strategy_6.
End ResolveOutput.

End NodeRegistry.

(* ===================================================================== *)
(** * core/property_mapper.py : the Principled BSDF transfer *)
(* ===================================================================== *)

Module PropertyMapper.
Import Py Bpy ShaderDetection.

(** [_set_input]: set [default_value] on the first matching input socket
    that takes the value.  Returns whether a socket was set, and the node. *)
Fixpoint _set_input (node : Node) (candidates : list string) (value : Value)
  : result (bool * Node) :=
  match candidates with
  | [] => Ok (false, node)
  | name :: rest =>
      match collection_find (node_inputs node) name with
      | Some (i, inp) =>
          match socket_assign inp value with
          | Stored inp' => Ok (true, with_inputs node (<[i := inp']> (node_inputs node)))
          | Rejected => _set_input node rest value
          | Failed e => Raise e
          end
      | None => _set_input node rest value
      end
  end.

(** [_set_prop]: try to set an attribute on a node. *)
Definition _set_prop (node : Node) (attr : string) (value : Value) : bool * Node :=
  match node_setattr node attr value with
  | Some node' => (true, node')
  | None => (false, node)
  end.

(** [_get_input_value(info, name)]: by identifier first, then by display
    name through [input_identifiers]. *)
Definition _get_input_value (info : NodeInfo) (name : string) : option Value :=
  match mjoin (dict_get name (inputs info)) with
  | Some val => Some val
  | None =>
      (fix reverse_lookup (items : list (string * string)) : option Value :=
         match items with
         | [] => None
         | (identifier, display_name) :: items' =>
             if decide (display_name = name) then
               match mjoin (dict_get identifier (inputs info)) with
               | Some val => Some val
               | None => reverse_lookup items'
               end
             else reverse_lookup items'
         end) (input_identifiers info)
  end.

(** Simple float / colour inputs: Cycles name, then Octane candidates. *)
Definition _simple_transfers : list (string * list string) :=
  [ ("Base Color",           ["Albedo color"; "Albedo"; "Diffuse"]);
    ("Metallic",             ["Metallic"; "Metallic float"]);
    ("Roughness",            ["Roughness"; "Roughness float"]);
    ("Specular IOR Level",   ["Specular"; "Specular float"]);
    ("IOR",                  ["Dielectric IOR"; "Index"; "IOR"]);
    ("Alpha",                ["Opacity"; "Opacity float"]);
    ("Coat Weight",          ["Coating"; "Coating float"]);
    ("Coat Roughness",       ["Coating roughness"; "Coating roughness float"]);
    ("Sheen Weight",         ["Sheen"; "Sheen float"]);
    ("Sheen Roughness",      ["Sheen roughness"; "Sheen roughness float"]);
    ("Anisotropic",          ["Anisotropy"; "Anisotropy float"]);
    ("Anisotropic Rotation", ["Anisotropy rotation"; "Rotation"]);
    ("Thin Film Thickness",  ["Film width"; "Thin film thickness"]);
    ("Thin Film IOR",        ["Film IOR"; "Thin film IOR"]);
    ("Subsurface Weight",    ["SSS"; "Subsurface"]) ].

(** [if value is not None: _set_input(node, candidates, value)] *)
Definition set_input_if (node : Node) (candidates : list string)
    (value : option Value) : result Node :=
  match value with
  | Some value => snd <$> _set_input node candidates value
  | None => Ok node
  end.

(** The loop over [_simple_transfers]. *)
Definition transfer_simple (info : NodeInfo) (node : Node) : result Node :=
  fold_result
    (fun node mapping =>
       set_input_if node mapping.2 (_get_input_value info mapping.1))
    node _simple_transfers.

(** [cols = tuple(c)[:3] if hasattr(c, "__len__") else (0,)] followed by
    [any(c > 0.0 for c in cols)]. *)
Definition any_positive_cols (em_color : Value) : result bool :=
  match em_color with
  | VTuple l => Ok (existsb (fun c => Qgt_bool c 0) (take 3 l))
  | VStr "" => Ok false
  | VStr _ => Raise TypeError
  | _ => Ok false
  end.

(** Emission: even if strength is 0, preserve if colour is set. *)
Definition transfer_emission (info : NodeInfo) (node : Node) : result Node :=
  let em_color := _get_input_value info "Emission Color" in
  let em_strength := _get_input_value info "Emission Strength" in
  node ← set_input_if node ["Emission"; "Emission color"] em_color;
  match em_strength with
  | Some strength =>
      node ← snd <$> _set_input node ["Emission power"; "Emission weight"] strength;
      if match as_number strength with
         | Some q => Qgt_bool q 0
         | None => false
         end
      then Ok (_set_prop node "surface_brightness" (VBool true)).2
      else
        match em_color with
        | Some em_color =>
            emits ← any_positive_cols em_color;
            if emits : bool
            then Ok (_set_prop node "surface_brightness" (VBool true)).2
            else Ok node
        | None => Ok node
        end
  | None => Ok node
  end.

(** Transmission: glass treatment if > 0.5. *)
Definition transfer_transmission (info : NodeInfo) (node : Node) : result Node :=
  let tw := _get_input_value info "Transmission Weight" orelse
            _get_input_value info "Transmission" in
  match tw with
  | Some tw =>
      match as_number tw with
      | Some weight =>
          node ← snd <$> _set_input node ["Transmission"; "Transmission float"] tw;
          if Qgt_bool weight 0.5 then
            (* set albedo to black, move base colour to transmission *)
            node ← snd <$> _set_input node ["Albedo color"; "Albedo"; "Diffuse"]
                             (VTuple [0; 0; 0; 1]%Q);
            node ← set_input_if node ["Transmission color"; "Transmission"]
                     (_get_input_value info "Base Color");
            (* enable fake shadows *)
            Ok (_set_prop node "fake_shadows" (VBool true)).2
          else Ok node
      | None => Ok node
      end
  | None => Ok node
  end.

(** Subsurface radius / scale. *)
Definition transfer_subsurface (info : NodeInfo) (node : Node) : result Node :=
  node ← set_input_if node ["Absorption"; "Medium radius"]
           (_get_input_value info "Subsurface Radius");
  set_input_if node ["Density"; "Medium scale"]
    (_get_input_value info "Subsurface Scale").

(** [_transfer_principled]: Principled BSDF -> Universal Material. *)
Definition _transfer_principled (info : NodeInfo) (node : Node) : result Node :=
  node ← transfer_simple info node;
  node ← transfer_emission info node;
  node ← transfer_transmission info node;
  transfer_subsurface info node.

(** The socket [_set_input] writes to, if it writes. *)
Fixpoint input_slot (node : Node) (candidates : list string) (value : Value)
  : option nat :=
  match candidates with
  | [] => None
  | name :: rest =>
      match collection_find (node_inputs node) name with
      | Some (i, inp) =>
          match socket_assign inp value with
          | Stored _ => Some i
          | Rejected => input_slot node rest value
          | Failed _ => None
          end
      | None => input_slot node rest value
      end
  end.


(** What the host looks at when a value is assigned: the kind of the value
    held and, for a sequence, its length. *)
Definition value_shape (v : option Value) : option (nat * nat) :=
  match v with
  | None => None
  | Some (VNum _) => Some (0, 0)
  | Some (VTuple l) => Some (1, length l)
  | Some (VStr _) => Some (2, 0)
  | Some (VBool _) => Some (3, 0)
  | Some (VImage _) => Some (4, 0)
  | Some (VStops _) => Some (5, 0)
  | Some (VTreeRef _) => Some (6, 0)
  end.

(** Two nodes whose input sockets agree in name and shape. *)
Definition same_layout (node node' : Node) : Prop :=
  Forall2 (fun s s' => sock_name s = sock_name s' ∧
                       value_shape (sock_default s) = value_shape (sock_default s'))
          (node_inputs node) (node_inputs node').

(** [node'] has the layout of [node], every socket of [node] not named in
    [names] unchanged, and every attribute other than [attrs] unchanged. *)
Definition touched (names attrs : list string) (node node' : Node) : Prop :=
  same_layout node node' ∧
  (∀ i s, node_inputs node !! i = Some s -> sock_name s ∉ names ->
          node_inputs node' !! i = Some s) ∧
  (∀ k, k ∉ attrs -> dict_get k (node_props node') = dict_get k (node_props node)).

(** Every socket name written by a list of transfers. *)
Definition written_names (mappings : list (string * list string)) : list string :=
  concat mappings.*2.

End PropertyMapper.

(* ===================================================================== *)
(** * utils/cache.py : ConversionCache *)
(* ===================================================================== *)

Module Cache.
Import Py.

(** Session-scoped cache for material conversion de-duplication:
    material name -> converted material name, and
    (material name, node name) -> converted node. *)
Record ConversionCache : Type := mkConversionCache {
  _materials : dict string;
  _nodes : gmap (string * string) string;
}.

Definition empty : ConversionCache := mkConversionCache [] ∅.

Definition has_material (c : ConversionCache) (mat_name : string) : bool :=
  bool_decide (is_Some (dict_get mat_name (_materials c))).

Definition register_material (c : ConversionCache)
    (original_name converted_name : string) : ConversionCache :=
  mkConversionCache (dict_set original_name converted_name (_materials c)) (_nodes c).

Definition get_converted_material_name (c : ConversionCache)
    (original_name : string) : option string :=
  dict_get original_name (_materials c).

Definition has_node (c : ConversionCache) (mat_name node_name : string) : bool :=
  bool_decide (is_Some (_nodes c !! (mat_name, node_name))).

Definition register_node (c : ConversionCache)
    (mat_name node_name new_node : string) : ConversionCache :=
  mkConversionCache (_materials c) (<[(mat_name, node_name) := new_node]> (_nodes c)).

Definition get_node (c : ConversionCache) (mat_name node_name : string)
  : option string :=
  _nodes c !! (mat_name, node_name).

Definition clear (c : ConversionCache) : ConversionCache := empty.

Definition converted_material_names (c : ConversionCache) : list string :=
  (_materials c).*2.

End Cache.

(* ===================================================================== *)
(** * core/conversion_engine.py *)
(* ===================================================================== *)

Module ConversionEngine.
Import Py Bpy ShaderDetection NodeRegistry Cache.

(** [node_map]: Cycles node name -> the Octane node, given by its name in
    the target tree. *)
Abbreviation NodeMap := (dict string).

(** The Octane node a [node_map] entry refers to. *)
Definition deref (target_tree : NodeTree) (oct_name : string) : result Node :=
  match tree_node target_tree oct_name with
  | Some node => Ok node
  | None => Raise ReferenceError
  end.

(** [_clear_tree_except_output]: remove all nodes except
    ShaderNodeOutputMaterial; the host drops the links of a removed node. *)
Definition _clear_tree_except_output (node_tree : NodeTree) : NodeTree :=
  let kept :=
    filter (fun n => node_idname n = "ShaderNodeOutputMaterial")
           (tree_nodes node_tree) in
  mkNodeTree kept
    (filter (fun l => link_from_node l ∈ node_name <$> kept ∧
                      link_to_node l ∈ node_name <$> kept)
            (tree_links node_tree)).

(** The two material inputs of an Octane mix material: by name, else
    positions 1 and 2, else none. *)
Definition mix_slots (oct_node : Node) : option (nat * nat) :=
  let mat1_sock :=
    first_hit (collection_get (node_inputs oct_node))
      ["Material1"; "Shader1"; "Material 1"] in
  let mat2_sock :=
    first_hit (collection_get (node_inputs oct_node))
      ["Material2"; "Shader2"; "Material 2"] in
  match mat1_sock, mat2_sock with
  | Some mat1_sock, Some mat2_sock => Some (mat1_sock, mat2_sock)
  | _, _ =>
      (* try by index: typically index 1 and 2 *)
      if decide (3 ≤ length (node_inputs oct_node)) then Some (1, 2) else None
  end.

(** [sock.links[0].from_socket if sock.links else None] for input socket
    [sock] of the node named [n]. *)
Definition producer (tree : NodeTree) (n : string) (sock : nat)
  : option (string * nat) :=
  (fun l => (link_from_node l, link_from_socket l)) <$> head (links_into tree n sock).

(** [for link in list(sock.links): target_tree.links.remove(link)] *)
Definition remove_links_into (tree : NodeTree) (n : string) (sock : nat) : NodeTree :=
  foldl links_remove tree (links_into tree n sock).

(** The body of the loop of [_fix_mix_shader_links] for one Octane node. *)
Definition fix_mix_node (target_tree : NodeTree) (oct_node : Node) : NodeTree :=
  match mix_slots oct_node with
  | None => target_tree
  | Some (mat1_sock, mat2_sock) =>
      let n := node_name oct_node in
      (* store current connections *)
      let mat1_from := producer target_tree n mat1_sock in
      let mat2_from := producer target_tree n mat2_sock in
      match mat1_from, mat2_from with
      | None, None => target_tree   (* nothing to swap *)
      | _, _ =>
          (* remove existing links *)
          let tree := remove_links_into target_tree n mat1_sock in
          let tree := remove_links_into tree n mat2_sock in
          (* swap: what was in slot 1 goes to slot 2 and vice versa *)
          let tree :=
            match mat1_from with
            | Some from => links_new tree from (n, mat2_sock)
            | None => tree
            end in
          match mat2_from with
          | Some from => links_new tree from (n, mat1_sock)
          | None => tree
          end
      end
  end.

(** [_fix_mix_shader_links]: Octane MixMaterial has slots 1 and 2 swapped
    relative to Cycles. *)
Definition _fix_mix_shader_links (analysis : TreeAnalysis) (node_map : NodeMap)
    (target_tree : NodeTree) : result NodeTree :=
  fold_result
    (fun tree item =>
       let '(node_name, info) := item in
       if decide (bl_idname info ≠ "ShaderNodeMixShader") then Ok tree else
       match dict_get node_name node_map with
       | None => Ok tree
       | Some oct_name =>
           oct_node ← deref tree oct_name;
           Ok (fix_mix_node tree oct_node)
       end)
    target_tree (nodes analysis).

(** Different Mix Shader nodes are lowered to different Octane nodes. *)
Definition mix_injective (analysis : TreeAnalysis) (node_map : NodeMap) : Prop :=
  ∀ n1 i1 n2 i2 t,
    (n1, i1) ∈ nodes analysis -> (n2, i2) ∈ nodes analysis ->
    bl_idname i1 = "ShaderNodeMixShader" -> bl_idname i2 = "ShaderNodeMixShader" ->
    dict_get n1 node_map = Some t -> dict_get n2 node_map = Some t -> n1 = n2.

(** The Octane nodes the map gives for Mix Shader nodes are in the tree. *)
Definition mix_mapped (analysis : TreeAnalysis) (node_map : NodeMap)
    (target_tree : NodeTree) : Prop :=
  ∀ n i t,
    (n, i) ∈ nodes analysis -> bl_idname i = "ShaderNodeMixShader" ->
    dict_get n node_map = Some t -> is_Some (tree_node target_tree t).

(** The node with input socket [i] holding [value]. *)
Definition set_default (node : Node) (i : nat) (value : Value) : Node :=
  with_inputs node
    (alter (fun s => mkNodeSocket (sock_name s) (sock_identifier s) (Some value))
           i (node_inputs node)).

(** The tree with the node named like [node] replaced by [node]. *)
Definition store_node (tree : NodeTree) (node : Node) : NodeTree :=
  mkNodeTree
    ((fun n => if decide (node_name n = node_name node) then node else n)
       <$> tree_nodes tree)
    (tree_links tree).

(** [abs(s - 1.0) < 0.001] *)
Definition near_one (s : Q) : bool := Qgt_bool 0.001 (Qabs (s - 1)).

(** The first definition of [_apply_scale_correction] in the module
    (lines 547-581): multiply the scale of every Mapping node by the
    object's scale.  It is rebound by the definition that follows. *)
Definition _apply_scale_correction_first (obj : option Object)
    (node_map : NodeMap) (analysis : TreeAnalysis) (target_tree : NodeTree)
  : result NodeTree :=
  match obj with
  | None => Ok target_tree
  | Some obj =>
      let '(x, y, z) := obj_scale obj in
      if near_one x && near_one y && near_one z
      then Ok target_tree   (* no correction needed *)
      else
        fold_result
          (fun tree item =>
             let '(node_name, info) := item in
             if decide (bl_idname info ≠ "ShaderNodeMapping") then Ok tree else
             match dict_get node_name node_map with
             | None => Ok tree
             | Some oct_name =>
                 oct_node ← deref tree oct_name;
                 match collection_get (node_inputs oct_node) "Scale" orelse
                       collection_get (node_inputs oct_node) "Scaling" with
                 | Some scale_sock =>
                     match node_inputs oct_node !! scale_sock ≫= sock_default with
                     | Some (VTuple (c0 :: c1 :: c2 :: rest)) =>
                         Ok (store_node tree
                               (set_default oct_node scale_sock
                                  (VTuple (c0 * x :: c1 * y :: c2 * z :: rest)%Q)))
                     | _ => Ok tree   (* TypeError / IndexError: pass *)
                     end
                 | None => Ok tree
                 end
             end)
          target_tree (nodes analysis)
  end.

(** The second definition of [_apply_scale_correction] (lines 646-652),
    the one the name is bound to when [convert_material] runs: [pass]. *)
Definition _apply_scale_correction (obj : option Object)
    (node_map : NodeMap) (analysis : TreeAnalysis) (target_tree : NodeTree)
  : result NodeTree :=
  Ok target_tree.

(** ** Host state and the module-level cache *)

(** What the converter reads and writes outside its own locals: the
    host's material store and scene, the add-on's scene properties, and
    the module's [_cache].  A material or an object is referred to by its
    position in the store. *)
Record World : Type := mkWorld {
  data_materials : list Material;
  scene_objects : list Object;
  active_object : option nat;
  octanify_batch_mode : string;
  octanify_albedo_gamma : Q;
  _cache : ConversionCache;
}.

Definition with_materials (w : World) (ms : list Material) : World :=
  mkWorld ms (scene_objects w) (active_object w) (octanify_batch_mode w)
    (octanify_albedo_gamma w) (_cache w).

Definition with_objects (w : World) (os : list Object) : World :=
  mkWorld (data_materials w) os (active_object w) (octanify_batch_mode w)
    (octanify_albedo_gamma w) (_cache w).

Definition with_cache (w : World) (c : ConversionCache) : World :=
  mkWorld (data_materials w) (scene_objects w) (active_object w)
    (octanify_batch_mode w) (octanify_albedo_gamma w) c.

(** A statement sequence over the world: it returns or raises, and leaves
    the world in the state reached. *)
Definition M (A : Type) : Type := World -> result A * World.

#[global] Instance M_ret : MRet M := fun A a w => (Ok a, w).
#[global] Instance M_bind : MBind M := fun A B f m w =>
  match m w with
  | (Ok a, w') => f a w'
  | (Raise e, w') => (Raise e, w')
  end.

(** A host-free computation run inside a statement sequence. *)
Definition lift {A} (r : result A) : M A := fun w => (r, w).

(** [for x in xs: acc = step(acc, x)] over the world. *)
Fixpoint for_each {A S} (step : S -> A -> M S) (acc : S) (xs : list A) : M S :=
  match xs with
  | [] => mret acc
  | x :: xs' => acc' ← step acc x; for_each step acc' xs'
  end.

(** Reading the module-level cache and the material store. *)
Definition get_cache : M ConversionCache := fun w => (Ok (_cache w), w).

Definition get_world : M World := fun w => (Ok w, w).

(** [_cache.register_material(original_name, converted_name)] *)
Definition cache_register (original_name converted_name : string) : M unit :=
  fun w => (Ok tt, with_cache w
                     (register_material (_cache w) original_name converted_name)).

(** [reset_cache] *)
Definition reset_cache : M unit :=
  fun w => (Ok tt, with_cache w (clear (_cache w))).

(** The material behind a handle. *)
Definition get_material (h : nat) : M Material := fun w =>
  match data_materials w !! h with
  | Some m => (Ok m, w)
  | None => (Raise ReferenceError, w)
  end.

(** [bpy.data.materials.get(name)] *)
Definition materials_get (w : World) (name : string) : option nat :=
  fst <$> list_find (fun m => mat_name m = name) (data_materials w).

(** [h.node_tree = f(h.node_tree)] for a step [f] that works on one tree. *)
Definition modify_tree (h : nat) (f : NodeTree -> result NodeTree) : M unit := fun w =>
  match data_materials w !! h with
  | Some m =>
      match mat_node_tree m with
      | Some tree =>
          match f tree with
          | Ok tree' =>
              (Ok tt, with_materials w
                        (<[h := mkMaterial (mat_name m) (mat_use_nodes m) (Some tree')]>
                           (data_materials w)))
          | Raise e => (Raise e, w)
          end
      | None => (Raise AttributeError, w)
      end
  | None => (Raise ReferenceError, w)
  end.

(** The same for a step that also returns a value. *)
Definition modify_tree_with {A} (h : nat) (f : NodeTree -> result (A * NodeTree))
  : M A := fun w =>
  match data_materials w !! h with
  | Some m =>
      match mat_node_tree m with
      | Some tree =>
          match f tree with
          | Ok (a, tree') =>
              (Ok a, with_materials w
                       (<[h := mkMaterial (mat_name m) (mat_use_nodes m) (Some tree')]>
                          (data_materials w)))
          | Raise e => (Raise e, w)
          end
      | None => (Raise AttributeError, w)
      end
  | None => (Raise ReferenceError, w)
  end.

(** A statement sequence that leaves every material but [h] as it is. *)
Definition only_touches {A} (h : nat) (m : M A) : Prop :=
  ∀ w, ∀ k, k ≠ h -> data_materials (m w).2 !! k = data_materials w !! k.

Section Host.
(** The name the host gives a datablock that asks for [name] while the
    names [taken] are in use. *)
Variable unique_name : list string -> string -> string.

(** The steps of the pipeline that are made of host calls throughout; each
    works on the target tree it is given. *)
Variable create_nodes : GraphEngine.Engine -> NodeTree -> result (NodeMap * NodeTree).
Variable transfer_all_properties : TreeAnalysis -> NodeMap -> NodeTree -> NodeTree.
Variable _rebuild_links : TreeAnalysis -> NodeMap -> NodeTree -> result NodeTree.
Variable _handle_normal_map_fallback :
  TreeAnalysis -> NodeMap -> NodeTree -> result (NodeMap * NodeTree).
Variable _handle_alpha : TreeAnalysis -> NodeMap -> NodeTree -> result NodeTree.
Variable _handle_emission_post : TreeAnalysis -> NodeMap -> NodeTree -> result NodeTree.
Variable _handle_emission_node_insertion :
  TreeAnalysis -> NodeMap -> NodeTree -> result NodeTree.
Variable handle_volumetrics : TreeAnalysis -> NodeMap -> NodeTree -> result NodeTree.
Variable apply_gamma : Q -> NodeTree -> result NodeTree.
Variable _preserve_drivers :
  NodeTree -> TreeAnalysis -> NodeMap -> NodeTree -> result NodeTree.

(** [mat.copy()]: a new datablock with a name of its own and a copy of
    the node tree; returns its handle. *)
Definition material_copy (h : nat) : M nat := fun w =>
  match data_materials w !! h with
  | Some m =>
      let copy :=
        mkMaterial (unique_name (mat_name <$> data_materials w) (mat_name m))
          (mat_use_nodes m) (mat_node_tree m) in
      (Ok (length (data_materials w)),
       with_materials w (data_materials w ++ [copy]))
  | None => (Raise ReferenceError, w)
  end.

(** [h.name = name]: the host keeps names unique. *)
Definition set_name (h : nat) (name : string) : M unit := fun w =>
  match data_materials w !! h with
  | Some m =>
      let others := mat_name <$> delete h (data_materials w) in
      (Ok tt, with_materials w
                (<[h := mkMaterial (unique_name others name) (mat_use_nodes m)
                          (mat_node_tree m)]> (data_materials w)))
  | None => (Raise ReferenceError, w)
  end.

(** [h.use_nodes = True] *)
Definition set_use_nodes (h : nat) : M unit := fun w =>
  match data_materials w !! h with
  | Some m =>
      (Ok tt, with_materials w
                (<[h := mkMaterial (mat_name m) true (mat_node_tree m)]>
                   (data_materials w)))
  | None => (Raise ReferenceError, w)
  end.

(** [obj.scale] and the like need the object behind the handle. *)
Definition get_object (obj : option nat) : M (option Object) := fun w =>
  match obj with
  | None => (Ok None, w)
  | Some o =>
      match scene_objects w !! o with
      | Some ob => (Ok (Some ob), w)
      | None => (Raise ReferenceError, w)
      end
  end.

(** Steps 4 (node creation) to 14 of [convert_material], from the
    constructed engine on. *)
Definition lower (mat new_mat : nat) (mat_name : string) (analysis : TreeAnalysis)
    (source_tree : NodeTree) (gamma_value : Q) (obj : option nat)
    (engine : GraphEngine.Engine) : M (option nat) :=
  node_map ← modify_tree_with new_mat (create_nodes engine);
  (* 5. transfer properties *)
  modify_tree new_mat (fun t => Ok (transfer_all_properties analysis node_map t));;
  (* 6. rebuild links *)
  modify_tree new_mat (_rebuild_links analysis node_map);;
  (* 6b. handle Normal Map / Bump fallbacks *)
  node_map ← modify_tree_with new_mat (_handle_normal_map_fallback analysis node_map);
  (* 7. post-process: swap MixShader links *)
  modify_tree new_mat (_fix_mix_shader_links analysis node_map);;
  (* 8. handle alpha/opacity *)
  modify_tree new_mat (_handle_alpha analysis node_map);;
  (* 9. handle emission *)
  modify_tree new_mat (_handle_emission_post analysis node_map);;
  modify_tree new_mat (_handle_emission_node_insertion analysis node_map);;
  (* 10. handle volumetrics *)
  modify_tree new_mat (handle_volumetrics analysis node_map);;
  (* 11. apply gamma correction to albedo textures *)
  modify_tree new_mat (apply_gamma gamma_value);;
  (* 12. scale correction *)
  ob ← get_object obj;
  modify_tree new_mat (_apply_scale_correction ob node_map analysis);;
  (* 13. preserve drivers *)
  modify_tree new_mat (_preserve_drivers source_tree analysis node_map);;
  (* 14. register in cache *)
  m ← get_material new_mat;
  cache_register mat_name (Bpy.mat_name m);;
  mret (Some new_mat).

(** [convert_material]: convert a single Cycles material to Octane.
    Returns the new Octane material, or [None]. *)
Definition convert_material (mat : option nat) (gamma_value : Q) (obj : option nat)
  : M (option nat) :=
  match mat with
  | None => mret None
  | Some mat =>
      m ← get_material mat;
      match mat_node_tree m with
      | None => mret None
      | Some source_tree =>
          let mat_name := Bpy.mat_name m in
          (* check cache *)
          cache ← get_cache;
          if has_material cache mat_name then
            let cached_name := get_converted_material_name cache mat_name in
            w ← get_world;
            mret (cached_name ≫= materials_get w)
          else
            (* 1. analyse the original tree *)
            analysis ← lift (analyze_tree source_tree);
            (* 2. duplicate material *)
            new_mat ← material_copy mat;
            set_name new_mat (mat_name ++ "_OCTANE");;
            set_use_nodes new_mat;;
            (* 3. clear the new tree (keeping output node) *)
            modify_tree new_mat (fun t => Ok (_clear_tree_except_output t));;
            (* 4. build schedule and create nodes *)
            engine ← lift (GraphEngine.new analysis ["group_converter_cb"]);
            lower mat new_mat mat_name analysis source_tree gamma_value obj engine
      end
  end.

(** [slot.material = new_mat] for slot [i] of object [obj]. *)
Definition set_slot_material (obj i new_mat : nat) : M unit := fun w =>
  match scene_objects w !! obj with
  | Some ob =>
      (Ok tt, with_objects w
                (<[obj := mkObject (obj_name ob) (obj_scale ob)
                            (<[i := Some new_mat]> <$> material_slots ob)]>
                   (scene_objects w)))
  | None => (Raise ReferenceError, w)
  end.

(** One turn of the slot loop of [convert_object_materials]. *)
Definition convert_slot (obj : nat) (gamma_value : Q) (converted : list nat)
    (slot : nat * option nat) : M (list nat) :=
  match slot.2 with
  | None => mret converted
  | Some mat =>
      new_mat ← convert_material (Some mat) gamma_value (Some obj);
      match new_mat with
      | Some new_mat =>
          set_slot_material obj slot.1 new_mat;;
          mret (converted ++ [new_mat])
      | None => mret converted
      end
  end.

(** [convert_object_materials]: convert all Cycles materials on a single
    object. *)
Definition convert_object_materials (obj : option nat) (gamma_value : Q)
  : M (list nat) :=
  ob ← get_object obj;
  match obj, ob ≫= material_slots with
  | Some obj, Some slots =>
      for_each (convert_slot obj gamma_value) [] (zip (seq 0 (length slots)) slots)
  | _, _ => mret []
  end.

(** [convert_scene_materials]: convert all Cycles materials across all
    objects in the scene. *)
Definition convert_scene_materials (gamma_value : Q) : M (list nat) :=
  reset_cache;;
  w ← get_world;
  for_each
    (fun converted obj =>
       ob ← get_object (Some obj);
       match ob ≫= material_slots with
       | None => mret converted
       | Some _ =>
           results ← convert_object_materials (Some obj) gamma_value;
           mret (converted ++ results)
       end)
    [] (seq 0 (length (scene_objects w))).

(** ** ui/operators.py : OCTANIFY_OT_convert.execute *)

Inductive status : Type := FINISHED | CANCELLED.

(** [self.report(...)]: the level, with the count or the error reported. *)
Inductive report : Type :=
  | INFO (count : nat)
  | WARNING
  | ERROR (e : exn).

(** [execute]: the whole batch runs inside one [try]. *)
Definition execute : World -> (status * list report) * World := fun w =>
  let gamma := octanify_albedo_gamma w in
  let body : M (status * list report) :=
    if decide (octanify_batch_mode w = "ACTIVE") then
      match active_object w with
      | None => mret (CANCELLED, [WARNING])
      | Some obj =>
          reset_cache;;
          converted ← convert_object_materials (Some obj) gamma;
          mret (FINISHED, [INFO (length converted)])
      end
    else
      converted ← convert_scene_materials gamma;
      mret (FINISHED, [INFO (length converted)]) in
  match body w with
  | (Ok r, w') => (r, w')
  | (Raise exc, w') => ((CANCELLED, [ERROR exc]), w')
  end.

End Host.

End ConversionEngine.
(* ===================================================================== *)
(** * core/conversion_engine.py : the link passes *)
(* ===================================================================== *)

Module ConversionPasses.
Import Py PyStr Bpy ShaderDetection NodeRegistry ConversionEngine.

(** A socket of the target tree: the node's name and the socket's
    position among the node's inputs or outputs. *)
Definition Socket : Type := string * nat.

(** [target_tree.links.new(output, input)] once both sockets are found;
    [None] stands for the [continue] taken before. *)
Definition connect (tree : NodeTree) (found : option (Socket * Socket)) : NodeTree :=
  match found with
  | Some (output, input) => links_new tree output input
  | None => tree
  end.

(** The output socket linked last to [input] by a loop that calls
    [links.new] for what [found] gives for each element of [xs]. *)
Definition last_writer {A} (found : A -> result (option (Socket * Socket)))
    (xs : list A) (input : Socket) : option Socket :=
  foldl (fun writer x =>
           match found x with
           | Ok (Some (output, input')) =>
               if decide (input' = input) then Some output else writer
           | _ => writer
           end) None xs.

(** [node.outputs[0] if node.outputs else None] *)
Definition first_output (node : Node) : option nat :=
  match node_outputs node with
  | [] => None
  | _ :: _ => Some 0
  end.

(** The body of the loop of [_rebuild_links] up to the call of
    [links.new]: the two sockets found for one link of the analysis. *)
Definition rebuild_link (analysis : TreeAnalysis) (node_map : NodeMap)
    (target_tree : NodeTree) (link_info : LinkInfo)
  : result (option (Socket * Socket)) :=
  match dict_get (from_node link_info) node_map,
        dict_get (to_node link_info) node_map with
  | Some oct_from, Some oct_to =>
      (* get the Cycles node types for socket resolution *)
      match dict_get (from_node link_info) (nodes analysis),
            dict_get (to_node link_info) (nodes analysis) with
      | Some from_info, Some to_info =>
          from_oct ← deref target_tree oct_from;
          let out_socket :=
            resolve_output_socket (bl_idname from_info) (from_socket link_info)
              from_oct (from_socket_identifier link_info) in
          to_oct ← deref target_tree oct_to;
          let in_socket :=
            resolve_input_socket (bl_idname to_info) (to_socket link_info)
              to_oct (to_socket_identifier link_info) (to_socket_index link_info) in
          match out_socket, in_socket with
          | Some out_socket, Some in_socket =>
              Ok (Some ((oct_from, out_socket), (oct_to, in_socket)))
          | _, _ => Ok None
          end
      | _, _ => Ok None
      end
  | _, _ => Ok None   (* node not in map *)
  end.

(** [_rebuild_links]: reconstruct all links using the socket mapping
    tables. *)
Definition _rebuild_links (analysis : TreeAnalysis) (node_map : NodeMap)
    (target_tree : NodeTree) : result NodeTree :=
  fold_result
    (fun tree link_info => connect tree <$> rebuild_link analysis node_map tree link_info)
    target_tree (links analysis).

(** The body of the loop of [_handle_alpha] up to the call of
    [links.new]. *)
Definition alpha_link (analysis : TreeAnalysis) (node_map : NodeMap)
    (target_tree : NodeTree) (link_info : LinkInfo)
  : result (option (Socket * Socket)) :=
  match dict_get (from_node link_info) (nodes analysis),
        dict_get (to_node link_info) (nodes analysis) with
  | Some from_info, Some to_info =>
      if decide (bl_idname from_info = "ShaderNodeTexImage" ∧
                 from_socket link_info = "Alpha") then
        match dict_get (from_node link_info) node_map,
              dict_get (to_node link_info) node_map with
        | Some oct_from, Some oct_to =>
            (* try to connect to the Opacity input on the material node *)
            to_oct ← deref target_tree oct_to;
            match first_hit (collection_get (node_inputs to_oct))
                    ["Opacity"; "Opacity float"; "Alpha"] with
            | None => Ok None
            | Some opacity_sock =>
                (* get the alpha output from the Octane image node *)
                from_oct ← deref target_tree oct_from;
                let alpha_out :=
                  collection_get (node_outputs from_oct) "Alpha" orelse
                  collection_get (node_outputs from_oct) "OutTex" orelse
                  first_output from_oct in
                match alpha_out with
                | Some alpha_out =>
                    Ok (Some ((oct_from, alpha_out), (oct_to, opacity_sock)))
                | None => Ok None
                end
            end
        | _, _ => Ok None
        end
      else Ok None
  | _, _ => Ok None
  end.

(** [_handle_alpha]: if alpha is detected, ensure the Opacity setup on the
    material. *)
Definition _handle_alpha (analysis : TreeAnalysis) (node_map : NodeMap)
    (target_tree : NodeTree) : result NodeTree :=
  if negb (has_alpha analysis) then Ok target_tree
  else
    fold_result
      (fun tree link_info => connect tree <$> alpha_link analysis node_map tree link_info)
      target_tree (links analysis).

(** [_handle_emission_post]: enable surface brightness on emission
    materials. *)
Definition _handle_emission_post (analysis : TreeAnalysis) (node_map : NodeMap)
    (target_tree : NodeTree) : result NodeTree :=
  if negb (has_emission analysis) then Ok target_tree
  else
    fold_result
      (fun tree item =>
         let '(node_name, info) := item in
         if negb (one_of (bl_idname info)
                    ["ShaderNodeBsdfPrincipled"; "ShaderNodeEmission"])
         then Ok tree else
         match dict_get node_name node_map with
         | None => Ok tree
         | Some oct_name =>
             oct_node ← deref tree oct_name;
             match node_setattr oct_node "surface_brightness" (VBool true) with
             | Some oct_node => Ok (store_node tree oct_node)
             | None => Ok tree   (* AttributeError / TypeError: pass *)
             end
         end)
      target_tree (nodes analysis).

(** [del d[k]] for a key that is present. *)
Definition dict_del {V} (k : string) (d : dict V) : dict V :=
  filter (fun kv => kv.1 ≠ k) d.

(** [for link in list(tree.links): if link.from_node == node or
    link.to_node == node: tree.links.remove(link)] *)
Definition remove_links_of (tree : NodeTree) (n : string) : NodeTree :=
  mkNodeTree (tree_nodes tree)
    (filter (fun l => ¬ (link_from_node l = n ∨ link_to_node l = n)) (tree_links tree)).

(** [tree.nodes.remove(node)]; the host drops the links of a removed
    node. *)
Definition nodes_remove (tree : NodeTree) (n : string) : NodeTree :=
  mkNodeTree (filter (fun node => node_name node ≠ n) (tree_nodes tree))
    (filter (fun l => ¬ (link_from_node l = n ∨ link_to_node l = n)) (tree_links tree)).

(** [node.label and "[UNSUPPORTED]" in node.label] *)
Definition is_unsupported (node : Node) : bool :=
  bool_decide (node_label node ≠ "") && str_in "[UNSUPPORTED]" (node_label node).

(** The source texture of a fallback node: the Octane node of the first
    link into [node_name] whose source is in the map. *)
Definition fallback_source (analysis : TreeAnalysis) (node_map : NodeMap)
    (node_name : string) : option string :=
  (fix go (ls : list LinkInfo) : option string :=
     match ls with
     | [] => None
     | link_info :: ls' =>
         if decide (to_node link_info = node_name) then
           match dict_get (from_node link_info) node_map with
           | Some candidate => Some candidate
           | None => go ls'
           end
         else go ls'
     end) (links analysis).

(** The destination of a fallback node: the Octane node and the Cycles
    socket name of the first link out of [node_name] whose destination is
    in the map. *)
Definition fallback_destination (analysis : TreeAnalysis) (node_map : NodeMap)
    (node_name : string) : option (string * string) :=
  (fix go (ls : list LinkInfo) : option (string * string) :=
     match ls with
     | [] => None
     | link_info :: ls' =>
         if decide (from_node link_info = node_name) then
           match dict_get (to_node link_info) node_map with
           | Some candidate => Some (candidate, to_socket link_info)
           | None => go ls'
           end
         else go ls'
     end) (links analysis).

(** The direct connection made for a fallback node, when both of its
    sides are found. *)
Definition fallback_rewire (target_tree : NodeTree) (oct_name : string)
    (source_oct : string) (dest_oct : string) (dest_socket_name : string)
  : result NodeTree :=
  (* get the first output of the source texture *)
  source_node ← deref target_tree source_oct;
  let out_sock := first_output source_node in
  (* find the Normal/Bump input on the destination material *)
  dest_node ← deref target_tree dest_oct;
  let in_sock :=
    first_hit (collection_get (node_inputs dest_node))
      (filter (fun name => name ≠ "")
         ["Normal"; "Bump"; "ShaderNormal"; dest_socket_name]) in
  (* fallback: case-insensitive search *)
  let in_sock :=
    match in_sock with
    | Some in_sock => Some in_sock
    | None =>
        if decide (dest_socket_name ≠ "")
        then _find_socket_case_insensitive (node_inputs dest_node) dest_socket_name
        else None
    end in
  match out_sock, in_sock with
  | Some out_sock, Some in_sock =>
      (* remove any existing link to the fallback node, then connect *)
      Ok (links_new (remove_links_of target_tree oct_name)
            (source_oct, out_sock) (dest_oct, in_sock))
  | _, _ => Ok target_tree
  end.

(** One turn of the loop of [_handle_normal_map_fallback]. *)
Definition fallback_step (analysis : TreeAnalysis) (st : NodeMap * NodeTree)
    (item : string * NodeInfo) : result (NodeMap * NodeTree) :=
  let '(node_map, target_tree) := st in
  let '(node_name, info) := item in
  if negb (one_of (bl_idname info) ["ShaderNodeNormalMap"; "ShaderNodeBump"])
  then Ok st else
  match dict_get node_name node_map with
  | None => Ok st
  | Some oct_name =>
      oct_node ← deref target_tree oct_name;
      (* a proper Octane node is skipped *)
      if negb (is_unsupported oct_node) then Ok st else
      tree ←
        match fallback_source analysis node_map node_name,
              fallback_destination analysis node_map node_name with
        | Some source_oct, Some (dest_oct, dest_socket_name) =>
            fallback_rewire target_tree oct_name source_oct dest_oct dest_socket_name
        | _, _ => Ok target_tree
        end;
      (* remove the useless fallback node *)
      Ok (dict_del node_name node_map,
          nodes_remove (remove_links_of tree oct_name) oct_name)
  end.

(** [_handle_normal_map_fallback]: rewire and remove the [UNSUPPORTED]
    stand-ins of Normal Map and Bump nodes. *)
Definition _handle_normal_map_fallback (analysis : TreeAnalysis)
    (node_map : NodeMap) (target_tree : NodeTree) : result (NodeMap * NodeTree) :=
  fold_result (fallback_step analysis) (node_map, target_tree) (nodes analysis).

End ConversionPasses.

(* ===================================================================== *)
(** * core/volumetric_handler.py *)
(* ===================================================================== *)

Module VolumetricHandler.
Import Py Bpy ShaderDetection NodeRegistry ConversionEngine ConversionPasses.

Definition material_types : list string :=
  [ "ShaderNodeOctUniversalMat"; "OctaneUniversalMaterial";
    "ShaderNodeOctSpecularMat"; "OctaneSpecularMaterial";
    "ShaderNodeOctGlossyMat"; "OctaneGlossyMaterial";
    "ShaderNodeOctDiffuseMat"; "OctaneDiffuseMaterial" ].

Definition volume_types : list string :=
  [ "ShaderNodeVolumeAbsorption"; "ShaderNodeVolumeScatter" ].

(** The body of the loop of [handle_volumetrics] up to the call of
    [links.new]. *)
Definition volume_link (node_map : NodeMap) (target_tree : NodeTree)
    (medium_input : Socket) (item : string * NodeInfo)
  : result (option (Socket * Socket)) :=
  let '(node_name, info) := item in
  if negb (one_of (bl_idname info) volume_types) then Ok None else
  match dict_get node_name node_map with
  | None => Ok None
  | Some oct_name =>
      oct_node ← deref target_tree oct_name;
      (* find the medium output socket *)
      let medium_output :=
        first_hit (collection_get (node_outputs oct_node))
          ["OutMedium"; "Medium out"; "Output"; "Medium"] orelse
        first_output oct_node in
      match medium_output with
      | Some medium_output => Ok (Some ((oct_name, medium_output), medium_input))
      | None => Ok None
      end
  end.

(** The body of the loop of [_connect_volume_to_output] up to the call of
    [links.new]. *)
Definition volume_output_link (analysis : TreeAnalysis) (node_map : NodeMap)
    (target_tree : NodeTree) (link_info : LinkInfo)
  : result (option (Socket * Socket)) :=
  match dict_get (to_node link_info) (nodes analysis) with
  | None => Ok None
  | Some to_info =>
      if decide (bl_idname to_info ≠ "ShaderNodeOutputMaterial") then Ok None else
      if decide (to_socket link_info ≠ "Volume") then Ok None else
      match dict_get (from_node link_info) (nodes analysis) with
      | None => Ok None
      | Some from_info =>
          match dict_get (from_node link_info) node_map,
                dict_get (to_node link_info) node_map with
          | Some oct_from, Some oct_to =>
              (* find the volume/medium input on the output node *)
              to_oct ← deref target_tree oct_to;
              match first_hit (collection_get (node_inputs to_oct))
                      ["Volume"; "Medium"] with
              | None => Ok None
              | Some vol_input =>
                  (* find the output on the medium node *)
                  from_oct ← deref target_tree oct_from;
                  let medium_out :=
                    first_hit (collection_get (node_outputs from_oct))
                      ["OutMedium"; "Medium out"; "Output"] orelse
                    first_output from_oct in
                  match medium_out with
                  | Some medium_out =>
                      Ok (Some ((oct_from, medium_out), (oct_to, vol_input)))
                  | None => Ok None
                  end
              end
          | _, _ => Ok None
          end
      end
  end.

(** [_connect_volume_to_output] *)
Definition _connect_volume_to_output (analysis : TreeAnalysis) (node_map : NodeMap)
    (target_tree : NodeTree) : result NodeTree :=
  fold_result
    (fun tree link_info =>
       connect tree <$> volume_output_link analysis node_map tree link_info)
    target_tree (links analysis).

(** The loop of [handle_volumetrics] over the nodes of the analysis. *)
Definition connect_volumes (analysis : TreeAnalysis) (node_map : NodeMap)
    (medium_input : Socket) (target_tree : NodeTree) : result NodeTree :=
  fold_result
    (fun tree item => connect tree <$> volume_link node_map tree medium_input item)
    target_tree (nodes analysis).

(** [handle_volumetrics]: connect the Octane medium nodes to the material's
    Medium input. *)
Definition handle_volumetrics (analysis : TreeAnalysis) (node_map : NodeMap)
    (target_tree : NodeTree) : result NodeTree :=
  if negb (has_volume analysis) then Ok target_tree else
  (* find the main material node *)
  match list_find (fun node => node_idname node ∈ material_types)
          (tree_nodes target_tree) with
  | None => Ok target_tree
  | Some (_, material_node) =>
      (* find the medium input on the material *)
      match first_hit (collection_get (node_inputs material_node))
              ["Medium"; "Transmission medium"; "Medium input"] with
      | None => Ok target_tree
      | Some medium_input =>
          tree ← connect_volumes analysis node_map
                   (node_name material_node, medium_input) target_tree;
          _connect_volume_to_output analysis node_map tree
      end
  end.

End VolumetricHandler.
(* ===================================================================== *)
(** * core/node_registry.py, core/graph_engine.py : node creation *)
(* ===================================================================== *)

Module NodeCreation.
Import Py Bpy ShaderDetection ConversionEngine.

(** [NODE_TYPE_MAP]: Cycles bl_idname -> Octane bl_idname candidates. *)
Definition NODE_TYPE_MAP : dict (list string) :=
  [
    ("ShaderNodeBsdfPrincipled", ["ShaderNodeOctUniversalMat"; "OctaneUniversalMaterial"]);
    ("ShaderNodeBsdfGlass", ["ShaderNodeOctSpecularMat"; "OctaneSpecularMaterial"]);
    ("ShaderNodeBsdfGlossy", ["ShaderNodeOctGlossyMat"; "OctaneGlossyMaterial"]);
    ("ShaderNodeBsdfDiffuse", ["ShaderNodeOctDiffuseMat"; "OctaneDiffuseMaterial"]);
    ("ShaderNodeEmission", ["ShaderNodeOctDiffuseMat"; "OctaneDiffuseMaterial"]);
    ("ShaderNodeBsdfTransparent", ["ShaderNodeOctNullMat"; "OctaneNullMaterial"]);
    ("ShaderNodeBsdfTranslucent", ["ShaderNodeOctDiffuseMat"; "OctaneDiffuseMaterial"]);
    ("ShaderNodeBsdfRefraction", ["ShaderNodeOctSpecularMat"; "OctaneSpecularMaterial"]);
    ("ShaderNodeMixShader", ["ShaderNodeOctMixMat"; "OctaneMixMaterial"]);
    ("ShaderNodeAddShader", ["ShaderNodeOctMixMat"; "OctaneMixMaterial"]);
    ("ShaderNodeBsdfMetallic", ["ShaderNodeOctMetallicMat"; "OctaneMetallicMaterial"; "ShaderNodeOctUniversalMat"]);
    ("ShaderNodeBsdfSheen", ["ShaderNodeOctUniversalMat"; "OctaneUniversalMaterial"]);
    ("ShaderNodeBsdfToon", ["ShaderNodeOctToonMat"; "OctaneToonMaterial"]);
    ("ShaderNodeBsdfHair", ["ShaderNodeOctHairMat"; "OctaneHairMaterial"; "ShaderNodeOctUniversalMat"]);
    ("ShaderNodeBsdfHairPrincipled", ["ShaderNodeOctHairMat"; "OctaneHairMaterial"; "ShaderNodeOctUniversalMat"]);
    ("ShaderNodeBsdfRayPortal", ["ShaderNodeOctNullMat"; "OctaneNullMaterial"]);
    ("ShaderNodeSubsurfaceScattering", ["ShaderNodeOctUniversalMat"; "OctaneUniversalMaterial"]);
    ("ShaderNodeBackground", ["ShaderNodeOctDiffuseMat"; "OctaneDiffuseMaterial"]);
    ("ShaderNodeHoldout", ["ShaderNodeOctNullMat"; "OctaneNullMaterial"]);
    ("ShaderNodeEeveeSpecular", ["ShaderNodeOctSpecularMat"; "OctaneSpecularMaterial"]);
    ("ShaderNodeTexImage", ["ShaderNodeOctImageTex"; "OctaneImageTexture"; "OctaneRGBImage"]);
    ("ShaderNodeTexNoise", ["ShaderNodeOctNoiseTex"; "OctaneNoiseTexture"]);
    ("ShaderNodeTexVoronoi", ["ShaderNodeOctVoronoiTex"; "OctaneVoronoiTexture"]);
    ("ShaderNodeTexWave", ["ShaderNodeOctWaveTex"; "OctaneWaveTexture"]);
    ("ShaderNodeTexMusgrave", ["ShaderNodeOctNoiseTex"; "OctaneNoiseTexture"]);
    ("ShaderNodeTexChecker", ["ShaderNodeOctChecksTex"; "OctaneChecksTexture"]);
    ("ShaderNodeTexBrick", ["ShaderNodeOctMarbleTex"; "OctaneMarbleTexture"]);
    ("ShaderNodeTexGradient", ["ShaderNodeOctGradientTex"; "OctaneGradientTexture"]);
    ("ShaderNodeTexEnvironment", ["ShaderNodeOctImageTex"; "OctaneImageTexture"; "OctaneRGBImage"]);
    ("ShaderNodeTexMagic", ["ShaderNodeOctMarbleTex"; "OctaneMarbleTexture"]);
    ("ShaderNodeTexSky", ["ShaderNodeOctDaylightEnv"; "OctaneDaylightEnvironment"]);
    ("ShaderNodeTexWhiteNoise", ["ShaderNodeOctNoiseTex"; "OctaneNoiseTexture"]);
    ("ShaderNodeTexGabor", ["ShaderNodeOctNoiseTex"; "OctaneNoiseTexture"]);
    ("ShaderNodeValToRGB", ["ShaderNodeOctGradientTex"; "OctaneGradientTexture"]);
    ("ShaderNodeMixRGB", ["ShaderNodeOctMixTex"; "OctaneMixTexture"]);
    ("ShaderNodeMix", ["ShaderNodeOctMixTex"; "OctaneMixTexture"]);
    ("ShaderNodeInvert", ["ShaderNodeOctInvertTex"; "OctaneInvertTexture"]);
    ("ShaderNodeHueSaturation", ["ShaderNodeOctColorCorrectionTex"; "OctaneColorCorrection"]);
    ("ShaderNodeBrightContrast", ["ShaderNodeOctColorCorrectionTex"; "OctaneColorCorrection"]);
    ("ShaderNodeGamma", ["ShaderNodeOctGammaCorrectionTex"; "OctaneGammaCorrection"]);
    ("ShaderNodeRGBCurves", ["ShaderNodeOctColorCorrectionTex"; "OctaneColorCorrection"]);
    ("ShaderNodeMath", ["ShaderNodeOctMathTex"; "ShaderNodeOctMath"; "ShaderNodeOctCyclesMath"; "ShaderNodeOctFloatMathTex"; "OctaneMath"; "OctaneFloatMath"]);
    ("ShaderNodeMapRange", ["ShaderNodeOctRangeTex"; "OctaneRange"]);
    ("ShaderNodeClamp", ["ShaderNodeOctClampTex"; "OctaneClamp"]);
    ("ShaderNodeRGBToBW", ["ShaderNodeOctColorCorrectionTex"; "OctaneColorCorrection"]);
    ("ShaderNodeBlackbody", ["ShaderNodeOctBlackBodyEmission"; "OctaneBlackBodyEmission"]);
    ("ShaderNodeWavelength", ["ShaderNodeOctRGBColorTex"; "OctaneRGBColor"]);
    ("ShaderNodeShaderToRGB", ["ShaderNodeOctMixTex"; "OctaneMixTexture"]);
    ("ShaderNodeMapping", ["ShaderNodeOct3DTransform"; "ShaderNodeOctFullTransform"; "OctaneTransform3D"]);
    ("ShaderNodeTexCoord", ["ShaderNodeOctMeshUVProjection"; "OctaneMeshUVProjection"]);
    ("ShaderNodeUVMap", ["ShaderNodeOctMeshUVProjection"; "OctaneMeshUVProjection"]);
    ("ShaderNodeNormalMap", ["ShaderNodeOctNormalMapTex"; "OctaneNormalTexture"; "OctaneNormalMap"; "ShaderNodeOctNormalMap"; "OctaneImageTexture"]);
    ("ShaderNodeBump", ["ShaderNodeOctBumpTex"; "OctaneBumpTexture"; "OctaneBumpMap"; "ShaderNodeOctBumpMap"]);
    ("ShaderNodeDisplacement", ["ShaderNodeOctDisplacementTex"; "OctaneDisplacement"]);
    ("ShaderNodeRGB", ["ShaderNodeOctRGBColorTex"; "OctaneRGBColor"]);
    ("ShaderNodeValue", ["ShaderNodeOctFloatTex"; "OctaneFloatValue"]);
    ("ShaderNodeFresnel", ["ShaderNodeOctFresnelTex"; "OctaneFresnel"]);
    ("ShaderNodeLayerWeight", ["ShaderNodeOctFresnelTex"; "OctaneFresnel"]);
    ("ShaderNodeVertexColor", ["ShaderNodeOctVertexColorTex"; "OctaneColorVertexAttribute"]);
    ("ShaderNodeAttribute", ["ShaderNodeOctAttributeTex"; "OctaneAttribute"]);
    ("ShaderNodeAmbientOcclusion", ["ShaderNodeOctDirtTex"; "OctaneDirtTexture"]);
    ("ShaderNodeVectorMath", ["ShaderNodeOctVectorMathTex"; "ShaderNodeOctVectorMath"; "ShaderNodeOctCyclesVectorMath"; "OctaneVectorMath"; "ShaderNodeOctAddTex"; "OctaneAddTexture"]);
    ("ShaderNodeVectorRotate", ["ShaderNodeOct3DTransform"; "OctaneTransform3D"]);
    ("ShaderNodeVectorTransform", ["ShaderNodeOct3DTransform"; "OctaneTransform3D"]);
    ("ShaderNodeVectorDisplacement", ["ShaderNodeOctDisplacementTex"; "OctaneDisplacement"]);
    ("ShaderNodeNormal", ["ShaderNodeOctNormalMapTex"; "OctaneNormalTexture"]);
    ("ShaderNodeTangent", ["ShaderNodeOctNormalMapTex"; "OctaneNormalTexture"]);
    ("ShaderNodeObjectInfo", ["ShaderNodeOctInstanceColorTex"; "OctaneInstanceColor"]);
    ("ShaderNodeCameraData", ["ShaderNodeOctFloatTex"]);
    ("ShaderNodeParticleInfo", ["ShaderNodeOctFloatTex"]);
    ("ShaderNodeHairInfo", ["ShaderNodeOctHairDataTex"; "OctaneHairData"]);
    ("ShaderNodeLightFalloff", ["ShaderNodeOctFalloffTex"; "OctaneFalloffTexture"]);
    ("ShaderNodeWireframe", ["ShaderNodeOctWireframeTex"; "OctaneWireframe"]);
    ("ShaderNodeBevel", ["ShaderNodeOctBevelTex"; "OctaneBevelTexture"]);
    ("ShaderNodeVolumeAbsorption", ["ShaderNodeOctAbsorptionMedium"; "OctaneAbsorptionMedium"]);
    ("ShaderNodeVolumeScatter", ["ShaderNodeOctScatterMedium"; "OctaneScatteringMedium"]);
    ("ShaderNodeVolumePrincipled", ["ShaderNodeOctVolumeMedium"; "OctaneVolumeMedium"; "ShaderNodeOctAbsorptionMedium"]);
    ("ShaderNodeVolumeInfo", ["ShaderNodeOctFloatTex"]) ].

(** Nodes that are passed through (no 1:1 node creation). *)
Definition PASSTHROUGH_TYPES : list string :=
  [ "ShaderNodeSeparateColor";
    "ShaderNodeSeparateRGB";
    "ShaderNodeSeparateXYZ";
    "ShaderNodeCombineColor";
    "ShaderNodeCombineRGB";
    "ShaderNodeCombineXYZ";
    "ShaderNodeNewGeometry";
    "ShaderNodeLightPath";
    "ShaderNodeOutputMaterial";
    "ShaderNodeGroup";
    "NodeReroute";
    "NodeFrame";
    "NodeGroupInput";
    "NodeGroupOutput" ].

(** Nodes to skip completely. *)
Definition SKIP_TYPES : list string :=
  [ "NodeFrame" ].

(** [BLEND_TYPE_MAP]: MixRGB blend_type -> specialised Octane node. *)
Definition BLEND_TYPE_MAP : dict (list string) :=
  [
    ("MULTIPLY", ["ShaderNodeOctMultiplyTex"; "OctaneMultiplyTexture"]);
    ("ADD", ["ShaderNodeOctAddTex"; "OctaneAddTexture"]);
    ("SUBTRACT", ["ShaderNodeOctSubtractTex"; "OctaneSubtractTexture"]);
    ("SCREEN", ["ShaderNodeOctMixTex"; "OctaneMixTexture"]);
    ("OVERLAY", ["ShaderNodeOctMixTex"; "OctaneMixTexture"]);
    ("DIFFERENCE", ["ShaderNodeOctSubtractTex"; "OctaneSubtractTexture"]) ].

Section Host.
(** What the host makes of [nodes.new(type)]: the sockets and attributes of
    a fresh node of the type, [None] for a type it has not registered; and
    the name it gives a node that asks for [name] while the names [taken]
    are in use. *)
Variable node_types : string -> option Node.
Variable unique_name : list string -> string -> string.

Definition with_label (node : Node) (label : string) : Node :=
  mkNode (node_name node) (node_idname node) label (node_location node)
    (node_inputs node) (node_outputs node) (node_props node)
    (node_image node) (node_color_ramp node).

Definition with_location (node : Node) (location : Q * Q) : Node :=
  mkNode (node_name node) (node_idname node) (node_label node) location
    (node_inputs node) (node_outputs node) (node_props node)
    (node_image node) (node_color_ramp node).

(** An assignment to an attribute of the node behind a reference. *)
Definition update_node (tree : NodeTree) (name : string) (f : Node -> Node)
  : NodeTree :=
  mkNodeTree
    ((fun n => if decide (node_name n = name) then f n else n) <$> tree_nodes tree)
    (tree_links tree).

(** [node_tree.nodes.new(type=idname)]: the reference to the new node. *)
Definition nodes_new (tree : NodeTree) (idname : string) : result (string * NodeTree) :=
  match node_types idname with
  | None => Raise RuntimeError
  | Some fresh =>
      let name := unique_name (node_name <$> tree_nodes tree) (node_name fresh) in
      Ok (name,
          mkNodeTree
            (tree_nodes tree ++
             [mkNode name idname (node_label fresh) (node_location fresh)
                (node_inputs fresh) (node_outputs fresh) (node_props fresh)
                (node_image fresh) (node_color_ramp fresh)])
            (tree_links tree))
  end.

(** [for idname in candidates: try: new_node = nodes.new(type=idname); ...;
    return new_node; except (RuntimeError, TypeError, KeyError): continue],
    with [label] standing for the assignment made to the new node. *)
Fixpoint create_first (tree : NodeTree) (candidates : list string)
    (label : Node -> Node) : result (option string * NodeTree) :=
  match candidates with
  | [] => Ok (None, tree)
  | idname :: rest =>
      match nodes_new tree idname with
      | Ok (name, tree') => Ok (Some name, update_node tree' name label)
      | Raise (RuntimeError | TypeError | KeyError) => create_first tree rest label
      | Raise e => Raise e
      end
  end.

(** [create_octane_node]: try to create an Octane node using the
    candidates list.  Returns the node or [None]. *)
Definition create_octane_node (node_tree : NodeTree) (cycles_type : string)
    (label : string) : result (option string * NodeTree) :=
  create_first node_tree (default [] (dict_get cycles_type NODE_TYPE_MAP))
    (fun new_node => if decide (label ≠ "") then with_label new_node label else new_node).

(** [bt in BLEND_TYPE_MAP] and [BLEND_TYPE_MAP[bt]]: a list is
    unhashable. *)
Definition blend_candidates (bt : Value) : result (option (list string)) :=
  match bt with
  | VStr s => Ok (dict_get s BLEND_TYPE_MAP)
  | VStops _ => Raise TypeError
  | _ => Ok None
  end.

(** [new_node.location = info.location; node_map[node_name] = new_node] *)
Definition place (node_map : NodeMap) (tree : NodeTree) (node_name : string)
    (info : NodeInfo) (new_node : string) : NodeMap * NodeTree :=
  (dict_set node_name new_node node_map,
   update_node tree new_node (fun n => with_location n (location info))).

(** The fallback RGB node made so that links do not break completely.
    The generic attributes [use_custom_color] and [color], which every
    node has, are not part of [Node]. *)
Definition create_fallback (node_map : NodeMap) (tree : NodeTree) (node_name : string)
    (info : NodeInfo) : NodeMap * NodeTree :=
  let unsupported := fun n => with_label n ("[UNSUPPORTED] " ++ label info) in
  match nodes_new tree "ShaderNodeOctRGBColorTex" with
  | Ok (fallback, tree') =>
      place node_map (update_node tree' fallback unsupported) node_name info fallback
  | Raise _ =>
      match nodes_new tree "OctaneRGBColor" with
      | Ok (fallback, tree') =>
          place node_map (update_node tree' fallback unsupported) node_name info fallback
      | Raise _ => (node_map, tree)
      end
  end.

(** The output node of the target tree, reused or created, with its
    target set to Octane. *)
Definition place_output (node_map : NodeMap) (tree : NodeTree) (node_name : string)
    (info : NodeInfo) : result (NodeMap * NodeTree) :=
  '(existing, tree) ←
    match list_find (fun n => node_idname n = "ShaderNodeOutputMaterial")
            (tree_nodes tree) with
    | Some (_, n) => Ok (Bpy.node_name n, tree)
    | None => nodes_new tree "ShaderNodeOutputMaterial"
    end;
  (* set target to Octane: AttributeError and TypeError are passed *)
  let tree :=
    update_node tree existing
      (fun n => default n (node_setattr n "target" (VStr "octane"))) in
  Ok (place node_map tree node_name info existing).

(** One turn of the loop of [create_nodes]. *)
Definition create_step (analysis : TreeAnalysis) (st : NodeMap * NodeTree)
    (node_name : string) : result (NodeMap * NodeTree) :=
  let '(node_map, target_tree) := st in
  match dict_get node_name (nodes analysis) with
  | None => Ok st
  | Some info =>
      let bl_id := bl_idname info in
      (* skip nodes that are handled separately or are passthrough *)
      if decide (bl_id ∈ SKIP_TYPES) then Ok st else
      if decide (bl_id ∈ PASSTHROUGH_TYPES) then
        (* for output material, reuse or create *)
        if decide (bl_id = "ShaderNodeOutputMaterial")
        then place_output node_map target_tree node_name info
        else Ok st
      else
      (* MixRGB / Mix: check blend_type for specialised node *)
      special ←
        (if decide (bl_id ∈ ["ShaderNodeMixRGB"; "ShaderNodeMix"])
         then blend_candidates
                (default (VStr "MIX") (dict_get "blend_type" (properties info)))
         else Ok None);
      match special with
      | Some candidates =>
          '(new_node, tree) ← create_first target_tree candidates
                                 (fun n => with_label n (label info));
          '(new_node, tree) ←
            match new_node with
            | Some new_node => Ok (Some new_node, tree)
            | None => create_octane_node tree bl_id (label info)
            end;
          match new_node with
          | Some new_node => Ok (place node_map tree node_name info new_node)
          | None => Ok (node_map, tree)
          end
      | None =>
          (* standard creation through the registry *)
          '(new_node, tree) ← create_octane_node target_tree bl_id (label info);
          match new_node with
          | Some new_node => Ok (place node_map tree node_name info new_node)
          | None => Ok (create_fallback node_map tree node_name info)
          end
      end
  end.

(** [create_nodes]: create Octane nodes in [target_tree] following the
    computed schedule.  Returns the mapping of original node name to new
    Octane node. *)
Definition create_nodes (set_iter : string -> gset string -> list string)
    (analysis : TreeAnalysis) (target_tree : NodeTree) : result (NodeMap * NodeTree) :=
  match GraphEngine.compute_schedule set_iter analysis with
  | None => Raise RecursionError
  | Some schedule => fold_result (create_step analysis) ([], target_tree) schedule
  end.

(** ** What [create_nodes] makes of a node of the analysis, read off the
    tables and the types the host has registered *)

(** The first candidate type that the host has registered. *)
Definition first_known (candidates : list string) : option string :=
  snd <$> list_find (fun idname => is_Some (node_types idname)) candidates.

(** Where the Octane node of a Cycles node comes from. *)
Inductive origin : Type :=
  | Reused      (* the output node of the target tree *)
  | Special     (* a candidate of [BLEND_TYPE_MAP] *)
  | Standard    (* a candidate of [NODE_TYPE_MAP] *)
  | Fallback.   (* the RGB node that stands in for an unsupported node *)

(** The origin and the type of the Octane node made for [info], if one is
    made. *)
Definition planned (info : NodeInfo) : option (origin * string) :=
  let bl_id := bl_idname info in
  let standard := default [] (dict_get bl_id NODE_TYPE_MAP) in
  if decide (bl_id ∈ SKIP_TYPES) then None else
  if decide (bl_id ∈ PASSTHROUGH_TYPES) then
    if decide (bl_id = "ShaderNodeOutputMaterial")
    then Some (Reused, "ShaderNodeOutputMaterial") else None
  else
  match (if decide (bl_id ∈ ["ShaderNodeMixRGB"; "ShaderNodeMix"])
         then blend_candidates
                (default (VStr "MIX") (dict_get "blend_type" (properties info)))
         else Ok None) with
  | Ok (Some candidates) =>
      match first_known candidates with
      | Some idname => Some (Special, idname)
      | None => (fun idname => (Standard, idname)) <$> first_known standard
      end
  | Ok None =>
      match first_known standard with
      | Some idname => Some (Standard, idname)
      | None =>
          (fun idname => (Fallback, idname)) <$>
          first_known ["ShaderNodeOctRGBColorTex"; "OctaneRGBColor"]
      end
  | Raise _ => None
  end.

(** The label of the node made for [info] out of the fresh node [fresh]. *)
Definition planned_label (info : NodeInfo) (made : origin) (fresh : Node) : string :=
  match made with
  | Special => label info
  | Standard => if decide (label info ≠ "") then label info else node_label fresh
  | Fallback => "[UNSUPPORTED] " ++ label info
  | Reused => node_label fresh
  end.

End Host.
End NodeCreation.
(* ===================================================================== *)
(** * core/gamma_system.py *)
(* ===================================================================== *)

Module GammaSystem.
Import Py Bpy ConversionEngine.

(** Socket names that should not receive gamma correction. *)
Definition _NON_COLOR_INPUTS : list string :=
  [ "Roughness"; "Roughness float";
    "Metallic"; "Metallic float";
    "Normal"; "Bump"; "ShaderNormal";
    "Coating normal"; "Coating bump";
    "Displacement"; "Height";
    "Opacity"; "Opacity float"; "Alpha";
    "Anisotropy"; "Anisotropy float";
    "Specular"; "Specular float";
    "SSS"; "Subsurface";
    "Density"; "Medium scale";
    "Coating"; "Coating float";
    "Sheen"; "Sheen float";
    "Coating roughness"; "Coating roughness float";
    "Sheen roughness"; "Sheen roughness float" ].

(** [link.to_socket.name]; a link whose end is not in the tree is a
    dangling reference. *)
Definition to_socket_name (node_tree : NodeTree) (link : NodeLink) : result string :=
  node ← deref node_tree (link_to_node link);
  match node_inputs node !! link_to_socket link with
  | Some sock => Ok (sock_name sock)
  | None => Raise ReferenceError
  end.

(** [_is_color_texture_link]: whether a link feeds into a colour input
    (not data). *)
Definition _is_color_texture_link (node_tree : NodeTree) (link : NodeLink)
  : result bool :=
  to_name ← to_socket_name node_tree link;
  Ok (bool_decide (to_name ∉ _NON_COLOR_INPUTS)).

Definition albedo_names : list string :=
  [ "Albedo color"; "Albedo"; "Diffuse";
    "Emission"; "Emission color";
    "Texture1"; "Texture2"; "Color1"; "Color2";
    "Reflection"; "Specular" ].

Definition image_types : list string :=
  [ "ShaderNodeOctImageTex"; "OctaneImageTexture"; "OctaneRGBImage" ].

(** The [result] list (nodes by name) and the [visited] set of the
    collection. *)
Definition Collected : Type := list string * gset string.

(** [_collect_image_nodes]: recursively collect the Octane image texture
    nodes feeding into a chain.  [fuel] bounds the recursion depth. *)
Fixpoint _collect_image_nodes (fuel : nat) (node_tree : NodeTree) (node : Node)
    (st : Collected) : result Collected :=
  match fuel with
  | O => Raise RecursionError
  | S fuel' =>
      let '(result, visited) := st in
      if decide (node_name node ∈ visited) then Ok st else
      let visited := {[node_name node]} ∪ visited in
      (* check if this is an image texture node *)
      if decide (node_idname node ∈ image_types)
      then Ok (result ++ [node_name node], visited)
      else
        (* recurse into inputs *)
        fold_result
          (fun st inp =>
             fold_result
               (fun st link =>
                  from_node ← deref node_tree (link_from_node link);
                  _collect_image_nodes fuel' node_tree from_node st)
               st (links_into node_tree (node_name node) inp))
          (result, visited) (seq 0 (length (node_inputs node)))
  end.

(** [_find_albedo_image_nodes]: the image texture nodes connected to
    albedo, base colour or diffuse inputs.  No chain of distinct nodes is
    longer than the tree has nodes. *)
Definition _find_albedo_image_nodes (node_tree : NodeTree) : result (list string) :=
  fst <$>
  fold_result
    (fun st link =>
       to_name ← to_socket_name node_tree link;
       if decide (to_name ∉ albedo_names) then Ok st else
       (* walk backward from this link to find image textures *)
       from_node ← deref node_tree (link_from_node link);
       _collect_image_nodes (S (length (tree_nodes node_tree))) node_tree from_node st)
    ([], ∅) (tree_links node_tree).

(** Method 2 of [apply_gamma]: the gamma input socket. *)
Fixpoint set_gamma_input (node : Node) (names : list string) (gamma_value : Q)
  : result (bool * Node) :=
  match names with
  | [] => Ok (false, node)
  | name :: rest =>
      match collection_find (node_inputs node) name with
      | Some (i, inp) =>
          match socket_assign inp (VNum gamma_value) with
          | Stored inp' => Ok (true, with_inputs node (<[i := inp']> (node_inputs node)))
          | Rejected => set_gamma_input node rest gamma_value
          | Failed e => Raise e
          end
      | None => set_gamma_input node rest gamma_value
      end
  end.

(** Try to set gamma on the node: the attribute first, then an input. *)
Definition set_gamma (node : Node) (gamma_value : Q) : result (bool * Node) :=
  (* method 1: direct gamma attribute *)
  let direct :=
    if decide (is_Some (dict_get "gamma" (node_props node)))
    then node_setattr node "gamma" (VNum gamma_value)
    else None in
  match direct with
  | Some node' => Ok (true, node')
  | None =>
      (* method 2: gamma input socket *)
      set_gamma_input node ["Gamma"; "Power"; "Legacy gamma"] gamma_value
  end.

(** Whether the image of the node is non-colour data already. *)
Definition is_non_color (node : Node) : bool :=
  match node_image node with
  | Some img => bool_decide (img_colorspace img ∈ ["Non-Color"; "Linear"; "Raw"])
  | None => false
  end.

(** One turn of the loop of [apply_gamma]. *)
Definition gamma_step (gamma_value : Q) (st : nat * NodeTree) (name : string)
  : result (nat * NodeTree) :=
  let '(count, tree) := st in
  node ← deref tree name;
  if is_non_color node then Ok st   (* skip non-colour data *)
  else
    '(gamma_set, node') ← set_gamma node gamma_value;
    if (gamma_set : bool) then Ok (S count, store_node tree node') else Ok st.

(** The body of [apply_gamma] for a material with a node tree: the number
    of nodes affected, and the tree. *)
Definition apply_gamma_to_tree (gamma_value : Q) (tree : NodeTree)
  : result (nat * NodeTree) :=
  image_nodes ← _find_albedo_image_nodes tree;
  fold_result (gamma_step gamma_value) (0, tree) image_nodes.

(** [apply_gamma]: apply gamma correction to the albedo image texture
    nodes of the material.  Returns the number of nodes affected. *)
Definition apply_gamma (material : option nat) (gamma_value : Q) : M nat :=
  match material with
  | None => mret 0
  | Some h =>
      m ← get_material h;
      match mat_node_tree m with
      | None => mret 0
      | Some _ => modify_tree_with h (apply_gamma_to_tree gamma_value)
      end
  end.

(** [update_material_gamma]: re-apply gamma to an already converted
    material. *)
Definition update_material_gamma (material : option nat) (gamma_value : Q) : M nat :=
  apply_gamma material gamma_value.

(** [update_all_materials_gamma]: re-apply gamma to a list of converted
    materials. *)
Definition update_all_materials_gamma (materials : list (option nat))
    (gamma_value : Q) : M nat :=
  for_each (fun total mat => n ← apply_gamma mat gamma_value; mret (total + n))
    0 materials.

End GammaSystem.
(* ===================================================================== *)
(** * Concrete inputs used to exercise the definitions *)
(* ===================================================================== *)

Module Examples.
Import Py ShaderDetection.

Definition bare_node (node_name idname : string) : NodeInfo :=
  mkNodeInfo node_name idname node_name (0%Q, 0%Q) [] [] [] [] [].

Definition link (src src_sock dst dst_sock : string) (idx : Z) : LinkInfo :=
  mkLinkInfo src src_sock dst dst_sock src_sock dst_sock idx.

(** Two image textures feeding a Principled BSDF that feeds the output. *)
Definition textured_analysis : TreeAnalysis :=
  mkTreeAnalysis
    [ ("Material Output", bare_node "Material Output" "ShaderNodeOutputMaterial");
      ("Principled BSDF", bare_node "Principled BSDF" "ShaderNodeBsdfPrincipled");
      ("Albedo", bare_node "Albedo" "ShaderNodeTexImage");
      ("Mapping", bare_node "Mapping" "ShaderNodeMapping");
      ("Rough", bare_node "Rough" "ShaderNodeTexImage") ]
    [ link "Principled BSDF" "BSDF" "Material Output" "Surface" 0;
      link "Albedo" "Color" "Principled BSDF" "Base Color" 0;
      link "Rough" "Color" "Principled BSDF" "Roughness" 2;
      link "Mapping" "Vector" "Albedo" "Vector" 0;
      link "Mapping" "Vector" "Rough" "Vector" 0 ]
    false false false false false false false false 0%Q.

(** Python's iteration order, here the order of [elements]. *)
Definition elements_iter (_ : string) (s : gset string) : list string :=
  elements s.

(** A rank that grows along every link of [textured_analysis]. *)
Definition textured_rank (n : string) : nat :=
  if decide (n = "Mapping") then 0
  else if decide (n = "Albedo") then 1
  else if decide (n = "Rough") then 1
  else if decide (n = "Principled BSDF") then 2
  else 3.

(** A target node whose sockets are spelled in another letter case than
    the registry candidates. *)
Definition shouting_material : Bpy.Node :=
  Bpy.mkNode "Universal material" "OctaneUniversalMaterial" "" (0%Q, 0%Q)
    [ Bpy.mkNodeSocket "ROUGHNESS" "ROUGHNESS" (Some (VNum 0.5%Q));
      Bpy.mkNodeSocket "albedo" "albedo" (Some (VTuple [0.8; 0.8; 0.8; 1]%Q)) ]
    [ Bpy.mkNodeSocket "Material out" "Material out" None ]
    [] None None.

(** A target node whose only output has an unrelated name. *)
Definition oddly_named_node : Bpy.Node :=
  Bpy.mkNode "Custom" "OctaneCustom" "" (0%Q, 0%Q)
    [] [ Bpy.mkNodeSocket "Result" "Result" None ] [] None None.

(** A Principled BSDF with the given transmission weight, emission colour
    and emission strength; the base colour is a dark red. *)
Definition principled (tw : Q) (em_color : list Q) (em_strength : Q) : Bpy.Node :=
  Bpy.mkNode "Principled BSDF" "ShaderNodeBsdfPrincipled" "" (0%Q, 0%Q)
    [ Bpy.mkNodeSocket "Base Color" "Base Color" (Some (VTuple [0.8; 0.1; 0.1; 1]%Q));
      Bpy.mkNodeSocket "Metallic" "Metallic" (Some (VNum 0%Q));
      Bpy.mkNodeSocket "Roughness" "Roughness" (Some (VNum 0.5%Q));
      Bpy.mkNodeSocket "Transmission Weight" "Transmission Weight" (Some (VNum tw));
      Bpy.mkNodeSocket "Emission Color" "Emission Color" (Some (VTuple em_color));
      Bpy.mkNodeSocket "Emission Strength" "Emission Strength" (Some (VNum em_strength)) ]
    [ Bpy.mkNodeSocket "BSDF" "BSDF" None ]
    [] None None.

Definition black : list Q := [0; 0; 0; 1]%Q.

(** A freshly created Octane universal material. *)
Definition universal_material : Bpy.Node :=
  Bpy.mkNode "Universal material" "OctaneUniversalMaterial" "" (0%Q, 0%Q)
    [ Bpy.mkNodeSocket "Transmission" "Transmission" (Some (VTuple [0; 0; 0; 1]%Q));
      Bpy.mkNodeSocket "Albedo color" "Albedo color" (Some (VTuple [0.7; 0.7; 0.7; 1]%Q));
      Bpy.mkNodeSocket "Metallic" "Metallic" (Some (VNum 0%Q));
      Bpy.mkNodeSocket "Roughness" "Roughness" (Some (VNum 0.06%Q));
      Bpy.mkNodeSocket "Emission" "Emission" None ]
    [ Bpy.mkNodeSocket "Material out" "Material out" None ]
    [ ("fake_shadows", VBool false); ("surface_brightness", VBool false) ]
    None None.

(** The snapshot of [principled tw em_color em_strength] taken by the
    analysis ([snapshot_node] evaluated). *)
Definition principled_info (tw : Q) (em_color : list Q) (em_strength : Q) : NodeInfo :=
  mkNodeInfo "Principled BSDF" "ShaderNodeBsdfPrincipled" "Principled BSDF" (0%Q, 0%Q)
    [ ("Base Color", Some (VTuple [0.8; 0.1; 0.1; 1]%Q));
      ("Metallic", Some (VNum 0%Q));
      ("Roughness", Some (VNum 0.5%Q));
      ("Transmission Weight", Some (VNum tw));
      ("Emission Color", Some (VTuple em_color));
      ("Emission Strength", Some (VNum em_strength)) ]
    [ ("BSDF", None) ]
    []
    [ ("Base Color", "Base Color"); ("Metallic", "Metallic");
      ("Roughness", "Roughness");
      ("Transmission Weight", "Transmission Weight");
      ("Emission Color", "Emission Color");
      ("Emission Strength", "Emission Strength") ]
    [ ("BSDF", "BSDF") ].


(** A tree holding one Principled BSDF with a black emission colour and an
    emission strength of 5. *)
Definition strength_only_tree : Bpy.NodeTree :=
  Bpy.mkNodeTree [principled 0 black 5] [].

(** A Mix Shader of a diffuse and a glossy shader. *)
Definition mix_analysis : TreeAnalysis :=
  mkTreeAnalysis
    [ ("Material Output", bare_node "Material Output" "ShaderNodeOutputMaterial");
      ("Mix Shader", bare_node "Mix Shader" "ShaderNodeMixShader");
      ("Diffuse BSDF", bare_node "Diffuse BSDF" "ShaderNodeBsdfDiffuse");
      ("Glossy BSDF", bare_node "Glossy BSDF" "ShaderNodeBsdfGlossy") ]
    [ link "Mix Shader" "Shader" "Material Output" "Surface" 0;
      mkLinkInfo "Diffuse BSDF" "BSDF" "Mix Shader" "Shader" "BSDF" "Shader" 1;
      mkLinkInfo "Glossy BSDF" "BSDF" "Mix Shader" "Shader" "BSDF" "Shader_001" 2 ]
    false false false false false false false false 0%Q.

Definition mix_node_map : dict string :=
  [ ("Material Output", "Material Output");
    ("Mix Shader", "Mix material");
    ("Diffuse BSDF", "Diffuse material");
    ("Glossy BSDF", "Glossy material") ].

Definition octane_node (node_name idname : string) (ins outs : list string) : Bpy.Node :=
  Bpy.mkNode node_name idname "" (0%Q, 0%Q)
    ((fun n => Bpy.mkNodeSocket n n None) <$> ins)
    ((fun n => Bpy.mkNodeSocket n n None) <$> outs) [] None None.

(** The lowered tree, with the diffuse material in slot 1 and the glossy
    material in slot 2 of the mix material. *)
Definition mix_tree : Bpy.NodeTree :=
  Bpy.mkNodeTree
    [ octane_node "Material Output" "ShaderNodeOutputMaterial" ["Surface"] [];
      octane_node "Mix material" "OctaneMixMaterial"
        ["Amount"; "Material1"; "Material2"] ["Material out"];
      octane_node "Diffuse material" "OctaneDiffuseMaterial" [] ["Material out"];
      octane_node "Glossy material" "OctaneGlossyMaterial" [] ["Material out"] ]
    [ Bpy.mkNodeLink "Mix material" 0 "Material Output" 0;
      Bpy.mkNodeLink "Diffuse material" 0 "Mix material" 1;
      Bpy.mkNodeLink "Glossy material" 0 "Mix material" 2 ].

(** An object scaled by (2, 3, 4), and the lowering of a Mapping node. *)
Definition scaled_object : Bpy.Object :=
  Bpy.mkObject "Cube" (2, 3, 4)%Q (Some []).

Definition mapping_node_map : dict string := [ ("Mapping", "3D transformation") ].

Definition transform_node : Bpy.Node :=
  Bpy.mkNode "3D transformation" "Octane3DTransformation" "" (0%Q, 0%Q)
    [ Bpy.mkNodeSocket "Rotation" "Rotation" (Some (VTuple [0; 0; 0]%Q));
      Bpy.mkNodeSocket "Scale" "Scale" (Some (VTuple [1; 1; 1]%Q)) ]
    [ Bpy.mkNodeSocket "Transform out" "Transform out" None ] [] None None.

Definition mapping_tree : Bpy.NodeTree := Bpy.mkNodeTree [transform_node] [].

(** The scale socket of the lowered Mapping node in a tree. *)
Definition mapping_scale (tree : Bpy.NodeTree) : option Value :=
  Bpy.tree_node tree "3D transformation"
    ≫= fun node => Bpy.node_inputs node !! 1 ≫= Bpy.sock_default.

(** A host for running the orchestration: names are made unique by a
    suffix, and the host-made steps leave the tree as it is. *)
Definition host_unique_name (taken : list string) (base : string) : string :=
  if decide (base ∈ taken) then base ++ ".001" else base.

Definition idle_step {A B} (_ : A) (_ : B) (tree : Bpy.NodeTree)
  : result Bpy.NodeTree := Ok tree.

Definition host_convert_material :=
  ConversionEngine.convert_material host_unique_name
    (fun _ tree => Ok ([], tree)) (fun _ _ tree => tree)
    idle_step (fun _ node_map tree => Ok (node_map, tree))
    idle_step idle_step idle_step idle_step
    (fun _ tree => Ok tree) (fun _ _ _ tree => Ok tree).



(** A material made of one Principled BSDF and the output node. *)
Definition simple_tree : Bpy.NodeTree :=
  Bpy.mkNodeTree
    [ octane_node "Material Output" "ShaderNodeOutputMaterial" ["Surface"] [];
      principled 0 black 0 ]
    [ Bpy.mkNodeLink "Principled BSDF" 0 "Material Output" 0 ].

(** A cube with two materials, selected for conversion. *)
Definition two_material_world : ConversionEngine.World :=
  ConversionEngine.mkWorld
    [ Bpy.mkMaterial "Red" true (Some simple_tree);
      Bpy.mkMaterial "Blue" true (Some simple_tree) ]
    [ Bpy.mkObject "Cube" (1, 1, 1)%Q (Some [Some 0; Some 1]) ]
    (Some 0) "ACTIVE" 2.2%Q Cache.empty.

End Examples.
(* ===================================================================== *)
(** * Further concrete inputs *)
(* ===================================================================== *)

Module Fixtures.
Import Py Bpy ShaderDetection.

(** An analysis whose links form a cycle (two Math nodes feeding each
    other) next to a node that nothing connects to the output. *)
Definition looping_analysis : TreeAnalysis :=
  mkTreeAnalysis
    [ ("Material Output", Examples.bare_node "Material Output" "ShaderNodeOutputMaterial");
      ("Math", Examples.bare_node "Math" "ShaderNodeMath");
      ("Math.001", Examples.bare_node "Math.001" "ShaderNodeMath");
      ("Loose", Examples.bare_node "Loose" "ShaderNodeRGB") ]
    [ Examples.link "Math" "Value" "Material Output" "Surface" 0;
      Examples.link "Math.001" "Value" "Math" "Value" 0;
      Examples.link "Math" "Value" "Math.001" "Value" 0 ]
    false false false false false false false false 0%Q.


Definition socket (n : string) (v : option Value) : NodeSocket := mkNodeSocket n n v.

Definition wood_image : Image := mkImage "wood.png" "//textures/wood.png" "sRGB".

(** An image texture feeding a Principled BSDF three times: through a
    reroute, through a Separate Color node and, from its Alpha output,
    directly.  A frame and an unconnected Bump node sit beside them. *)
Definition rerouted_tree : NodeTree :=
  mkNodeTree
    [ mkNode "Material Output" "ShaderNodeOutputMaterial" "" (300, 0)%Q
        [socket "Surface" None; socket "Volume" None; socket "Displacement" None]
        [] [] None None;
      mkNode "Principled BSDF" "ShaderNodeBsdfPrincipled" "" (0, 0)%Q
        [ socket "Base Color" (Some (VTuple [0.8; 0.8; 0.8; 1]%Q));
          socket "Metallic" (Some (VNum 0%Q));
          socket "Roughness" (Some (VNum 0.5%Q));
          socket "Alpha" (Some (VNum 1%Q)) ]
        [socket "BSDF" None] [] None None;
      mkNode "Image Texture" "ShaderNodeTexImage" "Wood" (-600, 0)%Q
        [socket "Vector" (Some (VTuple [0; 0; 0]%Q))]
        [ socket "Color" (Some (VTuple [0; 0; 0; 1]%Q));
          socket "Alpha" (Some (VNum 1%Q)) ]
        [("interpolation", VStr "Linear"); ("projection", VStr "FLAT");
         ("extension", VStr "REPEAT")]
        (Some wood_image) None;
      mkNode "Reroute" "NodeReroute" "" (-300, 100)%Q
        [socket "Input" None] [socket "Output" None] [] None None;
      mkNode "Frame" "NodeFrame" "Textures" (-650, 50)%Q [] [] [] None None;
      mkNode "Separate Color" "ShaderNodeSeparateColor" "" (-300, -100)%Q
        [socket "Color" (Some (VTuple [0.8; 0.8; 0.8; 1]%Q))]
        [ socket "Red" (Some (VNum 0%Q)); socket "Green" (Some (VNum 0%Q));
          socket "Blue" (Some (VNum 0%Q)) ]
        [] None None;
      mkNode "Bump" "ShaderNodeBump" "" (-300, -300)%Q
        [ socket "Strength" (Some (VNum 1%Q)); socket "Height" (Some (VNum 1%Q)) ]
        [socket "Normal" (Some (VTuple [0; 0; 0]%Q))]
        [("invert", VBool false)] None None ]
    [ mkNodeLink "Image Texture" 0 "Reroute" 0;
      mkNodeLink "Reroute" 0 "Principled BSDF" 0;
      mkNodeLink "Image Texture" 1 "Principled BSDF" 3;
      mkNodeLink "Image Texture" 0 "Separate Color" 0;
      mkNodeLink "Separate Color" 0 "Principled BSDF" 2;
      mkNodeLink "Principled BSDF" 0 "Material Output" 0 ].

(** The analysis of [rerouted_tree] ([analyze_tree] evaluated). *)
Definition rerouted_analysis : TreeAnalysis :=
  Eval vm_compute in
    match analyze_tree rerouted_tree with
    | Ok analysis => analysis
    | Raise _ => empty_analysis
    end.


(** A Math node: two inputs displayed as Value, told apart by identifier. *)
Definition math_node : Node :=
  mkNode "Math" "ShaderNodeMath" "" (0, 0)%Q
    [ mkNodeSocket "Value" "Value" (Some (VNum 0.5%Q));
      mkNodeSocket "Value" "Value_001" (Some (VNum 2%Q));
      mkNodeSocket "Value" "Value_002" None ]
    [socket "Value" (Some (VNum 0%Q))]
    [("operation", VStr "MULTIPLY"); ("use_clamp", VBool false)] None None.

(** The snapshot of [math_node] ([snapshot_node] evaluated). *)
Definition math_info : NodeInfo :=
  Eval vm_compute in
    match snapshot_node math_node with
    | Ok info => info
    | Raise _ => Examples.bare_node "" ""
    end.

(** The Octane nodes of [Examples.mix_tree] before any link is made. *)
Definition unlinked_mix_tree : NodeTree :=
  mkNodeTree (tree_nodes Examples.mix_tree) [].

(** A Principled BSDF with an image texture (colour and alpha), a normal
    map fed by a second image, and two volume shaders. *)
Definition foggy_analysis : TreeAnalysis :=
  mkTreeAnalysis
    [ ("Material Output", Examples.bare_node "Material Output" "ShaderNodeOutputMaterial");
      ("Principled BSDF", Examples.bare_node "Principled BSDF" "ShaderNodeBsdfPrincipled");
      ("Image Texture", Examples.bare_node "Image Texture" "ShaderNodeTexImage");
      ("Volume Absorption", Examples.bare_node "Volume Absorption" "ShaderNodeVolumeAbsorption");
      ("Volume Scatter", Examples.bare_node "Volume Scatter" "ShaderNodeVolumeScatter");
      ("Normal Map", Examples.bare_node "Normal Map" "ShaderNodeNormalMap");
      ("Normal Image", Examples.bare_node "Normal Image" "ShaderNodeTexImage") ]
    [ Examples.link "Principled BSDF" "BSDF" "Material Output" "Surface" 0;
      Examples.link "Image Texture" "Color" "Principled BSDF" "Base Color" 0;
      Examples.link "Image Texture" "Alpha" "Principled BSDF" "Alpha" 4;
      Examples.link "Volume Scatter" "Volume" "Material Output" "Volume" 1;
      Examples.link "Normal Image" "Color" "Normal Map" "Color" 1;
      Examples.link "Normal Map" "Normal" "Principled BSDF" "Normal" 5 ]
    false true true true false true false false 0%Q.

Definition foggy_node_map : dict string :=
  [ ("Material Output", "Material Output");
    ("Principled BSDF", "Universal material");
    ("Image Texture", "Image texture");
    ("Volume Absorption", "Absorption");
    ("Volume Scatter", "Scattering");
    ("Normal Map", "RGB color");
    ("Normal Image", "Image texture.001") ].

(** The Octane nodes made for [foggy_analysis], the Normal Map by an
    [UNSUPPORTED] stand-in, before any link is made. *)
Definition foggy_tree : NodeTree :=
  mkNodeTree
    [ Examples.octane_node "Material Output" "ShaderNodeOutputMaterial"
        ["Surface"; "Volume"] [];
      mkNode "Universal material" "OctaneUniversalMaterial" "" (0, 0)%Q
        [ socket "Albedo color" (Some (VTuple [0.7; 0.7; 0.7; 1]%Q));
          socket "Opacity" (Some (VNum 1%Q));
          socket "Normal" None;
          socket "Medium" None ]
        [socket "Material out" None]
        [("surface_brightness", VBool false)] None None;
      Examples.octane_node "Image texture" "OctaneRGBImage" ["Power"] ["Texture out"];
      Examples.octane_node "Absorption" "OctaneAbsorption" [] ["Medium out"];
      Examples.octane_node "Scattering" "OctaneScattering" [] ["Medium out"];
      mkNode "RGB color" "ShaderNodeOctRGBColorTex" "[UNSUPPORTED] Normal Map" (0, 0)%Q
        [] [socket "OutTex" None] [] None None;
      Examples.octane_node "Image texture.001" "OctaneRGBImage" ["Power"] ["Texture out"] ]
    [].

(** The passes evaluated on these trees. *)
Definition rebuilt_mix_tree : NodeTree :=
  Eval vm_compute in
    match ConversionPasses._rebuild_links Examples.mix_analysis Examples.mix_node_map
            unlinked_mix_tree with
    | Ok tree => tree
    | Raise _ => unlinked_mix_tree
    end.

Definition foggy_alpha_tree : NodeTree :=
  Eval vm_compute in
    match ConversionPasses._handle_alpha foggy_analysis foggy_node_map foggy_tree with
    | Ok tree => tree
    | Raise _ => foggy_tree
    end.

Definition foggy_volume_tree : NodeTree :=
  Eval vm_compute in
    match VolumetricHandler.handle_volumetrics foggy_analysis foggy_node_map foggy_tree with
    | Ok tree => tree
    | Raise _ => foggy_tree
    end.

Definition foggy_bright_tree : NodeTree :=
  Eval vm_compute in
    match ConversionPasses._handle_emission_post foggy_analysis foggy_node_map
            foggy_tree with
    | Ok tree => tree
    | Raise _ => foggy_tree
    end.

Definition foggy_fallback : dict string * NodeTree :=
  Eval vm_compute in
    match ConversionPasses._handle_normal_map_fallback foggy_analysis foggy_node_map
            foggy_tree with
    | Ok st => st
    | Raise _ => (foggy_node_map, foggy_tree)
    end.

(** A lowered material: a colour image and a greyscale image mixed into
    the albedo input, the greyscale image also feeding the roughness, and
    a third image feeding the normal input only. *)
Definition textured_octane_tree : NodeTree :=
  mkNodeTree
    [ Examples.octane_node "Material Output" "ShaderNodeOutputMaterial" ["Surface"] [];
      Examples.octane_node "Universal material" "OctaneUniversalMaterial"
        ["Albedo color"; "Roughness"; "Normal"] ["Material out"];
      Examples.octane_node "Mix texture" "OctaneMixTexture"
        ["Amount"; "Texture1"; "Texture2"] ["Texture out"];
      mkNode "Image texture" "OctaneRGBImage" "" (0, 0)%Q
        [socket "Power" (Some (VNum 1%Q)); socket "Legacy gamma" (Some (VNum 2.2%Q))]
        [socket "Texture out" None] []
        (Some (mkImage "wood.png" "//textures/wood.png" "sRGB")) None;
      mkNode "Image texture.001" "OctaneRGBImage" "" (0, 0)%Q
        [socket "Power" (Some (VNum 1%Q)); socket "Legacy gamma" (Some (VNum 2.2%Q))]
        [socket "Texture out" None] []
        (Some (mkImage "wood_rough.png" "//textures/wood_rough.png" "Non-Color")) None;
      mkNode "Image texture.002" "OctaneRGBImage" "" (0, 0)%Q
        [socket "Power" (Some (VNum 1%Q)); socket "Legacy gamma" (Some (VNum 2.2%Q))]
        [socket "Texture out" None] []
        (Some (mkImage "wood_normal.png" "//textures/wood_normal.png" "sRGB")) None ]
    [ mkNodeLink "Universal material" 0 "Material Output" 0;
      mkNodeLink "Mix texture" 0 "Universal material" 0;
      mkNodeLink "Image texture.001" 0 "Mix texture" 0;
      mkNodeLink "Image texture" 0 "Mix texture" 1;
      mkNodeLink "Image texture.001" 0 "Universal material" 1;
      mkNodeLink "Image texture.002" 0 "Universal material" 2 ].

(** A host that has registered four Octane node types, none of them for
    normal maps, and names new nodes apart from all names in use. *)
Definition octane_host (idname : string) : option Node :=
  if decide (idname = "OctaneUniversalMaterial") then
    Some (mkNode "Universal material" idname "" (0, 0)%Q
            [ socket "Albedo color" (Some (VTuple [0.7; 0.7; 0.7; 1]%Q));
              socket "Opacity" (Some (VNum 1%Q));
              socket "Normal" None;
              socket "Medium" None ]
            [socket "Material out" None]
            [("surface_brightness", VBool false)] None None)
  else if decide (idname = "OctaneRGBImage") then
    Some (Examples.octane_node "Image texture" idname ["Power"] ["Texture out"])
  else if decide (idname = "OctaneScatteringMedium") then
    Some (Examples.octane_node "Scattering" idname [] ["Medium out"])
  else if decide (idname = "ShaderNodeOctRGBColorTex") then
    Some (Examples.octane_node "RGB color" idname [] ["OutTex"])
  else None.

Definition fresh_name (taken : list string) (base : string) : string :=
  if decide (base ∈ taken)
  then base ++ "." ++ foldr String.append "" taken
  else base.

(** The target tree after it was cleared: the output node alone. *)
Definition output_only_tree : NodeTree :=
  mkNodeTree
    [ mkNode "Material Output" "ShaderNodeOutputMaterial" "" (0, 0)%Q
        [socket "Surface" None; socket "Volume" None] []
        [("target", VStr "ALL")] None None ]
    [].

(** [create_nodes] evaluated for [foggy_analysis] on this host. *)
Definition foggy_created : dict string * NodeTree :=
  Eval vm_compute in
    match NodeCreation.create_nodes octane_host fresh_name Examples.elements_iter
            foggy_analysis output_only_tree with
    | Ok st => st
    | Raise _ => ([], output_only_tree)
    end.

End Fixtures.

(* ===================================================================== *)
(** * Properties of the schedule builder *)
(* ===================================================================== *)

Section DependencyGraph.
Import Py ShaderDetection GraphEngine.

Lemma deps_get_setdefault k deps n :
  deps_get (setdefault k deps) n = deps_get deps n.
Proof.
  unfold setdefault, deps_get.
  destruct (deps !! k) eqn:Hk; [done|].
  destruct (decide (k = n)) as [->|Hne].
  - by rewrite lookup_insert_eq, Hk.
  - by rewrite lookup_insert_ne.
Qed.

Lemma deps_get_setdefault_add k x deps n d :
  d ∈ deps_get (setdefault_add k x deps) n ↔
  (k = n ∧ d = x) ∨ d ∈ deps_get deps n.
Proof.
  unfold setdefault_add, deps_get.
  destruct (decide (k = n)) as [->|Hne].
  - rewrite lookup_insert_eq. simpl. set_solver.
  - rewrite lookup_insert_ne by done. naive_solver.
Qed.

Lemma dom_setdefault k deps x :
  x ∈ dom (setdefault k deps) ↔ x = k ∨ x ∈ dom deps.
Proof.
  unfold setdefault. destruct (deps !! k) eqn:Hk.
  - split; [auto|]. intros [->|?]; [|done]. apply elem_of_dom; eauto.
  - rewrite dom_insert. set_solver.
Qed.

Lemma dom_setdefault_add k y deps x :
  x ∈ dom (setdefault_add k y deps) ↔ x = k ∨ x ∈ dom deps.
Proof. unfold setdefault_add. rewrite dom_insert. set_solver. Qed.

(** The first loop of [_build_dependency_graph] registers every node with
    an empty dependency set. *)
Lemma nodes_loop_spec (ks : list string) (deps : gmap string (gset string)) :
  let deps' := foldl (fun deps node_name => setdefault node_name deps) deps ks in
  (∀ n, deps_get deps' n = deps_get deps n) ∧
  (∀ x, x ∈ dom deps' ↔ x ∈ ks ∨ x ∈ dom deps).
Proof.
  revert deps. induction ks as [|k ks IH]; intros deps; simpl.
  - split; [done|]. set_solver.
  - destruct (IH (setdefault k deps)) as [IH1 IH2]. split.
    + intros n. by rewrite IH1, deps_get_setdefault.
    + intros x. rewrite IH2, dom_setdefault. set_solver.
Qed.

(** The second loop adds, for every link, its source to the dependency set
    of its destination, and registers both ends. *)
Lemma links_loop_spec (ls : list LinkInfo) (deps : gmap string (gset string)) :
  let deps' :=
    foldl (fun deps link =>
             setdefault (from_node link)
               (setdefault_add (to_node link) (from_node link) deps)) deps ls in
  (∀ n d, d ∈ deps_get deps' n ↔
          d ∈ deps_get deps n ∨ ∃ l, l ∈ ls ∧ from_node l = d ∧ to_node l = n) ∧
  (∀ x, x ∈ dom deps' ↔
        x ∈ dom deps ∨ ∃ l, l ∈ ls ∧ (from_node l = x ∨ to_node l = x)).
Proof.
  revert deps. induction ls as [|l ls IH]; intros deps; simpl.
  - split; intros; set_solver.
  - destruct (IH (setdefault (from_node l)
                    (setdefault_add (to_node l) (from_node l) deps))) as [IH1 IH2].
    split.
    + intros n d. rewrite IH1, deps_get_setdefault, deps_get_setdefault_add.
      split.
      * intros [[[<- ->]|?]|(l' & ? & ? & ?)]; [right; exists l|by left|right; exists l'];
          set_solver.
      * intros [?|(l' & [->|?]%elem_of_cons & <- & <-)]; [by left; right| by left; left |].
        right. by exists l'.
    + intros x. rewrite IH2, dom_setdefault, dom_setdefault_add.
      split.
      * intros [[->|[->|?]]|(l' & ? & ?)];
          [right; exists l|right; exists l|by left|right; exists l']; set_solver.
      * intros [?|(l' & [->|?]%elem_of_cons & Hx)].
        -- left; right; by right.
        -- left. destruct Hx as [<-|<-]; [by left|right; by left].
        -- right. by exists l'.
Qed.

(** [_deps] holds exactly the link relation. *)
Lemma build_dependency_graph_upstream analysis d n :
  upstream (_build_dependency_graph analysis) d n ↔ link_edge analysis d n.
Proof.
  unfold upstream, _build_dependency_graph, link_edge.
  destruct (links_loop_spec (links analysis)
    (foldl (fun deps node_name => setdefault node_name deps) ∅
       (dict_keys (nodes analysis)))) as [H1 _].
  rewrite H1.
  destruct (nodes_loop_spec (dict_keys (nodes analysis)) ∅) as [H2 _].
  rewrite H2. unfold deps_get at 1. rewrite lookup_empty. simpl. set_solver.
Qed.

(** Every node of the analysis is a key of [_deps]. *)
Lemma build_dependency_graph_nodes analysis x :
  x ∈ dict_keys (nodes analysis) → x ∈ dom (_build_dependency_graph analysis).
Proof.
  intros Hx. unfold _build_dependency_graph.
  apply links_loop_spec. left. apply nodes_loop_spec. by left.
Qed.

(** Every dependency is itself a key of [_deps]. *)
Lemma build_dependency_graph_closed analysis d n :
  upstream (_build_dependency_graph analysis) d n →
  d ∈ dom (_build_dependency_graph analysis).
Proof.
  intros (l & Hl & Hd & Hn)%build_dependency_graph_upstream.
  unfold _build_dependency_graph. apply links_loop_spec. right.
  exists l. auto.
Qed.

End DependencyGraph.

Section Visit.
Import Py ShaderDetection GraphEngine.
Variable deps : gmap string (gset string).
Variable set_iter : string -> gset string -> list string.
Hypothesis set_iter_perm : iterates_sets set_iter.
Hypothesis deps_acyclic : ∀ n, ¬ tc (upstream deps) n n.

Local Abbreviation visit_ok n st st' :=
  (visit_inv deps st → (∀ g, in_progress st g → tc (upstream deps) n g) →
   visit_post deps st st' ∧ n ∈ _visited st').

Lemma before_app_r l new d x : before l d x → before (l ++ new) d x.
Proof.
  intros (l1 & l2 & -> & Hd). exists l1, (l2 ++ new). split; [|done].
  by rewrite <- app_assoc.
Qed.

Lemma visit_post_refl st : visit_inv deps st → visit_post deps st st.
Proof. intros Hinv. split; [done|by exists []; rewrite app_nil_r|done|done]. Qed.

Lemma visit_post_trans st1 st2 st3 :
  visit_post deps st1 st2 → visit_post deps st2 st3 → visit_post deps st1 st3.
Proof.
  intros [_ [n1 E1] V1 P1] [I2 [n2 E2] V2 P2]. split; [done| | |].
  - exists (n1 ++ n2). by rewrite E2, E1, app_assoc.
  - set_solver.
  - intros x. by rewrite P2.
Qed.

(** The loop over a dependency set, given that each single visit behaves. *)
Lemma visit_each_post (visit : string -> VisitState -> option VisitState) :
  (∀ n st st', visit n st = Some st' → visit_ok n st st') →
  ∀ ds st st',
    visit_each visit ds st = Some st' →
    visit_inv deps st →
    (∀ g d, in_progress st g → d ∈ ds → tc (upstream deps) d g) →
    visit_post deps st st' ∧ ∀ d, d ∈ ds → d ∈ _visited st'.
Proof.
  intros Hvisit ds. induction ds as [|d ds IH]; intros st st' Hrun Hinv Hprog.
  - simpl in Hrun. injection Hrun as <-. split; [by apply visit_post_refl|].
    intros d Hd. by apply elem_of_nil in Hd.
  - simpl in Hrun. destruct (visit d st) as [st1|] eqn:Hd; [|done].
    destruct (Hvisit _ _ _ Hd Hinv) as [Hp1 Hd1].
    { intros g Hg. apply (Hprog g d Hg). by left. }
    destruct (IH _ _ Hrun (post_inv _ _ _ Hp1)) as [Hp2 Hds].
    { intros g d' Hg Hd'. apply (Hprog g d'); [|by right].
      by apply (post_progress _ _ _ Hp1). }
    split; [by eapply visit_post_trans|].
    intros d' [->|Hd']%elem_of_cons; [|by apply Hds].
    by apply (post_visited _ _ _ Hp2).
Qed.

(** One call of [_visit]: partial correctness. *)
Lemma visit_post_holds fuel :
  ∀ n st st', _visit deps set_iter fuel n st = Some st' → visit_ok n st st'.
Proof.
  induction fuel as [|fuel IH]; intros n st st' Hrun Hinv Hprog; [done|].
  simpl in Hrun. destruct (decide (n ∈ _visited st)) as [Hin|Hnin].
  { injection Hrun as <-. split; [by apply visit_post_refl|done]. }
  set (st1 := mkVisitState ({[n]} ∪ _visited st) (_schedule st)) in *.
  destruct (visit_each _ _ st1) as [st2|] eqn:Heach; [|done].
  injection Hrun as <-.
  assert (Hnsched : n ∉ _schedule st).
  { intros Hn. by apply Hnin, (inv_visited _ _ Hinv). }
  assert (Hinv1 : visit_inv deps st1).
  { destruct Hinv as [H1 H2 H3]. split; simpl; [done| |done].
    intros x Hx. apply elem_of_union_r. by apply H2. }
  assert (Hprog1 : ∀ g, in_progress st1 g ↔ g = n ∨ in_progress st g).
  { intros g. unfold in_progress, st1. simpl. split.
    - intros [[ ->%elem_of_singleton|Hg]%elem_of_union Hns]; [by left|by right].
    - intros [->|[Hg Hns]]; split; try done; set_solver. }
  destruct (visit_each_post _ IH _ _ _ Heach Hinv1) as [Hp2 Hds].
  { intros g d Hg Hd. apply Hprog1 in Hg.
    assert (upstream deps d n) as Hedge.
    { unfold upstream. rewrite <- elem_of_elements, <- (set_iter_perm n). done. }
    destruct Hg as [->|Hg]; [by apply tc_once|].
    eapply tc_l; [exact Hedge|by apply Hprog]. }
  destruct Hp2 as [Hinv2 [new Hnew] Hvis2 Hprog2].
  assert (Hn2 : in_progress st2 n) by (apply Hprog2, Hprog1; by left).
  (* every dependency of [n] has been scheduled *)
  assert (Hdeps : ∀ d, upstream deps d n → d ∈ _schedule st2).
  { intros d Hd.
    assert (d ∈ _visited st2) as Hdv.
    { apply Hds. rewrite (set_iter_perm n), elem_of_elements. exact Hd. }
    destruct (decide (d ∈ _schedule st2)) as [|Hds2]; [done|exfalso].
    assert (in_progress st2 d) as Hdp by done.
    apply Hprog2, Hprog1 in Hdp. destruct Hdp as [->|Hdp].
    - by apply (deps_acyclic n), tc_once.
    - apply (deps_acyclic n). eapply tc_r; [by apply Hprog|done]. }
  split; [|simpl; apply Hn2].
  split; simpl.
  - (* invariant *)
    destruct Hinv2 as [H1 H2 H3]. split; simpl.
    + apply NoDup_app. split; [done|]. split; [|apply NoDup_singleton].
      intros x Hx ->%list_elem_of_singleton. by apply Hn2.
    + intros x [Hx| ->%list_elem_of_singleton]%elem_of_app; [by apply H2|apply Hn2].
    + intros x d [Hx| ->%list_elem_of_singleton]%elem_of_app Hd.
      * by apply before_app_r, H3.
      * exists (_schedule st2), []. split; [done|]. by apply Hdeps.
  - exists (new ++ [n]). rewrite Hnew. simpl. by rewrite app_assoc.
  - etrans; [|exact Hvis2]. simpl. set_solver.
  - intros x. unfold in_progress at 1. simpl. split.
    + intros [Hx Hnx]. apply not_elem_of_app in Hnx as [Hnx Hne].
      assert (in_progress st2 x) as Hxp by done.
      apply Hprog2, Hprog1 in Hxp. destruct Hxp as [->|]; [|done].
      exfalso. apply Hne. by left.
    + intros Hx. assert (in_progress st2 x) as [Hx1 Hx2].
      { apply Hprog2, Hprog1. by right. }
      split; [done|]. apply not_elem_of_app. split; [done|].
      intros ->%list_elem_of_singleton. by destruct Hx.
Qed.

End Visit.

(** Termination: a fuel larger than the number of unvisited keys suffices. *)
Section VisitRuns.
Import Py ShaderDetection GraphEngine.
Variable deps : gmap string (gset string).
Variable set_iter : string -> gset string -> list string.
Hypothesis set_iter_perm : iterates_sets set_iter.
Variable universe : gset string.
Hypothesis universe_closed : ∀ d n, upstream deps d n → d ∈ universe.

Lemma visit_each_runs fuel :
  (∀ n st,
     _visited st ⊆ universe → n ∈ universe →
     size (universe ∖ _visited st) < fuel →
     ∃ st', _visit deps set_iter fuel n st = Some st' ∧
            _visited st ⊆ _visited st' ∧ _visited st' ⊆ universe) →
  ∀ ds st,
    _visited st ⊆ universe → (∀ d, d ∈ ds → d ∈ universe) →
    size (universe ∖ _visited st) < fuel →
    ∃ st', visit_each (_visit deps set_iter fuel) ds st = Some st' ∧
           _visited st ⊆ _visited st' ∧ _visited st' ⊆ universe.
Proof.
  intros Hvisit ds. induction ds as [|d ds IH]; intros st Hsub Hds Hsize.
  - exists st. by simpl.
  - simpl. destruct (Hvisit d st Hsub) as (st1 & -> & Hs1 & Hu1); [set_solver|done|].
    destruct (IH st1 Hu1) as (st2 & -> & Hs2 & Hu2); [set_solver| |].
    + eapply Nat.le_lt_trans; [|exact Hsize].
      apply subseteq_size. set_solver.
    + exists st2. split; [done|]. split; [set_solver|done].
Qed.

Lemma visit_runs_holds fuel :
  ∀ n st,
    _visited st ⊆ universe → n ∈ universe →
    size (universe ∖ _visited st) < fuel →
    ∃ st', _visit deps set_iter fuel n st = Some st' ∧
           _visited st ⊆ _visited st' ∧ _visited st' ⊆ universe.
Proof.
  induction fuel as [|fuel IH]; intros n st Hsub Hn Hsize; [lia|].
  simpl. destruct (decide (n ∈ _visited st)) as [Hin|Hnin].
  { exists st. done. }
  set (st1 := mkVisitState ({[n]} ∪ _visited st) (_schedule st)).
  assert (size (universe ∖ _visited st1) < fuel) as Hsize1.
  { assert (universe ∖ _visited st = {[n]} ∪ universe ∖ _visited st1) as Heq.
    { unfold st1; simpl. apply set_eq. intros x.
      destruct (decide (x = n)); set_solver. }
    rewrite Heq, size_union, size_singleton in Hsize; [lia|].
    unfold st1; simpl. set_solver. }
  destruct (visit_each_runs fuel IH (set_iter n (deps_get deps n)) st1)
    as (st2 & -> & Hs2 & Hu2); [unfold st1; simpl; set_solver| |done|].
  - intros d Hd. apply (universe_closed d n). unfold upstream.
    by rewrite <- elem_of_elements, <- (set_iter_perm n).
  - eexists. split; [done|]. simpl. unfold st1 in Hs2; simpl in Hs2.
    split; [set_solver|done].
Qed.

End VisitRuns.

Section Schedule.
Import Py ShaderDetection GraphEngine.

Lemma before_lookup_lt (l : list string) d x i j :
  NoDup l → before l d x → l !! i = Some d → l !! j = Some x → i < j.
Proof.
  intros Hnd (l1 & l2 & -> & Hd) Hi Hj.
  apply list_elem_of_lookup in Hd as [k Hk].
  pose proof (lookup_lt_Some _ _ _ Hk) as Hlt.
  assert (i = k) as ->.
  { eapply NoDup_lookup; [exact Hnd|exact Hi|]. by rewrite lookup_app_l. }
  assert (j = length l1) as ->; [|done].
  eapply NoDup_lookup; [exact Hnd|exact Hj|].
  by rewrite list_lookup_middle.
Qed.

Lemma before_elem_of (l : list string) d x : before l d x → d ∈ l.
Proof. intros (l1 & l2 & -> & Hd). apply elem_of_app. by left. Qed.

Lemma tc_upstream_link_edge analysis x y :
  tc (upstream (_build_dependency_graph analysis)) x y → tc (link_edge analysis) x y.
Proof.
  induction 1 as [x y H|x y z H _ IH].
  - by apply tc_once, build_dependency_graph_upstream.
  - eapply tc_l; [|exact IH]. by apply build_dependency_graph_upstream.
Qed.

Lemma output_nodes_keys analysis x :
  x ∈ output_nodes analysis → x ∈ dict_keys (nodes analysis).
Proof.
  unfold output_nodes, dict_keys. rewrite !list_elem_of_fmap.
  intros (kv & -> & Hkv%list_elem_of_filter). exists kv. tauto.
Qed.

Lemma rank_increases_acyclic rank analysis :
  rank_increases rank analysis = true → acyclic analysis.
Proof.
  intros Hrank. unfold rank_increases in Hrank.
  rewrite forallb_forall in Hrank.
  assert (∀ x y, tc (link_edge analysis) x y → rank x < rank y) as Hlt.
  { induction 1 as [x y (l & Hl & <- & <-)|x y z (l & Hl & <- & <-) _ IH].
    - apply Nat.ltb_lt, Hrank. by apply list_elem_of_In.
    - etrans; [|exact IH]. apply Nat.ltb_lt, Hrank. by apply list_elem_of_In. }
  intros n Hn. apply Hlt in Hn. lia.
Qed.

(** C1. On an analysis whose links are acyclic, [compute_schedule] returns
    a schedule in which no node occurs twice and in which every scheduled
    node comes strictly after each of its upstream dependencies (the source
    node of every link into it), whatever order Python iterates the
    dependency sets in.  (Each such dependency is in fact scheduled.) *)
Theorem compute_schedule_valid set_iter analysis :
  iterates_sets set_iter →
  acyclic analysis →
  ∃ schedule,
    compute_schedule set_iter analysis = Some schedule ∧
    NoDup schedule ∧
    ∀ l, l ∈ links analysis → to_node l ∈ schedule →
      from_node l ∈ schedule ∧
      ∀ i j, schedule !! i = Some (from_node l) →
             schedule !! j = Some (to_node l) → i < j.
Proof.
  intros Hiter Hacyc. unfold compute_schedule.
  set (deps := _build_dependency_graph analysis).
  set (start := match _ with [] => _ | _ => _ end).
  set (st0 := mkVisitState ∅ []).
  assert (Hstart : ∀ x, x ∈ start → x ∈ dom deps).
  { intros x Hx. apply build_dependency_graph_nodes. unfold start in Hx.
    destruct (output_nodes analysis) eqn:Hf; [done|]. rewrite <- Hf in Hx.
    by apply output_nodes_keys. }
  assert (Hdeps : ∀ n, ¬ tc (upstream deps) n n).
  { intros n Hn. by apply (Hacyc n), tc_upstream_link_edge. }
  pose proof (build_dependency_graph_closed analysis) as Hclosed.
  destruct (visit_each_runs deps set_iter Hiter (dom deps) Hclosed
              (S (size (dom deps)))
              (visit_runs_holds deps set_iter Hiter (dom deps) Hclosed _)
              start st0)
    as (st' & Hrun & _); [done|exact Hstart| |].
  { simpl. apply Nat.lt_succ_r, subseteq_size. set_solver. }
  rewrite Hrun. simpl. exists (_schedule st'). split; [done|].
  destruct (visit_each_post deps set_iter Hiter Hdeps _
              (visit_post_holds deps set_iter Hiter Hdeps _) start st0 st' Hrun)
    as [[[Hnd _ Hsched] _ _ _] _].
  { split; simpl.
    - apply NoDup_nil_2.
    - by intros x Hx%elem_of_nil.
    - by intros x d Hx%elem_of_nil. }
  { intros g d [Hg _]. simpl in Hg. set_solver. }
  split; [done|]. intros l Hl Hto.
  assert (before (_schedule st') (from_node l) (to_node l)) as Hbefore.
  { apply Hsched; [done|]. apply build_dependency_graph_upstream. by exists l. }
  split; [by eapply before_elem_of|].
  intros i j Hi Hj. by eapply before_lookup_lt.
Qed.

Lemma compute_schedule_valid_witness :
  iterates_sets Examples.elements_iter ∧
  acyclic Examples.textured_analysis ∧
  ∃ schedule,
    compute_schedule Examples.elements_iter Examples.textured_analysis
      = Some schedule ∧
    NoDup schedule ∧
    ∀ l, l ∈ links Examples.textured_analysis → to_node l ∈ schedule →
      from_node l ∈ schedule ∧
      ∀ i j, schedule !! i = Some (from_node l) →
             schedule !! j = Some (to_node l) → i < j.
Proof.
  assert (iterates_sets Examples.elements_iter) as Hiter.
  { intros k s. reflexivity. }
  assert (acyclic Examples.textured_analysis) as Hacyc.
  { apply (rank_increases_acyclic Examples.textured_rank). vm_compute. reflexivity. }
  split; [exact Hiter|]. split; [exact Hacyc|].
  apply (compute_schedule_valid Examples.elements_iter Examples.textured_analysis
           Hiter Hacyc).
Defined.

(** The schedule of the example: leaves first, output last. *)
Example compute_schedule_textured :
  compute_schedule Examples.elements_iter Examples.textured_analysis
  = Some ["Mapping"; "Albedo"; "Rough"; "Principled BSDF"; "Material Output"].
Proof. vm_compute. reflexivity. Qed.

End Schedule.

(* ===================================================================== *)
(** * Properties of socket resolution *)
(* ===================================================================== *)

Section SocketResolution.
Import Py PyStr Bpy NodeRegistry.

Lemma or_else_None {A} (a b : option A) :
  a orelse b = None ↔ a = None ∧ b = None.
Proof. destruct a; simpl; naive_solver. Qed.

Lemma or_else_Some_l {A} (a b : option A) x : a = Some x → a orelse b = Some x.
Proof. by intros ->. Qed.

Lemma or_else_None_l {A} (a b : option A) : a = None → a orelse b = b.
Proof. by intros ->. Qed.

Lemma first_hit_None find candidates :
  (∀ c, c ∈ candidates → find c = None) → first_hit find candidates = None.
Proof.
  induction candidates as [|c cs IH]; intros Hnone; simpl; [done|].
  rewrite (Hnone c) by (by left). apply IH. intros c' Hc'. apply Hnone. by right.
Qed.

Lemma first_hit_Some find candidates i :
  first_hit find candidates = Some i → ∃ c, c ∈ candidates ∧ find c = Some i.
Proof.
  induction candidates as [|c cs IH]; simpl; [done|].
  destruct (find c) as [j|] eqn:Hc.
  - intros [= ->]. exists c. split; [by left|done].
  - intros (c' & Hc' & Hf)%IH. exists c'. split; [by right|done].
Qed.

Lemma first_hit_is_Some find candidates c :
  c ∈ candidates → is_Some (find c) → is_Some (first_hit find candidates).
Proof.
  induction candidates as [|c' cs IH]; intros Hin Hc; [by apply elem_of_nil in Hin|].
  simpl. destruct (find c') eqn:Hc'; [done|].
  apply elem_of_cons in Hin as [->|Hin]; [|by apply IH].
  rewrite Hc' in Hc. by destruct Hc.
Qed.

Lemma find_case_insensitive_Some collection name i :
  _find_socket_case_insensitive collection name = Some i →
  ∃ sock, collection !! i = Some sock ∧ lower (sock_name sock) = lower name.
Proof.
  unfold _find_socket_case_insensitive.
  destruct (list_find _ collection) as [[j sock]|] eqn:Hfind; [|done].
  intros [= <-]. apply list_find_Some in Hfind as (Hj & Hlow & _). eauto.
Qed.

Lemma find_case_insensitive_is_Some collection name sock :
  sock ∈ collection → lower (sock_name sock) = lower name →
  is_Some (_find_socket_case_insensitive collection name).
Proof.
  intros Hin Hlow. unfold _find_socket_case_insensitive.
  destruct (list_find (fun s => lower (sock_name s) = lower name) collection)
    as [[j s]|] eqn:Hfind; [done|].
  exfalso. eapply list_find_None, Forall_forall in Hfind; [|exact Hin]. done.
Qed.

(** C7. When the target node has no input named exactly like a registry
    candidate, an identifier-keyed candidate or the Cycles socket, but has
    one whose name matches a candidate or the Cycles socket name up to
    letter case, [resolve_input_socket] returns what strategies 4 and 5
    find: a socket matching up to case, whatever [socket_index] the
    positional fallback would have used. *)
Theorem resolve_input_socket_case_insensitive
    cycles_type cycles_socket_name octane_node socket_identifier socket_index :
  let inputs := node_inputs octane_node in
  let candidates := candidates_of INPUT_MAP cycles_type cycles_socket_name in
  let matches (sock : NodeSocket) :=
    (∃ cand, cand ∈ candidates ∧ lower (sock_name sock) = lower cand) ∨
    lower (sock_name sock) = lower cycles_socket_name in
  (∀ cand, cand ∈ candidates → collection_get inputs cand = None) →
  (∀ cand, cand ∈ candidates_of INPUT_MAP cycles_type socket_identifier →
           collection_get inputs cand = None) →
  collection_get inputs cycles_socket_name = None →
  (∃ sock, sock ∈ inputs ∧ matches sock) →
  ∃ i sock,
    resolve_input_socket cycles_type cycles_socket_name octane_node
      socket_identifier socket_index = Some i ∧
    input_strategy_4 cycles_type cycles_socket_name octane_node orelse
      input_strategy_5 cycles_socket_name octane_node = Some i ∧
    inputs !! i = Some sock ∧ matches sock.
Proof.
  intros inputs candidates matches H1 H2 H3 (sock & Hin & Hmatch).
  assert (input_strategy_1 cycles_type cycles_socket_name octane_node = None) as E1.
  { by apply first_hit_None. }
  assert (input_strategy_2 cycles_type cycles_socket_name octane_node
            socket_identifier = None) as E2.
  { unfold input_strategy_2. destruct (use_identifier _ _); [|done].
    by apply first_hit_None. }
  assert (∃ i, input_strategy_4 cycles_type cycles_socket_name octane_node orelse
               input_strategy_5 cycles_socket_name octane_node = Some i) as [i Hi].
  { destruct Hmatch as [(cand & Hcand & Hlow)|Hlow].
    - destruct (first_hit_is_Some
                  (_find_socket_case_insensitive inputs) candidates cand Hcand)
        as [i Hi].
      { by eapply find_case_insensitive_is_Some. }
      exists i. by apply or_else_Some_l.
    - destruct (input_strategy_4 cycles_type cycles_socket_name octane_node)
        as [i|] eqn:E4; [by exists i|]. simpl.
      by eapply find_case_insensitive_is_Some. }
  assert (∃ sock', inputs !! i = Some sock' ∧ matches sock') as (sock' & Hs & Hm).
  { destruct (input_strategy_4 cycles_type cycles_socket_name octane_node)
      as [j|] eqn:E4; simpl in Hi.
    - injection Hi as ->.
      apply first_hit_Some in E4 as (cand & Hcand & Hfind).
      apply find_case_insensitive_Some in Hfind as (sock' & Hs & Hlow).
      exists sock'. split; [done|]. left. eauto.
    - apply find_case_insensitive_Some in Hi as (sock' & Hs & Hlow).
      exists sock'. split; [done|]. by right. }
  exists i, sock'. split; [|done].
  unfold resolve_input_socket. rewrite E1, E2. simpl.
  unfold input_strategy_3. fold inputs. rewrite H3. simpl.
  destruct (input_strategy_4 cycles_type cycles_socket_name octane_node)
    as [j|] eqn:E4; simpl in *; [done|].
  by rewrite Hi.
Qed.

(** On [shouting_material] the socket "albedo" is found through the
    candidate "Albedo" although position 0 holds another socket. *)
Lemma resolve_input_socket_case_insensitive_witness :
  resolve_input_socket "ShaderNodeBsdfPrincipled" "Base Color"
    Examples.shouting_material "Base Color" 0 = Some 1 ∧
  input_strategy_7 Examples.shouting_material 0 = Some 0.
Proof.
  split; [|reflexivity].
  destruct (resolve_input_socket_case_insensitive
              "ShaderNodeBsdfPrincipled" "Base Color"
              Examples.shouting_material "Base Color" 0)
    as (i & sock & -> & Hi & _).
  - intros cand Hcand. vm_compute in Hcand.
    repeat (apply elem_of_cons in Hcand as [->|Hcand]; [reflexivity|]).
    by apply elem_of_nil in Hcand.
  - intros cand Hcand. vm_compute in Hcand.
    repeat (apply elem_of_cons in Hcand as [->|Hcand]; [reflexivity|]).
    by apply elem_of_nil in Hcand.
  - reflexivity.
  - exists (mkNodeSocket "albedo" "albedo" (Some (VTuple [0.8; 0.8; 0.8; 1]%Q))).
    split; [right; left|].
    left. exists "Albedo". split; [right; left|reflexivity].
  - vm_compute in Hi. by rewrite Hi.
Defined.

(** C10. [resolve_output_socket] returns [None] exactly when the target
    node has no output socket; when every named strategy misses on a node
    with outputs, the first output is returned. *)
Theorem resolve_output_socket_None_iff
    cycles_type cycles_socket_name octane_node socket_identifier :
  (resolve_output_socket cycles_type cycles_socket_name octane_node
     socket_identifier = None ↔ node_outputs octane_node = []) ∧
  (node_outputs octane_node ≠ [] →
   output_strategy_1 cycles_type cycles_socket_name octane_node = None →
   output_strategy_2 cycles_type cycles_socket_name octane_node
     socket_identifier = None →
   output_strategy_3 cycles_socket_name octane_node = None →
   output_strategy_4 cycles_type cycles_socket_name octane_node = None →
   output_strategy_5 cycles_socket_name octane_node = None →
   resolve_output_socket cycles_type cycles_socket_name octane_node
     socket_identifier = Some 0).
Proof.
  split; [split|].
  - unfold resolve_output_socket. rewrite !or_else_None.
    intros (_ & H6). unfold output_strategy_6 in H6.
    by destruct (node_outputs octane_node).
  - intros Hnil. unfold resolve_output_socket.
    unfold output_strategy_1, output_strategy_2, output_strategy_3,
      output_strategy_4, output_strategy_5, output_strategy_6,
      _find_socket_case_insensitive, _find_socket_substring, collection_get.
    rewrite Hnil. simpl.
    assert (∀ cands, first_hit (fun _ : string => @None nat) cands = None) as Hnone.
    { intros cands. by apply first_hit_None. }
    rewrite !Hnone. by destruct (use_identifier _ _).
  - intros Hne E1 E2 E3 E4 E5. unfold resolve_output_socket.
    rewrite E1, E2, E3, E4, E5. simpl. unfold output_strategy_6.
    by destruct (node_outputs octane_node).
Qed.

Lemma resolve_output_socket_None_iff_witness :
  resolve_output_socket "ShaderNodeBsdfPrincipled" "BSDF"
    Examples.oddly_named_node "BSDF" = Some 0.
Proof.
  apply (resolve_output_socket_None_iff "ShaderNodeBsdfPrincipled" "BSDF"
           Examples.oddly_named_node "BSDF"); [done|reflexivity..].
Defined.

End SocketResolution.

(* ===================================================================== *)
(** * Properties of the analysis flags and of the Principled transfer *)
(* ===================================================================== *)

Section Dicts.
Import Py.

Lemma dict_get_set_eq {V} (k : string) (v : V) (d : dict V) :
  dict_get k (dict_set k v d) = Some v.
Proof.
  induction d as [|[k' v'] d IH]; simpl.
  - by rewrite decide_True.
  - destruct (decide (k' = k)) as [->|Hne]; simpl.
    + by rewrite decide_True.
    + by rewrite decide_False.
Qed.

Lemma dict_get_set_ne {V} (k k0 : string) (v : V) (d : dict V) :
  k ≠ k0 → dict_get k0 (dict_set k v d) = dict_get k0 d.
Proof.
  intros Hne. induction d as [|[k' v'] d IH]; simpl.
  - by rewrite decide_False.
  - destruct (decide (k' = k)) as [->|Hne']; simpl.
    + by rewrite !decide_False.
    + destruct (decide (k' = k0)); [done|apply IH].
Qed.

End Dicts.

Section SetInput.
Import Py Bpy ShaderDetection PropertyMapper.

Lemma socket_assign_Stored inp value inp' :
  socket_assign inp value = Stored inp' →
  sock_name inp' = sock_name inp ∧
  value_shape (sock_default inp') = value_shape (sock_default inp).
Proof.
  unfold socket_assign.
  destruct (sock_default inp) as [[]|] eqn:Hd, value; try done;
    try (intros [= <-]; by simpl).
  destruct (decide _) as [Hlen|]; [|done].
  intros [= <-]. simpl. by rewrite Hlen.
Qed.



Lemma same_layout_refl node : same_layout node node.
Proof.
  unfold same_layout. apply Forall2_same_length_lookup_2; [done|].
  intros i s s' Hs Hs'. by simplify_eq.
Qed.

Lemma same_layout_trans n1 n2 n3 :
  same_layout n1 n2 → same_layout n2 n3 → same_layout n1 n3.
Proof.
  unfold same_layout. intros H12 H23.
  eapply Forall2_trans; [|exact H12|exact H23].
  intros s1 s2 s3 [? ?] [? ?]. split; congruence.
Qed.



Lemma same_layout_with_inputs node i inp inp' :
  node_inputs node !! i = Some inp →
  sock_name inp' = sock_name inp →
  value_shape (sock_default inp') = value_shape (sock_default inp) →
  same_layout node (with_inputs node (<[i := inp']> (node_inputs node))).
Proof.
  intros Hi Hname Hshape. unfold same_layout. simpl.
  apply Forall2_same_length_lookup_2; [by rewrite length_insert|].
  intros k s s' Hs Hs'.
  destruct (decide (k = i)) as [->|Hne].
  - rewrite list_lookup_insert_eq in Hs' by (by eapply lookup_lt_Some).
    injection Hs' as <-. rewrite Hi in Hs. injection Hs as <-. done.
  - rewrite list_lookup_insert_ne in Hs' by done. by simplify_eq.
Qed.

Lemma collection_find_Some collection name i sock :
  collection_find collection name = Some (i, sock) →
  collection !! i = Some sock ∧ sock_name sock = name.
Proof. unfold collection_find. intros (? & ? & _)%list_find_Some. done. Qed.

(** What a call of [_set_input] can have done. *)
Lemma set_input_cases node candidates value b node' :
  _set_input node candidates value = Ok (b, node') →
  (b = false ∧ node' = node) ∨
  ∃ i inp inp',
    b = true ∧
    input_slot node candidates value = Some i ∧
    node_inputs node !! i = Some inp ∧
    sock_name inp ∈ candidates ∧
    socket_assign inp value = Stored inp' ∧
    node' = with_inputs node (<[i := inp']> (node_inputs node)).
Proof.
  induction candidates as [|name rest IH]; simpl.
  - intros [= <- <-]. by left.
  - destruct (collection_find (node_inputs node) name) as [[i inp]|] eqn:Hfind.
    + apply collection_find_Some in Hfind as [Hi Hname].
      destruct (socket_assign inp value) as [inp'| |e] eqn:Hassign.
      * intros [= <- <-]. right. exists i, inp, inp'.
        repeat split; try done. rewrite Hname. by left.
      * intros [?|(j & s & s' & ? & ? & ? & ? & ? & ?)]%IH; [by left|right].
        exists j, s, s'. repeat split; try done. by right.
      * done.
    + intros [?|(j & s & s' & ? & ? & ? & ? & ? & ?)]%IH; [by left|right].
      exists j, s, s'. repeat split; try done. by right.
Qed.


(** [_set_input] keeps the layout, the attributes and every socket that is
    not named by a candidate. *)
Lemma set_input_frame node candidates value b node' :
  _set_input node candidates value = Ok (b, node') →
  same_layout node node' ∧
  node_props node' = node_props node ∧
  ∀ i s, node_inputs node !! i = Some s → sock_name s ∉ candidates →
         node_inputs node' !! i = Some s.
Proof.
  intros [[-> ->]|(i & inp & inp' & -> & _ & Hi & Hname & Hassign & ->)]%set_input_cases.
  - split; [apply same_layout_refl|done].
  - apply socket_assign_Stored in Hassign as [Hn Hs].
    split; [by apply (same_layout_with_inputs _ _ inp)|]. split; [done|].
    intros k s Hk Hnot. simpl.
    destruct (decide (k = i)) as [->|Hne]; [|by rewrite list_lookup_insert_ne].
    rewrite Hi in Hk. injection Hk as <-. done.
Qed.

Lemma touched_refl names attrs node : touched names attrs node node.
Proof. split; [apply same_layout_refl|done]. Qed.

Lemma touched_trans names attrs n1 n2 n3 :
  touched names attrs n1 n2 → touched names attrs n2 n3 → touched names attrs n1 n3.
Proof.
  intros (L1 & F1 & A1) (L2 & F2 & A2). split; [by eapply same_layout_trans|].
  split.
  - intros i s Hs Hn. apply F2; [|done]. by apply F1.
  - intros k Hk. by rewrite A2, A1.
Qed.

Lemma touched_mono names attrs names' attrs' node node' :
  touched names attrs node node' →
  (∀ x, x ∈ names → x ∈ names') → (∀ x, x ∈ attrs → x ∈ attrs') →
  touched names' attrs' node node'.
Proof.
  intros (L & F & A) Hn Ha. split; [done|]. split.
  - intros i s Hs Hnot. apply F; [done|]. intros ?. by apply Hnot, Hn.
  - intros k Hk. apply A. intros ?. by apply Hk, Ha.
Qed.

Lemma set_input_touched node candidates value b node' :
  _set_input node candidates value = Ok (b, node') →
  touched candidates [] node node'.
Proof.
  intros (L & P & F)%set_input_frame. split; [done|]. split; [done|].
  intros k _. by rewrite P.
Qed.

Lemma set_input_if_touched node candidates value node' :
  set_input_if node candidates value = Ok node' →
  touched candidates [] node node'.
Proof.
  unfold set_input_if. destruct value as [value|].
  - destruct (_set_input node candidates value) as [[b n]|] eqn:Hset; [|done].
    intros [= <-]. by eapply set_input_touched.
  - intros [= <-]. apply touched_refl.
Qed.

Lemma set_prop_touched node attr value :
  touched [] [attr] node (_set_prop node attr value).2.
Proof.
  unfold _set_prop, node_setattr.
  destruct (dict_get attr (node_props node)) as [old|]; [|apply touched_refl].
  destruct old, value; simpl; try apply touched_refl;
    (split; [exact (same_layout_refl node)|]; split; [done|];
     intros k Hk; simpl; apply dict_get_set_ne; intros ->; apply Hk; by left).
Qed.

(** What [_set_prop] does to the attribute itself, when the node type has
    it as a boolean. *)
Lemma set_prop_bool node attr old b :
  dict_get attr (node_props node) = Some (VBool old) →
  dict_get attr (node_props (_set_prop node attr (VBool b)).2) = Some (VBool b).
Proof.
  intros Hattr. unfold _set_prop, node_setattr. rewrite Hattr. simpl.
  apply dict_get_set_eq.
Qed.

End SetInput.

Section Results.
Import Py.

Lemma bind_Ok {A B} (m : result A) (f : A → result B) r :
  m ≫= f = Ok r → ∃ a, m = Ok a ∧ f a = Ok r.
Proof. destruct m as [a|e]; [|done]. intros H. by exists a. Qed.

Lemma fmap_Ok {A B} (f : A → B) (m : result A) r :
  f <$> m = Ok r → ∃ a, m = Ok a ∧ r = f a.
Proof. destruct m as [a|e]; [|done]. intros [= <-]. by exists a. Qed.

End Results.

(** Membership of a literal list, decided by evaluation. *)
Ltac by_names := intros ?; rewrite !elem_of_cons, ?elem_of_nil; tauto.

Section Phases.
Import Py Bpy ShaderDetection PropertyMapper.

Lemma transfer_loop_touched info mappings node node' :
  fold_result
    (fun node mapping =>
       set_input_if node mapping.2 (_get_input_value info mapping.1))
    node mappings = Ok node' →
  touched (written_names mappings) [] node node'.
Proof.
  revert node. induction mappings as [|m ms IH]; intros node; simpl.
  - intros [= <-]. apply touched_refl.
  - destruct (set_input_if node m.2 (_get_input_value info m.1)) as [n1|] eqn:H1;
      [|done].
    intros H2%IH. apply set_input_if_touched in H1.
    unfold written_names. simpl. eapply touched_trans.
    + eapply touched_mono; [exact H1| |done]. intros x Hx. apply elem_of_app. by left.
    + eapply touched_mono; [exact H2| |done]. intros x Hx. apply elem_of_app. by right.
Qed.

Lemma transfer_emission_touched info node node' :
  transfer_emission info node = Ok node' →
  touched ["Emission"; "Emission color"; "Emission power"; "Emission weight"]
          ["surface_brightness"] node node'.
Proof.
  unfold transfer_emission. cbv zeta.
  intros (n1 & H1 & H)%bind_Ok.
  apply set_input_if_touched in H1.
  eapply touched_trans; [eapply touched_mono; [exact H1|by_names|by_names]|].
  destruct (_get_input_value info "Emission Strength") as [strength|];
    [|injection H as <-; apply touched_refl].
  apply bind_Ok in H as (n2 & ([b n2'] & H2 & ->)%fmap_Ok & H). simpl in H.
  apply set_input_touched in H2.
  eapply touched_trans; [eapply touched_mono; [exact H2|by_names|by_names]|].
  assert (touched ["Emission"; "Emission color"; "Emission power"; "Emission weight"]
            ["surface_brightness"] n2'
            (_set_prop n2' "surface_brightness" (VBool true)).2) as Hprop.
  { eapply touched_mono; [apply set_prop_touched|by_names|by_names]. }
  destruct (match as_number strength with Some q => _ | None => _ end).
  { by injection H as <-. }
  destruct (_get_input_value info "Emission Color") as [em_color|];
    [|injection H as <-; apply touched_refl].
  apply bind_Ok in H as ([] & _ & H); injection H as <-; [done|apply touched_refl].
Qed.

Lemma transfer_subsurface_touched info node node' :
  transfer_subsurface info node = Ok node' →
  touched ["Absorption"; "Medium radius"; "Density"; "Medium scale"] [] node node'.
Proof.
  unfold transfer_subsurface. intros (n1 & H1 & H)%bind_Ok.
  apply set_input_if_touched in H1, H.
  eapply touched_trans; eapply touched_mono; eauto; by_names.
Qed.


End Phases.

Section PrincipledAnalysis.
Import Py Bpy ShaderDetection.

Lemma detect_patterns_principled node a :
  node_idname node = "ShaderNodeBsdfPrincipled" →
  detect_patterns node a = detect_principled node a.
Proof.
  intros Hid. unfold detect_patterns. cbv zeta. rewrite Hid.
  rewrite decide_True by done. rewrite !decide_False by done.
  change (one_of "ShaderNodeBsdfPrincipled" _) with false.
  by destruct (detect_principled node a).
Qed.



End PrincipledAnalysis.

Section PrincipledTransfer.
Import Py Bpy ShaderDetection PropertyMapper.

Lemma fold_result_cons {A B} (step : A → B → result A) acc x xs :
  fold_result step acc (x :: xs)
  = step acc x ≫= fun acc' => fold_result step acc' xs.
Proof. simpl. by destruct (step acc x). Qed.

(** Two literal lists of names without a common element. *)
Lemma names_apart (l1 l2 : list string) x :
  forallb (fun y => negb (bool_decide (y ∈ l2))) l1 = true →
  x ∈ l1 → x ∉ l2.
Proof.
  rewrite forallb_forall. intros Hall Hx%list_elem_of_In.
  apply Hall in Hx. apply negb_true_iff, bool_decide_eq_false in Hx. done.
Qed.




End PrincipledTransfer.

Section TransmissionThreshold.
Import Py Bpy ShaderDetection PropertyMapper.



End TransmissionThreshold.

Section EmissionFlag.
Import Py Bpy ShaderDetection PropertyMapper.

(** The snapshot used in the examples is the one the analysis takes. *)
Example snapshot_node_principled tw em_color em_strength :
  snapshot_node (Examples.principled tw em_color em_strength)
  = Ok (Examples.principled_info tw em_color em_strength).
Proof. reflexivity. Qed.

(** A positive component among the first three of the emission colour
    sets the emission flag. *)
Lemma detect_principled_emission_color node a a' em_input em_col :
  collection_find (node_inputs node) "Emission Color" = Some em_input →
  sock_default em_input.2 = Some (VTuple em_col) →
  existsb (fun c => Qgt_bool c 0) (take 3 em_col) = true →
  detect_principled node a = Ok a' →
  has_emission a' = true.
Proof.
  intros Hin Hdef Hpos. unfold detect_principled. cbv zeta.
  intros (a1 & _ & (a2 & H2 & H)%bind_Ok)%bind_Ok.
  rewrite Hin in H2. simpl in H2. rewrite Hdef in H2. simpl in H2.
  rewrite Hpos in H2. injection H2 as <-.
  destruct (input_or node "Subsurface Weight" "Subsurface") as [ss_input|];
    [|by injection H as <-].
  apply bind_Ok in H as ([] & _ & H); by injection H as <-.
Qed.

(** C5 (what the code does at the failing input).  A Principled BSDF with
    emission strength 5 and a black emission colour: the analysis leaves
    [has_emission] false, although it has read the strength socket, while
    the transfer rule, which does test the strength, enables surface
    brightness on the target. *)
Theorem emission_strength_ignored :
  has_emission <$> analyze_tree Examples.strength_only_tree = Ok false ∧
  (fun node => dict_get "surface_brightness" (node_props node)) <$>
    _transfer_principled (Examples.principled_info 0 Examples.black 5)
      Examples.universal_material
  = Ok (Some (VBool true)).
Proof. split; vm_compute; reflexivity. Qed.

End EmissionFlag.

(* ===================================================================== *)
(** * Properties of the mix-slot post-processor *)
(* ===================================================================== *)

Section Filters.
Context {A : Type}.

Lemma filter_filter_absurd (P Q : A → Prop)
    `{!∀ x, Decision (P x), !∀ x, Decision (Q x)} (l : list A) :
  (∀ x, P x → ¬ Q x) → filter P (filter Q l) = [].
Proof.
  intros HPQ. rewrite list_filter_filter.
  induction l as [|x l IH]; [done|].
  rewrite filter_cons_False; [done|]. intros [HP HQ]. by apply (HPQ x).
Qed.

Lemma filter_ext_in (P Q : A → Prop)
    `{!∀ x, Decision (P x), !∀ x, Decision (Q x)} (l : list A) :
  (∀ x, x ∈ l → (P x ↔ Q x)) → filter P l = filter Q l.
Proof.
  induction l as [|x l IH]; intros Hext; [done|].
  assert (filter P l = filter Q l) as Hl.
  { apply IH. intros y Hy. apply Hext. by right. }
  destruct (decide (P x)) as [HP|HP].
  - rewrite !filter_cons_True; [by rewrite Hl| |done]. apply Hext; [by left|done].
  - rewrite !filter_cons_False; [done| |done].
    intros HQ. apply HP, Hext; [by left|done].
Qed.

End Filters.

Section LinkEdits.
Import Py Bpy.

Lemma links_remove_all tree ls :
  tree_nodes (foldl links_remove tree ls) = tree_nodes tree ∧
  tree_links (foldl links_remove tree ls)
  = filter (fun l => l ∉ ls) (tree_links tree).
Proof.
  revert tree. induction ls as [|x ls IH]; intros tree; simpl.
  - split; [done|]. symmetry. induction (tree_links tree) as [|l L IHL]; [done|].
    rewrite filter_cons_True; [by rewrite IHL|]. by intros ?%elem_of_nil.
  - destruct (IH (links_remove tree x)) as [-> ->]. split; [done|]. simpl.
    rewrite list_filter_filter. apply list_filter_iff. intros l.
    rewrite not_elem_of_cons. tauto.
Qed.

Lemma links_into_spec tree n s l :
  l ∈ links_into tree n s ↔
  (link_to_node l = n ∧ link_to_socket l = s) ∧ l ∈ tree_links tree.
Proof. unfold links_into. by rewrite list_elem_of_filter. Qed.

End LinkEdits.

Section MixSwap.
Import Py Bpy ShaderDetection NodeRegistry ConversionEngine.

Lemma remove_links_into_nodes tree n s :
  tree_nodes (remove_links_into tree n s) = tree_nodes tree.
Proof. apply links_remove_all. Qed.

Lemma remove_links_into_links tree n s :
  tree_links (remove_links_into tree n s)
  = filter (fun l => ¬ (link_to_node l = n ∧ link_to_socket l = s))
           (tree_links tree).
Proof.
  unfold remove_links_into.
  destruct (links_remove_all tree (links_into tree n s)) as [_ ->].
  apply filter_ext_in. intros l Hl. rewrite links_into_spec. tauto.
Qed.

Lemma links_into_remove tree n0 s0 n s :
  links_into (remove_links_into tree n0 s0) n s
  = if decide (n = n0 ∧ s = s0) then [] else links_into tree n s.
Proof.
  unfold links_into at 1. rewrite remove_links_into_links.
  destruct (decide (n = n0 ∧ s = s0)) as [[-> ->]|Hne].
  - apply filter_filter_absurd. tauto.
  - apply list_filter_filter_l. intros l [<- <-]. tauto.
Qed.

Lemma links_into_new tree output input n s :
  links_into (links_new tree output input) n s
  = if decide (n = input.1 ∧ s = input.2)
    then [mkNodeLink output.1 output.2 input.1 input.2]
    else links_into tree n s.
Proof.
  unfold links_into, links_new. simpl. rewrite filter_app.
  destruct (decide (n = input.1 ∧ s = input.2)) as [[-> ->]|Hne].
  - rewrite filter_filter_absurd by tauto.
    by rewrite filter_cons_True, filter_nil.
  - rewrite list_filter_filter_l by (intros l [<- <-]; tauto).
    rewrite filter_cons_False, filter_nil; [by rewrite app_nil_r|].
    simpl. intros [? ?]. by apply Hne.
Qed.

Lemma producer_remove tree n0 s0 n s :
  producer (remove_links_into tree n0 s0) n s
  = if decide (n = n0 ∧ s = s0) then None else producer tree n s.
Proof. unfold producer. rewrite links_into_remove. by case_decide. Qed.

Lemma producer_new tree output input n s :
  producer (links_new tree output input) n s
  = if decide (n = input.1 ∧ s = input.2) then Some output else producer tree n s.
Proof.
  unfold producer. rewrite links_into_new. case_decide; [|done].
  simpl. by destruct output.
Qed.

(** The two slots of a mix material are different sockets. *)
Lemma mix_slots_distinct oct_node s1 s2 :
  mix_slots oct_node = Some (s1, s2) → s1 ≠ s2.
Proof.
  unfold mix_slots.
  destruct (first_hit _ ["Material1"; "Shader1"; "Material 1"]) as [i1|] eqn:H1;
    [destruct (first_hit _ ["Material2"; "Shader2"; "Material 2"]) as [i2|] eqn:H2|].
  - intros [= <- <-] ->.
    apply first_hit_Some in H1 as (c1 & Hc1 & Hf1).
    apply first_hit_Some in H2 as (c2 & Hc2 & Hf2).
    unfold collection_get in Hf1, Hf2.
    destruct (collection_find _ c1) as [[k1 x1]|] eqn:E1; [|done].
    destruct (collection_find _ c2) as [[k2 x2]|] eqn:E2; [|done].
    simpl in Hf1, Hf2. injection Hf1 as ->. injection Hf2 as ->.
    apply collection_find_Some in E1 as [E1 N1].
    apply collection_find_Some in E2 as [E2 N2].
    rewrite E1 in E2. injection E2 as <-. rewrite N1 in N2. subst c2.
    revert Hc2. by apply (names_apart ["Material1"; "Shader1"; "Material 1"]).
  - case_decide; [|done]. by intros [= <- <-].
  - case_decide; [|done]. by intros [= <- <-].
Qed.

Lemma fix_mix_node_nodes tree oct_node :
  tree_nodes (fix_mix_node tree oct_node) = tree_nodes tree.
Proof.
  unfold fix_mix_node. destruct (mix_slots oct_node) as [[s1 s2]|]; [|done].
  destruct (producer tree _ s1), (producer tree _ s2); simpl;
    by rewrite ?remove_links_into_nodes.
Qed.

(** What one turn of the loop does to the producers of every input. *)
Lemma fix_mix_node_producer tree oct_node s1 s2 n s :
  mix_slots oct_node = Some (s1, s2) →
  producer (fix_mix_node tree oct_node) n s
  = if decide (n = node_name oct_node ∧ s = s1)
    then producer tree (node_name oct_node) s2
    else if decide (n = node_name oct_node ∧ s = s2)
    then producer tree (node_name oct_node) s1
    else producer tree n s.
Proof.
  intros Hslots. pose proof (mix_slots_distinct _ _ _ Hslots) as Hne.
  unfold fix_mix_node. rewrite Hslots.
  destruct (producer tree (node_name oct_node) s1) as [f1|] eqn:E1,
    (producer tree (node_name oct_node) s2) as [f2|] eqn:E2;
    rewrite ?producer_new, ?producer_remove; simpl;
    repeat case_decide; try done; naive_solver.
Qed.

Lemma fold_result_app {A B} (step : A → B → result A) acc l1 l2 :
  fold_result step acc (l1 ++ l2)
  = fold_result step acc l1 ≫= fun acc' => fold_result step acc' l2.
Proof.
  revert acc. induction l1 as [|x l1 IH]; intros acc; simpl; [done|].
  destruct (step acc x); [apply IH|done].
Qed.

Lemma tree_node_name tree n node :
  tree_node tree n = Some node → node_name node = n.
Proof.
  unfold tree_node. destruct (list_find _ _) as [[i x]|] eqn:Hfind; [|done].
  intros [= <-]. by apply list_find_Some in Hfind as (_ & ? & _).
Qed.

Lemma tree_node_same_nodes tree tree' n :
  tree_nodes tree' = tree_nodes tree → tree_node tree' n = tree_node tree n.
Proof. unfold tree_node. by intros ->. Qed.

(** The loop of [_fix_mix_shader_links] over a part of the nodes: it
    returns, keeps the nodes of the tree, and leaves the inputs of every
    Octane node alone that no Mix Shader of this part is lowered to. *)
Lemma fix_mix_loop node_map (items : list (string * NodeInfo)) tree :
  (∀ n i t, (n, i) ∈ items → bl_idname i = "ShaderNodeMixShader" →
            dict_get n node_map = Some t → is_Some (tree_node tree t)) →
  ∃ tree',
    _fix_mix_shader_links (with_nodes empty_analysis items) node_map tree
      = Ok tree' ∧
    tree_nodes tree' = tree_nodes tree ∧
    ∀ t s,
      (∀ n i, (n, i) ∈ items → bl_idname i = "ShaderNodeMixShader" →
              dict_get n node_map ≠ Some t) →
      producer tree' t s = producer tree t s.
Proof.
  unfold _fix_mix_shader_links. simpl.
  revert tree. induction items as [|[n i] items IH]; intros tree Hmapped; simpl.
  { exists tree. done. }
  assert (∀ tree1, tree_nodes tree1 = tree_nodes tree →
            ∀ n' i' t', (n', i') ∈ items →
              bl_idname i' = "ShaderNodeMixShader" →
              dict_get n' node_map = Some t' → is_Some (tree_node tree1 t'))
    as Hrest.
  { intros tree1 Hnodes n' i' t' Hin Hmix Hmap.
    rewrite (tree_node_same_nodes _ _ _ Hnodes).
    eapply Hmapped; [by right|done|done]. }
  destruct (decide (bl_idname i ≠ "ShaderNodeMixShader")) as [Hnomix|Hmix].
  { destruct (IH tree) as (tree' & Hrun & Hnodes & Hprod).
    { by apply Hrest. }
    exists tree'. split; [done|]. split; [done|].
    intros t s Hnot. apply Hprod. intros n' i' Hin. apply Hnot. by right. }
  apply dec_stable in Hmix.
  destruct (dict_get n node_map) as [t0|] eqn:Hmap.
  2:{ destruct (IH tree) as (tree' & Hrun & Hnodes & Hprod).
      { by apply Hrest. }
      exists tree'. split; [done|]. split; [done|].
      intros t s Hnot. apply Hprod. intros n' i' Hin. apply Hnot. by right. }
  destruct (Hmapped n i t0) as [oct Hoct]; [by left|done|done|].
  unfold deref. rewrite Hoct. simpl.
  destruct (IH (fix_mix_node tree oct)) as (tree' & Hrun & Hnodes & Hprod).
  { apply Hrest. apply fix_mix_node_nodes. }
  exists tree'. split; [done|]. split; [by rewrite Hnodes, fix_mix_node_nodes|].
  intros t s Hnot. rewrite Hprod by (intros n' i' Hin; apply Hnot; by right).
  assert (t ≠ t0) as Hne.
  { intros ->. by apply (Hnot n i); [left|..]. }
  apply tree_node_name in Hoct as Hname.
  unfold fix_mix_node. destruct (mix_slots oct) as [[s1 s2]|] eqn:Hslots; [|done].
  pose proof (fix_mix_node_producer tree oct s1 s2 t s Hslots) as Hswap.
  unfold fix_mix_node in Hswap. rewrite Hslots in Hswap. rewrite Hswap.
  rewrite Hname. rewrite !decide_False by naive_solver. done.
Qed.

(** C8. After [_fix_mix_shader_links], for every Mix Shader node lowered
    to an Octane node with material slots [s1] and [s2], the producer that
    fed slot 1 feeds slot 2 and the producer that fed slot 2 feeds slot 1;
    a slot that had no producer leaves the other one empty, so that a
    single connection moves to the other slot.  The pass returns whenever
    the mapped Octane nodes are in the tree. *)
Theorem fix_mix_shader_links_swaps
    analysis node_map tree n info t oct_node s1 s2 :
  NoDup (dict_keys (nodes analysis)) →
  mix_injective analysis node_map →
  mix_mapped analysis node_map tree →
  (n, info) ∈ nodes analysis →
  bl_idname info = "ShaderNodeMixShader" →
  dict_get n node_map = Some t →
  tree_node tree t = Some oct_node →
  mix_slots oct_node = Some (s1, s2) →
  ∃ tree',
    _fix_mix_shader_links analysis node_map tree = Ok tree' ∧
    producer tree' t s2 = producer tree t s1 ∧
    producer tree' t s1 = producer tree t s2.
Proof.
  intros Hnodup Hinj Hmapped Hin Hmix Hmap Hoct Hslots.
  change (_fix_mix_shader_links analysis node_map tree)
    with (_fix_mix_shader_links (with_nodes empty_analysis (nodes analysis))
            node_map tree).
  apply list_elem_of_split in Hin as (pre & post & Hsplit).
  unfold dict_keys in Hnodup. unfold mix_injective, mix_mapped in Hinj, Hmapped.
  rewrite Hsplit in *. clear Hsplit.
  rewrite fmap_app, fmap_cons in Hnodup. simpl in Hnodup.
  apply NoDup_app in Hnodup as (_ & Hpre & Hpost).
  apply NoDup_cons in Hpost as [Hpost _].
  assert (∀ items, (∀ x, x ∈ items → x ∈ pre ++ (n, info) :: post) →
            n ∉ items.*1 →
            ∀ n' i', (n', i') ∈ items → bl_idname i' = "ShaderNodeMixShader" →
                     dict_get n' node_map ≠ Some t) as Hother.
  { intros items Hsub Hnot n' i' Hin' Hmix' Hmap'.
    assert (n' = n) as ->.
    { eapply (Hinj n' i' n info t); try done; [by apply Hsub|].
      apply elem_of_app. right. by left. }
    apply Hnot. apply list_elem_of_fmap. by exists (n, i'). }
  unfold _fix_mix_shader_links. simpl.
  rewrite fold_result_app. simpl.
  destruct (fix_mix_loop node_map pre tree) as (tree1 & Hrun1 & Hnodes1 & Hprod1).
  { intros n' i' t' Hin'. apply Hmapped. apply elem_of_app. by left. }
  unfold _fix_mix_shader_links in Hrun1. simpl in Hrun1. rewrite Hrun1. simpl.
  rewrite decide_False by (by intros ?). rewrite Hmap.
  unfold deref. rewrite (tree_node_same_nodes _ _ _ Hnodes1), Hoct. simpl.
  destruct (fix_mix_loop node_map post (fix_mix_node tree1 oct_node))
    as (tree2 & Hrun2 & Hnodes2 & Hprod2).
  { intros n' i' t' Hin' Hmix' Hmap'.
    rewrite (tree_node_same_nodes tree (fix_mix_node tree1 oct_node));
      [|by rewrite fix_mix_node_nodes].
    eapply Hmapped; [|done|done]. apply elem_of_app. right. by right. }
  unfold _fix_mix_shader_links in Hrun2. simpl in Hrun2.
  exists tree2. split; [done|].
  apply tree_node_name in Hoct as Hname.
  assert (∀ s, producer tree2 t s = producer (fix_mix_node tree1 oct_node) t s)
    as Hafter.
  { intros s. apply Hprod2, Hother; [|done].
    intros x Hx. apply elem_of_app. right. by right. }
  assert (∀ s, producer tree1 t s = producer tree t s) as Hbefore.
  { intros s. apply Hprod1, Hother.
    - intros x Hx. apply elem_of_app. by left.
    - intros Hn. by apply (Hpre n); [|left]. }
  pose proof (mix_slots_distinct _ _ _ Hslots) as Hne.
  rewrite !Hafter, !(fix_mix_node_producer _ _ s1 s2) by done.
  rewrite Hname, !Hbefore.
  rewrite (decide_False (P := t = t ∧ s2 = s1)) by naive_solver.
  rewrite !decide_True by done. done.
Qed.

Lemma fix_mix_shader_links_swaps_witness :
  ∃ tree',
    _fix_mix_shader_links Examples.mix_analysis Examples.mix_node_map
      Examples.mix_tree = Ok tree' ∧
    producer tree' "Mix material" 2 = Some ("Diffuse material", 0) ∧
    producer tree' "Mix material" 1 = Some ("Glossy material", 0).
Proof.
  apply (fix_mix_shader_links_swaps Examples.mix_analysis Examples.mix_node_map
           Examples.mix_tree "Mix Shader"
           (Examples.bare_node "Mix Shader" "ShaderNodeMixShader")
           "Mix material"
           (Examples.octane_node "Mix material" "OctaneMixMaterial"
              ["Amount"; "Material1"; "Material2"] ["Material out"]) 1 2).
  - apply (bool_decide_unpack _). vm_compute. exact I.
  - intros n1 i1 n2 i2 t H1 H2 M1 M2 _ _.
    assert (∀ n i, (n, i) ∈ nodes Examples.mix_analysis →
                   bl_idname i = "ShaderNodeMixShader" → n = "Mix Shader") as Hmix.
    { intros n i Hin Hid. simpl in Hin.
      repeat (apply elem_of_cons in Hin as [[= -> ->]|Hin];
              [first [done | by vm_compute in Hid]|]).
      by apply elem_of_nil in Hin. }
    by rewrite (Hmix _ _ H1 M1), (Hmix _ _ H2 M2).
  - intros n i t Hin Hid Hmap. simpl in Hin.
    repeat (apply elem_of_cons in Hin as [[= -> ->]|Hin];
            [first [by vm_compute in Hid
                   | vm_compute in Hmap; injection Hmap as <-;
                     vm_compute; eauto]|]).
    by apply elem_of_nil in Hin.
  - simpl. right. by left.
  - reflexivity.
  - reflexivity.
  - reflexivity.
  - reflexivity.
Defined.

End MixSwap.

(* ===================================================================== *)
(** * The scale post-processor *)
(* ===================================================================== *)

Section ScaleCorrection.
Import Py Bpy ShaderDetection ConversionEngine.

(** C6 (what the code does at the failing input).  The definition of
    [_apply_scale_correction] in force when [convert_material] calls it is
    the second one, whose body is [pass]: the tree is returned as it is for
    every object, and on an object scaled by (2, 3, 4) the scale of the
    lowered Mapping node stays (1, 1, 1), where the first, shadowed
    definition gives (2, 3, 4). *)
Theorem apply_scale_correction_is_noop :
  (∀ obj node_map analysis target_tree,
     _apply_scale_correction obj node_map analysis target_tree = Ok target_tree) ∧
  Examples.mapping_scale <$>
    _apply_scale_correction (Some Examples.scaled_object)
      Examples.mapping_node_map Examples.textured_analysis Examples.mapping_tree
  = Ok (Some (VTuple [1; 1; 1]%Q)) ∧
  Examples.mapping_scale <$>
    _apply_scale_correction_first (Some Examples.scaled_object)
      Examples.mapping_node_map Examples.textured_analysis Examples.mapping_tree
  = Ok (Some (VTuple [1 * 2; 1 * 3; 1 * 4]%Q)).
Proof. split; [done|]. split; vm_compute; reflexivity. Qed.

End ScaleCorrection.

(* ===================================================================== *)
(** * Properties of the per-material and batch orchestration *)
(* ===================================================================== *)

Section Statements.
Import Py Bpy ShaderDetection Cache ConversionEngine.

Lemma bind_run {A B} (m : M A) (f : A → M B) w :
  (m ≫= f) w
  = match m w with
    | (Ok a, w') => f a w'
    | (Raise e, w') => (Raise e, w')
    end.
Proof. done. Qed.



Lemma only_touches_lift {A} h (r : result A) : only_touches h (lift r).
Proof. by intros w k Hk. Qed.







Lemma insert_last {A} (l : list A) x y : <[length l := x]> (l ++ [y]) = l ++ [x].
Proof. induction l as [|a l IH]; simpl; [done|]. by rewrite IH. Qed.

Lemma delete_last {A} (l : list A) y : delete (length l) (l ++ [y]) = l.
Proof. induction l as [|a l IH]; simpl; [done|]. by rewrite IH. Qed.

Lemma lookup_last {A} (l : list A) y : (l ++ [y]) !! length l = Some y.
Proof. by apply list_lookup_middle. Qed.

End Statements.

Section Conversion.
Import Py Bpy ShaderDetection Cache ConversionEngine.
Variable unique_name : list string → string → string.
Variable create_nodes : GraphEngine.Engine → NodeTree → result (NodeMap * NodeTree).
Variable transfer_all_properties : TreeAnalysis → NodeMap → NodeTree → NodeTree.
Variable _rebuild_links : TreeAnalysis → NodeMap → NodeTree → result NodeTree.
Variable _handle_normal_map_fallback :
  TreeAnalysis → NodeMap → NodeTree → result (NodeMap * NodeTree).
Variable _handle_alpha : TreeAnalysis → NodeMap → NodeTree → result NodeTree.
Variable _handle_emission_post : TreeAnalysis → NodeMap → NodeTree → result NodeTree.
Variable _handle_emission_node_insertion :
  TreeAnalysis → NodeMap → NodeTree → result NodeTree.
Variable handle_volumetrics : TreeAnalysis → NodeMap → NodeTree → result NodeTree.
Variable apply_gamma : Q → NodeTree → result NodeTree.
Variable _preserve_drivers :
  NodeTree → TreeAnalysis → NodeMap → NodeTree → result NodeTree.

Local Abbreviation lower' :=
  (lower create_nodes transfer_all_properties _rebuild_links
     _handle_normal_map_fallback _handle_alpha _handle_emission_post
     _handle_emission_node_insertion handle_volumetrics apply_gamma
     _preserve_drivers).
Local Abbreviation convert_material' :=
  (convert_material unique_name create_nodes transfer_all_properties
     _rebuild_links _handle_normal_map_fallback _handle_alpha
     _handle_emission_post _handle_emission_node_insertion handle_volumetrics
     apply_gamma _preserve_drivers).

(** The constructor call of [convert_material] passes a keyword that
    [GraphEngine.__init__] does not have. *)
Lemma engine_new_raises analysis :
  GraphEngine.new analysis ["group_converter_cb"] = Raise TypeError.
Proof. reflexivity. Qed.


(** An uncached material with a node tree: the copy is made, renamed and
    cleared, and the constructor call raises.  Nothing is registered in the
    cache and nothing else is changed. *)
Lemma convert_material_uncached w h m tree analysis gamma obj :
  data_materials w !! h = Some m →
  mat_node_tree m = Some tree →
  has_material (_cache w) (mat_name m) = false →
  analyze_tree tree = Ok analysis →
  convert_material' (Some h) gamma obj w
  = (Raise TypeError,
     with_materials w
       (data_materials w ++
        [mkMaterial
           (unique_name (mat_name <$> data_materials w) (mat_name m ++ "_OCTANE"))
           true (Some (_clear_tree_except_output tree))])).
Proof.
  intros Hm Htree Hcache Han. unfold convert_material.
  rewrite bind_run. unfold get_material at 1. rewrite Hm. rewrite Htree.
  rewrite bind_run. unfold get_cache at 1. rewrite Hcache.
  rewrite bind_run. unfold lift at 1. rewrite Han.
  rewrite bind_run. unfold material_copy at 1. rewrite Hm.
  rewrite bind_run. unfold set_name at 1. cbn [data_materials with_materials].
  rewrite lookup_last, delete_last, insert_last. cbn [mat_use_nodes mat_node_tree].
  rewrite bind_run. unfold set_use_nodes at 1. cbn [data_materials with_materials].
  rewrite lookup_last, insert_last. cbn [Bpy.mat_name mat_use_nodes mat_node_tree].
  rewrite bind_run. unfold modify_tree at 1. cbn [data_materials with_materials].
  rewrite lookup_last. cbn [Bpy.mat_name mat_use_nodes mat_node_tree].
  rewrite Htree. cbn [data_materials with_materials]. rewrite insert_last.
  rewrite bind_run. unfold lift at 1. rewrite engine_new_raises. reflexivity.
Qed.

Local Abbreviation convert_slot' :=
  (convert_slot unique_name create_nodes transfer_all_properties
     _rebuild_links _handle_normal_map_fallback _handle_alpha
     _handle_emission_post _handle_emission_node_insertion handle_volumetrics
     apply_gamma _preserve_drivers).
Local Abbreviation convert_object_materials' :=
  (convert_object_materials unique_name create_nodes transfer_all_properties
     _rebuild_links _handle_normal_map_fallback _handle_alpha
     _handle_emission_post _handle_emission_node_insertion handle_volumetrics
     apply_gamma _preserve_drivers).
Local Abbreviation convert_scene_materials' :=
  (convert_scene_materials unique_name create_nodes transfer_all_properties
     _rebuild_links _handle_normal_map_fallback _handle_alpha
     _handle_emission_post _handle_emission_node_insertion handle_volumetrics
     apply_gamma _preserve_drivers).
Local Abbreviation execute' :=
  (execute unique_name create_nodes transfer_all_properties
     _rebuild_links _handle_normal_map_fallback _handle_alpha
     _handle_emission_post _handle_emission_node_insertion handle_volumetrics
     apply_gamma _preserve_drivers).

(** The cache on its own: what is registered is found. *)
Lemma has_material_register c original converted :
  has_material (register_material c original converted) original = true ∧
  get_converted_material_name (register_material c original converted) original
  = Some converted.
Proof.
  unfold has_material, get_converted_material_name, register_material. simpl.
  rewrite dict_get_set_eq. split; [|done]. by apply bool_decide_eq_true.
Qed.

(** A cached material is answered from the cache: nothing is analysed,
    copied or created, and the world stays as it is. *)
Lemma convert_material_cached w h m tree gamma obj :
  data_materials w !! h = Some m →
  mat_node_tree m = Some tree →
  has_material (_cache w) (mat_name m) = true →
  convert_material' (Some h) gamma obj w
  = (Ok (get_converted_material_name (_cache w) (mat_name m) ≫= materials_get w), w).
Proof.
  intros Hm Htree Hcache. unfold convert_material.
  rewrite bind_run. unfold get_material at 1. rewrite Hm. rewrite Htree.
  rewrite bind_run. unfold get_cache at 1. by rewrite Hcache.
Qed.


(** C4 (what the code does).  A material with a node tree that is not in
    the cache is never converted: every call copies the material, raises
    [TypeError] at the [GraphEngine] constructor and registers nothing, so
    that a second call repeats the first. *)
Theorem convert_material_twice_raises w h m tree analysis gamma obj :
  data_materials w !! h = Some m →
  mat_node_tree m = Some tree →
  has_material (_cache w) (mat_name m) = false →
  analyze_tree tree = Ok analysis →
  ∃ w1 w2,
    convert_material' (Some h) gamma obj w = (Raise TypeError, w1) ∧
    convert_material' (Some h) gamma obj w1 = (Raise TypeError, w2) ∧
    _cache w2 = _cache w ∧
    length (data_materials w2) = S (S (length (data_materials w))).
Proof.
  intros Hm Htree Hcache Han.
  eexists _, _. split; [by apply (convert_material_uncached w h m tree analysis)|].
  split.
  - apply (convert_material_uncached _ h m tree analysis); try done.
    simpl. rewrite lookup_app_l; [done|]. by eapply lookup_lt_Some.
  - split; [done|]. simpl. rewrite !length_app. simpl. lia.
Qed.


End Conversion.

Section ConversionExamples.
Import Py Bpy ShaderDetection Cache ConversionEngine.


Lemma convert_material_twice_raises_witness :
  ∃ w1 w2,
    Examples.host_convert_material (Some 0) 2.2%Q (Some 0)
      Examples.two_material_world = (Raise TypeError, w1) ∧
    Examples.host_convert_material (Some 0) 2.2%Q (Some 0) w1
      = (Raise TypeError, w2) ∧
    _cache w2 = _cache Examples.two_material_world ∧
    length (data_materials w2) = 4.
Proof.
  destruct (analyze_tree Examples.simple_tree) as [analysis|] eqn:Han;
    [|by vm_compute in Han].
  apply (convert_material_twice_raises _ _ _ _ _ _ _ _ _ _ _
           Examples.two_material_world 0
           (mkMaterial "Red" true (Some Examples.simple_tree))
           Examples.simple_tree analysis 2.2%Q (Some 0));
    [reflexivity|reflexivity|reflexivity|exact Han].
Defined.



End ConversionExamples.
(* ===================================================================== *)
(** * Properties of the conversion cache *)
(* ===================================================================== *)

Section CacheLookups.
Import Py Cache.

Lemma dict_set_keys_hit {V} (k : string) (v v0 : V) (d : dict V) :
  dict_get k d = Some v0 →
  ∃ i, dict_keys d !! i = Some k ∧
       dict_keys (dict_set k v d) = dict_keys d ∧
       (dict_set k v d).*2 = <[i := v]> (d.*2).
Proof.
  induction d as [|[k' v'] d IH]; simpl; [done|].
  destruct (decide (k' = k)) as [->|Hne].
  - intros _. exists 0. done.
  - intros Hget. destruct (IH Hget) as (i & Hi & Hkeys & Hvals).
    exists (S i). unfold dict_keys in *. rewrite !fmap_cons.
    split; [exact Hi|]. split; [by f_equal|].
    cbn [list_insert insert]. by f_equal.
Qed.

Lemma dict_set_keys_miss {V} (k : string) (v : V) (d : dict V) :
  dict_get k d = None →
  dict_keys (dict_set k v d) = dict_keys d ++ [k] ∧
  (dict_set k v d).*2 = d.*2 ++ [v].
Proof.
  induction d as [|[k' v'] d IH]; simpl; [done|].
  destruct (decide (k' = k)) as [->|Hne]; [done|].
  intros Hget. destruct (IH Hget) as [Hkeys Hvals].
  unfold dict_keys in *. rewrite !fmap_cons.
  split; [by rewrite Hkeys|by rewrite Hvals].
Qed.

(** X1. What [register_material] stores is what the lookups answer: the
    registered original is found with the converted name given last, every
    other original is answered as before, and the node-level cache is not
    touched. *)
Theorem register_material_lookup c original converted name :
  get_converted_material_name (register_material c original converted) name
  = (if decide (name = original) then Some converted
     else get_converted_material_name c name) ∧
  has_material (register_material c original converted) name
  = (bool_decide (name = original) || has_material c name) ∧
  ∀ mat_name node_name,
    get_node (register_material c original converted) mat_name node_name
    = get_node c mat_name node_name.
Proof.
  unfold get_converted_material_name, has_material, register_material. simpl.
  destruct (decide (name = original)) as [->|Hne].
  - rewrite dict_get_set_eq. split; [done|]. split; [|done].
    rewrite (bool_decide_eq_true_2 (original = original)) by done.
    by rewrite (bool_decide_eq_true_2 (is_Some (Some converted))) by eauto.
  - rewrite dict_get_set_ne by done. split; [done|]. split; [|done].
    by rewrite (bool_decide_eq_false_2 (name = original)).
Qed.

(** X2. [converted_material_names] lists the converted names in the order
    in which the originals were first registered: registering a new
    original appends its converted name, registering an original again
    replaces its converted name where it stands, and the list does not
    grow. *)
Theorem converted_material_names_register c original converted :
  if has_material c original
  then ∃ i, dict_keys (_materials c) !! i = Some original ∧
            converted_material_names (register_material c original converted)
            = <[i := converted]> (converted_material_names c)
  else converted_material_names (register_material c original converted)
       = converted_material_names c ++ [converted].
Proof.
  unfold has_material, converted_material_names, register_material. simpl.
  destruct (dict_get original (_materials c)) as [old|] eqn:Hget.
  - rewrite bool_decide_eq_true_2 by eauto.
    destruct (dict_set_keys_hit original converted old _ Hget) as (i & Hi & _ & Hv).
    exists i. done.
  - rewrite bool_decide_eq_false_2 by (by intros [? ?]).
    by apply dict_set_keys_miss.
Qed.

End CacheLookups.
(* ===================================================================== *)
(** * The schedule on arbitrary graphs *)
(* ===================================================================== *)

Section GeneralVisit.
Import Py ShaderDetection GraphEngine.
Variable deps : gmap string (gset string).
Variable set_iter : string -> gset string -> list string.
Hypothesis set_iter_perm : iterates_sets set_iter.

(** What holds between two calls of [_visit] on any graph, cyclic or not:
    nothing is scheduled twice, and every dependency of a scheduled node
    has been visited. *)
Local Abbreviation closed_inv st :=
  (NoDup (_schedule st) ∧
   (∀ x, x ∈ _schedule st → x ∈ _visited st) ∧
   (∀ x d, x ∈ _schedule st → upstream deps d x → d ∈ _visited st)).

(** What visiting [targets] does: the targets are visited, and whatever is
    newly visited reaches one of them. *)
Local Abbreviation reach_post st st' targets :=
  (closed_inv st' ∧
   (∃ new, _schedule st' = _schedule st ++ new) ∧
   _visited st ⊆ _visited st' ∧
   (∀ x, in_progress st' x ↔ in_progress st x) ∧
   (∀ d, d ∈ targets → d ∈ _visited st') ∧
   (∀ x, x ∈ _visited st' →
         x ∈ _visited st ∨ ∃ d, d ∈ targets ∧ rtc (upstream deps) x d)).

Lemma reach_each (visit : string -> VisitState -> option VisitState) :
  (∀ n st st', visit n st = Some st' → closed_inv st → reach_post st st' [n]) →
  ∀ ds st st',
    visit_each visit ds st = Some st' → closed_inv st → reach_post st st' ds.
Proof.
  intros Hvisit ds. induction ds as [|d ds IH]; intros st st' Hrun Hinv.
  - simpl in Hrun. injection Hrun as <-.
    split; [done|]. split; [by exists []; rewrite app_nil_r|].
    split; [done|]. split; [done|]. split; [by intros d Hd%elem_of_nil|].
    intros x Hx. by left.
  - simpl in Hrun. destruct (visit d st) as [st1|] eqn:Hd; [|done].
    destruct (Hvisit _ _ _ Hd Hinv) as (Hinv1 & [n1 E1] & V1 & P1 & T1 & R1).
    destruct (IH _ _ Hrun Hinv1) as (Hinv2 & [n2 E2] & V2 & P2 & T2 & R2).
    split; [done|]. split; [exists (n1 ++ n2); by rewrite E2, E1, app_assoc|].
    split; [set_solver|]. split; [intros x; by rewrite P2|]. split.
    + intros d' [->|Hd']%elem_of_cons; [|by apply T2].
      apply V2, T1. by left.
    + intros x Hx. destruct (R2 x Hx) as [Hx1|(d' & Hd' & Hr)].
      * destruct (R1 x Hx1) as [?|(d' & Hd'%list_elem_of_singleton & Hr)]; [by left|].
        subst d'. right. exists d. split; [by left|done].
      * right. exists d'. split; [by right|done].
Qed.

Lemma reach_visit fuel :
  ∀ n st st',
    _visit deps set_iter fuel n st = Some st' → closed_inv st → reach_post st st' [n].
Proof.
  induction fuel as [|fuel IH]; intros n st st' Hrun Hinv; [done|].
  simpl in Hrun. destruct (decide (n ∈ _visited st)) as [Hin|Hnin].
  { injection Hrun as <-. split; [done|].
    split; [by exists []; rewrite app_nil_r|]. split; [done|]. split; [done|].
    split; [by intros d ->%list_elem_of_singleton|]. intros x Hx; by left. }
  set (st1 := mkVisitState ({[n]} ∪ _visited st) (_schedule st)) in *.
  destruct (visit_each _ _ st1) as [st2|] eqn:Heach; [|done].
  injection Hrun as <-.
  destruct Hinv as (Hnd & Hvis & Hclosed).
  assert (Hnsched : n ∉ _schedule st) by (intros Hn; by apply Hnin, Hvis).
  assert (Hinv1 : closed_inv st1).
  { unfold st1; simpl. split; [done|]. split.
    - intros x Hx. apply elem_of_union_r. by apply Hvis.
    - intros x d Hx Hd. apply elem_of_union_r. by eapply Hclosed. }
  assert (Hprog1 : ∀ g, in_progress st1 g ↔ g = n ∨ in_progress st g).
  { intros g. unfold in_progress, st1. simpl. split.
    - intros [[ ->%elem_of_singleton|Hg]%elem_of_union Hns]; [by left|by right].
    - intros [->|[Hg Hns]]; split; try done; set_solver. }
  destruct (reach_each _ IH _ _ _ Heach Hinv1)
    as ((Hnd2 & Hvis2 & Hclosed2) & [new Hnew] & V2 & P2 & T2 & R2).
  assert (Hn2 : in_progress st2 n) by (apply P2, Hprog1; by left).
  split; [split; [|split]|]; simpl.
  - apply NoDup_app. split; [done|]. split; [|apply NoDup_singleton].
    intros x Hx ->%list_elem_of_singleton. by apply Hn2.
  - intros x [Hx| ->%list_elem_of_singleton]%elem_of_app; [by apply Hvis2|apply Hn2].
  - intros x d [Hx| ->%list_elem_of_singleton]%elem_of_app Hd; [by eapply Hclosed2|].
    apply T2. rewrite (set_iter_perm n), elem_of_elements. exact Hd.
  - split; [exists (new ++ [n]); rewrite Hnew; simpl; by rewrite app_assoc|].
    split; [etrans; [|exact V2]; simpl; set_solver|]. split; [|split].
    + intros x. unfold in_progress at 1. simpl. split.
      * intros [Hx Hnx]. apply not_elem_of_app in Hnx as [Hnx Hne].
        assert (in_progress st2 x) as Hxp by done.
        apply P2, Hprog1 in Hxp. destruct Hxp as [->|]; [|done].
        exfalso. apply Hne. by left.
      * intros Hx. assert (in_progress st2 x) as [Hx1 Hx2].
        { apply P2, Hprog1. by right. }
        split; [done|]. apply not_elem_of_app. split; [done|].
        intros ->%list_elem_of_singleton. by destruct Hx.
    + intros d ->%list_elem_of_singleton. apply Hn2.
    + intros x Hx. destruct (R2 x Hx) as [Hx1|(d & Hd & Hr)].
      * unfold st1 in Hx1; simpl in Hx1.
        apply elem_of_union in Hx1 as [->%elem_of_singleton|Hx1]; [|by left].
        right. exists n. split; [by left|done].
      * right. exists n. split; [by left|].
        eapply rtc_r; [exact Hr|]. unfold upstream.
        by rewrite <- elem_of_elements, <- (set_iter_perm n).
Qed.

End GeneralVisit.

Section ScheduleCoverage.
Import Py ShaderDetection GraphEngine.

Lemma rtc_upstream_link_edge analysis x y :
  rtc (upstream (_build_dependency_graph analysis)) x y ↔ rtc (link_edge analysis) x y.
Proof.
  split; apply rtc_subrel; intros ? ?; apply build_dependency_graph_upstream.
Qed.

(** The run of [compute_schedule], on any analysis. *)
Lemma compute_schedule_runs set_iter analysis start :
  iterates_sets set_iter →
  (∀ x, x ∈ start → x ∈ dict_keys (nodes analysis)) →
  let deps := _build_dependency_graph analysis in
  ∃ st,
    visit_each (_visit deps set_iter (S (size (dom deps)))) start (mkVisitState ∅ [])
    = Some st ∧
    NoDup (_schedule st) ∧
    ∀ x, x ∈ _schedule st ↔ ∃ o, o ∈ start ∧ rtc (link_edge analysis) x o.
Proof.
  intros Hiter Hstart deps. set (st0 := mkVisitState ∅ []).
  pose proof (build_dependency_graph_closed analysis) as Hclosed.
  destruct (visit_each_runs deps set_iter Hiter (dom deps) Hclosed
              (S (size (dom deps)))
              (visit_runs_holds deps set_iter Hiter (dom deps) Hclosed _)
              start st0)
    as (st & Hrun & _); [done| | |].
  { intros x Hx. by apply build_dependency_graph_nodes, Hstart. }
  { simpl. apply Nat.lt_succ_r, subseteq_size. set_solver. }
  exists st. split; [exact Hrun|].
  destruct (reach_each deps set_iter Hiter _
              (reach_visit deps set_iter Hiter _) start st0 st Hrun)
    as ((Hnd & Hvis & Hcl) & _ & _ & Hprog & Htargets & Hreach).
  { split; [apply NoDup_nil_2|]. split; [by intros x Hx%elem_of_nil|].
    by intros x d Hx%elem_of_nil. }
  split; [exact Hnd|].
  assert (Hdone : ∀ x, x ∈ _visited st → x ∈ _schedule st).
  { intros x Hx. destruct (decide (x ∈ _schedule st)) as [|Hnx]; [done|].
    assert (in_progress st x) as Hp by done.
    apply Hprog in Hp as [Hp _]. simpl in Hp. set_solver. }
  intros x. split.
  - intros Hx. destruct (Hreach x (Hvis x Hx)) as [Hx0|(o & Ho & Hr)].
    + simpl in Hx0. set_solver.
    + exists o. split; [done|]. by apply rtc_upstream_link_edge.
  - intros (o & Ho & Hr). apply rtc_upstream_link_edge in Hr.
    assert (o ∈ _schedule st) as Hos by (by apply Hdone, Htargets).
    clear Ho. induction Hr as [|x y z Hxy Hyz IH]; [done|].
    apply Hdone. eapply Hcl; [|exact Hxy]. by apply IH.
Qed.

(** X3. [_build_dependency_graph]: the keys of [_deps] are the nodes of the
    analysis together with both ends of every link, and the set stored
    under a node holds exactly the sources of the links into it. *)
Theorem build_dependency_graph_spec analysis :
  let deps := _build_dependency_graph analysis in
  (∀ x, x ∈ dom deps ↔
        x ∈ dict_keys (nodes analysis) ∨
        ∃ l, l ∈ links analysis ∧ (from_node l = x ∨ to_node l = x)) ∧
  (∀ d n, d ∈ deps_get deps n ↔
          ∃ l, l ∈ links analysis ∧ from_node l = d ∧ to_node l = n).
Proof.
  intros deps. split.
  - intros x. unfold deps, _build_dependency_graph.
    destruct (links_loop_spec (links analysis)
      (foldl (fun deps node_name => setdefault node_name deps) ∅
         (dict_keys (nodes analysis)))) as [_ H1].
    rewrite H1.
    destruct (nodes_loop_spec (dict_keys (nodes analysis)) ∅) as [_ H2].
    rewrite H2. rewrite dom_empty. set_solver.
  - intros d n. apply build_dependency_graph_upstream.
Qed.

(** X4. [compute_schedule] returns on every analysis, cyclic or not, and
    for every order in which Python iterates the dependency sets.  No node
    occurs twice in the schedule, and the scheduled nodes are exactly those
    from which a chain of links leads to a start node: the output nodes
    or, when there is none, every node of the analysis.  A node that
    nothing connects to an output node is left out. *)
Theorem compute_schedule_reachable set_iter analysis :
  iterates_sets set_iter →
  ∃ schedule,
    compute_schedule set_iter analysis = Some schedule ∧
    NoDup schedule ∧
    ∀ x, x ∈ schedule ↔
         ∃ o, rtc (link_edge analysis) x o ∧
              if decide (output_nodes analysis = [])
              then o ∈ dict_keys (nodes analysis)
              else o ∈ output_nodes analysis.
Proof.
  intros Hiter. unfold compute_schedule.
  destruct (output_nodes analysis) as [|o outs] eqn:Hout.
  - destruct (compute_schedule_runs set_iter analysis (dict_keys (nodes analysis)) Hiter)
      as (st & -> & Hnd & Hiff); [done|].
    exists (_schedule st). split; [done|]. split; [done|].
    intros x. rewrite Hiff.
    split; intros (o' & H1 & H2); exists o'; destruct (decide _); done.
  - destruct (compute_schedule_runs set_iter analysis (o :: outs) Hiter)
      as (st & -> & Hnd & Hiff).
    { intros x Hx. apply output_nodes_keys. by rewrite Hout. }
    exists (_schedule st). split; [done|]. split; [done|].
    intros x. rewrite Hiff.
    split; intros (o' & H1 & H2); exists o'; destruct (decide _); done.
Qed.

Lemma compute_schedule_reachable_witness :
  iterates_sets Examples.elements_iter ∧
  ∃ schedule,
    compute_schedule Examples.elements_iter Fixtures.looping_analysis
      = Some schedule ∧
    NoDup schedule ∧
    ∀ x, x ∈ schedule ↔
         ∃ o, rtc (link_edge Fixtures.looping_analysis) x o ∧
              if decide (output_nodes Fixtures.looping_analysis = [])
              then o ∈ dict_keys (nodes Fixtures.looping_analysis)
              else o ∈ output_nodes Fixtures.looping_analysis.
Proof.
  assert (iterates_sets Examples.elements_iter) as Hiter.
  { intros k s. reflexivity. }
  split; [exact Hiter|].
  apply (compute_schedule_reachable Examples.elements_iter
           Fixtures.looping_analysis Hiter).
Defined.

(** X5. With a single output node, the schedule ends with it: whatever the
    graph, the output node is converted last. *)
Theorem compute_schedule_output_last set_iter analysis out :
  iterates_sets set_iter →
  output_nodes analysis = [out] →
  ∃ schedule,
    compute_schedule set_iter analysis = Some schedule ∧
    last schedule = Some out.
Proof.
  intros Hiter Hout. unfold compute_schedule. rewrite Hout.
  destruct (compute_schedule_runs set_iter analysis [out] Hiter)
    as (st & Hrun & _).
  { intros x Hx. apply output_nodes_keys. by rewrite Hout. }
  rewrite Hrun. exists (_schedule st). split; [done|].
  cbn [visit_each] in Hrun.
  destruct (_visit _ _ _ out _) as [st1|] eqn:Hvisit; [|done].
  injection Hrun as <-.
  simpl in Hvisit. rewrite decide_False in Hvisit by set_solver.
  destruct (visit_each _ _ _) as [st2|]; [|done].
  injection Hvisit as <-. simpl. apply last_snoc.
Qed.

Lemma compute_schedule_output_last_witness :
  iterates_sets Examples.elements_iter ∧
  output_nodes Fixtures.looping_analysis = ["Material Output"] ∧
  ∃ schedule,
    compute_schedule Examples.elements_iter Fixtures.looping_analysis
      = Some schedule ∧
    last schedule = Some "Material Output".
Proof.
  assert (iterates_sets Examples.elements_iter) as Hiter.
  { intros k s. reflexivity. }
  split; [exact Hiter|]. split; [reflexivity|].
  apply (compute_schedule_output_last Examples.elements_iter
           Fixtures.looping_analysis "Material Output" Hiter).
  reflexivity.
Defined.

(** The looping example: the cycle is scheduled once, the loose node not
    at all. *)
Example compute_schedule_looping :
  compute_schedule Examples.elements_iter Fixtures.looping_analysis
  = Some ["Math.001"; "Math"; "Material Output"].
Proof. vm_compute. reflexivity. Qed.

End ScheduleCoverage.
(* ===================================================================== *)
(** * Socket resolution: positions and fallbacks *)
(* ===================================================================== *)

Section ResolutionRange.
Import Py PyStr Bpy NodeRegistry.

Lemma or_else_Some_inv {A} (a b : option A) x :
  a orelse b = Some x → a = Some x ∨ b = Some x.
Proof. destruct a; simpl; auto. Qed.

Lemma fst_list_find_lt {A} (P : A → Prop) `{∀ x, Decision (P x)} (l : list A) i :
  fst <$> list_find P l = Some i → i < length l.
Proof.
  destruct (list_find P l) as [[j x]|] eqn:Hfind; [|done].
  intros [= <-]. apply list_find_Some in Hfind as (Hj & _).
  by eapply lookup_lt_Some.
Qed.

Lemma collection_get_lt collection key i :
  collection_get collection key = Some i → i < length collection.
Proof. apply fst_list_find_lt. Qed.

Lemma find_case_insensitive_lt collection name i :
  _find_socket_case_insensitive collection name = Some i → i < length collection.
Proof. apply fst_list_find_lt. Qed.

Lemma find_substring_lt collection name i :
  _find_socket_substring collection name = Some i → i < length collection.
Proof. apply fst_list_find_lt. Qed.

Lemma collection_at_lt collection idx i :
  collection_at collection idx = Some i → i < length collection.
Proof.
  unfold collection_at. destruct (decide _) as [Hin|]; [|done].
  intros [= <-]. lia.
Qed.

Lemma first_hit_lt find candidates (n : nat) i :
  (∀ c j, find c = Some j → j < n) →
  first_hit find candidates = Some i → i < n.
Proof. intros Hfind (c & _ & Hc)%first_hit_Some. by eapply Hfind. Qed.

(** X6. [resolve_input_socket] only ever answers with a socket of the node
    it is given (a position below the number of its inputs), so that a
    node without inputs resolves nothing; and the positional fallback makes
    it answer whenever [socket_index] is a position of the Octane node,
    whatever the names are. *)
Theorem resolve_input_socket_positional
    cycles_type cycles_socket_name octane_node socket_identifier socket_index :
  let resolved :=
    resolve_input_socket cycles_type cycles_socket_name octane_node
      socket_identifier socket_index in
  (∀ i, resolved = Some i → i < length (node_inputs octane_node)) ∧
  (node_inputs octane_node = [] → resolved = None) ∧
  ((0 ≤ socket_index < Z.of_nat (length (node_inputs octane_node)))%Z →
   is_Some resolved).
Proof.
  intros resolved.
  assert (∀ i, resolved = Some i → i < length (node_inputs octane_node)) as Hrange.
  { intros i. unfold resolved, resolve_input_socket.
    intros [[[[[[H|H]%or_else_Some_inv|H]%or_else_Some_inv|H]%or_else_Some_inv
             |H]%or_else_Some_inv|H]%or_else_Some_inv|H]%or_else_Some_inv.
    - eapply first_hit_lt; [|exact H]. intros c j. apply collection_get_lt.
    - unfold input_strategy_2 in H. destruct (use_identifier _ _); [|done].
      eapply first_hit_lt; [|exact H]. intros c j. apply collection_get_lt.
    - by eapply collection_get_lt.
    - eapply first_hit_lt; [|exact H]. intros c j. apply find_case_insensitive_lt.
    - by eapply find_case_insensitive_lt.
    - by eapply find_substring_lt.
    - by eapply collection_at_lt. }
  split; [exact Hrange|]. split.
  - intros Hnil. destruct resolved as [i|]; [|done].
    specialize (Hrange i eq_refl). rewrite Hnil in Hrange. simpl in Hrange. lia.
  - intros Hidx. unfold resolved, resolve_input_socket.
    destruct (_ orelse input_strategy_6 cycles_socket_name octane_node)
      as [i|] eqn:Hnamed; [by eexists|].
    simpl. unfold input_strategy_7, collection_at.
    rewrite decide_True by done. by eexists.
Qed.

(** X7. [resolve_output_socket] only ever answers with an output of the
    node it is given; on a node with a single output it answers with that
    output, whatever the Cycles socket was called. *)
Theorem resolve_output_socket_single
    cycles_type cycles_socket_name octane_node socket_identifier :
  let resolved :=
    resolve_output_socket cycles_type cycles_socket_name octane_node
      socket_identifier in
  (∀ i, resolved = Some i → i < length (node_outputs octane_node)) ∧
  (length (node_outputs octane_node) = 1 → resolved = Some 0).
Proof.
  intros resolved.
  assert (∀ i, resolved = Some i → i < length (node_outputs octane_node)) as Hrange.
  { intros i. unfold resolved, resolve_output_socket.
    intros [[[[[H|H]%or_else_Some_inv|H]%or_else_Some_inv|H]%or_else_Some_inv
             |H]%or_else_Some_inv|H]%or_else_Some_inv.
    - eapply first_hit_lt; [|exact H]. intros c j. apply collection_get_lt.
    - unfold output_strategy_2 in H. destruct (use_identifier _ _); [|done].
      eapply first_hit_lt; [|exact H]. intros c j. apply collection_get_lt.
    - by eapply collection_get_lt.
    - unfold output_strategy_4 in H. apply or_else_Some_inv in H as [H|H].
      + by eapply find_case_insensitive_lt.
      + eapply first_hit_lt; [|exact H]. intros c j. apply find_case_insensitive_lt.
    - by eapply find_substring_lt.
    - unfold output_strategy_6 in H.
      destruct (node_outputs octane_node); [done|]. injection H as <-. simpl. lia. }
  split; [exact Hrange|].
  intros Hone. destruct resolved as [i|] eqn:Hres.
  - specialize (Hrange i eq_refl). f_equal. lia.
  - exfalso. unfold resolved, resolve_output_socket in Hres.
    apply or_else_None in Hres as [_ H6]. unfold output_strategy_6 in H6.
    by destruct (node_outputs octane_node).
Qed.

End ResolutionRange.
(* ===================================================================== *)
(** * Properties of the tree analysis *)
(* ===================================================================== *)

Section DictKeys.
Import Py.

Lemma dict_keys_set {V} (k : string) (v : V) (d : dict V) x :
  x ∈ dict_keys (dict_set k v d) ↔ x = k ∨ x ∈ dict_keys d.
Proof.
  unfold dict_keys. induction d as [|[k' v'] d IH]; simpl.
  - rewrite list_elem_of_singleton. set_solver.
  - destruct (decide (k' = k)) as [->|Hne]; simpl; set_solver.
Qed.

Lemma dict_set_NoDup {V} (k : string) (v : V) (d : dict V) :
  NoDup (dict_keys d) → NoDup (dict_keys (dict_set k v d)).
Proof.
  unfold dict_keys. induction d as [|[k' v'] d IH]; simpl; intros Hnd.
  - apply NoDup_singleton.
  - apply NoDup_cons in Hnd as [Hk' Hnd].
    destruct (decide (k' = k)) as [->|Hne]; simpl.
    + by apply NoDup_cons.
    + apply NoDup_cons. split; [|by apply IH].
      intros [?|?]%(dict_keys_set k v d k'); [congruence|done].
Qed.

Lemma dict_get_keys {V} (k : string) (d : dict V) :
  is_Some (dict_get k d) ↔ k ∈ dict_keys d.
Proof.
  unfold dict_keys. induction d as [|[k' v'] d IH]; simpl.
  - split; [by intros [? ?]|by intros ?%elem_of_nil].
  - destruct (decide (k' = k)) as [->|Hne].
    + split; [intros _; by left|eauto].
    + rewrite IH. set_solver.
Qed.

End DictKeys.

(** Conditions on literal names, decided by evaluation. *)
Ltac eval_conditions :=
  repeat match goal with
  | |- context [ShaderDetection.one_of ?b ?l] =>
      let v := eval vm_compute in (ShaderDetection.one_of b l) in
      change (ShaderDetection.one_of b l) with v
  | |- context [bool_decide ?P] =>
      let v := eval vm_compute in (bool_decide P) in
      change (bool_decide P) with v
  end.

Section AnalysisNodes.
Import Py Bpy ShaderDetection.

(** Node types the node loop of [analyze_tree] passes over. *)
Local Abbreviation skipped bid :=
  (bid = "NodeFrame" ∨ bid = "NodeReroute" ∨ bid ∈ _TRANSPARENT_TYPES).

Lemma one_of_spec bid names : one_of bid names = true ↔ bid ∈ names.
Proof. unfold one_of. apply bool_decide_eq_true. Qed.

Lemma one_of_false bid names : one_of bid names = false ↔ bid ∉ names.
Proof. unfold one_of. apply bool_decide_eq_false. Qed.

(** The Principled part of the pattern detection touches its three flags
    only, and only raises them. *)
Lemma detect_principled_frame node a a' :
  detect_principled node a = Ok a' →
  nodes a' = nodes a ∧ links a' = links a ∧
  has_volume a' = has_volume a ∧ has_alpha a' = has_alpha a ∧
  has_bump a' = has_bump a ∧ has_normal_map a' = has_normal_map a ∧
  has_displacement a' = has_displacement a ∧
  (has_glass a = true → has_glass a' = true) ∧
  (has_emission a = true → has_emission a' = true) ∧
  (has_sss a = true → has_sss a' = true).
Proof.
  unfold detect_principled. cbv zeta.
  intros (a1 & H1 & (a2 & H2 & H3)%bind_Ok)%bind_Ok.
  assert (nodes a1 = nodes a ∧ links a1 = links a ∧
    has_volume a1 = has_volume a ∧ has_alpha a1 = has_alpha a ∧
    has_bump a1 = has_bump a ∧ has_normal_map a1 = has_normal_map a ∧
    has_displacement a1 = has_displacement a ∧
    (has_glass a = true → has_glass a1 = true) ∧
    has_emission a1 = has_emission a ∧ has_sss a1 = has_sss a) as E1.
  { destruct (input_or node _ _) as [tw_input|]; [|by injection H1 as <-].
    apply bind_Ok in H1 as ([] & _ & H1); injection H1 as <-; by destruct a. }
  assert (nodes a2 = nodes a1 ∧ links a2 = links a1 ∧
    has_volume a2 = has_volume a1 ∧ has_alpha a2 = has_alpha a1 ∧
    has_bump a2 = has_bump a1 ∧ has_normal_map a2 = has_normal_map a1 ∧
    has_displacement a2 = has_displacement a1 ∧
    has_glass a2 = has_glass a1 ∧
    (has_emission a1 = true → has_emission a2 = true) ∧
    has_sss a2 = has_sss a1) as E2.
  { destruct (snd <$> collection_find (node_inputs node) "Emission Color")
      as [em_input|]; [|by injection H2 as <-].
    destruct (sock_default em_input) as [em_col|]; [|by injection H2 as <-].
    apply bind_Ok in H2 as ([] & _ & H2); injection H2 as <-; by destruct a1. }
  assert (nodes a' = nodes a2 ∧ links a' = links a2 ∧
    has_volume a' = has_volume a2 ∧ has_alpha a' = has_alpha a2 ∧
    has_bump a' = has_bump a2 ∧ has_normal_map a' = has_normal_map a2 ∧
    has_displacement a' = has_displacement a2 ∧
    has_glass a' = has_glass a2 ∧ has_emission a' = has_emission a2 ∧
    (has_sss a2 = true → has_sss a' = true)) as E3.
  { destruct (input_or node "Subsurface Weight" "Subsurface") as [ss_input|];
      [|by injection H3 as <-].
    apply bind_Ok in H3 as ([] & _ & H3); injection H3 as <-; by destruct a2. }
  destruct E3 as (-> & -> & -> & -> & -> & -> & -> & G3 & Em3 & S3).
  destruct E2 as (-> & -> & -> & -> & -> & -> & -> & G2 & Em2 & S2).
  destruct E1 as (-> & -> & -> & -> & -> & -> & -> & G1 & Em1 & S1).
  repeat split; try done.
  - intros ?. rewrite G3, G2. auto.
  - intros ?. rewrite Em3. apply Em2. by rewrite Em1.
  - intros ?. apply S3. by rewrite S2, S1.
Qed.


(** The pattern detection as a whole: the flags that depend on the node
    type alone, and the three that values can raise as well. *)
Lemma detect_patterns_spec node a a' :
  detect_patterns node a = Ok a' →
  let bid := node_idname node in
  nodes a' = nodes a ∧ links a' = links a ∧ has_alpha a' = has_alpha a ∧
  has_volume a' =
    has_volume a || one_of bid ["ShaderNodeVolumeAbsorption"; "ShaderNodeVolumeScatter";
                                "ShaderNodeVolumePrincipled"] ∧
  has_bump a' = has_bump a || bool_decide (bid = "ShaderNodeBump") ∧
  has_normal_map a' = has_normal_map a || bool_decide (bid = "ShaderNodeNormalMap") ∧
  has_displacement a' =
    has_displacement a || one_of bid ["ShaderNodeDisplacement";
                                      "ShaderNodeVectorDisplacement"] ∧
  (has_glass a = true ∨ bid = "ShaderNodeBsdfGlass" → has_glass a' = true) ∧
  (has_emission a = true ∨ bid = "ShaderNodeEmission" ∨ bid = "ShaderNodeBlackbody" →
   has_emission a' = true) ∧
  (has_sss a = true ∨ bid = "ShaderNodeSubsurfaceScattering" → has_sss a' = true).
Proof.
  intros H bid.
  destruct (decide (bid = "ShaderNodeBsdfPrincipled")) as [Hp|Hp].
  { rewrite detect_patterns_principled in H by done.
    apply detect_principled_frame in H
      as (-> & -> & -> & -> & -> & -> & -> & G & Em & S).
    rewrite Hp. eval_conditions. rewrite !orb_false_r.
    repeat split; try done;
      first [intros [?|[?|?]]; by auto | intros [?|?]; by auto]. }
  unfold detect_patterns in H. fold bid in H.
  destruct (decide (bid ∈
    ["ShaderNodeBsdfGlass"; "ShaderNodeEmission"; "ShaderNodeBlackbody";
     "ShaderNodeVolumeAbsorption"; "ShaderNodeVolumeScatter";
     "ShaderNodeVolumePrincipled"; "ShaderNodeBump"; "ShaderNodeNormalMap";
     "ShaderNodeDisplacement"; "ShaderNodeVectorDisplacement";
     "ShaderNodeSubsurfaceScattering"])) as [Hbid|Hbid].
  - clearbody bid. rewrite !elem_of_cons, elem_of_nil in Hbid.
    destruct Hbid as [->|[->|[->|[->|[->|[->|[->|[->|[->|[->|[->|[]]]]]]]]]]]];
      simpl in H; injection H as <-; eval_conditions;
      destruct a; simpl; rewrite ?orb_true_r, ?orb_false_r;
      repeat split; try done;
      first [intros [?|[?|?]]; done | intros [?|?]; done].
  - clearbody bid. unfold one_of in *.
    repeat (apply not_elem_of_cons in Hbid as [? Hbid]).
    assert (∀ names : list string,
      Forall (fun n => bid ≠ n) names → bool_decide (bid ∈ names) = false) as Hnone.
    { intros names Hall. apply bool_decide_eq_false_2. intros Hin.
      by eapply Forall_forall in Hall. }
    rewrite !decide_False in H by done. cbn [mbind result_bind] in H.
    rewrite !decide_False in H by done.
    rewrite !Hnone in H by (repeat constructor; done).
    cbv zeta in H. injection H as <-.
    rewrite !Hnone by (repeat constructor; done).
    rewrite !bool_decide_eq_false_2 by done.
    rewrite ?orb_false_r. repeat split; try done;
      first [intros [?|[?|?]]; done | intros [?|?]; done].
Qed.


(** The node types the pattern detection looks for. *)
Local Abbreviation pattern_types :=
  ["ShaderNodeBsdfPrincipled"; "ShaderNodeBsdfGlass"; "ShaderNodeEmission";
   "ShaderNodeBlackbody"; "ShaderNodeVolumeAbsorption"; "ShaderNodeVolumeScatter";
   "ShaderNodeVolumePrincipled"; "ShaderNodeBump"; "ShaderNodeNormalMap";
   "ShaderNodeDisplacement"; "ShaderNodeVectorDisplacement";
   "ShaderNodeSubsurfaceScattering"].

Lemma skipped_no_pattern bid : skipped bid → bid ∉ pattern_types.
Proof.
  intros Hskip.
  apply (names_apart ("NodeFrame" :: "NodeReroute" :: _TRANSPARENT_TYPES)).
  - vm_compute. reflexivity.
  - destruct Hskip as [->|[->|?]]; [by left|by right; left|by do 2 right].
Qed.

(** One turn of the node loop. *)
Lemma analyze_node_step a node a' :
  analyze_node a node = Ok a' →
  let bid := node_idname node in
  ((skipped bid ∧ nodes a' = nodes a) ∨
   (¬ skipped bid ∧ ∃ info, snapshot_node node = Ok info ∧
      nodes a' = dict_set (node_name node) info (nodes a))) ∧
  links a' = links a ∧ has_alpha a' = has_alpha a ∧
  has_volume a' =
    has_volume a || one_of bid ["ShaderNodeVolumeAbsorption"; "ShaderNodeVolumeScatter";
                                "ShaderNodeVolumePrincipled"] ∧
  has_bump a' = has_bump a || bool_decide (bid = "ShaderNodeBump") ∧
  has_normal_map a' = has_normal_map a || bool_decide (bid = "ShaderNodeNormalMap") ∧
  has_displacement a' =
    has_displacement a || one_of bid ["ShaderNodeDisplacement";
                                      "ShaderNodeVectorDisplacement"] ∧
  (has_glass a = true ∨ bid = "ShaderNodeBsdfGlass" → has_glass a' = true) ∧
  (has_emission a = true ∨ bid = "ShaderNodeEmission" ∨ bid = "ShaderNodeBlackbody" →
   has_emission a' = true) ∧
  (has_sss a = true ∨ bid = "ShaderNodeSubsurfaceScattering" → has_sss a' = true).
Proof.
  intros H bid. unfold analyze_node in H. fold bid in H. cbv zeta in H.
  destruct (decide (skipped bid)) as [Hskip|Hskip].
  - assert (a' = a) as ->.
    { destruct Hskip as [Hs|[Hs|Hs]].
      - rewrite decide_True in H by done. by injection H.
      - destruct (decide (bid = "NodeFrame")); [by injection H|].
        rewrite decide_True in H by done. by injection H.
      - destruct (decide (bid = "NodeFrame")); [by injection H|].
        destruct (decide (bid = "NodeReroute")); [by injection H|].
        apply one_of_spec in Hs. rewrite Hs in H. by injection H. }
    split; [by left|].
    pose proof (skipped_no_pattern bid Hskip) as Hbid. clearbody bid.
    repeat (apply not_elem_of_cons in Hbid as [? Hbid]).
    assert (∀ names : list string,
      Forall (fun n => bid ≠ n) names → one_of bid names = false) as Hnone.
    { intros names Hall. apply bool_decide_eq_false_2. intros Hin.
      by eapply Forall_forall in Hall. }
    rewrite !Hnone by (repeat constructor; done).
    rewrite !bool_decide_eq_false_2 by done.
    rewrite ?orb_false_r. repeat split; try done;
      first [intros [?|[?|?]]; done | intros [?|?]; done].
  - rewrite !decide_False in H by tauto.
    destruct (one_of bid _TRANSPARENT_TYPES) eqn:Ht.
    { exfalso. apply Hskip. do 2 right. by apply one_of_spec. }
    apply bind_Ok in H as (info & Hinfo & H).
    apply detect_patterns_spec in H. fold bid in H.
    destruct H as (Hn & Hl & Ha & Hv & Hb & Hnm & Hd & Hg & He & Hs).
    split; [right; split; [done|]; by exists info|].
    destruct a. simpl in *. done.
Qed.


(** The node loop of [analyze_tree], from any state. *)
Lemma analyze_nodes_loop ns : ∀ a0 a,
  fold_result analyze_node a0 ns = Ok a →
  links a = links a0 ∧ has_alpha a = has_alpha a0 ∧
  (NoDup (dict_keys (nodes a0)) → NoDup (dict_keys (nodes a))) ∧
  (∀ x, x ∈ dict_keys (nodes a) ↔
        x ∈ dict_keys (nodes a0) ∨
        ∃ node, node ∈ ns ∧ node_name node = x ∧ ¬ skipped (node_idname node)) ∧
  (∀ x info, dict_get x (nodes a) = Some info →
        dict_get x (nodes a0) = Some info ∨
        ∃ node, node ∈ ns ∧ node_name node = x ∧ ¬ skipped (node_idname node) ∧
                snapshot_node node = Ok info) ∧
  (has_volume a = true ↔
     has_volume a0 = true ∨
     ∃ node, node ∈ ns ∧
       node_idname node ∈ ["ShaderNodeVolumeAbsorption"; "ShaderNodeVolumeScatter";
                           "ShaderNodeVolumePrincipled"]) ∧
  (has_bump a = true ↔
     has_bump a0 = true ∨ ∃ node, node ∈ ns ∧ node_idname node = "ShaderNodeBump") ∧
  (has_normal_map a = true ↔
     has_normal_map a0 = true ∨
     ∃ node, node ∈ ns ∧ node_idname node = "ShaderNodeNormalMap") ∧
  (has_displacement a = true ↔
     has_displacement a0 = true ∨
     ∃ node, node ∈ ns ∧
       node_idname node ∈ ["ShaderNodeDisplacement"; "ShaderNodeVectorDisplacement"]) ∧
  (has_glass a0 = true ∨
   (∃ node, node ∈ ns ∧ node_idname node = "ShaderNodeBsdfGlass") →
   has_glass a = true) ∧
  (has_emission a0 = true ∨
   (∃ node, node ∈ ns ∧ (node_idname node = "ShaderNodeEmission" ∨
                         node_idname node = "ShaderNodeBlackbody")) →
   has_emission a = true) ∧
  (has_sss a0 = true ∨
   (∃ node, node ∈ ns ∧ node_idname node = "ShaderNodeSubsurfaceScattering") →
   has_sss a = true).
Proof.
  induction ns as [|n ns IH]; intros a0 a Hrun.
  { simpl in Hrun. injection Hrun as <-.
    repeat split; try done; try (intros [?|(? & []%elem_of_nil & _)]; done);
      try (by left). }
  rewrite fold_result_cons in Hrun. apply bind_Ok in Hrun as (a1 & Hstep & Hrun).
  apply analyze_node_step in Hstep.
  destruct Hstep as (Hnodes & Hl & Ha & Hv & Hb & Hnm & Hd & Hg & He & Hs).
  destruct (IH _ _ Hrun)
    as (Il & Ia & Ind & Ikeys & Ient & Iv & Ib & Inm & Id & Ig & Ie & Is).
  split; [congruence|]. split; [congruence|]. split; [|split; [|split]].
  - intros Hnd. apply Ind.
    destruct Hnodes as [[_ ->]|(_ & info & _ & ->)]; [done|by apply dict_set_NoDup].
  - intros x. rewrite Ikeys.
    destruct Hnodes as [[Hskip ->]|(Hskip & info & _ & ->)].
    + split.
      * intros [?|(node & Hin & ? & ?)]; [by left|].
        right. exists node. split; [by right|done].
      * intros [?|(node & [->|Hin]%elem_of_cons & ? & ?)]; [by left|done|].
        right. by exists node.
    + rewrite dict_keys_set. split.
      * intros [[->|?]|(node & Hin & ? & ?)]; [|by left|].
        -- right. exists n. split; [by left|done].
        -- right. exists node. split; [by right|done].
      * intros [?|(node & [->|Hin]%elem_of_cons & ? & ?)];
          [left; by right|left; by left|right; by exists node].
  - intros x info Hget. destruct (Ient x info Hget) as [Hget1|(node & Hin & ? & ? & ?)].
    + destruct Hnodes as [[Hskip Hn]|(Hskip & info1 & Hsnap & Hn)].
      * left. by rewrite <- Hn.
      * rewrite Hn in Hget1. destruct (decide (x = node_name n)) as [->|Hne].
        -- rewrite dict_get_set_eq in Hget1. injection Hget1 as ->.
           right. exists n. split; [by left|done].
        -- rewrite dict_get_set_ne in Hget1 by done. by left.
    + right. exists node. split; [by right|done].
  - split; [|split; [|split; [|split; [|split; [|split]]]]].
    + rewrite Iv, Hv, orb_true_iff, one_of_spec. split.
      * intros [[?|?]|(node & ? & ?)];
          [by left|right; exists n; split; [by left|done]
          |right; exists node; split; [by right|done]].
      * intros [?|(node & [->|?]%elem_of_cons & ?)];
          [left; by left|left; by right|right; by exists node].
    + rewrite Ib, Hb, orb_true_iff, bool_decide_eq_true. split.
      * intros [[?|?]|(node & ? & ?)];
          [by left|right; exists n; split; [by left|done]
          |right; exists node; split; [by right|done]].
      * intros [?|(node & [->|?]%elem_of_cons & ?)];
          [left; by left|left; by right|right; by exists node].
    + rewrite Inm, Hnm, orb_true_iff, bool_decide_eq_true. split.
      * intros [[?|?]|(node & ? & ?)];
          [by left|right; exists n; split; [by left|done]
          |right; exists node; split; [by right|done]].
      * intros [?|(node & [->|?]%elem_of_cons & ?)];
          [left; by left|left; by right|right; by exists node].
    + rewrite Id, Hd, orb_true_iff, one_of_spec. split.
      * intros [[?|?]|(node & ? & ?)];
          [by left|right; exists n; split; [by left|done]
          |right; exists node; split; [by right|done]].
      * intros [?|(node & [->|?]%elem_of_cons & ?)];
          [left; by left|left; by right|right; by exists node].
    + intros [?|(node & [->|?]%elem_of_cons & ?)]; apply Ig;
        [left; apply Hg; by left|left; apply Hg; by right|right; by exists node].
    + intros [?|(node & [->|?]%elem_of_cons & ?)]; apply Ie;
        [left; apply He; by left|left; apply He; by right|right; by exists node].
    + intros [?|(node & [->|?]%elem_of_cons & ?)]; apply Is;
        [left; apply Hs; by left|left; apply Hs; by right|right; by exists node].
Qed.

End AnalysisNodes.

Section AnalysisLinks.
Import Py Bpy ShaderDetection.

(** What a flattened link records: an output socket of a node of the tree
    and an input socket of a node of the tree, neither node a reroute or a
    transparent node. *)
Local Abbreviation flat_link t l :=
  (∃ src dst out inp,
     tree_node t (from_node l) = Some src ∧ tree_node t (to_node l) = Some dst ∧
     (node_idname src ∉ "NodeReroute" :: _TRANSPARENT_TYPES) ∧
     (node_idname dst ∉ "NodeReroute" :: _TRANSPARENT_TYPES) ∧
     out ∈ node_outputs src ∧
     sock_name out = from_socket l ∧ sock_identifier out = from_socket_identifier l ∧
     Z.le 0 (to_socket_index l) ∧
     node_inputs dst !! Z.to_nat (to_socket_index l) = Some inp ∧
     sock_name inp = to_socket l ∧ sock_identifier inp = to_socket_identifier l).

(** The key under which [seen_links] remembers a link. *)
Local Abbreviation link_key l :=
  (from_node l, from_socket_identifier l, to_node l, to_socket_identifier l).

(** The link leaves the Alpha output of an image texture. *)
Local Abbreviation alpha_link t l :=
  (from_socket l = "Alpha" ∧
   ∃ src, tree_node t (from_node l) = Some src ∧
          node_idname src = "ShaderNodeTexImage").

Local Abbreviation in_tree t n := (tree_node t (node_name n) = Some n).

Lemma link_node_in_tree t x n : link_node t x = Ok n → in_tree t n.
Proof.
  unfold link_node. destruct (tree_node t x) as [node|] eqn:Hn; [|done].
  intros [= <-]. by rewrite (tree_node_name _ _ _ Hn).
Qed.

Lemma trace_reroute_exit_node cur socks r :
  trace_reroute_exit cur socks = Ok r → r.1 = cur.
Proof.
  unfold trace_reroute_exit. destruct (decide _); destruct socks; by intros [= <-].
Qed.

Lemma trace_reroute_output_in_tree fuel t : ∀ visited cur r,
  trace_reroute_output_loop fuel t visited cur = Ok r → in_tree t cur → in_tree t r.1.
Proof.
  induction fuel as [|fuel IH]; intros visited cur r H Hcur; [done|].
  simpl in H. destruct (decide _) as [_|_].
  - destruct (node_inputs cur) as [|inp inps].
    { apply trace_reroute_exit_node in H. by rewrite H. }
    destruct (links_into t (node_name cur) 0) as [|link links].
    { apply trace_reroute_exit_node in H. by rewrite H. }
    apply bind_Ok in H as (next & Hnext & H). apply link_node_in_tree in Hnext.
    destruct (decide _); [by injection H as <-|]. by eapply IH.
  - apply trace_reroute_exit_node in H. by rewrite H.
Qed.

Lemma trace_reroute_input_in_tree fuel t : ∀ visited cur r,
  trace_reroute_input_loop fuel t visited cur = Ok r → in_tree t cur → in_tree t r.1.
Proof.
  induction fuel as [|fuel IH]; intros visited cur r H Hcur; [done|].
  simpl in H. destruct (decide _) as [_|_].
  - destruct (node_outputs cur) as [|out outs].
    { apply trace_reroute_exit_node in H. by rewrite H. }
    destruct (links_out_of t (node_name cur) 0) as [|link links].
    { apply trace_reroute_exit_node in H. by rewrite H. }
    apply bind_Ok in H as (next & Hnext & H). apply link_node_in_tree in Hnext.
    destruct (decide _); [by injection H as <-|]. by eapply IH.
  - apply trace_reroute_exit_node in H. by rewrite H.
Qed.

Lemma trace_transparent_in_tree fuel t : ∀ node n s,
  _trace_transparent_source fuel t node = Ok (Some (n, s)) → in_tree t n.
Proof.
  induction fuel as [|fuel IH]; intros node n s H; [done|].
  simpl in H. destruct (first_connected_input t node) as [link|]; [|done].
  apply bind_Ok in H as (source & Hsource & H). apply link_node_in_tree in Hsource.
  destruct (decide _).
  - apply fmap_Ok in H as (r & Hr & [= <-]).
    by apply trace_reroute_output_in_tree in Hr.
  - destruct (one_of _ _); [by eapply IH|]. by injection H as <- _.
Qed.

Lemma socket_at_Ok sockets i sock :
  socket_at sockets i = Ok sock → ∃ j, i = Some j ∧ sockets !! j = Some sock.
Proof.
  unfold socket_at. destruct i as [j|]; simpl; [|done].
  destruct (sockets !! j) as [s|] eqn:Hj; [|done]. intros [= <-]. eauto.
Qed.


(** One turn of the link loop: the state is left as it is, or one
    flattened link with a key not seen before is appended. *)
Lemma analyze_link_step t a seen link a' seen' :
  analyze_link t (a, seen) link = Ok (a', seen') →
  (a' = a ∧ seen' = seen) ∨
  ∃ l, flat_link t l ∧ (link_key l ∉ seen) ∧ seen' = {[link_key l]} ∪ seen ∧
       links a' = links a ++ [l] ∧
       (has_alpha a' = true ↔ has_alpha a = true ∨ alpha_link t l) ∧
       nodes a' = nodes a ∧ has_glass a' = has_glass a ∧
       has_emission a' = has_emission a ∧ has_volume a' = has_volume a ∧
       has_bump a' = has_bump a ∧ has_normal_map a' = has_normal_map a ∧
       has_sss a' = has_sss a ∧ has_displacement a' = has_displacement a ∧
       transmission_weight a' = transmission_weight a.
Proof.
  intros H. unfold analyze_link in H.
  apply bind_Ok in H as (fn0 & Hfn0 & H). apply link_node_in_tree in Hfn0.
  apply bind_Ok in H as (tn0 & Htn0 & H). apply link_node_in_tree in Htn0.
  apply bind_Ok in H as (traced & Htraced & H).
  destruct traced as [[fn1 fs1]|]; [|left; by injection H as <- <-].
  assert (in_tree t fn1) as Hfn1.
  { destruct (one_of (node_idname fn0) _TRANSPARENT_TYPES).
    - by eapply trace_transparent_in_tree.
    - by injection Htraced as <- _. }
  clear Htraced.
  destruct (one_of (node_idname tn0) _TRANSPARENT_TYPES);
    [left; by injection H as <- <-|].
  apply bind_Ok in H as (source & Hsource & H).
  destruct source as [[fn2 fs2]|]; [|left; by injection H as <- <-].
  assert (in_tree t fn2) as Hfn2.
  { destruct (decide (node_idname fn1 = "NodeReroute")).
    - apply bind_Ok in Hsource as (r & Hr & Hsource).
      apply trace_reroute_output_in_tree in Hr; [|done].
      destruct (decide (r.2 = None)); [done|]. injection Hsource as Heq.
      by subst r.
    - by injection Hsource as <- _. }
  clear Hsource.
  apply bind_Ok in H as (destination & Hdest & H).
  destruct destination as [[tn2 ts2]|]; [|left; by injection H as <- <-].
  assert (in_tree t tn2) as Htn2.
  { destruct (decide (node_idname tn0 = "NodeReroute")).
    - apply bind_Ok in Hdest as (r & Hr & Hdest).
      apply trace_reroute_input_in_tree in Hr; [|done].
      destruct (decide (r.2 = None)); [done|]. injection Hdest as Heq.
      by subst r.
    - by injection Hdest as <- _. }
  clear Hdest.
  destruct (one_of (node_idname fn2) _) eqn:Hf; [left; by injection H as <- <-|].
  destruct (one_of (node_idname tn2) _) eqn:Ht; [left; by injection H as <- <-|].
  apply one_of_false in Hf, Ht.
  apply bind_Ok in H as (from_sock & Hfrom & H).
  apply bind_Ok in H as (to_sock & Hto & H).
  apply socket_at_Ok in Hfrom as (i & -> & Hi).
  apply socket_at_Ok in Hto as (j & -> & Hj).
  cbv zeta in H. destruct (decide (_ ∈ seen)) as [|Hnew];
    [left; by injection H as <- <-|].
  injection H as <- <-. right.
  exists (mkLinkInfo (node_name fn2) (sock_name from_sock) (node_name tn2)
            (sock_name to_sock) (sock_identifier from_sock)
            (sock_identifier to_sock) (Z.of_nat j)).
  split; [|split; [exact Hnew|]].
  { exists fn2, tn2, from_sock, to_sock. cbn [from_node to_node from_socket
      to_socket from_socket_identifier to_socket_identifier to_socket_index default].
    rewrite Nat2Z.id.
    split; [done|]. split; [done|]. split; [done|]. split; [done|].
    split; [by eapply list_elem_of_lookup_2|]. repeat split; try done. lia. }
  split; [done|].
  assert (in_tree t fn2) as Hfn2' by done.
  destruct (decide (node_idname fn2 = "ShaderNodeTexImage" ∧
                    sock_name from_sock = "Alpha")) as [[Himg Halpha]|Hno];
    destruct a; simpl; (split; [done|]); (split; [|done]).
  - split; [|done]. intros _. right. split; [done|]. by exists fn2.
  - split; [by left|]. intros [?|[Halpha (src & Hsrc & Himg)]]; [done|].
    simpl in Hsrc. rewrite Hfn2' in Hsrc. injection Hsrc as <-. by destruct Hno.
Qed.


(** The link loop of [analyze_tree], from any state. *)
Lemma analyze_links_loop t ls : ∀ a0 seen0 a seen,
  fold_result (analyze_link t) (a0, seen0) ls = Ok (a, seen) →
  ∃ new,
    links a = links a0 ++ new ∧
    Forall (fun l => flat_link t l) new ∧
    NoDup ((fun l => link_key l) <$> new) ∧
    (∀ l, l ∈ new → link_key l ∉ seen0) ∧
    (∀ k, k ∈ seen ↔ k ∈ seen0 ∨ ∃ l, l ∈ new ∧ link_key l = k) ∧
    (has_alpha a = true ↔ has_alpha a0 = true ∨ ∃ l, l ∈ new ∧ alpha_link t l) ∧
    nodes a = nodes a0 ∧ has_glass a = has_glass a0 ∧
    has_emission a = has_emission a0 ∧ has_volume a = has_volume a0 ∧
    has_bump a = has_bump a0 ∧ has_normal_map a = has_normal_map a0 ∧
    has_sss a = has_sss a0 ∧ has_displacement a = has_displacement a0 ∧
    transmission_weight a = transmission_weight a0.
Proof.
  induction ls as [|link ls IH]; intros a0 seen0 a seen Hrun.
  { simpl in Hrun. injection Hrun as <- <-. exists [].
    rewrite app_nil_r. split; [done|]. split; [done|]. split; [apply NoDup_nil_2|].
    split; [by intros l Hl%elem_of_nil|]. split.
    { intros k. split; [by left|]. by intros [?|(l & Hl%elem_of_nil & _)]. }
    split; [|done]. split; [by left|]. by intros [?|(l & Hl%elem_of_nil & _)]. }
  rewrite fold_result_cons in Hrun.
  apply bind_Ok in Hrun as ([a1 seen1] & Hstep & Hrun).
  destruct (IH _ _ _ _ Hrun)
    as (new & Hlinks & Hflat & Hnd & Hfresh & Hseen & Halpha & Hrest).
  apply analyze_link_step in Hstep
    as [[-> ->]|(l & Hl & Hnew & -> & Hl1 & Ha1 & Hrest1)].
  { exists new. done. }
  exists (l :: new). split; [by rewrite Hlinks, Hl1, <- app_assoc|].
  split; [by constructor|]. split; [|split; [|split; [|split]]].
  - rewrite fmap_cons. apply NoDup_cons. split; [|done].
    intros (l' & Heq & Hl')%list_elem_of_fmap.
    apply (Hfresh l' Hl'). rewrite <- Heq. set_solver.
  - intros l' [->|Hl']%elem_of_cons; [done|].
    intros Hin. apply (Hfresh l' Hl'). set_solver.
  - intros k. rewrite Hseen. split.
    + intros [[->%elem_of_singleton|?]%elem_of_union|(l' & Hl' & <-)].
      * right. exists l. split; [by left|done].
      * by left.
      * right. exists l'. split; [by right|done].
    + intros [?|(l' & [->|Hl']%elem_of_cons & <-)].
      * left. set_solver.
      * left. set_solver.
      * right. by exists l'.
  - rewrite Halpha, Ha1. split.
    + intros [[?|?]|(l' & Hl' & ?)].
      * by left.
      * right. exists l. split; [by left|done].
      * right. exists l'. split; [by right|done].
    + intros [?|(l' & [->|Hl']%elem_of_cons & ?)].
      * left; by left.
      * left; by right.
      * right. by exists l'.
  - destruct Hrest as (-> & -> & -> & -> & -> & -> & -> & -> & ->). done.
Qed.

(** The two loops of [analyze_tree] together. *)
Lemma analyze_tree_loops t a :
  analyze_tree t = Ok a →
  ∃ a1 seen,
    fold_result analyze_node empty_analysis (tree_nodes t) = Ok a1 ∧
    fold_result (analyze_link t) (a1, ∅) (tree_links t) = Ok (a, seen).
Proof.
  unfold analyze_tree, analyze_nodes.
  intros (a1 & Hnodes & ([a' seen] & Hlinks & ->)%fmap_Ok)%bind_Ok.
  by exists a1, seen.
Qed.


Lemma snapshot_node_fields node info :
  snapshot_node node = Ok info →
  name info = node_name node ∧ bl_idname info = node_idname node.
Proof.
  unfold snapshot_node. intros (props & _ & H)%bind_Ok. by injection H as <-.
Qed.

Lemma skipped_types bid :
  (bid = "NodeFrame" ∨ bid = "NodeReroute" ∨ bid ∈ _TRANSPARENT_TYPES) ↔
  bid ∈ "NodeFrame" :: "NodeReroute" :: _TRANSPARENT_TYPES.
Proof. by rewrite !elem_of_cons. Qed.

Lemma tree_node_elem_of t x node : tree_node t x = Some node → node ∈ tree_nodes t.
Proof.
  unfold tree_node. destruct (list_find _ _) as [[i n]|] eqn:Hfind; [|done].
  intros [= <-]. apply list_find_Some in Hfind as (Hi & _).
  by eapply list_elem_of_lookup_2.
Qed.

(** X8. The nodes of an analysis: [analyze_tree] records one entry per
    node name, for exactly the nodes of the tree that are not frames,
    reroutes or transparent nodes, and the entry stored under a name is
    the snapshot of a node of the tree with that name and carries its
    type. *)
Theorem analyze_tree_nodes t a :
  analyze_tree t = Ok a →
  NoDup (dict_keys (nodes a)) ∧
  (∀ x, x ∈ dict_keys (nodes a) ↔
        ∃ node, node ∈ tree_nodes t ∧ node_name node = x ∧
                node_idname node ∉ "NodeFrame" :: "NodeReroute" :: _TRANSPARENT_TYPES) ∧
  (∀ x info, dict_get x (nodes a) = Some info →
        name info = x ∧
        ∃ node, node ∈ tree_nodes t ∧ node_name node = x ∧
                bl_idname info = node_idname node).
Proof.
  intros (a1 & seen & Hnodes & Hlinks)%analyze_tree_loops.
  apply analyze_nodes_loop in Hnodes
    as (_ & _ & Hnd & Hkeys & Hent & _).
  apply analyze_links_loop in Hlinks as (new & _ & _ & _ & _ & _ & _ & -> & _).
  split; [apply Hnd, NoDup_nil_2|]. split.
  - intros x. rewrite Hkeys. split.
    + intros [[]%elem_of_nil|(node & ? & ? & Hskip)].
      exists node. by rewrite <- skipped_types.
    + intros (node & ? & ? & Hskip). right. exists node.
      by rewrite skipped_types.
  - intros x info Hget.
    destruct (Hent x info Hget) as [?|(node & Hin & <- & _ & Hsnap)]; [done|].
    apply snapshot_node_fields in Hsnap as [-> ->].
    split; [done|]. by exists node.
Qed.

Lemma analyze_tree_nodes_witness :
  NoDup (dict_keys (nodes Fixtures.rerouted_analysis)) ∧
  (∀ x, x ∈ dict_keys (nodes Fixtures.rerouted_analysis) ↔
        ∃ node, node ∈ tree_nodes Fixtures.rerouted_tree ∧ node_name node = x ∧
                node_idname node ∉ "NodeFrame" :: "NodeReroute" :: _TRANSPARENT_TYPES) ∧
  (∀ x info, dict_get x (nodes Fixtures.rerouted_analysis) = Some info →
        name info = x ∧
        ∃ node, node ∈ tree_nodes Fixtures.rerouted_tree ∧ node_name node = x ∧
                bl_idname info = node_idname node).
Proof.
  apply (analyze_tree_nodes Fixtures.rerouted_tree Fixtures.rerouted_analysis).
  vm_compute. reflexivity.
Defined.

(** X9. The links of an analysis are flattened: each one leaves an output
    socket of a node of the tree and enters an input socket of a node of
    the tree, recorded with its name, identifier and position, and neither
    node is a reroute or a transparent node.  Unless it is a frame, each
    end is a node of the analysis. *)
Theorem analyze_tree_links_resolved t a l :
  analyze_tree t = Ok a →
  l ∈ links a →
  ∃ src dst out inp,
    tree_node t (from_node l) = Some src ∧ tree_node t (to_node l) = Some dst ∧
    (node_idname src ∉ "NodeReroute" :: _TRANSPARENT_TYPES) ∧
    (node_idname dst ∉ "NodeReroute" :: _TRANSPARENT_TYPES) ∧
    out ∈ node_outputs src ∧
    sock_name out = from_socket l ∧ sock_identifier out = from_socket_identifier l ∧
    (0 ≤ to_socket_index l)%Z ∧
    node_inputs dst !! Z.to_nat (to_socket_index l) = Some inp ∧
    sock_name inp = to_socket l ∧ sock_identifier inp = to_socket_identifier l ∧
    (node_idname src ≠ "NodeFrame" → from_node l ∈ dict_keys (nodes a)) ∧
    (node_idname dst ≠ "NodeFrame" → to_node l ∈ dict_keys (nodes a)).
Proof.
  intros (a1 & seen & Hnodes & Hlinks)%analyze_tree_loops Hl.
  apply analyze_nodes_loop in Hnodes as (Hl1 & _ & _ & Hkeys & _).
  apply analyze_links_loop in Hlinks as (new & Hnew & Hflat & _ & _ & _ & _ & Hn & _).
  rewrite Hnew, Hl1 in Hl. simpl in Hl.
  eapply Forall_forall in Hflat; [|exact Hl].
  destruct Hflat as (src & dst & out & inp & Hsrc & Hdst & Hs & Hd & Hrest).
  exists src, dst, out, inp.
  split; [done|]. split; [done|]. split; [done|]. split; [done|].
  destruct Hrest as (? & ? & ? & ? & ? & ? & ?).
  repeat (split; [done|]). rewrite Hn. split.
  - intros Hframe. apply Hkeys. right. exists src.
    split; [by eapply tree_node_elem_of|]. split; [by eapply tree_node_name|].
    intros [?|Hin]; [done|]. apply Hs. rewrite elem_of_cons. tauto.
  - intros Hframe. apply Hkeys. right. exists dst.
    split; [by eapply tree_node_elem_of|]. split; [by eapply tree_node_name|].
    intros [?|Hin]; [done|]. apply Hd. rewrite elem_of_cons. tauto.
Qed.

Lemma analyze_tree_links_resolved_witness :
  ∃ src dst out inp,
    tree_node Fixtures.rerouted_tree "Image Texture" = Some src ∧
    tree_node Fixtures.rerouted_tree "Principled BSDF" = Some dst ∧
    (node_idname src ∉ "NodeReroute" :: _TRANSPARENT_TYPES) ∧
    (node_idname dst ∉ "NodeReroute" :: _TRANSPARENT_TYPES) ∧
    out ∈ node_outputs src ∧
    sock_name out = "Color" ∧ sock_identifier out = "Color" ∧
    (0 ≤ 2)%Z ∧
    node_inputs dst !! Z.to_nat 2 = Some inp ∧
    sock_name inp = "Roughness" ∧ sock_identifier inp = "Roughness" ∧
    (node_idname src ≠ "NodeFrame" →
     "Image Texture" ∈ dict_keys (nodes Fixtures.rerouted_analysis)) ∧
    (node_idname dst ≠ "NodeFrame" →
     "Principled BSDF" ∈ dict_keys (nodes Fixtures.rerouted_analysis)).
Proof.
  apply (analyze_tree_links_resolved Fixtures.rerouted_tree
           Fixtures.rerouted_analysis
           (mkLinkInfo "Image Texture" "Color" "Principled BSDF" "Roughness"
              "Color" "Roughness" 2)).
  - vm_compute. reflexivity.
  - vm_compute. do 2 right. left.
Defined.

(** X10. The links of an analysis are deduplicated: no two of them agree
    in source node, source socket identifier, destination node and
    destination socket identifier. *)
Theorem analyze_tree_links_distinct t a :
  analyze_tree t = Ok a →
  NoDup ((fun l => (from_node l, from_socket_identifier l,
                    to_node l, to_socket_identifier l)) <$> links a).
Proof.
  intros (a1 & seen & Hnodes & Hlinks)%analyze_tree_loops.
  apply analyze_nodes_loop in Hnodes as (Hl1 & _).
  apply analyze_links_loop in Hlinks as (new & Hnew & _ & Hnd & _).
  rewrite Hnew, Hl1. exact Hnd.
Qed.

Lemma analyze_tree_links_distinct_witness :
  NoDup ((fun l => (from_node l, from_socket_identifier l,
                    to_node l, to_socket_identifier l))
           <$> links Fixtures.rerouted_analysis).
Proof.
  apply (analyze_tree_links_distinct Fixtures.rerouted_tree).
  vm_compute. reflexivity.
Defined.

(** X11. The pattern flags that depend on node types alone: [has_volume],
    [has_bump], [has_normal_map] and [has_displacement] are set exactly
    when the tree holds a node of one of the types concerned; a Glass
    BSDF sets [has_glass], an Emission or Blackbody node [has_emission],
    and a Subsurface Scattering node [has_sss]. *)
Theorem analyze_tree_type_flags t a :
  analyze_tree t = Ok a →
  (has_volume a = true ↔
     ∃ node, node ∈ tree_nodes t ∧
       node_idname node ∈ ["ShaderNodeVolumeAbsorption"; "ShaderNodeVolumeScatter";
                           "ShaderNodeVolumePrincipled"]) ∧
  (has_bump a = true ↔
     ∃ node, node ∈ tree_nodes t ∧ node_idname node = "ShaderNodeBump") ∧
  (has_normal_map a = true ↔
     ∃ node, node ∈ tree_nodes t ∧ node_idname node = "ShaderNodeNormalMap") ∧
  (has_displacement a = true ↔
     ∃ node, node ∈ tree_nodes t ∧
       node_idname node ∈ ["ShaderNodeDisplacement"; "ShaderNodeVectorDisplacement"]) ∧
  ((∃ node, node ∈ tree_nodes t ∧ node_idname node = "ShaderNodeBsdfGlass") →
   has_glass a = true) ∧
  ((∃ node, node ∈ tree_nodes t ∧ (node_idname node = "ShaderNodeEmission" ∨
                                   node_idname node = "ShaderNodeBlackbody")) →
   has_emission a = true) ∧
  ((∃ node, node ∈ tree_nodes t ∧
            node_idname node = "ShaderNodeSubsurfaceScattering") →
   has_sss a = true).
Proof.
  intros (a1 & seen & Hnodes & Hlinks)%analyze_tree_loops.
  apply analyze_nodes_loop in Hnodes
    as (_ & _ & _ & _ & _ & Hv & Hb & Hnm & Hd & Hg & He & Hs).
  apply analyze_links_loop in Hlinks
    as (new & _ & _ & _ & _ & _ & _ & _ & -> & -> & -> & -> & -> & -> & -> & _).
  rewrite Hv, Hb, Hnm, Hd. simpl.
  split; [naive_solver|]. split; [naive_solver|]. split; [naive_solver|].
  split; [naive_solver|]. split; [|split]; intros ?; [apply Hg|apply He|apply Hs];
    by right.
Qed.

Lemma analyze_tree_type_flags_witness :
  has_bump Fixtures.rerouted_analysis = true ↔
  ∃ node, node ∈ tree_nodes Fixtures.rerouted_tree ∧
          node_idname node = "ShaderNodeBump".
Proof.
  apply (analyze_tree_type_flags Fixtures.rerouted_tree Fixtures.rerouted_analysis).
  vm_compute. reflexivity.
Defined.

(** X12. [has_alpha] is set exactly when one of the flattened links leaves
    the output named Alpha of an image texture. *)
Theorem analyze_tree_alpha t a :
  analyze_tree t = Ok a →
  (has_alpha a = true ↔
   ∃ l src, l ∈ links a ∧ from_socket l = "Alpha" ∧
            tree_node t (from_node l) = Some src ∧
            node_idname src = "ShaderNodeTexImage").
Proof.
  intros (a1 & seen & Hnodes & Hlinks)%analyze_tree_loops.
  apply analyze_nodes_loop in Hnodes as (Hl1 & Ha1 & _).
  apply analyze_links_loop in Hlinks as (new & Hnew & _ & _ & _ & _ & Halpha & _).
  rewrite Halpha, Ha1, Hnew, Hl1. simpl. split.
  - intros [?|(l & Hl & ? & src & ? & ?)]; [done|]. by exists l, src.
  - intros (l & src & Hl & ? & ? & ?). right. exists l. split; [done|].
    split; [done|]. by exists src.
Qed.

Lemma analyze_tree_alpha_witness :
  has_alpha Fixtures.rerouted_analysis = true ↔
  ∃ l src, l ∈ links Fixtures.rerouted_analysis ∧ from_socket l = "Alpha" ∧
           tree_node Fixtures.rerouted_tree (from_node l) = Some src ∧
           node_idname src = "ShaderNodeTexImage".
Proof.
  apply (analyze_tree_alpha Fixtures.rerouted_tree Fixtures.rerouted_analysis).
  vm_compute. reflexivity.
Defined.

End AnalysisLinks.
(* ===================================================================== *)
(** * The transfer helpers and the Principled transfer as a whole *)
(* ===================================================================== *)

Section TransferHelpers.
Import Py Bpy ShaderDetection PropertyMapper.

Lemma socket_assign_Failed inp value e :
  socket_assign inp value = Failed e → e = ValueError ∧ ∃ l, value = VTuple l.
Proof.
  unfold socket_assign.
  destruct (sock_default inp) as [[]|], value; try done.
  destruct (decide _); [done|]. intros [= <-]. eauto.
Qed.

Lemma set_input_Raise node candidates value e :
  _set_input node candidates value = Raise e → e = ValueError ∧ ∃ l, value = VTuple l.
Proof.
  induction candidates as [|name rest IH]; simpl; [done|].
  destruct (collection_find (node_inputs node) name) as [[i inp]|]; [|done].
  destruct (socket_assign inp value) as [inp'| |e'] eqn:Hassign; [done|done|].
  intros [= <-]. by eapply socket_assign_Failed.
Qed.

(** X13. What [_set_input] does, case by case.  It answers [True] when it
    wrote the value to an input socket named by a candidate, the first one
    in candidate order that the host lets take the value, and changed
    nothing else of the node.  It answers [False] without changing the
    node.  It raises only [ValueError], and only for a sequence whose
    length the socket found refuses; a number never makes it raise. *)
Theorem set_input_outcome node candidates value :
  match _set_input node candidates value with
  | Ok (true, node') =>
      ∃ i inp inp',
        input_slot node candidates value = Some i ∧
        node_inputs node !! i = Some inp ∧
        sock_name inp ∈ candidates ∧
        socket_assign inp value = Stored inp' ∧
        node' = with_inputs node (<[i := inp']> (node_inputs node))
  | Ok (false, node') => node' = node
  | Raise e => e = ValueError ∧ ∃ l, value = VTuple l
  end.
Proof.
  destruct (_set_input node candidates value) as [[[] node']|e] eqn:Hset.
  - apply set_input_cases in Hset
      as [[? _]|(i & inp & inp' & _ & ? & ? & ? & ? & ?)]; [done|].
    by exists i, inp, inp'.
  - by apply set_input_cases in Hset as [[_ ?]|(i & inp & inp' & ? & _)].
  - by eapply set_input_Raise.
Qed.

End TransferHelpers.

Section SnapshotLookup.
Import Py Bpy ShaderDetection PropertyMapper.

Lemma dict_set_fresh {V} (k : string) (v : V) (d : dict V) :
  k ∉ dict_keys d → dict_set k v d = d ++ [(k, v)].
Proof.
  unfold dict_keys. induction d as [|[k' v'] d IH]; simpl; [done|].
  intros Hk. apply not_elem_of_cons in Hk as [Hne Hk].
  rewrite decide_False by done. by rewrite IH.
Qed.

(** With identifiers that differ, the snapshot lists the sockets in order. *)
Lemma snapshot_sockets_NoDup sockets :
  NoDup (sock_identifier <$> sockets) →
  snapshot_sockets sockets
  = ((fun s => (sock_identifier s, sock_default s)) <$> sockets,
     (fun s => (sock_identifier s, sock_name s)) <$> sockets).
Proof.
  unfold snapshot_sockets, _snapshot_default.
  enough (∀ (done : list NodeSocket),
    NoDup (sock_identifier <$> (done ++ sockets)) →
    foldl (fun acc sock =>
             (dict_set (sock_identifier sock) (sock_default sock) acc.1,
              dict_set (sock_identifier sock) (sock_name sock) acc.2))
          ((fun s => (sock_identifier s, sock_default s)) <$> done,
           (fun s => (sock_identifier s, sock_name s)) <$> done) sockets
    = ((fun s => (sock_identifier s, sock_default s)) <$> (done ++ sockets),
       (fun s => (sock_identifier s, sock_name s)) <$> (done ++ sockets))) as H.
  { intros Hnd. apply (H []). done. }
  induction sockets as [|s sockets IH]; intros done Hnd; simpl.
  - by rewrite app_nil_r.
  - assert (sock_identifier s ∉ sock_identifier <$> done) as Hfresh.
    { rewrite fmap_app, fmap_cons in Hnd. apply NoDup_app in Hnd as (_ & Hd & _).
      intros Hin. apply (Hd _ Hin). by left. }
    rewrite !dict_set_fresh.
    2,3: unfold dict_keys; by rewrite <- list_fmap_compose.
    rewrite (cons_middle s done sockets), app_assoc in Hnd |- *.
    specialize (IH (done ++ [s]) Hnd). rewrite <- IH.
    by rewrite !fmap_app.
Qed.

Lemma dict_get_fmap {A V} (f : A → string) (g : A → V) (l : list A) k :
  dict_get k ((fun x => (f x, g x)) <$> l)
  = g <$> (snd <$> list_find (fun x => f x = k) l).
Proof.
  induction l as [|x l IH]; simpl in *; [done|].
  destruct (decide (f x = k)); simpl; [done|].
  etrans; [exact IH|]. by destruct (list_find _ l) as [[i y]|].
Qed.

Lemma dict_get_fmap_elem {A V} (f : A → string) (g : A → V) (l : list A) x :
  NoDup (f <$> l) → x ∈ l →
  dict_get (f x) ((fun x => (f x, g x)) <$> l) = Some (g x).
Proof.
  induction l as [|y l IH]; simpl; intros Hnd Hx; [by apply elem_of_nil in Hx|].
  apply NoDup_cons in Hnd as [Hy Hnd].
  apply elem_of_cons in Hx as [->|Hx]; [by rewrite decide_True|].
  rewrite decide_False; [by apply IH|].
  intros Heq. apply Hy. rewrite Heq. by apply list_elem_of_fmap_2.
Qed.

(** X14. Snapshot, then look up.  For a node whose input sockets have
    different identifiers, [_get_input_value] on the node's snapshot
    answers with the default value of the socket whose identifier is the
    name asked for, when that socket has one; otherwise with the default
    value of the first socket displayed under that name that has one; and
    with [None] when there is neither. *)
Theorem get_input_value_snapshot node info name :
  NoDup (sock_identifier <$> node_inputs node) →
  snapshot_node node = Ok info →
  _get_input_value info name =
    match (snd <$> list_find (fun s => sock_identifier s = name) (node_inputs node))
            ≫= sock_default with
    | Some val => Some val
    | None =>
        (snd <$> list_find (fun s => sock_name s = name ∧ is_Some (sock_default s))
                   (node_inputs node))
          ≫= sock_default
    end.
Proof.
  intros Hnd Hsnap. unfold snapshot_node in Hsnap.
  apply bind_Ok in Hsnap as (props & _ & Hsnap). injection Hsnap as <-.
  unfold _get_input_value. cbn [inputs input_identifiers].
  rewrite (snapshot_sockets_NoDup _ Hnd). cbn [fst snd].
  set (sockets := node_inputs node) in *.
  rewrite (dict_get_fmap sock_identifier sock_default sockets name).
  set (ins := (fun s => (sock_identifier s, sock_default s)) <$> sockets).
  assert (mjoin (sock_default <$> (snd <$> list_find (fun s => sock_identifier s = name) sockets))
          = (snd <$> list_find (fun s => sock_identifier s = name) sockets) ≫= sock_default)
    as ->.
  { by destruct (list_find _ sockets) as [[i s]|]. }
  destruct (_ ≫= sock_default) as [val|]; [done|].
  assert (∀ s, s ∈ sockets → dict_get (sock_identifier s) ins = Some (sock_default s))
    as Hins.
  { intros s Hs. by apply dict_get_fmap_elem. }
  clearbody ins. clear Hnd.
  induction sockets as [|s sockets IH]; [done|].
  rewrite fmap_cons. cbn [list_find]. 
  destruct (decide (sock_name s = name)) as [Hname|Hname].
  - rewrite Hins by (by left). simpl.
    destruct (sock_default s) as [val|] eqn:Hdef.
    + rewrite decide_True by (split; [done|by eexists]). simpl. by rewrite Hdef.
    + rewrite decide_False by (intros [_ [? ?]]; done).
      rewrite IH by (intros s' Hs'; apply Hins; by right).
      by destruct (list_find _ sockets) as [[i s']|].
  - rewrite decide_False by tauto.
    rewrite IH by (intros s' Hs'; apply Hins; by right).
    by destruct (list_find _ sockets) as [[i s']|].
Qed.


Lemma get_input_value_snapshot_witness :
  _get_input_value Fixtures.math_info "Value_001" = Some (VNum 2%Q).
Proof.
  rewrite (get_input_value_snapshot Fixtures.math_node Fixtures.math_info "Value_001").
  - reflexivity.
  - vm_compute. repeat constructor; set_solver.
  - vm_compute. reflexivity.
Defined.

End SnapshotLookup.

(** A literal name that is not in a literal list. *)
Ltac not_named :=
  first [ apply not_elem_of_nil
        | rewrite !not_elem_of_cons; repeat split;
          first [discriminate | apply not_elem_of_nil] ].

Section PrincipledFrame.
Import Py Bpy ShaderDetection PropertyMapper.

(** Everything of a node but its input sockets and its attributes. *)
Local Abbreviation same_fields n n' :=
  (node_name n' = node_name n ∧ node_idname n' = node_idname n ∧
   node_label n' = node_label n ∧ node_location n' = node_location n ∧
   node_outputs n' = node_outputs n ∧ node_image n' = node_image n ∧
   node_color_ramp n' = node_color_ramp n).

Lemma same_fields_trans n1 n2 n3 :
  same_fields n1 n2 → same_fields n2 n3 → same_fields n1 n3.
Proof. intros (?&?&?&?&?&?&?) (?&?&?&?&?&?&?). repeat split; congruence. Qed.

Lemma set_input_fields node candidates value b node' :
  _set_input node candidates value = Ok (b, node') → same_fields node node'.
Proof.
  by intros [[_ ->]|(i & inp & inp' & _ & _ & _ & _ & _ & ->)]%set_input_cases.
Qed.

Lemma set_input_if_fields node candidates value node' :
  set_input_if node candidates value = Ok node' → same_fields node node'.
Proof.
  unfold set_input_if. destruct value as [value|]; [|by intros [= <-]].
  intros ([b n] & H & ->)%fmap_Ok. by eapply set_input_fields.
Qed.

Lemma set_prop_fields node attr value :
  same_fields node (_set_prop node attr value).2.
Proof.
  unfold _set_prop, node_setattr.
  destruct (dict_get attr (node_props node)) as [old|]; [|done].
  by destruct old, value.
Qed.

Lemma transfer_simple_fields info node node' :
  transfer_simple info node = Ok node' → same_fields node node'.
Proof.
  unfold transfer_simple. generalize _simple_transfers. intros mappings.
  revert node. induction mappings as [|m ms IH]; intros node; simpl.
  - by intros [= <-].
  - destruct (set_input_if node m.2 (_get_input_value info m.1)) as [n1|] eqn:H1;
      [|done].
    intros H2%IH. apply set_input_if_fields in H1. by eapply same_fields_trans.
Qed.

Lemma transfer_emission_fields info node node' :
  transfer_emission info node = Ok node' → same_fields node node'.
Proof.
  unfold transfer_emission. cbv zeta.
  intros (n1 & H1%set_input_if_fields & H)%bind_Ok.
  eapply same_fields_trans; [exact H1|].
  destruct (_get_input_value info "Emission Strength") as [strength|];
    [|by injection H as <-].
  apply bind_Ok in H as (n2 & ([b n2'] & H2%set_input_fields & ->)%fmap_Ok & H).
  simpl in H. eapply same_fields_trans; [exact H2|].
  pose proof (set_prop_fields n2' "surface_brightness" (VBool true)) as Hprop.
  destruct (match as_number strength with Some q => _ | None => _ end).
  { by injection H as <-. }
  destruct (_get_input_value info "Emission Color") as [em_color|];
    [|by injection H as <-].
  apply bind_Ok in H as ([] & _ & H); by injection H as <-.
Qed.

Lemma transfer_transmission_frame info node node' :
  transfer_transmission info node = Ok node' →
  touched ["Transmission"; "Transmission float"; "Albedo color"; "Albedo";
           "Diffuse"; "Transmission color"] ["fake_shadows"] node node' ∧
  same_fields node node'.
Proof.
  unfold transfer_transmission. cbv zeta.
  destruct (_ orelse _) as [tw|]; [|intros [= <-]; split; [apply touched_refl|done]].
  destruct (as_number tw) as [weight|];
    [|intros [= <-]; split; [apply touched_refl|done]].
  intros (n1 & ([b1 n1'] & H1 & ->)%fmap_Ok & H)%bind_Ok. cbn [snd] in H.
  pose proof (set_input_touched _ _ _ _ _ H1) as T1.
  apply set_input_fields in H1.
  destruct (Qgt_bool weight 0.5).
  - apply bind_Ok in H as (n2 & ([b2 n2'] & H2 & ->)%fmap_Ok & H). cbn [snd] in H.
    apply bind_Ok in H as (n3 & H3 & H). injection H as <-.
    pose proof (set_input_touched _ _ _ _ _ H2) as T2.
    pose proof (set_input_if_touched _ _ _ _ H3) as T3.
    apply set_input_fields in H2. apply set_input_if_fields in H3.
    pose proof (set_prop_touched n3 "fake_shadows" (VBool true)) as T4.
    pose proof (set_prop_fields n3 "fake_shadows" (VBool true)) as H4.
    split.
    + eapply touched_trans; [eapply touched_mono; [exact T1|by_names|by_names]|].
      eapply touched_trans; [eapply touched_mono; [exact T2|by_names|by_names]|].
      eapply touched_trans; [eapply touched_mono; [exact T3|by_names|by_names]|].
      eapply touched_mono; [exact T4|by_names|by_names].
    + eapply same_fields_trans; [exact H1|].
      eapply same_fields_trans; [exact H2|].
      eapply same_fields_trans; [exact H3|exact H4].
  - injection H as <-. split; [|done].
    eapply touched_mono; [exact T1|by_names|by_names].
Qed.

Lemma transfer_subsurface_fields info node node' :
  transfer_subsurface info node = Ok node' → same_fields node node'.
Proof.
  unfold transfer_subsurface.
  intros (n1 & H1%set_input_if_fields & H%set_input_if_fields)%bind_Ok.
  by eapply same_fields_trans.
Qed.

(** X15. The Principled transfer writes to the target node only through
    input sockets named by one of its candidate lists and through the
    attributes [surface_brightness] and [fake_shadows]: every other input
    keeps its value, every input keeps its name and the shape of its
    value, every other attribute is unchanged, and so are the node's name,
    type, label, location, outputs, image and colour ramp. *)
Theorem transfer_principled_frame info node node' :
  _transfer_principled info node = Ok node' →
  touched
    (written_names _simple_transfers ++
     ["Emission"; "Emission color"; "Emission power"; "Emission weight";
      "Transmission"; "Transmission float"; "Albedo color"; "Albedo"; "Diffuse";
      "Transmission color"; "Absorption"; "Medium radius"; "Density";
      "Medium scale"])
    ["surface_brightness"; "fake_shadows"] node node' ∧
  node_name node' = node_name node ∧ node_idname node' = node_idname node ∧
  node_label node' = node_label node ∧ node_location node' = node_location node ∧
  node_outputs node' = node_outputs node ∧ node_image node' = node_image node ∧
  node_color_ramp node' = node_color_ramp node.
Proof.
  unfold _transfer_principled.
  intros (n1 & H1 & (n2 & H2 & (n3 & H3 & H4)%bind_Ok)%bind_Ok)%bind_Ok.
  pose proof (transfer_loop_touched _ _ _ _ H1) as T1.
  pose proof (transfer_emission_touched _ _ _ H2) as T2.
  pose proof (transfer_transmission_frame _ _ _ H3) as [T3 F3].
  pose proof (transfer_subsurface_touched _ _ _ H4) as T4.
  apply transfer_simple_fields in H1. apply transfer_emission_fields in H2.
  apply transfer_subsurface_fields in H4.
  split.
  - eapply touched_trans.
    { eapply touched_mono; [exact T1| |by_names]. intros x Hx. apply elem_of_app. by left. }
    eapply touched_trans.
    { eapply touched_mono; [exact T2| |by_names]. intros x Hx. apply elem_of_app. right.
      revert x Hx. by_names. }
    eapply touched_trans.
    { eapply touched_mono; [exact T3| |by_names]. intros x Hx. apply elem_of_app. right.
      revert x Hx. by_names. }
    eapply touched_mono; [exact T4| |by_names]. intros x Hx. apply elem_of_app. right.
    revert x Hx. by_names.
  - eapply same_fields_trans; [exact H1|].
    eapply same_fields_trans; [exact H2|].
    eapply same_fields_trans; [exact F3|exact H4].
Qed.

Lemma transfer_principled_frame_witness :
  ∃ node',
    _transfer_principled (Examples.principled_info 0.6 Examples.black 5)
      Examples.universal_material = Ok node' ∧
    node_inputs node' !! 2 = Some (mkNodeSocket "Metallic" "Metallic" (Some (VNum 0%Q))) ∧
    node_outputs node' = node_outputs Examples.universal_material.
Proof.
  destruct (_transfer_principled (Examples.principled_info 0.6 Examples.black 5)
              Examples.universal_material) as [node'|] eqn:Hrun;
    [|by vm_compute in Hrun].
  exists node'. split; [reflexivity|].
  destruct (transfer_principled_frame _ _ _ Hrun)
    as ((_ & _ & _) & _ & _ & _ & _ & Hout & _).
  split; [|exact Hout]. revert Hrun. vm_compute. by intros [= <-].
Defined.


Lemma touched_attr names attrs node node' k :
  touched names attrs node node' → k ∉ attrs →
  dict_get k (node_props node') = dict_get k (node_props node).
Proof. intros (_ & _ & Hattrs) Hk. by apply Hattrs. Qed.

(** X16. An emission strength above zero enables [surface_brightness] on
    the target of the Principled transfer, whatever the emission colour
    is, on a target type that has the attribute as a boolean. *)
Theorem transfer_principled_emission_strength info node node' strength old :
  _get_input_value info "Emission Strength" = Some (VNum strength) →
  (0 < strength)%Q →
  dict_get "surface_brightness" (node_props node) = Some (VBool old) →
  _transfer_principled info node = Ok node' →
  dict_get "surface_brightness" (node_props node') = Some (VBool true).
Proof.
  intros Hstrength Hpos Hattr. unfold _transfer_principled.
  intros (n1 & H1 & (n2 & H2 & (n3 & H3 & H4)%bind_Ok)%bind_Ok)%bind_Ok.
  apply transfer_loop_touched in H1.
  apply transfer_transmission_frame in H3 as [H3 _].
  apply transfer_subsurface_touched in H4.
  rewrite (touched_attr _ _ _ _ _ H4) by not_named.
  rewrite (touched_attr _ _ _ _ _ H3) by not_named.
  rewrite <- (touched_attr _ _ _ _ "surface_brightness" H1) in Hattr by not_named.
  clear H1 H3 H4. unfold transfer_emission in H2. cbv zeta in H2.
  rewrite Hstrength in H2.
  apply bind_Ok in H2 as (m1 & T1%set_input_if_touched & H2).
  apply bind_Ok in H2 as (m2 & ([b m2'] & T2%set_input_touched & ->)%fmap_Ok & H2).
  cbn [snd as_number] in H2.
  assert (Qgt_bool strength 0 = true) as Hgt.
  { unfold Qgt_bool. apply negb_true_iff. apply not_true_is_false.
    intros Hle%Qle_bool_iff. by apply Qlt_not_le in Hpos. }
  rewrite Hgt in H2. injection H2 as <-.
  apply (set_prop_bool _ _ old).
  rewrite (touched_attr _ _ _ _ _ T2) by not_named.
  by rewrite (touched_attr _ _ _ _ _ T1) by not_named.
Qed.

Lemma transfer_principled_emission_strength_witness :
  ∃ node',
    _transfer_principled (Examples.principled_info 0 Examples.black 5)
      Examples.universal_material = Ok node' ∧
    dict_get "surface_brightness" (node_props node') = Some (VBool true).
Proof.
  destruct (_transfer_principled (Examples.principled_info 0 Examples.black 5)
              Examples.universal_material) as [node'|] eqn:Hrun;
    [|by vm_compute in Hrun].
  exists node'. split; [reflexivity|].
  apply (transfer_principled_emission_strength
           (Examples.principled_info 0 Examples.black 5)
           Examples.universal_material node' 5 false);
    [reflexivity|reflexivity|reflexivity|exact Hrun].
Defined.

End PrincipledFrame.
(* ===================================================================== *)
(** * What a batch can return *)
(* ===================================================================== *)

Section BatchOutcome.
Import Py Bpy ShaderDetection Cache ConversionEngine.
Variable unique_name : list string → string → string.
Variable create_nodes : GraphEngine.Engine → NodeTree → result (NodeMap * NodeTree).
Variable transfer_all_properties : TreeAnalysis → NodeMap → NodeTree → NodeTree.
Variable _rebuild_links : TreeAnalysis → NodeMap → NodeTree → result NodeTree.
Variable _handle_normal_map_fallback :
  TreeAnalysis → NodeMap → NodeTree → result (NodeMap * NodeTree).
Variable _handle_alpha : TreeAnalysis → NodeMap → NodeTree → result NodeTree.
Variable _handle_emission_post : TreeAnalysis → NodeMap → NodeTree → result NodeTree.
Variable _handle_emission_node_insertion :
  TreeAnalysis → NodeMap → NodeTree → result NodeTree.
Variable handle_volumetrics : TreeAnalysis → NodeMap → NodeTree → result NodeTree.
Variable apply_gamma : Q → NodeTree → result NodeTree.
Variable _preserve_drivers :
  NodeTree → TreeAnalysis → NodeMap → NodeTree → result NodeTree.

Local Abbreviation convert_material' :=
  (convert_material unique_name create_nodes transfer_all_properties
     _rebuild_links _handle_normal_map_fallback _handle_alpha
     _handle_emission_post _handle_emission_node_insertion handle_volumetrics
     apply_gamma _preserve_drivers).
Local Abbreviation convert_slot' :=
  (convert_slot unique_name create_nodes transfer_all_properties
     _rebuild_links _handle_normal_map_fallback _handle_alpha
     _handle_emission_post _handle_emission_node_insertion handle_volumetrics
     apply_gamma _preserve_drivers).
Local Abbreviation convert_object_materials' :=
  (convert_object_materials unique_name create_nodes transfer_all_properties
     _rebuild_links _handle_normal_map_fallback _handle_alpha
     _handle_emission_post _handle_emission_node_insertion handle_volumetrics
     apply_gamma _preserve_drivers).
Local Abbreviation convert_scene_materials' :=
  (convert_scene_materials unique_name create_nodes transfer_all_properties
     _rebuild_links _handle_normal_map_fallback _handle_alpha
     _handle_emission_post _handle_emission_node_insertion handle_volumetrics
     apply_gamma _preserve_drivers).
Local Abbreviation execute' :=
  (execute unique_name create_nodes transfer_all_properties
     _rebuild_links _handle_normal_map_fallback _handle_alpha
     _handle_emission_post _handle_emission_node_insertion handle_volumetrics
     apply_gamma _preserve_drivers).

(** A statement sequence that, run with an empty cache, hands back [a]
    from the unchanged world or raises. *)
Local Abbreviation idle m a :=
  (∀ w, _cache w = Cache.empty → m w = (Ok a, w) ∨ ∃ e w', m w = (Raise e, w')).

(** With an empty cache, [convert_material] converts nothing. *)
Lemma convert_material_idle mat gamma obj : idle (convert_material' mat gamma obj) None.
Proof.
  intros w Hcache.
  destruct (convert_material' mat gamma obj w) as [[a|e] w'] eqn:Hrun;
    [left|right; by eexists _, _].
  destruct mat as [h|]; [|by injection Hrun as <- <-].
  destruct (data_materials w !! h) as [m|] eqn:Hm.
  2:{ unfold convert_material in Hrun. rewrite bind_run in Hrun.
      unfold get_material in Hrun. by rewrite Hm in Hrun. }
  destruct (mat_node_tree m) as [tree|] eqn:Htree.
  2:{ unfold convert_material in Hrun. rewrite bind_run in Hrun.
      unfold get_material in Hrun. rewrite Hm, Htree in Hrun.
      by injection Hrun as <- <-. }
  destruct (analyze_tree tree) as [analysis|e] eqn:Han.
  - rewrite (convert_material_uncached unique_name create_nodes
      transfer_all_properties _rebuild_links _handle_normal_map_fallback
      _handle_alpha _handle_emission_post _handle_emission_node_insertion
      handle_volumetrics apply_gamma _preserve_drivers
      w h m tree analysis gamma obj Hm Htree) in Hrun; [done| |done].
    by rewrite Hcache.
  - unfold convert_material in Hrun. rewrite bind_run in Hrun.
    unfold get_material at 1 in Hrun. rewrite Hm, Htree in Hrun.
    rewrite bind_run in Hrun. unfold get_cache at 1 in Hrun.
    rewrite Hcache in Hrun.
    change (has_material Cache.empty (mat_name m)) with false in Hrun.
    cbv iota in Hrun. rewrite bind_run in Hrun. unfold lift at 1 in Hrun.
    by rewrite Han in Hrun.
Qed.

Lemma convert_slot_idle obj gamma converted slot :
  idle (convert_slot' obj gamma converted slot) converted.
Proof.
  intros w Hcache.
  destruct (convert_slot' obj gamma converted slot w) as [[a|e] w'] eqn:Hrun;
    [left|right; by eexists _, _].
  unfold convert_slot in Hrun. destruct slot.2 as [mat|];
    [|by injection Hrun as <- <-].
  rewrite bind_run in Hrun.
  destruct (convert_material_idle (Some mat) gamma (Some obj) w Hcache)
    as [Hm|(e & w1 & Hm)]; rewrite Hm in Hrun; [|done].
  by injection Hrun as <- <-.
Qed.

Lemma for_each_idle {A S} (step : S → A → M S) xs :
  (∀ acc x, idle (step acc x) acc) → ∀ acc, idle (for_each step acc xs) acc.
Proof.
  intros Hstep. induction xs as [|x xs IH]; intros acc w Hcache; [by left|].
  destruct (for_each step acc (x :: xs) w) as [[a|e] w'] eqn:Hrun;
    [left|right; by eexists _, _].
  simpl in Hrun. rewrite bind_run in Hrun.
  destruct (Hstep acc x w Hcache) as [Hx|(e & w1 & Hx)]; rewrite Hx in Hrun; [|done].
  destruct (IH acc w Hcache) as [Hxs|(e & w1 & Hxs)]; rewrite Hxs in Hrun; [|done].
  by injection Hrun as <- <-.
Qed.

Lemma convert_object_materials_idle obj gamma :
  idle (convert_object_materials' obj gamma) [].
Proof.
  intros w Hcache.
  destruct (convert_object_materials' obj gamma w) as [[a|e] w'] eqn:Hrun;
    [left|right; by eexists _, _].
  unfold convert_object_materials in Hrun. rewrite bind_run in Hrun.
  unfold get_object at 1 in Hrun. destruct obj as [o|];
    [|by injection Hrun as <- <-].
  destruct (scene_objects w !! o) as [ob|]; [|done].
  simpl in Hrun. destruct (material_slots ob) as [slots|];
    [|by injection Hrun as <- <-].
  destruct (for_each_idle (convert_slot' o gamma)
              (zip (seq 0 (length slots)) slots)
              (fun acc x => convert_slot_idle o gamma acc x) [] w Hcache)
    as [Hs|(e & w1 & Hs)]; rewrite Hs in Hrun; [|done].
  by injection Hrun as <- <-.
Qed.

Lemma convert_scene_materials_idle gamma w :
  convert_scene_materials' gamma w = (Ok [], with_cache w (clear (_cache w))) ∨
  ∃ e w', convert_scene_materials' gamma w = (Raise e, w').
Proof.
  destruct (convert_scene_materials' gamma w) as [[a|e] w'] eqn:Hrun;
    [left|right; by eexists _, _].
  unfold convert_scene_materials in Hrun. rewrite bind_run in Hrun.
  unfold reset_cache at 1 in Hrun. rewrite bind_run in Hrun.
  unfold get_world at 1 in Hrun.
  set (w0 := with_cache w (clear (_cache w))) in *.
  match type of Hrun with
  | for_each ?step [] ?xs w0 = _ =>
      destruct (for_each_idle step xs) with (acc := @nil nat) (w := w0)
        as [Hs|(e & w1 & Hs)]; [|done|rewrite Hs in Hrun..]
  end.
  - intros acc o w1 Hcache.
    match goal with |- ?m w1 = _ ∨ _ =>
      destruct (m w1) as [[a'|e] w1'] eqn:Hstep; [left|right; by eexists _, _]
    end.
    rewrite bind_run in Hstep. unfold get_object at 1 in Hstep.
    destruct (scene_objects w1 !! o) as [ob|]; [|done].
    simpl in Hstep. destruct (material_slots ob) as [slots|];
      [|by injection Hstep as <- <-].
    rewrite bind_run in Hstep.
    destruct (convert_object_materials_idle (Some o) gamma w1 Hcache)
      as [Ho|(e & w2 & Ho)]; rewrite Ho in Hstep; [|done].
    injection Hstep as <- <-. by rewrite app_nil_r.
  - by injection Hrun as <- <-.
  - done.
Qed.

(** X17. As the code stands, no batch ever reports a converted material:
    after the cache reset, [convert_material] returns [None] or raises
    (for a material with a node tree, at the [GraphEngine] constructor), so
    that [convert_scene_materials] returns the empty list or raises, and
    the operator's [execute] either cancels or finishes reporting 0
    converted materials. *)
Theorem batch_converts_nothing w gamma :
  (convert_scene_materials' gamma w = (Ok [], with_cache w (clear (_cache w))) ∨
   ∃ e w', convert_scene_materials' gamma w = (Raise e, w')) ∧
  ((execute' w).1 = (FINISHED, [INFO 0]) ∨
   ∃ reports, (execute' w).1 = (CANCELLED, reports)).
Proof.
  split; [apply convert_scene_materials_idle|].
  destruct (execute' w) as [[st reports] w1] eqn:Hexec. cbn [fst].
  unfold execute in Hexec.
  destruct (decide (octanify_batch_mode w = "ACTIVE")) as [Hmode|Hmode].
  - destruct (active_object w) as [obj|].
    2:{ injection Hexec as <- <- <-. right. by eexists. }
    rewrite bind_run in Hexec. unfold reset_cache at 1 in Hexec.
    rewrite bind_run in Hexec.
    destruct (convert_object_materials_idle (Some obj) (octanify_albedo_gamma w)
                (with_cache w (clear (_cache w))) eq_refl)
      as [Ho|(e & w' & Ho)]; rewrite Ho in Hexec; injection Hexec as <- <- <-;
      [by left|right; by eexists].
  - rewrite bind_run in Hexec.
    destruct (convert_scene_materials_idle (octanify_albedo_gamma w) w)
      as [Hs|(e & w' & Hs)]; rewrite Hs in Hexec; injection Hexec as <- <- <-;
      [by left|right; by eexists].
Qed.

(** X18. A material found in the cache is answered from the cache alone:
    [convert_material] returns whatever [bpy.data.materials.get] finds
    under the converted name (nothing, if that material is gone) and
    leaves the world as it is; nothing is analysed, copied or converted
    again. *)
Theorem convert_material_cache_hit w h m tree gamma obj converted :
  data_materials w !! h = Some m →
  mat_node_tree m = Some tree →
  get_converted_material_name (_cache w) (mat_name m) = Some converted →
  convert_material' (Some h) gamma obj w = (Ok (materials_get w converted), w).
Proof.
  intros Hm Htree Hconv.
  rewrite (convert_material_cached unique_name create_nodes
    transfer_all_properties _rebuild_links _handle_normal_map_fallback
    _handle_alpha _handle_emission_post _handle_emission_node_insertion
    handle_volumetrics apply_gamma _preserve_drivers w h m tree gamma obj Hm Htree).
  - by rewrite Hconv.
  - unfold has_material, get_converted_material_name in *. rewrite Hconv.
    by apply bool_decide_eq_true_2.
Qed.

End BatchOutcome.

Section BatchExamples.
Import Py Bpy ShaderDetection Cache ConversionEngine.

Lemma convert_material_cache_hit_witness :
  let w := with_cache Examples.two_material_world
             (register_material Cache.empty "Red" "Blue") in
  let stale := with_cache Examples.two_material_world
                 (register_material Cache.empty "Red" "Red_OCTANE") in
  Examples.host_convert_material (Some 0) 2.2%Q None w = (Ok (Some 1), w) ∧
  Examples.host_convert_material (Some 0) 2.2%Q None stale = (Ok None, stale).
Proof.
  intros w stale. unfold Examples.host_convert_material. split.
  - change (Some 1) with (materials_get w "Blue").
    apply (convert_material_cache_hit Examples.host_unique_name _ _ _ _ _ _ _ _ _ _
             w 0 (mkMaterial "Red" true (Some Examples.simple_tree))
             Examples.simple_tree 2.2%Q None "Blue"); reflexivity.
  - change (@None nat) with (materials_get stale "Red_OCTANE") at 2.
    apply (convert_material_cache_hit Examples.host_unique_name _ _ _ _ _ _ _ _ _ _
             stale 0 (mkMaterial "Red" true (Some Examples.simple_tree))
             Examples.simple_tree 2.2%Q None "Red_OCTANE"); reflexivity.
Defined.

End BatchExamples.
(* ===================================================================== *)
(** * The link passes *)
(* ===================================================================== *)

Section ConnectLoop.
Import Py Bpy ShaderDetection NodeRegistry ConversionEngine ConversionPasses.
Context {A : Type} (body : NodeTree → A → result (option (Socket * Socket))).
Hypothesis body_nodes :
  ∀ t t' x, tree_nodes t = tree_nodes t' → body t x = body t' x.

Lemma connect_nodes t found : tree_nodes (connect t found) = tree_nodes t.
Proof. by destruct found as [[o i]|]. Qed.

Lemma last_writer_from (found : A → result (option (Socket * Socket))) xs input w :
  foldl (fun writer x =>
           match found x with
           | Ok (Some (output, input')) =>
               if decide (input' = input) then Some output else writer
           | _ => writer
           end) w xs
  = match last_writer found xs input with
    | Some o => Some o
    | None => w
    end.
Proof.
  unfold last_writer. revert w. induction xs as [|x xs IH]; intros w; [done|].
  simpl. rewrite IH. rewrite (IH (match found x with Ok (Some (o, i)) => _ | _ => _ end)).
  destruct (foldl _ None xs); [done|].
  destruct (found x) as [[[o i]|]|]; try done. by destruct (decide _).
Qed.

Lemma last_writer_Some (found : A → result (option (Socket * Socket))) xs input o :
  last_writer found xs input = Some o →
  ∃ x, x ∈ xs ∧ found x = Ok (Some (o, input)).
Proof.
  unfold last_writer.
  enough (∀ w, foldl (fun writer x =>
             match found x with
             | Ok (Some (output, input')) =>
                 if decide (input' = input) then Some output else writer
             | _ => writer
             end) w xs = Some o →
          w = Some o ∨ ∃ x, x ∈ xs ∧ found x = Ok (Some (o, input))) as H.
  { intros Hw. by destruct (H None Hw). }
  induction xs as [|x xs IH]; intros w; simpl; [by left|].
  intros [Hw|(x' & Hx' & Hf)]%IH.
  - destruct (found x) as [[[o' i']|]|] eqn:Hx; try by left.
    destruct (decide (i' = input)) as [->|]; [|by left].
    injection Hw as ->. right. exists x. split; [by left|done].
  - right. exists x'. split; [by right|done].
Qed.

Lemma last_writer_ext (f g : A → result (option (Socket * Socket))) xs input :
  (∀ x, f x = g x) → last_writer f xs input = last_writer g xs input.
Proof.
  intros Hfg. unfold last_writer. generalize (@None Socket).
  induction xs as [|x xs IH]; intros w; [done|].
  simpl. by rewrite Hfg, IH.
Qed.

(** A loop of [links.new] calls whose sockets depend on the nodes of the
    tree only: the nodes stay, and every input socket ends up holding the
    link made for it last, or what it held before. *)
Lemma connect_loop xs : ∀ t t',
  fold_result (fun tree x => connect tree <$> body tree x) t xs = Ok t' →
  tree_nodes t' = tree_nodes t ∧
  ∀ n s,
    links_into t' n s
    = match last_writer (body t) xs (n, s) with
      | Some o => [mkNodeLink o.1 o.2 n s]
      | None => links_into t n s
      end.
Proof.
  induction xs as [|x xs IH]; intros t t' Hrun.
  { simpl in Hrun. by injection Hrun as <-. }
  rewrite fold_result_cons in Hrun.
  apply bind_Ok in Hrun as (t1 & (found & Hx & ->)%fmap_Ok & Hrun).
  destruct (IH _ _ Hrun) as [Hnodes Hlinks].
  rewrite connect_nodes in Hnodes. split; [done|].
  intros n s. rewrite Hlinks.
  rewrite (last_writer_ext (body (connect t found)) (body t)).
  2:{ intros y. apply body_nodes, connect_nodes. }
  unfold last_writer at 2. simpl. rewrite last_writer_from, Hx.
  destruct (last_writer (body t) xs (n, s)) as [o|]; [done|].
  destruct found as [[o i]|]; [|done]. simpl.
  rewrite links_into_new.
  destruct (decide (i = (n, s))) as [->|Hne].
  - by rewrite decide_True.
  - rewrite decide_False; [done|]. intros [? ?]. apply Hne. by destruct i; simpl in *; subst.
Qed.

Lemma last_writer_is_Some (found : A → result (option (Socket * Socket))) xs input x o :
  x ∈ xs → found x = Ok (Some (o, input)) → is_Some (last_writer found xs input).
Proof.
  induction xs as [|y xs IH]; intros Hx Hf; [by apply elem_of_nil in Hx|].
  unfold last_writer. simpl. rewrite last_writer_from.
  destruct (last_writer found xs input) eqn:Hw; [done|].
  apply elem_of_cons in Hx as [<-|Hx].
  - rewrite Hf. by rewrite decide_True.
  - destruct (IH Hx Hf) as [? [=]].
Qed.

(** Every link of the tree after the loop was there before or was made by
    the loop. *)
Lemma connect_loop_links xs t t' l :
  fold_result (fun tree x => connect tree <$> body tree x) t xs = Ok t' →
  l ∈ tree_links t' →
  l ∈ tree_links t ∨
  ∃ x, x ∈ xs ∧
       body t x = Ok (Some ((link_from_node l, link_from_socket l),
                            (link_to_node l, link_to_socket l))).
Proof.
  intros [_ Hlinks]%connect_loop Hl.
  assert (l ∈ links_into t' (link_to_node l) (link_to_socket l)) as Hin
    by by apply links_into_spec.
  rewrite Hlinks in Hin.
  destruct (last_writer _ _ _) as [o|] eqn:Hw.
  - apply list_elem_of_singleton in Hin. right.
    apply last_writer_Some in Hw as (x & Hx & Hf). exists x. split; [done|].
    rewrite Hf, Hin. simpl. by destruct o.
  - left. by apply links_into_spec in Hin as [_ ?].
Qed.

(** Every input socket keeps its links or ends with exactly one. *)
Lemma connect_loop_single xs t t' n s :
  fold_result (fun tree x => connect tree <$> body tree x) t xs = Ok t' →
  links_into t' n s = links_into t n s ∨ ∃ l, links_into t' n s = [l].
Proof.
  intros [_ Hlinks]%connect_loop. rewrite Hlinks.
  destruct (last_writer _ _ _); [right; by eexists|by left].
Qed.

(** The loop raises only if its body does. *)
Lemma connect_loop_runs xs : ∀ t,
  (∀ x, x ∈ xs → ∃ found, body t x = Ok found) →
  ∃ t', fold_result (fun tree x => connect tree <$> body tree x) t xs = Ok t'.
Proof.
  induction xs as [|x xs IH]; intros t Hbody; [by eexists|].
  rewrite fold_result_cons.
  destruct (Hbody x) as [found Hx]; [by left|]. rewrite Hx. simpl.
  apply IH. intros y Hy.
  rewrite (body_nodes (connect t found) t) by apply connect_nodes.
  apply Hbody. by right.
Qed.

End ConnectLoop.

Section LinkPasses.
Import Py Bpy ShaderDetection NodeRegistry ConversionEngine ConversionPasses.
Import VolumetricHandler.

Lemma deref_nodes t t' name :
  tree_nodes t = tree_nodes t' → deref t name = deref t' name.
Proof. intros Hn. unfold deref, tree_node. by rewrite Hn. Qed.

Lemma rebuild_link_nodes analysis node_map t t' li :
  tree_nodes t = tree_nodes t' →
  rebuild_link analysis node_map t li = rebuild_link analysis node_map t' li.
Proof.
  intros Hn. unfold rebuild_link.
  repeat case_match; try done;
    by rewrite !(deref_nodes t t') by done.
Qed.

Lemma alpha_link_nodes analysis node_map t t' li :
  tree_nodes t = tree_nodes t' →
  alpha_link analysis node_map t li = alpha_link analysis node_map t' li.
Proof.
  intros Hn. unfold alpha_link.
  destruct (dict_get (from_node li) (nodes analysis)); [|done].
  destruct (dict_get (to_node li) (nodes analysis)); [|done].
  case_decide; [|done].
  destruct (dict_get (from_node li) node_map); [|done].
  destruct (dict_get (to_node li) node_map); [|done].
  by rewrite !(deref_nodes t t') by done.
Qed.

(** [_rebuild_links] leaves the nodes of the target tree alone, and
    afterwards every input socket holds exactly the link made by the last
    link of the analysis that resolved to it; a socket no link resolved to
    keeps what it held. *)
Lemma rebuild_links_nodes_links analysis node_map t t' :
  _rebuild_links analysis node_map t = Ok t' →
  tree_nodes t' = tree_nodes t ∧
  ∀ n s,
    links_into t' n s
    = match last_writer (rebuild_link analysis node_map t) (links analysis) (n, s) with
      | Some output => [mkNodeLink output.1 output.2 n s]
      | None => links_into t n s
      end.
Proof.
  apply connect_loop. intros ????. by apply rebuild_link_nodes.
Qed.


(** X19. [_rebuild_links] leaves the nodes of the target tree alone.
    Afterwards every input socket holds exactly the link made by the last
    link of the analysis that resolved to it, and a socket no link resolved
    to keeps what it held; every link of the tree was there before or
    joins the Octane nodes of the two ends of a link of the analysis. *)
Theorem rebuild_links_last_wins analysis node_map t t' :
  _rebuild_links analysis node_map t = Ok t' →
  tree_nodes t' = tree_nodes t ∧
  (∀ n s,
     links_into t' n s
     = match last_writer (rebuild_link analysis node_map t) (links analysis) (n, s) with
       | Some output => [mkNodeLink output.1 output.2 n s]
       | None => links_into t n s
       end) ∧
  ∀ l, l ∈ tree_links t' →
    l ∈ tree_links t ∨
    ∃ li, li ∈ links analysis ∧
          dict_get (from_node li) node_map = Some (link_from_node l) ∧
          dict_get (to_node li) node_map = Some (link_to_node l).
Proof.
  intros Hrun. destruct (rebuild_links_nodes_links _ _ _ _ Hrun) as [Hnodes Hlinks].
  split; [done|]. split; [done|]. intros l Hl.
  destruct (connect_loop_links (rebuild_link analysis node_map)
              (rebuild_link_nodes analysis node_map) _ _ _ l Hrun Hl)
    as [?|(li & Hli & Hfound)]; [by left|].
  right. exists li. split; [done|]. unfold rebuild_link in Hfound.
  destruct (dict_get (from_node li) node_map) as [oct_from|]; [|done].
  destruct (dict_get (to_node li) node_map) as [oct_to|]; [|done].
  destruct (dict_get (from_node li) (nodes analysis)); [|done].
  destruct (dict_get (to_node li) (nodes analysis)); [|done].
  destruct (deref t oct_from); [|done]. cbn [mbind result_bind] in Hfound.
  destruct (deref t oct_to); [|done]. cbn [mbind result_bind] in Hfound.
  destruct (resolve_output_socket _ _ _ _); [|done].
  destruct (resolve_input_socket _ _ _ _ _); [|done].
  by injection Hfound as -> _ -> _.
Qed.

Lemma rebuild_links_last_wins_witness :
  tree_nodes Fixtures.rebuilt_mix_tree = tree_nodes Fixtures.unlinked_mix_tree ∧
  (∀ n s,
     links_into Fixtures.rebuilt_mix_tree n s
     = match last_writer
               (rebuild_link Examples.mix_analysis Examples.mix_node_map
                  Fixtures.unlinked_mix_tree)
               (links Examples.mix_analysis) (n, s) with
       | Some output => [mkNodeLink output.1 output.2 n s]
       | None => links_into Fixtures.unlinked_mix_tree n s
       end) ∧
  ∀ l, l ∈ tree_links Fixtures.rebuilt_mix_tree →
    l ∈ tree_links Fixtures.unlinked_mix_tree ∨
    ∃ li, li ∈ links Examples.mix_analysis ∧
          dict_get (from_node li) Examples.mix_node_map = Some (link_from_node l) ∧
          dict_get (to_node li) Examples.mix_node_map = Some (link_to_node l).
Proof.
  apply (rebuild_links_last_wins Examples.mix_analysis Examples.mix_node_map).
  vm_compute. reflexivity.
Defined.

(** X20. Both shader inputs of a Cycles Mix Shader (or Add Shader) are named
    Shader, and the name is looked up before the identifier: when the
    Octane node has a Material1 or Shader1 input, every link into a Shader
    input is rebuilt on that one input, whatever its identifier and index,
    so after [_rebuild_links] this input holds a single link. *)
Theorem rebuild_links_mix_one_slot analysis node_map t t' mix info oct node s :
  _rebuild_links analysis node_map t = Ok t' →
  dict_get mix (nodes analysis) = Some info →
  bl_idname info ∈ ["ShaderNodeMixShader"; "ShaderNodeAddShader"] →
  dict_get mix node_map = Some oct →
  tree_node t oct = Some node →
  first_hit (collection_get (node_inputs node)) ["Material1"; "Shader1"] = Some s →
  ∀ li found,
    li ∈ links analysis → to_node li = mix → to_socket li = "Shader" →
    rebuild_link analysis node_map t li = Ok (Some found) →
    found.2 = (oct, s) ∧ ∃ l, links_into t' oct s = [l].
Proof.
  intros Hrun Hinfo Htype Hoct Hnode Hhit li found Hli Hto Hsock Hfound.
  assert (found.2 = (oct, s)) as Hinput.
  { unfold rebuild_link in Hfound. rewrite Hto, Hoct, Hinfo in Hfound.
    destruct (dict_get (from_node li) node_map) as [oct_from|]; [|done].
    destruct (dict_get (from_node li) (nodes analysis)) as [from_info|]; [|done].
    destruct (deref t oct_from) as [from_oct|]; [|done].
    unfold deref in Hfound. rewrite Hnode in Hfound. simpl in Hfound.
    assert (resolve_input_socket (bl_idname info) (to_socket li) node
              (to_socket_identifier li) (to_socket_index li) = Some s) as Hin.
    { unfold resolve_input_socket, input_strategy_1. rewrite Hsock.
      assert (candidates_of INPUT_MAP (bl_idname info) "Shader"
              = ["Material1"; "Shader1"]) as ->.
      { apply elem_of_cons in Htype as [->|Htype]; [done|].
        apply list_elem_of_singleton in Htype as ->. done. }
      by rewrite Hhit. }
    rewrite Hin in Hfound. destruct (resolve_output_socket _ _ _ _); [|done].
    by injection Hfound as <-. }
  split; [done|].
  apply rebuild_links_nodes_links in Hrun as [_ Hlinks].
  rewrite Hlinks.
  destruct (last_writer_is_Some (rebuild_link analysis node_map t) (links analysis)
              (oct, s) li found.1 Hli) as [o ->]; [|by eexists].
  rewrite Hfound. do 2 f_equal. destruct found. simpl in *. by subst.
Qed.

Lemma rebuild_links_mix_one_slot_witness :
  (("Glossy material", 0), ("Mix material", 1)).2 = ("Mix material", 1) ∧
  ∃ l, links_into Fixtures.rebuilt_mix_tree "Mix material" 1 = [l].
Proof.
  apply (rebuild_links_mix_one_slot Examples.mix_analysis Examples.mix_node_map
           Fixtures.unlinked_mix_tree Fixtures.rebuilt_mix_tree "Mix Shader"
           (Examples.bare_node "Mix Shader" "ShaderNodeMixShader") "Mix material"
           (Examples.octane_node "Mix material" "OctaneMixMaterial"
              ["Amount"; "Material1"; "Material2"] ["Material out"]) 1)
    with (li := mkLinkInfo "Glossy BSDF" "BSDF" "Mix Shader" "Shader" "BSDF"
                  "Shader_001" 2)
         (found := (("Glossy material", 0), ("Mix material", 1))).
  - vm_compute. reflexivity.
  - vm_compute. reflexivity.
  - simpl. left.
  - vm_compute. reflexivity.
  - vm_compute. reflexivity.
  - vm_compute. reflexivity.
  - vm_compute. do 2 right. left.
  - reflexivity.
  - reflexivity.
  - vm_compute. reflexivity.
Defined.

(** X21. [_handle_alpha] does nothing unless the analysis saw alpha; it
    keeps the nodes, and every link it makes leaves the Octane node of an
    Image Texture whose Alpha output was linked and enters the input named
    Opacity, Opacity float or Alpha of the Octane node of that link's
    destination, whichever input the Cycles link entered. *)
Theorem handle_alpha_links analysis node_map t t' :
  _handle_alpha analysis node_map t = Ok t' →
  tree_nodes t' = tree_nodes t ∧
  (has_alpha analysis = false → t' = t) ∧
  ∀ l, l ∈ tree_links t' →
    l ∈ tree_links t ∨
    ∃ li from_info to_oct name,
      li ∈ links analysis ∧ from_socket li = "Alpha" ∧
      dict_get (from_node li) (nodes analysis) = Some from_info ∧
      bl_idname from_info = "ShaderNodeTexImage" ∧
      dict_get (from_node li) node_map = Some (link_from_node l) ∧
      dict_get (to_node li) node_map = Some (link_to_node l) ∧
      tree_node t (link_to_node l) = Some to_oct ∧
      name ∈ ["Opacity"; "Opacity float"; "Alpha"] ∧
      collection_get (node_inputs to_oct) name = Some (link_to_socket l).
Proof.
  unfold _handle_alpha. destruct (has_alpha analysis) eqn:Halpha; simpl.
  2:{ intros [= <-]. split; [done|]. split; [done|]. intros l Hl. by left. }
  intros Hrun. split; [|split; [done|]].
  { by apply (connect_loop (alpha_link analysis node_map)
                 (alpha_link_nodes analysis node_map)) in Hrun as [? _]. }
  intros l Hl.
  destruct (connect_loop_links (alpha_link analysis node_map)
              (alpha_link_nodes analysis node_map) _ _ _ l Hrun Hl)
    as [?|(li & Hli & Hfound)]; [by left|].
  right. unfold alpha_link in Hfound.
  destruct (dict_get (from_node li) (nodes analysis)) as [from_info|] eqn:Hfrom; [|done].
  destruct (dict_get (to_node li) (nodes analysis)) as [to_info|]; [|done].
  case_decide as Hcond; [|done]. destruct Hcond as [Htype Hsock].
  destruct (dict_get (from_node li) node_map) as [oct_from|] eqn:Hof; [|done].
  destruct (dict_get (to_node li) node_map) as [oct_to|] eqn:Hot; [|done].
  unfold deref in Hfound.
  destruct (tree_node t oct_to) as [to_oct|] eqn:Hto; [|done].
  cbn [mbind result_bind] in Hfound.
  destruct (first_hit _ _) as [opacity|] eqn:Hop; [|done].
  destruct (tree_node t oct_from) as [from_oct|]; [|done].
  cbn [mbind result_bind] in Hfound.
  destruct (_ orelse _) as [alpha_out|]; [|done].
  injection Hfound as -> _ -> ->.
  apply first_hit_Some in Hop as (name & Hname & Hget).
  by exists li, from_info, to_oct, name.
Qed.

Lemma handle_alpha_links_witness :
  tree_nodes Fixtures.foggy_alpha_tree = tree_nodes Fixtures.foggy_tree ∧
  (has_alpha Fixtures.foggy_analysis = false →
   Fixtures.foggy_alpha_tree = Fixtures.foggy_tree) ∧
  ∀ l, l ∈ tree_links Fixtures.foggy_alpha_tree →
    l ∈ tree_links Fixtures.foggy_tree ∨
    ∃ li from_info to_oct name,
      li ∈ links Fixtures.foggy_analysis ∧ from_socket li = "Alpha" ∧
      dict_get (from_node li) (nodes Fixtures.foggy_analysis) = Some from_info ∧
      bl_idname from_info = "ShaderNodeTexImage" ∧
      dict_get (from_node li) Fixtures.foggy_node_map = Some (link_from_node l) ∧
      dict_get (to_node li) Fixtures.foggy_node_map = Some (link_to_node l) ∧
      tree_node Fixtures.foggy_tree (link_to_node l) = Some to_oct ∧
      name ∈ ["Opacity"; "Opacity float"; "Alpha"] ∧
      collection_get (node_inputs to_oct) name = Some (link_to_socket l).
Proof.
  apply (handle_alpha_links Fixtures.foggy_analysis Fixtures.foggy_node_map).
  vm_compute. reflexivity.
Defined.

Lemma volume_link_nodes node_map medium_input t t' item :
  tree_nodes t = tree_nodes t' →
  volume_link node_map t medium_input item = volume_link node_map t' medium_input item.
Proof.
  intros Hn. unfold volume_link. destruct item as [node_name info].
  destruct (negb _); [done|]. destruct (dict_get _ _); [|done].
  by rewrite (deref_nodes t t').
Qed.

Lemma volume_output_link_nodes analysis node_map t t' li :
  tree_nodes t = tree_nodes t' →
  volume_output_link analysis node_map t li = volume_output_link analysis node_map t' li.
Proof.
  intros Hn. unfold volume_output_link.
  destruct (dict_get (to_node li) (nodes analysis)); [|done].
  case_decide; [done|]. case_decide; [done|].
  destruct (dict_get (from_node li) (nodes analysis)); [|done].
  destruct (dict_get (from_node li) node_map); [|done].
  destruct (dict_get (to_node li) node_map); [|done].
  by rewrite !(deref_nodes t t') by done.
Qed.

(** X22. [handle_volumetrics] does nothing unless the analysis saw a volume
    node; it keeps the nodes, and every input socket keeps its links or
    ends with exactly one, so of several volume nodes one stays on the
    Medium input. A link it makes leaves the Octane node of a Volume
    Absorption or Volume Scatter node and enters the Medium input of the
    first material node of the tree, or joins the Octane nodes of a link
    into a Volume input. *)
Theorem handle_volumetrics_links analysis node_map t t' :
  handle_volumetrics analysis node_map t = Ok t' →
  tree_nodes t' = tree_nodes t ∧
  (has_volume analysis = false → t' = t) ∧
  (∀ n s, links_into t' n s = links_into t n s ∨ ∃ l, links_into t' n s = [l]) ∧
  ∀ l, l ∈ tree_links t' →
    l ∈ tree_links t ∨
    (∃ name info i material medium,
       (name, info) ∈ nodes analysis ∧ bl_idname info ∈ volume_types ∧
       dict_get name node_map = Some (link_from_node l) ∧
       list_find (fun node => node_idname node ∈ material_types) (tree_nodes t)
       = Some (i, material) ∧
       link_to_node l = node_name material ∧
       medium ∈ ["Medium"; "Transmission medium"; "Medium input"] ∧
       collection_get (node_inputs material) medium = Some (link_to_socket l)) ∨
    (∃ li, li ∈ links analysis ∧ to_socket li = "Volume" ∧
           dict_get (from_node li) node_map = Some (link_from_node l) ∧
           dict_get (to_node li) node_map = Some (link_to_node l)).
Proof.
  unfold handle_volumetrics. destruct (has_volume analysis); cbn [negb].
  2:{ intros [= <-]. split; [done|]. split; [done|]. split; [by left|]. by left. }
  destruct (list_find _ _) as [[i material]|] eqn:Hmat.
  2:{ intros [= <-]. split; [done|]. split; [done|]. split; [by left|]. by left. }
  destruct (first_hit _ _) as [medium_input|] eqn:Hmedium.
  2:{ intros [= <-]. split; [done|]. split; [done|]. split; [by left|]. by left. }
  intros (t1 & Hvol & Hout)%bind_Ok.
  unfold connect_volumes in Hvol. unfold _connect_volume_to_output in Hout.
  pose proof (connect_loop _ (volume_link_nodes node_map (node_name material, medium_input))
                _ _ _ Hvol) as [Hn1 _].
  pose proof (connect_loop _ (volume_output_link_nodes analysis node_map)
                _ _ _ Hout) as [Hn2 _].
  split; [congruence|]. split; [done|]. split.
  - intros n s.
    destruct (connect_loop_single _ (volume_output_link_nodes analysis node_map)
                _ _ _ n s Hout) as [->|?]; [|by right].
    apply (connect_loop_single _ (volume_link_nodes node_map (node_name material, medium_input))
             _ _ _ n s Hvol).
  - intros l Hl.
    destruct (connect_loop_links _ (volume_output_link_nodes analysis node_map)
                _ _ _ l Hout Hl) as [Hl1|(li & Hli & Hfound)].
    + destruct (connect_loop_links _
                  (volume_link_nodes node_map (node_name material, medium_input))
                  _ _ _ l Hvol Hl1) as [?|([name info] & Hitem & Hfound)]; [by left|].
      right. left. unfold volume_link in Hfound.
      destruct (one_of (bl_idname info) volume_types) eqn:Htype; [|done].
      apply one_of_spec in Htype. cbn [negb] in Hfound.
      destruct (dict_get name node_map) as [oct_name|] eqn:Hoct; [|done].
      destruct (deref t oct_name) as [oct_node|]; [|done].
      cbn [mbind result_bind] in Hfound.
      destruct (_ orelse _); [|done].
      injection Hfound as -> _ Hto Hsock.
      apply first_hit_Some in Hmedium as (medium & Hname & Hget).
      exists name, info, i, material, medium. by rewrite <- Hsock.
    + right. right. exists li. split; [done|].
      rewrite (volume_output_link_nodes analysis node_map t1 t) in Hfound by done.
      unfold volume_output_link in Hfound.
      destruct (dict_get (to_node li) (nodes analysis)); [|done].
      case_decide; [done|]. case_decide as Hsock; [done|].
      destruct (dict_get (from_node li) (nodes analysis)); [|done].
      destruct (dict_get (from_node li) node_map) as [oct_from|]; [|done].
      destruct (dict_get (to_node li) node_map) as [oct_to|]; [|done].
      destruct (deref t oct_to); [|done]. cbn [mbind result_bind] in Hfound.
      destruct (first_hit _ ["Volume"; "Medium"]); [|done].
      destruct (deref t oct_from); [|done]. cbn [mbind result_bind] in Hfound.
      destruct (_ orelse _); [|done].
      injection Hfound as -> _ -> _.
      split; [|done]. by destruct (decide (to_socket li = "Volume")).
Qed.

Lemma handle_volumetrics_links_witness :
  tree_nodes Fixtures.foggy_volume_tree = tree_nodes Fixtures.foggy_tree ∧
  (has_volume Fixtures.foggy_analysis = false →
   Fixtures.foggy_volume_tree = Fixtures.foggy_tree) ∧
  (∀ n s, links_into Fixtures.foggy_volume_tree n s = links_into Fixtures.foggy_tree n s ∨
          ∃ l, links_into Fixtures.foggy_volume_tree n s = [l]) ∧
  ∀ l, l ∈ tree_links Fixtures.foggy_volume_tree →
    l ∈ tree_links Fixtures.foggy_tree ∨
    (∃ name info i material medium,
       (name, info) ∈ nodes Fixtures.foggy_analysis ∧ bl_idname info ∈ volume_types ∧
       dict_get name Fixtures.foggy_node_map = Some (link_from_node l) ∧
       list_find (fun node => node_idname node ∈ material_types)
         (tree_nodes Fixtures.foggy_tree) = Some (i, material) ∧
       link_to_node l = node_name material ∧
       medium ∈ ["Medium"; "Transmission medium"; "Medium input"] ∧
       collection_get (node_inputs material) medium = Some (link_to_socket l)) ∨
    (∃ li, li ∈ links Fixtures.foggy_analysis ∧ to_socket li = "Volume" ∧
           dict_get (from_node li) Fixtures.foggy_node_map = Some (link_from_node l) ∧
           dict_get (to_node li) Fixtures.foggy_node_map = Some (link_to_node l)).
Proof.
  apply (handle_volumetrics_links Fixtures.foggy_analysis Fixtures.foggy_node_map).
  vm_compute. reflexivity.
Defined.

Lemma tree_node_cons a l ls x :
  tree_node (mkNodeTree (a :: l) ls) x
  = if decide (node_name a = x) then Some a else tree_node (mkNodeTree l ls) x.
Proof.
  unfold tree_node. simpl. destruct (decide (node_name a = x)); [done|].
  by destruct (list_find _ l) as [[i n']|].
Qed.

Lemma tree_node_links l ls ls' x :
  tree_node (mkNodeTree l ls) x = tree_node (mkNodeTree l ls') x.
Proof. done. Qed.

Lemma tree_node_is_Some t x :
  is_Some (tree_node t x) ↔ x ∈ node_name <$> tree_nodes t.
Proof.
  destruct t as [l ls]. simpl. induction l as [|a l IH].
  - split; [by intros [? [=]]|by intros ?%elem_of_nil].
  - rewrite tree_node_cons, fmap_cons, elem_of_cons.
    destruct (decide (node_name a = x)) as [->|Hne]; [split; [by left|by eexists]|].
    rewrite IH. split; [by right|]. by intros [?|?].
Qed.

(** What the emission pass may do to a node: every field but the
    attributes stays, every attribute but [surface_brightness] stays, and
    [surface_brightness] stays or becomes [True]. *)
Local Abbreviation brightened node node' :=
  (∃ props,
     node' = mkNode (node_name node) (node_idname node) (node_label node)
               (node_location node) (node_inputs node) (node_outputs node)
               props (node_image node) (node_color_ramp node) ∧
     (∀ k, k ≠ "surface_brightness" →
           dict_get k props = dict_get k (node_props node)) ∧
     (dict_get "surface_brightness" props
      = dict_get "surface_brightness" (node_props node) ∨
      dict_get "surface_brightness" props = Some (VBool true))).

Lemma brightened_refl node : brightened node node.
Proof. exists (node_props node). split; [by destruct node|]. split; [done|by left]. Qed.

Lemma brightened_trans n1 n2 n3 :
  brightened n1 n2 → brightened n2 n3 → brightened n1 n3.
Proof.
  intros (p2 & -> & F2 & B2) (p3 & -> & F3 & B3). simpl in *.
  exists p3. split; [done|]. split.
  - intros k Hk. by rewrite F3, F2.
  - destruct B3 as [-> | ->]; [done|by right].
Qed.

Lemma brightened_setattr node node' :
  node_setattr node "surface_brightness" (VBool true) = Some node' →
  brightened node node' ∧
  dict_get "surface_brightness" (node_props node') = Some (VBool true).
Proof.
  unfold node_setattr.
  destruct (dict_get "surface_brightness" (node_props node)) as [old|]; [|done].
  destruct old; try done. intros [= <-]. simpl. split.
  - eexists. split; [done|]. split; [|right; apply dict_get_set_eq].
    intros k Hk. by apply dict_get_set_ne.
  - apply dict_get_set_eq.
Qed.

Lemma brightened_lookup l l' ls ls' x node :
  Forall2 (fun node node' => brightened node node') l l' →
  tree_node (mkNodeTree l ls) x = Some node →
  ∃ node', tree_node (mkNodeTree l' ls') x = Some node' ∧ brightened node node'.
Proof.
  induction 1 as [|a a' l l' Ha Hl IH]; [done|].
  rewrite !tree_node_cons.
  assert (node_name a' = node_name a) as ->.
  { by destruct Ha as (? & -> & _). }
  destruct (decide (node_name a = x)); [|done].
  intros [= <-]. by exists a'.
Qed.

Lemma brightened_store l ls node node' :
  NoDup (node_name <$> l) →
  tree_node (mkNodeTree l ls) (node_name node) = Some node →
  brightened node node' →
  Forall2 (fun node node' => brightened node node')
    l (tree_nodes (store_node (mkNodeTree l ls) node')) ∧
  tree_node (store_node (mkNodeTree l ls) node') (node_name node) = Some node'.
Proof.
  intros Hnd Hnode Hb. assert (node_name node' = node_name node) as Hname.
  { by destruct Hb as (? & -> & _). }
  unfold store_node. simpl. rewrite Hname.
  induction l as [|a l IH]; [done|].
  rewrite fmap_cons in Hnd. apply NoDup_cons in Hnd as [Ha Hnd].
  rewrite tree_node_cons in Hnode. rewrite fmap_cons, tree_node_cons.
  destruct (decide (node_name a = node_name node)) as [Hn|Hn].
  - injection Hnode as ->. rewrite Hname, decide_True by done. split; [|done].
    constructor; [done|].
    assert (∀ l', (∀ b, b ∈ l' → node_name b ≠ node_name node) →
              Forall2 (fun node node' => brightened node node') l'
                ((fun n => if decide (node_name n = node_name node) then node' else n)
                   <$> l')) as Hid.
    { induction l' as [|b l' IH']; intros Hl'; [done|]. rewrite fmap_cons.
      constructor.
      - rewrite decide_False by (apply Hl'; by left). apply brightened_refl.
      - apply IH'. intros c Hc. apply Hl'. by right. }
    apply Hid. intros b Hb' Heq. apply Ha. rewrite <- Heq.
    apply list_elem_of_fmap. by exists b.
  - destruct (IH Hnd Hnode) as [HF Hlook].
    rewrite decide_False by done. split; [|done].
    constructor; [apply brightened_refl|done].
Qed.

Lemma brightened_names l l' :
  Forall2 (fun node node' => brightened node node') l l' →
  node_name <$> l' = node_name <$> l.
Proof.
  induction 1 as [|a a' l l' Ha Hl IH]; [done|].
  rewrite !fmap_cons, IH. f_equal. by destruct Ha as (? & -> & _).
Qed.

Lemma brightened_all_refl (l : list Node) :
  Forall2 (fun node node' => brightened node node') l l.
Proof. induction l; constructor; [apply brightened_refl|done]. Qed.

Lemma brightened_all_trans l1 l2 l3 :
  Forall2 (fun node node' => brightened node node') l1 l2 →
  Forall2 (fun node node' => brightened node node') l2 l3 →
  Forall2 (fun node node' => brightened node node') l1 l3.
Proof.
  intros H12. revert l3. induction H12 as [|a b l1 l2 Hab H12 IH]; intros l3 H23.
  - by inversion H23.
  - inversion H23 as [|b' c l2' l3' Hbc H23']; subst.
    constructor; [by eapply brightened_trans|by apply IH].
Qed.

(** One turn of the loop of [_handle_emission_post]. *)
Local Abbreviation emission_step node_map :=
  (fun tree (item : string * NodeInfo) =>
     let '(node_name, info) := item in
     if negb (one_of (bl_idname info)
                ["ShaderNodeBsdfPrincipled"; "ShaderNodeEmission"])
     then Ok tree else
     match dict_get node_name node_map with
     | None => Ok tree
     | Some oct_name =>
         oct_node ← deref tree oct_name;
         match node_setattr oct_node "surface_brightness" (VBool true) with
         | Some oct_node => Ok (store_node tree oct_node)
         | None => Ok tree
         end
     end).

Lemma emission_step_frame node_map t t' item :
  NoDup (node_name <$> tree_nodes t) →
  emission_step node_map t item = Ok t' →
  tree_links t' = tree_links t ∧
  Forall2 (fun node node' => brightened node node') (tree_nodes t) (tree_nodes t').
Proof.
  intros Hnd. destruct item as [name info].
  destruct (negb _); [intros [= <-]; split; [done|apply brightened_all_refl]|].
  destruct (dict_get name node_map) as [oct|];
    [|intros [= <-]; split; [done|apply brightened_all_refl]].
  unfold deref. destruct (tree_node t oct) as [node|] eqn:Hnode; [|done].
  cbn [mbind result_bind].
  destruct (node_setattr node _ _) as [node'|] eqn:Hset;
    [|intros [= <-]; split; [done|apply brightened_all_refl]].
  intros [= <-]. split; [done|].
  apply brightened_setattr in Hset as [Hb _].
  pose proof (tree_node_name _ _ _ Hnode) as <-.
  destruct t as [l ls]. by apply (brightened_store l ls node node').
Qed.

Lemma emission_loop_frame node_map items : ∀ t t',
  NoDup (node_name <$> tree_nodes t) →
  fold_result (emission_step node_map) t items = Ok t' →
  tree_links t' = tree_links t ∧
  Forall2 (fun node node' => brightened node node') (tree_nodes t) (tree_nodes t').
Proof.
  induction items as [|item items IH]; intros t t' Hnd Hrun.
  { injection Hrun as <-. split; [done|apply brightened_all_refl]. }
  rewrite fold_result_cons in Hrun. apply bind_Ok in Hrun as (t1 & Hstep & Hrun).
  destruct (emission_step_frame _ _ _ _ Hnd Hstep) as [Hl1 Hn1].
  destruct (IH t1 t') as [Hl2 Hn2]; [|done|].
  { by rewrite (brightened_names _ _ Hn1). }
  split; [congruence|]. by eapply brightened_all_trans.
Qed.

(** X24. On a tree with distinct node names [_handle_emission_post] does
    nothing unless the analysis saw emission. Otherwise it keeps the links
    and, on every node, everything but the attribute [surface_brightness];
    and the Octane node of every Principled BSDF and Emission node that has
    the attribute as a boolean ends with it set. *)
Theorem handle_emission_post_brightness analysis node_map t t' :
  NoDup (node_name <$> tree_nodes t) →
  _handle_emission_post analysis node_map t = Ok t' →
  (has_emission analysis = false → t' = t) ∧
  tree_links t' = tree_links t ∧
  Forall2 (fun node node' => brightened node node') (tree_nodes t) (tree_nodes t') ∧
  (has_emission analysis = true →
   ∀ name info oct node b,
     (name, info) ∈ nodes analysis →
     bl_idname info ∈ ["ShaderNodeBsdfPrincipled"; "ShaderNodeEmission"] →
     dict_get name node_map = Some oct →
     tree_node t oct = Some node →
     dict_get "surface_brightness" (node_props node) = Some (VBool b) →
     ∃ node', tree_node t' oct = Some node' ∧
              dict_get "surface_brightness" (node_props node') = Some (VBool true)).
Proof.
  intros Hnd. unfold _handle_emission_post.
  destruct (has_emission analysis); cbn [negb].
  2:{ intros [= <-]. split; [done|]. split; [done|].
      split; [apply brightened_all_refl|done]. }
  intros Hrun. split; [done|].
  destruct (emission_loop_frame _ _ _ _ Hnd Hrun) as [Hlinks Hnodes].
  split; [done|]. split; [done|]. intros _ name info oct node b Hitem Htype Hoct Hnode Hattr.
  apply list_elem_of_split in Hitem as (pre & post & Hitems).
  rewrite Hitems, fold_result_app in Hrun.
  apply bind_Ok in Hrun as (t1 & Hpre & Hrun).
  rewrite fold_result_cons in Hrun. apply bind_Ok in Hrun as (t2 & Hstep & Hpost).
  destruct (emission_loop_frame _ _ _ _ Hnd Hpre) as [_ Hn1].
  assert (NoDup (node_name <$> tree_nodes t1)) as Hnd1
    by by rewrite (brightened_names _ _ Hn1).
  destruct (emission_step_frame node_map t1 t2 (name, info) Hnd1 Hstep) as [_ Hn2].
  assert (NoDup (node_name <$> tree_nodes t2)) as Hnd2
    by by rewrite (brightened_names _ _ Hn2).
  destruct (emission_loop_frame _ _ _ _ Hnd2 Hpost) as [_ Hn3].
  destruct t as [l ls], t1 as [l1 ls1].
  destruct (brightened_lookup l l1 ls ls1 oct node Hn1 Hnode) as (node1 & Hnode1 & Hb1).
  assert (∃ b1, dict_get "surface_brightness" (node_props node1) = Some (VBool b1))
    as [b1 Hattr1].
  { destruct Hb1 as (props & -> & _ & [Hsame|Htrue]); simpl.
    - rewrite Hsame. by exists b.
    - by exists true. }
  assert (∃ node2, tree_node t2 oct = Some node2 ∧
            dict_get "surface_brightness" (node_props node2) = Some (VBool true))
    as (node2 & Hnode2 & Hattr2).
  { apply one_of_spec in Htype. rewrite Htype in Hstep. cbn [negb] in Hstep.
    rewrite Hoct in Hstep. unfold deref in Hstep. rewrite Hnode1 in Hstep.
    cbn [mbind result_bind] in Hstep.
    destruct (node_setattr node1 _ _) as [node2|] eqn:Hset.
    - injection Hstep as <-. exists node2.
      apply brightened_setattr in Hset as [Hb2 Hattr2]. split; [|done].
      pose proof (tree_node_name _ _ _ Hnode1) as <-.
      by apply (brightened_store l1 ls1 node1 node2).
    - unfold node_setattr in Hset. by rewrite Hattr1 in Hset. }
  destruct t2 as [l2 ls2], t' as [l' ls'].
  destruct (brightened_lookup l2 l' ls2 ls' oct node2 Hn3 Hnode2) as (node' & Hnode' & Hb3).
  exists node'. split; [done|].
  destruct Hb3 as (props & -> & _ & [Hsame|Htrue]); simpl; [by rewrite Hsame|done].
Qed.

Lemma handle_emission_post_brightness_witness :
  (has_emission Fixtures.foggy_analysis = false →
   Fixtures.foggy_bright_tree = Fixtures.foggy_tree) ∧
  tree_links Fixtures.foggy_bright_tree = tree_links Fixtures.foggy_tree ∧
  Forall2 (fun node node' => brightened node node')
    (tree_nodes Fixtures.foggy_tree) (tree_nodes Fixtures.foggy_bright_tree) ∧
  (has_emission Fixtures.foggy_analysis = true →
   ∀ name info oct node b,
     (name, info) ∈ nodes Fixtures.foggy_analysis →
     bl_idname info ∈ ["ShaderNodeBsdfPrincipled"; "ShaderNodeEmission"] →
     dict_get name Fixtures.foggy_node_map = Some oct →
     tree_node Fixtures.foggy_tree oct = Some node →
     dict_get "surface_brightness" (node_props node) = Some (VBool b) →
     ∃ node', tree_node Fixtures.foggy_bright_tree oct = Some node' ∧
              dict_get "surface_brightness" (node_props node') = Some (VBool true)).
Proof.
  apply (handle_emission_post_brightness Fixtures.foggy_analysis Fixtures.foggy_node_map).
  - apply (bool_decide_unpack _). vm_compute. exact I.
  - vm_compute. reflexivity.
Defined.



Lemma dict_get_del {V} (k k' : string) (d : dict V) :
  dict_get k (dict_del k' d) = if decide (k = k') then None else dict_get k d.
Proof.
  unfold dict_del, dict in *. induction d as [|[k0 v] d IH]; [by case_decide|].
  destruct (decide (k0 = k')) as [->|Hne].
  - rewrite filter_cons_False by (simpl; tauto). rewrite IH. simpl.
    destruct (decide (k = k')) as [->|Hk]; [done|].
    by rewrite decide_False by done.
  - rewrite filter_cons_True by done. simpl. rewrite IH.
    destruct (decide (k0 = k)) as [->|Hk]; [|done].
    by rewrite decide_False by done.
Qed.

Lemma tree_node_nodes_remove t x y :
  tree_node (nodes_remove t x) y
  = if decide (y = x) then None else tree_node t y.
Proof.
  destruct t as [l ls]. unfold nodes_remove. simpl.
  erewrite tree_node_links. induction l as [|a l IH].
  - by case_decide.
  - rewrite (tree_node_cons a l ls).
    destruct (decide (node_name a = x)) as [Ha|Ha].
    + rewrite filter_cons_False by tauto. rewrite IH.
      destruct (decide (y = x)) as [->|Hy]; [done|].
      rewrite decide_False; [done|]. congruence.
    + rewrite filter_cons_True by done. rewrite tree_node_cons, IH.
      destruct (decide (node_name a = y)) as [<-|Hy]; [|done].
      by rewrite decide_False.
Qed.

Lemma fallback_rewire_nodes t oct source dest sock t' :
  fallback_rewire t oct source dest sock = Ok t' → tree_nodes t' = tree_nodes t.
Proof.
  unfold fallback_rewire.
  destruct (deref t source); [|done]. cbn [mbind result_bind].
  destruct (deref t dest); [|done]. cbn [mbind result_bind].
  destruct (first_output _); [|by intros [= <-]].
  by repeat case_match; intros [= <-].
Qed.

(** What the fallback pass may do to the map and the tree: entries and
    nodes are only removed, and a node that is no stand-in stays. *)
Local Abbreviation shrinks st st' :=
  ((∀ k v, dict_get k (fst st') = Some v → dict_get k (fst st) = Some v) ∧
   (∀ x node, tree_node (snd st') x = Some node → tree_node (snd st) x = Some node) ∧
   (∀ x node, tree_node (snd st) x = Some node → is_unsupported node = false →
              tree_node (snd st') x = Some node)).

Lemma fallback_step_shrinks analysis st st' item :
  fallback_step analysis st item = Ok st' →
  shrinks st st' ∧
  (bl_idname item.2 ∈ ["ShaderNodeNormalMap"; "ShaderNodeBump"] →
   ∀ oct, dict_get item.1 st'.1 = Some oct →
          ∃ node, tree_node st'.2 oct = Some node ∧ is_unsupported node = false).
Proof.
  destruct st as [node_map t], item as [name info]. unfold fallback_step.
  destruct (one_of (bl_idname info) _) eqn:Htype; cbn [negb].
  2:{ intros [= <-]. split; [done|]. intros Hin. apply one_of_false in Htype. done. }
  destruct (dict_get name node_map) as [oct_name|] eqn:Hoct.
  2:{ intros [= <-]. split; [done|]. intros _ oct. simpl. by rewrite Hoct. }
  unfold deref at 1. destruct (tree_node t oct_name) as [oct_node|] eqn:Hnode; [|done].
  cbn [mbind result_bind].
  destruct (is_unsupported oct_node) eqn:Hun; cbn [negb].
  2:{ intros [= <-]. split; [done|]. intros _ oct. simpl. rewrite Hoct.
      intros [= <-]. by exists oct_node. }
  intros (tree & Htree & [= <-])%bind_Ok.
  assert (tree_nodes tree = tree_nodes t) as Hnodes.
  { destruct (fallback_source _ _ _); [|by injection Htree as <-].
    destruct (fallback_destination _ _ _) as [[dest sock]|]; [|by injection Htree as <-].
    by eapply fallback_rewire_nodes. }
  assert (∀ y, tree_node (nodes_remove (remove_links_of tree oct_name) oct_name) y
               = if decide (y = oct_name) then None else tree_node t y) as Hlook.
  { intros y. rewrite tree_node_nodes_remove. case_decide; [done|].
    unfold tree_node. simpl. by rewrite Hnodes. }
  split.
  - simpl. split; [|split].
    + intros k v. rewrite dict_get_del. by case_decide.
    + intros x node. rewrite Hlook. by case_decide.
    + intros x node Hx Hproper. rewrite Hlook. case_decide as Heq; [|done].
      subst x. rewrite Hnode in Hx. injection Hx as <-. congruence.
  - intros _ oct. simpl. rewrite dict_get_del. by rewrite decide_True.
Qed.

Lemma fallback_loop_shrinks analysis items : ∀ st st',
  fold_result (fallback_step analysis) st items = Ok st' → shrinks st st'.
Proof.
  induction items as [|item items IH]; intros st st' Hrun.
  { by injection Hrun as <-. }
  rewrite fold_result_cons in Hrun. apply bind_Ok in Hrun as (st1 & Hstep & Hrun).
  apply fallback_step_shrinks in Hstep as [(M1 & N1 & P1) _].
  apply IH in Hrun as (M2 & N2 & P2).
  split; [|split].
  - intros k v Hk. by apply M1, M2.
  - intros x node Hx. by apply N1, N2.
  - intros x node Hx Hp. apply P2; [|done]. by apply P1.
Qed.

(** X23. [_handle_normal_map_fallback] only removes: every entry left in
    the map and every node left in the tree was there before, unchanged,
    and a node whose label does not mark it as a stand-in is never
    removed. Afterwards every Normal Map or Bump node still in the map
    refers to a node of the tree that is no [UNSUPPORTED] stand-in. *)
Theorem normal_map_fallback_removes analysis node_map t node_map' t' :
  _handle_normal_map_fallback analysis node_map t = Ok (node_map', t') →
  (∀ k v, dict_get k node_map' = Some v → dict_get k node_map = Some v) ∧
  (∀ x node, tree_node t' x = Some node → tree_node t x = Some node) ∧
  (∀ x node, tree_node t x = Some node → is_unsupported node = false →
             tree_node t' x = Some node) ∧
  (∀ name info oct,
     (name, info) ∈ nodes analysis →
     bl_idname info ∈ ["ShaderNodeNormalMap"; "ShaderNodeBump"] →
     dict_get name node_map' = Some oct →
     ∃ node, tree_node t' oct = Some node ∧ is_unsupported node = false).
Proof.
  unfold _handle_normal_map_fallback. intros Hrun.
  destruct (fallback_loop_shrinks _ _ _ _ Hrun) as (HM & HN & HP).
  split; [done|]. split; [done|]. split; [done|].
  intros name info oct Hitem Htype Hoct.
  apply list_elem_of_split in Hitem as (pre & post & Hitems).
  rewrite Hitems, fold_result_app in Hrun.
  apply bind_Ok in Hrun as (st1 & Hpre & Hrun).
  rewrite fold_result_cons in Hrun. apply bind_Ok in Hrun as (st2 & Hstep & Hpost).
  apply fallback_step_shrinks in Hstep as [_ Hdone].
  apply fallback_loop_shrinks in Hpost as (M3 & _ & P3). simpl in *.
  destruct (Hdone Htype oct) as (node & Hnode & Hproper); [by apply M3|].
  exists node. split; [|done]. by apply P3.
Qed.

Lemma normal_map_fallback_removes_witness :
  (∀ k v, dict_get k Fixtures.foggy_fallback.1 = Some v →
          dict_get k Fixtures.foggy_node_map = Some v) ∧
  (∀ x node, tree_node Fixtures.foggy_fallback.2 x = Some node →
             tree_node Fixtures.foggy_tree x = Some node) ∧
  (∀ x node, tree_node Fixtures.foggy_tree x = Some node →
             is_unsupported node = false →
             tree_node Fixtures.foggy_fallback.2 x = Some node) ∧
  (∀ name info oct,
     (name, info) ∈ nodes Fixtures.foggy_analysis →
     bl_idname info ∈ ["ShaderNodeNormalMap"; "ShaderNodeBump"] →
     dict_get name Fixtures.foggy_fallback.1 = Some oct →
     ∃ node, tree_node Fixtures.foggy_fallback.2 oct = Some node ∧
             is_unsupported node = false).
Proof.
  apply (normal_map_fallback_removes Fixtures.foggy_analysis).
  vm_compute. reflexivity.
Defined.

Lemma store_node_names t node :
  node_name <$> tree_nodes (store_node t node) = node_name <$> tree_nodes t.
Proof.
  unfold store_node. simpl. rewrite <- list_fmap_compose.
  apply list_fmap_ext. intros i n _. simpl. by case_decide.
Qed.

Lemma node_setattr_name node attr value node' :
  node_setattr node attr value = Some node' → node_name node' = node_name node.
Proof.
  unfold node_setattr. destruct (dict_get attr (node_props node)); [|done].
  case_match; [|done]. by intros [= <-].
Qed.

Lemma emission_loop_runs node_map items : ∀ t,
  (∀ k oct, dict_get k node_map = Some oct → is_Some (tree_node t oct)) →
  ∃ t', fold_result (emission_step node_map) t items = Ok t'.
Proof.
  induction items as [|[name info] items IH]; intros t Hwf; [by eexists|].
  rewrite fold_result_cons.
  assert (∃ t1, emission_step node_map t (name, info) = Ok t1 ∧
                node_name <$> tree_nodes t1 = node_name <$> tree_nodes t)
    as (t1 & -> & Hnames).
  { cbn beta iota. destruct (negb _); [by eexists|].
    destruct (dict_get name node_map) as [oct|] eqn:Hoct; [|by eexists].
    destruct (Hwf _ _ Hoct) as [node Hnode]. unfold deref. rewrite Hnode.
    cbn [mbind result_bind].
    destruct (node_setattr node _ _) as [node'|]; [|by eexists].
    eexists. split; [done|]. apply store_node_names. }
  cbn [mbind result_bind]. apply IH. intros k oct Hk.
  apply tree_node_is_Some. rewrite Hnames. apply tree_node_is_Some. by eapply Hwf.
Qed.

Lemma link_passes_run analysis node_map t :
  (∀ k oct, dict_get k node_map = Some oct → is_Some (tree_node t oct)) →
  (∃ t', _rebuild_links analysis node_map t = Ok t') ∧
  (∃ t', _handle_alpha analysis node_map t = Ok t') ∧
  (∃ t', _handle_emission_post analysis node_map t = Ok t') ∧
  (∃ t', handle_volumetrics analysis node_map t = Ok t').
Proof.
  intros Hwf.
  assert (∀ k oct, dict_get k node_map = Some oct →
                   ∃ node, deref t oct = Ok node) as Hderef.
  { intros k oct Hk. destruct (Hwf _ _ Hk) as [node Hnode].
    exists node. unfold deref. by rewrite Hnode. }
  split; [|split; [|split]].
  - apply (connect_loop_runs _ (rebuild_link_nodes analysis node_map)).
    intros li _. unfold rebuild_link.
    destruct (dict_get (from_node li) node_map) as [oct_from|] eqn:Hof; [|by eexists].
    destruct (dict_get (to_node li) node_map) as [oct_to|] eqn:Hot; [|by eexists].
    destruct (dict_get (from_node li) (nodes analysis)); [|by eexists].
    destruct (dict_get (to_node li) (nodes analysis)); [|by eexists].
    destruct (Hderef _ _ Hof) as [from_oct ->]. destruct (Hderef _ _ Hot) as [to_oct ->].
    cbn [mbind result_bind].
    destruct (resolve_output_socket _ _ _ _); [|by eexists].
    destruct (resolve_input_socket _ _ _ _ _); by eexists.
  - unfold _handle_alpha. destruct (negb _); [by eexists|].
    apply (connect_loop_runs _ (alpha_link_nodes analysis node_map)).
    intros li _. unfold alpha_link.
    destruct (dict_get (from_node li) (nodes analysis)); [|by eexists].
    destruct (dict_get (to_node li) (nodes analysis)); [|by eexists].
    case_decide; [|by eexists].
    destruct (dict_get (from_node li) node_map) as [oct_from|] eqn:Hof; [|by eexists].
    destruct (dict_get (to_node li) node_map) as [oct_to|] eqn:Hot; [|by eexists].
    destruct (Hderef _ _ Hof) as [from_oct ->]. destruct (Hderef _ _ Hot) as [to_oct ->].
    cbn [mbind result_bind].
    destruct (first_hit _ _); [|by eexists]. cbn [mbind result_bind].
    destruct (_ orelse _); by eexists.
  - unfold _handle_emission_post. destruct (negb _); [by eexists|].
    by apply emission_loop_runs.
  - unfold handle_volumetrics. destruct (negb _); [by eexists|].
    destruct (list_find _ _) as [[i material]|]; [|by eexists].
    destruct (first_hit _ _) as [medium_input|]; [|by eexists].
    unfold connect_volumes, _connect_volume_to_output.
    destruct (connect_loop_runs _
                (volume_link_nodes node_map (node_name material, medium_input))
                (nodes analysis) t) as [t1 Hvol].
    { intros [name info] _. unfold volume_link.
      destruct (negb _); [by eexists|].
      destruct (dict_get name node_map) as [oct|] eqn:Hoct; [|by eexists].
      destruct (Hderef _ _ Hoct) as [oct_node ->]. cbn [mbind result_bind].
      destruct (_ orelse _); by eexists. }
    rewrite Hvol. cbn [mbind result_bind].
    apply (connect_loop _ (volume_link_nodes node_map (node_name material, medium_input)))
      in Hvol as [Hnodes _].
    apply (connect_loop_runs _ (volume_output_link_nodes analysis node_map)).
    intros li _.
    rewrite (volume_output_link_nodes analysis node_map t1 t) by done.
    unfold volume_output_link.
    destruct (dict_get (to_node li) (nodes analysis)); [|by eexists].
    case_decide; [by eexists|]. case_decide; [by eexists|].
    destruct (dict_get (from_node li) (nodes analysis)); [|by eexists].
    destruct (dict_get (from_node li) node_map) as [oct_from|] eqn:Hof; [|by eexists].
    destruct (dict_get (to_node li) node_map) as [oct_to|] eqn:Hot; [|by eexists].
    destruct (Hderef _ _ Hof) as [from_oct ->]. destruct (Hderef _ _ Hot) as [to_oct ->].
    cbn [mbind result_bind].
    destruct (first_hit _ _); [|by eexists]. cbn [mbind result_bind].
    destruct (_ orelse _); by eexists.
Qed.

(** X25. The link passes raise only on a dangling reference: when every
    entry of the node map names a node of the target tree,
    [_rebuild_links], [_handle_alpha], [_handle_emission_post] and
    [handle_volumetrics] all return. *)
Theorem link_passes_return analysis node_map t :
  (∀ k oct, dict_get k node_map = Some oct → is_Some (tree_node t oct)) →
  (∃ t', _rebuild_links analysis node_map t = Ok t') ∧
  (∃ t', _handle_alpha analysis node_map t = Ok t') ∧
  (∃ t', _handle_emission_post analysis node_map t = Ok t') ∧
  (∃ t', handle_volumetrics analysis node_map t = Ok t').
Proof. apply link_passes_run. Qed.

Lemma link_passes_return_witness :
  (∃ t', _rebuild_links Fixtures.foggy_analysis Fixtures.foggy_node_map
           Fixtures.foggy_tree = Ok t') ∧
  (∃ t', _handle_alpha Fixtures.foggy_analysis Fixtures.foggy_node_map
           Fixtures.foggy_tree = Ok t') ∧
  (∃ t', _handle_emission_post Fixtures.foggy_analysis Fixtures.foggy_node_map
           Fixtures.foggy_tree = Ok t') ∧
  (∃ t', handle_volumetrics Fixtures.foggy_analysis Fixtures.foggy_node_map
           Fixtures.foggy_tree = Ok t').
Proof.
  apply link_passes_return.
  intros k oct Hk. simpl in Hk.
  repeat case_decide; try done; injection Hk as <-; eexists; reflexivity.
Defined.

End LinkPasses.
(* ===================================================================== *)
(** * The gamma pass *)
(* ===================================================================== *)

Lemma size_list_to_set_le (l : list string) :
  size (list_to_set l : gset string) ≤ length l.
Proof.
  induction l as [|x l IH]; [done|].
  change (list_to_set (x :: l) : gset string) with ({[x]} ∪ list_to_set l : gset string).
  rewrite size_union_alt, size_singleton.
  assert (size (list_to_set l ∖ {[x]} : gset string) ≤ size (list_to_set l : gset string)).
  { apply subseteq_size. set_solver. }
  simpl. lia.
Qed.

(** The walk of the collection goes from [b] to [a]: a link leads from [a]
    to [b], and [b] is no image texture. *)
Local Abbreviation walks t :=
  (fun a b => ∃ l nb, l ∈ Bpy.tree_links t ∧ Bpy.link_from_node l = a ∧
                      Bpy.link_to_node l = b ∧
                      Bpy.tree_node t b = Some nb ∧
                      Bpy.node_idname nb ∉ GammaSystem.image_types).

(** What holds of the collection between two calls: the result has no
    duplicates and holds the visited image textures, all of which satisfy
    [Q]. *)
Local Abbreviation collected_in t Q st :=
  (NoDup (fst st) ∧
   snd st ⊆ (list_to_set (Bpy.node_name <$> Bpy.tree_nodes t) : gset string) ∧
   (∀ x, x ∈ fst st →
         x ∈ snd st ∧ Q x ∧
         ∃ n, Bpy.tree_node t x = Some n ∧
              Bpy.node_idname n ∈ GammaSystem.image_types) ∧
   (∀ x n, x ∈ snd st → Bpy.tree_node t x = Some n →
           Bpy.node_idname n ∈ GammaSystem.image_types → x ∈ fst st)).

(** Every node visited between [v] and [v'] that is no image texture has
    had the sources of all its links visited. *)
Local Abbreviation explored_in t v v' :=
  (∀ y ny l, y ∈ v' → y ∉ v → Bpy.tree_node t y = Some ny →
             Bpy.node_idname ny ∉ GammaSystem.image_types →
             l ∈ Bpy.tree_links t → Bpy.link_to_node l = y →
             Bpy.link_from_node l ∈ v').

Section Collect.
Import Py Bpy ConversionEngine GammaSystem.
Variable t : NodeTree.

(** The names of the nodes of the tree. *)
Local Abbreviation names := (list_to_set (node_name <$> tree_nodes t) : gset string).

Local Abbreviation walk := (walks t).

Hypothesis closed_from :
  ∀ l, l ∈ tree_links t → is_Some (tree_node t (link_from_node l)).
Hypothesis closed_to :
  ∀ l, l ∈ tree_links t →
       ∃ node, tree_node t (link_to_node l) = Some node ∧
               link_to_socket l < length (node_inputs node).

Variable Q : string → Prop.
Hypothesis Q_closed : ∀ a b, walk a b → Q b → Q a.

Local Abbreviation collected st := (collected_in t Q st).
Local Abbreviation explored v v' := (explored_in t v v').

Lemma names_elem x : x ∈ names ↔ is_Some (tree_node t x).
Proof. rewrite elem_of_list_to_set. symmetry. apply tree_node_is_Some. Qed.

Lemma names_size : size names ≤ length (tree_nodes t).
Proof.
  rewrite <- (length_fmap node_name). apply size_list_to_set_le.
Qed.

Lemma explored_trans (va vb vc : gset string) :
  vb ⊆ vc → explored va vb → explored vb vc → explored va vc.
Proof.
  intros Hbc Hab Hbc' y ny l Hy Hnot Hny Himg Hl Hto.
  destruct (decide (y ∈ vb)) as [Hb|Hb].
  - apply Hbc. by eapply Hab.
  - by eapply Hbc'.
Qed.

Lemma collect_image_nodes_spec fuel : ∀ node st,
  tree_node t (node_name node) = Some node →
  Q (node_name node) →
  collected st →
  size (names ∖ st.2) < fuel →
  ∃ st', _collect_image_nodes fuel t node st = Ok st' ∧
         collected st' ∧ st.2 ⊆ st'.2 ∧ node_name node ∈ st'.2 ∧
         explored st.2 st'.2.
Proof.
  induction fuel as [|fuel IH];
    intros node [r v] Hnode HQ (Hnd & Hsub & Hres & Himgs) Hfuel; [lia|].
  simpl in *.
  destruct (decide (node_name node ∈ v)) as [Hv|Hv].
  { eexists. split; [done|]. simpl. split; [done|]. split; [done|]. split; [done|].
    by intros y ny l Hy Hnot. }
  assert (node_name node ∈ names) as Hin by (apply names_elem; by eexists).
  assert (∀ x, x ∈ v → x ∈ {[node_name node]} ∪ v) as Hv1
    by (intros x Hx; apply elem_of_union; by right).
  assert (node_name node ∈ {[node_name node]} ∪ v) as Hself
    by (apply elem_of_union; left; by apply elem_of_singleton).
  assert ({[node_name node]} ∪ v ⊆ names) as Hsub1.
  { intros x [->%elem_of_singleton|Hx]%elem_of_union; [done|by apply Hsub]. }
  destruct (decide (node_idname node ∈ image_types)) as [Himg|Himg].
  { eexists. split; [done|]. simpl. split; [|split; [done|split; [done|]]].
    - split; [|split; [done|split]].
      + apply NoDup_app. split; [done|]. split; [|apply NoDup_singleton].
        intros x Hx ->%list_elem_of_singleton. by destruct (Hres _ Hx).
      + intros x [Hx | ->%list_elem_of_singleton]%elem_of_app.
        * destruct (Hres _ Hx) as (? & ? & ?). split; [by apply Hv1|done].
        * split; [done|]. split; [done|]. by exists node.
      + intros x n [->%elem_of_singleton|Hx]%elem_of_union Hn Hi; apply elem_of_app.
        * right. by apply list_elem_of_singleton.
        * left. by eapply Himgs.
    - intros y ny l [->%elem_of_singleton|Hy]%elem_of_union Hnot Hny; [|done].
      rewrite Hnode in Hny. by injection Hny as <-. }
  assert (size (names ∖ ({[node_name node]} ∪ v)) < fuel) as Hfuel'.
  { assert (names ∖ ({[node_name node]} ∪ v) ⊂ names ∖ v) as Hlt%subset_size.
    { split.
      - intros x [Hx Hn]%elem_of_difference. apply elem_of_difference.
        split; [done|]. intros ?. by apply Hn, Hv1.
      - intros Hall. assert (node_name node ∈ names ∖ v) as Hd%Hall
          by by apply elem_of_difference.
        by apply elem_of_difference in Hd as [_ Hd]. }
    lia. }
  assert (∀ ls st,
            (∀ l, l ∈ ls → l ∈ tree_links t ∧ link_to_node l = node_name node) →
            collected st → {[node_name node]} ∪ v ⊆ st.2 →
            ∃ st', fold_result
                     (fun st link =>
                        from_node ← deref t (link_from_node link);
                        _collect_image_nodes fuel t from_node st) st ls = Ok st' ∧
                   collected st' ∧ st.2 ⊆ st'.2 ∧ explored st.2 st'.2 ∧
                   ∀ l, l ∈ ls → link_from_node l ∈ st'.2) as Hinner.
  { induction ls as [|l ls IHls]; intros st Hls Hst Hstart.
    { exists st. split; [done|]. split; [done|]. split; [done|].
      split; [by intros y ny l Hy Hnot|]. by intros l ?%elem_of_nil. }
    rewrite fold_result_cons.
    destruct (Hls l) as [Hl Hto]; [by left|].
    destruct (closed_from l Hl) as [from Hfrom].
    unfold deref. rewrite Hfrom. cbn [mbind result_bind].
    pose proof (tree_node_name _ _ _ Hfrom) as Hname.
    destruct (IH from st) as (st1 & -> & Hst1 & Hsub01 & Hin1 & Hexp1).
    - by rewrite Hname.
    - rewrite Hname. apply (Q_closed _ (node_name node)); [|done].
      by exists l, node.
    - done.
    - assert (size (names ∖ st.2) ≤ size (names ∖ ({[node_name node]} ∪ v))).
      { apply subseteq_size. intros x [Hx Hn]%elem_of_difference.
        apply elem_of_difference. split; [done|]. intros ?. by apply Hn, Hstart. }
      lia.
    - destruct (IHls st1) as (st2 & Hrun2 & Hst2 & Hsub12 & Hexp2 & Hall2).
      + intros l' Hl'. apply Hls. by right.
      + done.
      + intros x Hx. by apply Hsub01, Hstart.
      + exists st2. split; [exact Hrun2|]. split; [done|].
        split; [by etrans|]. split; [by eapply explored_trans|].
        intros l' [->|Hl']%elem_of_cons; [|by apply Hall2].
        apply Hsub12. by rewrite <- Hname. }
  assert (∀ idx st,
            collected st → {[node_name node]} ∪ v ⊆ st.2 →
            ∃ st', fold_result
                     (fun st inp =>
                        fold_result
                          (fun st link =>
                             from_node ← deref t (link_from_node link);
                             _collect_image_nodes fuel t from_node st)
                          st (links_into t (node_name node) inp)) st idx = Ok st' ∧
                   collected st' ∧ st.2 ⊆ st'.2 ∧ explored st.2 st'.2 ∧
                   ∀ i l, i ∈ idx → l ∈ links_into t (node_name node) i →
                          link_from_node l ∈ st'.2) as Houter.
  { induction idx as [|i idx IHidx]; intros st Hst Hstart.
    { exists st. split; [done|]. split; [done|]. split; [done|].
      split; [by intros y ny l Hy Hnot|]. by intros i l ?%elem_of_nil. }
    rewrite fold_result_cons.
    destruct (Hinner (links_into t (node_name node) i) st)
      as (st1 & -> & Hst1 & Hsub01 & Hexp1 & Hall1).
    - intros l [[Hto _] Hl]%links_into_spec. done.
    - done.
    - done.
    - destruct (IHidx st1) as (st2 & Hrun2 & Hst2 & Hsub12 & Hexp2 & Hall2);
        [done|by etrans|].
      exists st2. split; [exact Hrun2|]. split; [done|].
      split; [by etrans|]. split; [by eapply explored_trans|].
      intros j l [->|Hj]%elem_of_cons Hl; [|by eapply Hall2].
      by apply Hsub12, Hall1. }
  destruct (Houter (seq 0 (length (node_inputs node))) (r, {[node_name node]} ∪ v))
    as ([r' v'] & -> & Hst' & Hsub' & Hexp' & Hall').
  - simpl. split; [done|]. split; [done|]. split.
    + intros x Hx. destruct (Hres _ Hx) as (? & ? & ?). split; [by apply Hv1|done].
    + intros x n [->%elem_of_singleton|Hx]%elem_of_union Hn Hi; [|by eapply Himgs].
      rewrite Hnode in Hn. by injection Hn as <-.
  - done.
  - simpl in *. exists (r', v'). split; [done|]. split; [done|].
    split; [by intros x Hx; apply Hsub', Hv1|]. split; [by apply Hsub'|].
    intros y ny l Hy Hnot Hny Hnimg Hl Hto.
    destruct (decide (y = node_name node)) as [->|Hne].
    + destruct (closed_to l Hl) as (node' & Hnode' & Hsock).
      rewrite Hto, Hnode in Hnode'. injection Hnode' as <-.
      apply (Hall' (link_to_socket l) l).
      * apply elem_of_seq. lia.
      * by apply links_into_spec.
    + eapply Hexp'; try done.
      intros [->%elem_of_singleton|?]%elem_of_union; done.
Qed.

End Collect.

Section FindAlbedo.
Import Py Bpy ConversionEngine GammaSystem.

Lemma find_albedo_image_nodes_walk t :
  (∀ l, l ∈ tree_links t →
        is_Some (tree_node t (link_from_node l)) ∧
        ∃ node, tree_node t (link_to_node l) = Some node ∧
                link_to_socket l < length (node_inputs node)) →
  ∃ found,
    _find_albedo_image_nodes t = Ok found ∧ NoDup found ∧
    ∀ x, x ∈ found ↔
         ∃ node l to_name,
           tree_node t x = Some node ∧ node_idname node ∈ image_types ∧
           l ∈ tree_links t ∧ to_socket_name t l = Ok to_name ∧
           to_name ∈ albedo_names ∧ rtc (walks t) x (link_from_node l).
Proof.
  intros Hclosed.
  assert (∀ l, l ∈ tree_links t → is_Some (tree_node t (link_from_node l)))
    as closed_from by (intros l Hl; by destruct (Hclosed l Hl)).
  assert (∀ l, l ∈ tree_links t →
               ∃ node, tree_node t (link_to_node l) = Some node ∧
                       link_to_socket l < length (node_inputs node))
    as closed_to by (intros l Hl; by destruct (Hclosed l Hl)).
  set (Q := fun x => ∃ l to_name,
                l ∈ tree_links t ∧ to_socket_name t l = Ok to_name ∧
                to_name ∈ albedo_names ∧ rtc (walks t) x (link_from_node l)).
  assert (∀ a b, walks t a b → Q b → Q a) as Q_closed.
  { intros a b Hab (l & to_name & Hl & Hname & Halb & Hreach).
    exists l, to_name. split; [done|]. split; [done|]. split; [done|].
    by eapply rtc_l. }
  pose proof (collect_image_nodes_spec t closed_from closed_to Q Q_closed
                (S (length (tree_nodes t)))) as Hcollect.
  assert (∀ ls (st : Collected),
            (∀ l, l ∈ ls → l ∈ tree_links t) →
            collected_in t Q st → explored_in t (∅ : gset string) st.2 →
            ∃ st',
              fold_result
                (fun st link =>
                   to_name ← to_socket_name t link;
                   if decide (to_name ∉ albedo_names) then Ok st else
                   from_node ← deref t (link_from_node link);
                   _collect_image_nodes (S (length (tree_nodes t))) t from_node st)
                st ls = Ok st' ∧
              st.2 ⊆ st'.2 ∧ collected_in t Q st' ∧ explored_in t (∅ : gset string) st'.2 ∧
              ∀ l to_name, l ∈ ls → to_socket_name t l = Ok to_name →
                           to_name ∈ albedo_names → link_from_node l ∈ st'.2)
    as Hloop.
  { induction ls as [|l ls IH]; intros st Hls Hst Hexp.
    { exists st. split; [done|]. split; [done|]. split; [done|]. split; [done|].
      by intros l to_name ?%elem_of_nil. }
    rewrite fold_result_cons.
    assert (l ∈ tree_links t) as Hl by (apply Hls; by left).
    destruct (closed_to l Hl) as (to & Hto & Hsock).
    apply lookup_lt_is_Some_2 in Hsock as [sock Hsock].
    assert (to_socket_name t l = Ok (sock_name sock)) as Hname.
    { unfold to_socket_name, deref. rewrite Hto. cbn [mbind result_bind].
      by rewrite Hsock. }
    rewrite Hname. cbn [mbind result_bind].
    assert (∀ st1 : Collected,
              st.2 ⊆ st1.2 → collected_in t Q st1 → explored_in t (∅ : gset string) st1.2 →
              (sock_name sock ∈ albedo_names → link_from_node l ∈ st1.2) →
              ∃ st',
                fold_result
                  (fun st link =>
                     to_name ← to_socket_name t link;
                     if decide (to_name ∉ albedo_names) then Ok st else
                     from_node ← deref t (link_from_node link);
                     _collect_image_nodes (S (length (tree_nodes t))) t from_node st)
                  st1 ls = Ok st' ∧
                st.2 ⊆ st'.2 ∧ collected_in t Q st' ∧ explored_in t (∅ : gset string) st'.2 ∧
                ∀ l' to_name, l' ∈ l :: ls → to_socket_name t l' = Ok to_name →
                              to_name ∈ albedo_names → link_from_node l' ∈ st'.2)
      as Hrest.
    { intros st1 Hsub1 Hst1 Hexp1 Hstart.
      destruct (IH st1) as (st' & Hrun & Hsub' & Hst' & Hexp' & Hall');
        [by intros l' Hl'; apply Hls; right|done|done|].
      exists st'. split; [done|]. split; [by etrans|]. split; [done|].
      split; [done|].
      intros l' to_name [->|Hl']%elem_of_cons Hn Ha; [|by eapply Hall'].
      apply Hsub', Hstart. rewrite Hname in Hn. by injection Hn as ->. }
    destruct (decide (sock_name sock ∉ albedo_names)) as [Hno|Hyes].
    { by apply Hrest. }
    apply dec_stable in Hyes.
    destruct (closed_from l Hl) as [from Hfrom].
    unfold deref. rewrite Hfrom. cbn [mbind result_bind].
    pose proof (tree_node_name _ _ _ Hfrom) as Hfname.
    destruct (Hcollect from st) as (st1 & -> & Hst1 & Hsub1 & Hin1 & Hexp1).
    - by rewrite Hfname.
    - rewrite Hfname. exists l, (sock_name sock). by repeat split.
    - done.
    - assert (size (list_to_set (node_name <$> tree_nodes t) ∖ st.2 : gset string)
              ≤ size (list_to_set (node_name <$> tree_nodes t) : gset string)).
      { apply subseteq_size. by intros x [? _]%elem_of_difference. }
      pose proof (names_size t). lia.
    - apply Hrest; [done|done| |by rewrite <- Hfname].
      by apply (explored_trans t ∅ st.2 st1.2). }
  destruct (Hloop (tree_links t) ([], ∅)) as ([r v] & Hrun & _ & Hst & Hexp & Hstarts).
  - done.
  - simpl. split; [apply NoDup_nil_2|]. split; [done|].
    split; [by intros x ?%elem_of_nil|]. by intros x n ?%elem_of_empty.
  - by intros y ny l ?%elem_of_empty.
  - cbn [fst snd] in *. destruct Hst as (Hnd & Hsub & Hres & Himgs).
    exists r. unfold _find_albedo_image_nodes. rewrite Hrun.
    split; [done|]. split; [done|]. intros x. split.
    + intros Hx. destruct (Hres x Hx) as (_ & (l & to_name & ? & ? & ? & ?) & n & ? & ?).
      by exists n, l, to_name.
    + intros (n & l & to_name & Hn & Himg & Hl & Hname & Halb & Hreach).
      apply (Himgs x n); [|done|done].
      assert (∀ a b, rtc (walks t) a b → b ∈ v → a ∈ v) as Hback.
      { intros a b Hr.
        induction Hr as [a|a b c (l' & nb & Hl' & Hfrom' & Hto' & Hnb & Hnimg) _ IHr];
          [done|].
        intros Hc. rewrite <- Hfrom'.
        eapply (Hexp b nb l'); [by apply IHr|by intros ?%elem_of_empty|done..]. }
      apply (Hback x (link_from_node l)); [done|]. by eapply Hstarts.
Qed.

(** X26. On a tree whose links join sockets of its nodes,
    [_find_albedo_image_nodes] returns, also when the links form a cycle.
    It lists, each once, exactly the image texture nodes from which the
    walk reaches the source of a link into an input with an albedo name:
    a chain of links through nodes that are no image textures, whatever
    inputs the chain enters. *)
Theorem find_albedo_image_nodes_spec t :
  (∀ l, l ∈ tree_links t →
        is_Some (tree_node t (link_from_node l)) ∧
        ∃ node, tree_node t (link_to_node l) = Some node ∧
                link_to_socket l < length (node_inputs node)) →
  ∃ found,
    _find_albedo_image_nodes t = Ok found ∧ NoDup found ∧
    ∀ x, x ∈ found ↔
         ∃ node l to_name,
           tree_node t x = Some node ∧ node_idname node ∈ image_types ∧
           l ∈ tree_links t ∧ to_socket_name t l = Ok to_name ∧
           to_name ∈ albedo_names ∧ rtc (walks t) x (link_from_node l).
Proof. apply find_albedo_image_nodes_walk. Qed.

Lemma find_albedo_image_nodes_spec_witness :
  ∃ found,
    _find_albedo_image_nodes Fixtures.textured_octane_tree = Ok found ∧ NoDup found ∧
    ∀ x, x ∈ found ↔
         ∃ node l to_name,
           tree_node Fixtures.textured_octane_tree x = Some node ∧
           node_idname node ∈ image_types ∧
           l ∈ tree_links Fixtures.textured_octane_tree ∧
           to_socket_name Fixtures.textured_octane_tree l = Ok to_name ∧
           to_name ∈ albedo_names ∧
           rtc (walks Fixtures.textured_octane_tree) x (link_from_node l).
Proof.
  apply find_albedo_image_nodes_spec.
  intros l Hl. simpl in Hl.
  repeat (apply elem_of_cons in Hl as [->|Hl]);
    [(split; [eexists; reflexivity|eexists; split; [reflexivity|simpl; lia]])..|].
  by apply elem_of_nil in Hl.
Defined.

Lemma set_gamma_input_eq node names gamma_value :
  set_gamma_input node names gamma_value
  = PropertyMapper._set_input node names (VNum gamma_value).
Proof.
  induction names as [|name rest IH]; [done|]. simpl. rewrite IH. done.
Qed.

Lemma set_gamma_returns node gamma_value :
  ∃ gamma_set node', set_gamma node gamma_value = Ok (gamma_set, node').
Proof.
  unfold set_gamma. destruct (if decide _ then _ else _); [by eexists _, _|].
  rewrite set_gamma_input_eq.
  destruct (PropertyMapper._set_input _ _ _) as [[b n]|e] eqn:Hset; [by eexists _, _|].
  by apply set_input_Raise in Hset as [_ [l ?]].
Qed.

Lemma set_gamma_name node gamma_value gamma_set node' :
  set_gamma node gamma_value = Ok (gamma_set, node') → node_name node' = node_name node.
Proof.
  unfold set_gamma. destruct (if decide _ then _ else _) as [n|] eqn:Hdirect.
  - intros [= _ <-]. case_decide; [|done]. by eapply node_setattr_name.
  - rewrite set_gamma_input_eq. intros Hset.
    by apply set_input_cases in Hset as [(_ & ->)|(i & inp & inp' & _ & _ & _ & _ & _ & ->)].
Qed.

End FindAlbedo.


Section ApplyGamma.
Import Py Bpy ConversionEngine GammaSystem.

Lemma related_lookup (R : Node → Node → Prop) l l' ls ls' x node :
  (∀ a a', R a a' → node_name a' = node_name a) →
  Forall2 R l l' →
  tree_node (mkNodeTree l ls) x = Some node →
  ∃ node', tree_node (mkNodeTree l' ls') x = Some node' ∧ R node node'.
Proof.
  intros Hname. induction 1 as [|a a' l l' Ha Hl IH]; [done|].
  rewrite !tree_node_cons. rewrite (Hname _ _ Ha).
  destruct (decide (node_name a = x)); [|done].
  intros [= <-]. by exists a'.
Qed.

Lemma related_names (R : Node → Node → Prop) l l' :
  (∀ a a', R a a' → node_name a' = node_name a) →
  Forall2 R l l' → node_name <$> l' = node_name <$> l.
Proof.
  intros Hname. induction 1 as [|a a' l l' Ha Hl IH]; [done|].
  by rewrite !fmap_cons, IH, (Hname _ _ Ha).
Qed.

(** Storing a node in a tree related to [l] node by node. *)
Lemma related_store (R R' : Node → Node → Prop) l l' ls ls' node node' :
  (∀ a a', R a a' → node_name a' = node_name a) →
  (∀ a a', R a a' → R' a a') →
  NoDup (node_name <$> l) →
  Forall2 R l l' →
  tree_node (mkNodeTree l ls) (node_name node') = Some node →
  R' node node' →
  Forall2 R' l (tree_nodes (store_node (mkNodeTree l' ls') node')).
Proof.
  intros Hname Hmono Hnd HF. unfold store_node. simpl.
  induction HF as [|a a' l l' Ha Hl IH]; intros Hnode HR; [done|].
  rewrite fmap_cons in Hnd. apply NoDup_cons in Hnd as [Hfresh Hnd].
  rewrite tree_node_cons in Hnode. rewrite fmap_cons, (Hname _ _ Ha).
  destruct (decide (node_name a = node_name node')) as [Heq|Hne].
  - injection Hnode as ->. constructor; [done|].
    clear IH. induction Hl as [|b b' l l' Hb Hl IH]; [done|].
    rewrite fmap_cons in Hfresh, Hnd. apply not_elem_of_cons in Hfresh as [Hb' Hfresh].
    apply NoDup_cons in Hnd as [_ Hnd]. rewrite fmap_cons.
    constructor; [|by apply IH].
    rewrite (Hname _ _ Hb). rewrite decide_False by congruence. by apply Hmono.
  - constructor; [by apply Hmono|]. by apply IH.
Qed.

(** What the gamma pass may do to a node whose name is in [names]. *)
Local Abbreviation corrected gamma_value names node node' :=
  (node' = node ∨
   (node_name node ∈ names ∧ node_idname node ∈ image_types ∧
    is_non_color node = false ∧ set_gamma node gamma_value = Ok (true, node'))).

Lemma corrected_name gamma_value (names : list string) a a' :
  corrected gamma_value names a a' → node_name a' = node_name a.
Proof. intros [->|(_ & _ & _ & Hset)]; [done|]. by eapply set_gamma_name. Qed.

Lemma gamma_loop gamma_value t : ∀ todo processed count cur,
  NoDup (node_name <$> tree_nodes t) →
  NoDup (processed ++ todo) →
  (∀ x, x ∈ todo → ∃ n, tree_node t x = Some n ∧ node_idname n ∈ image_types) →
  tree_links cur = tree_links t →
  Forall2 (fun node node' => corrected gamma_value processed node node')
    (tree_nodes t) (tree_nodes cur) →
  ∃ count' t',
    fold_result (gamma_step gamma_value) (count, cur) todo = Ok (count', t') ∧
    tree_links t' = tree_links t ∧
    Forall2 (fun node node' => corrected gamma_value (processed ++ todo) node node')
      (tree_nodes t) (tree_nodes t') ∧
    count ≤ count' ≤ count + length todo.
Proof.
  induction todo as [|x todo IH]; intros processed count cur Hnd Hnames Himg Hlinks HF.
  { exists count, cur. rewrite app_nil_r. split; [done|]. split; [done|].
    split; [done|]. simpl. lia. }
  rewrite fold_result_cons.
  destruct (Himg x) as (n & Hn & Hi); [by left|].
  assert (x ∉ processed) as Hfresh.
  { apply NoDup_app in Hnames as (_ & Hdisj & _). intros Hx. apply (Hdisj x Hx). by left. }
  assert (NoDup ((processed ++ [x]) ++ todo)) as Hnames' by by rewrite <- app_assoc.
  assert (∀ y, y ∈ todo → ∃ n, tree_node t y = Some n ∧ node_idname n ∈ image_types)
    as Himg' by (intros y Hy; apply Himg; by right).
  assert (∀ a a', corrected gamma_value processed a a' →
                  corrected gamma_value (processed ++ [x]) a a') as Hmono.
  { intros a a' [->|(Hin & ?)]; [by left|right]. split; [|done].
    apply elem_of_app. by left. }
  destruct t as [l ls], cur as [l' ls']. simpl in Hlinks, HF, Hnd.
  destruct (related_lookup _ l l' ls ls' x n (corrected_name gamma_value processed) HF Hn)
    as (n' & Hn' & [->|(Hin & _)]); [|by rewrite (tree_node_name _ _ _ Hn) in Hin].
  assert (Forall2 (fun node node' => corrected gamma_value (processed ++ [x]) node node')
            l l') as HF' by (eapply Forall2_impl; [exact HF|exact Hmono]).
  assert (∃ count1 cur1,
            gamma_step gamma_value (count, mkNodeTree l' ls') x = Ok (count1, cur1) ∧
            tree_links cur1 = ls ∧
            Forall2 (fun node node' => corrected gamma_value (processed ++ [x]) node node')
              l (tree_nodes cur1) ∧
            count ≤ count1 ≤ S count) as (count1 & cur1 & Hstep & Hl1 & HF1 & Hc1).
  { unfold gamma_step, deref. rewrite Hn'. cbn [mbind result_bind].
    destruct (is_non_color n) eqn:Hnc.
    { exists count, (mkNodeTree l' ls'). repeat split; try done; lia. }
    destruct (set_gamma_returns n gamma_value) as (gamma_set & node' & Hset).
    rewrite Hset. cbn [mbind result_bind].
    destruct gamma_set; [|exists count, (mkNodeTree l' ls'); repeat split; try done; lia].
    exists (S count), (store_node (mkNodeTree l' ls') node').
    split; [done|]. split; [done|]. split; [|lia].
    apply (related_store (fun node node' => corrected gamma_value processed node node')
             (fun node node' => corrected gamma_value (processed ++ [x]) node node')
             l l' ls ls' n node'); try done.
    - apply corrected_name.
    - rewrite (set_gamma_name _ _ _ _ Hset). by rewrite (tree_node_name _ _ _ Hn).
    - right. rewrite (tree_node_name _ _ _ Hn). split; [|done].
      apply elem_of_app. right. by left. }
  rewrite Hstep. cbn [mbind result_bind].
  destruct (IH (processed ++ [x]) count1 cur1)
    as (count' & t' & Hrun & ? & ? & ?); [done..|].
  exists count', t'. rewrite (cons_middle x processed todo), app_assoc.
  split; [exact Hrun|]. split; [done|]. split; [done|]. simpl. lia.
Qed.

(** X27. On a tree with distinct node names whose links join sockets of
    its nodes, [apply_gamma] returns for every gamma value. It keeps the
    links; a node is unchanged unless it is one of the image textures
    found, its image is not in the Non-Color, Linear or Raw colour space,
    and setting gamma on it succeeded; the count returned is at most the
    number of textures found. *)
Theorem apply_gamma_to_tree_spec gamma_value t :
  NoDup (node_name <$> tree_nodes t) →
  (∀ l, l ∈ tree_links t →
        is_Some (tree_node t (link_from_node l)) ∧
        ∃ node, tree_node t (link_to_node l) = Some node ∧
                link_to_socket l < length (node_inputs node)) →
  ∃ found count t',
    _find_albedo_image_nodes t = Ok found ∧
    apply_gamma_to_tree gamma_value t = Ok (count, t') ∧
    tree_links t' = tree_links t ∧
    Forall2 (fun node node' => corrected gamma_value found node node')
      (tree_nodes t) (tree_nodes t') ∧
    count ≤ length found.
Proof.
  intros Hnd Hclosed.
  destruct (find_albedo_image_nodes_walk t Hclosed) as (found & Hfind & Hndf & Hfound).
  destruct (gamma_loop gamma_value t found [] 0 t) as (count & t' & Hrun & Hl & HF & Hc).
  - done.
  - done.
  - intros x Hx. apply Hfound in Hx as (n & _ & _ & Hn & Hi & _). by exists n.
  - done.
  - clear. induction (tree_nodes t); constructor; [by left|done].
  - exists found, count, t'. split; [done|]. unfold apply_gamma_to_tree.
    rewrite Hfind. cbn [mbind result_bind]. split; [exact Hrun|].
    split; [done|]. split; [done|]. simpl in Hc. lia.
Qed.

Lemma apply_gamma_to_tree_spec_witness :
  ∃ found count t',
    _find_albedo_image_nodes Fixtures.textured_octane_tree = Ok found ∧
    apply_gamma_to_tree 2.2 Fixtures.textured_octane_tree = Ok (count, t') ∧
    tree_links t' = tree_links Fixtures.textured_octane_tree ∧
    Forall2 (fun node node' => corrected 2.2%Q found node node')
      (tree_nodes Fixtures.textured_octane_tree) (tree_nodes t') ∧
    count ≤ length found.
Proof.
  apply apply_gamma_to_tree_spec.
  - apply (bool_decide_unpack _). vm_compute. exact I.
  - intros l Hl. simpl in Hl.
    repeat (apply elem_of_cons in Hl as [->|Hl]);
      [(split; [eexists; reflexivity|eexists; split; [reflexivity|simpl; lia]])..|].
    by apply elem_of_nil in Hl.
Defined.

End ApplyGamma.
(* ===================================================================== *)
(** * Node creation *)
(* ===================================================================== *)

(** What [create_nodes] may do to a node that is in the tree already:
    only an output node changes, and it keeps its name and type. *)
Local Abbreviation kept :=
  (fun n n' : Bpy.Node =>
     Bpy.node_name n' = Bpy.node_name n ∧ Bpy.node_idname n' = Bpy.node_idname n ∧
     (Bpy.node_idname n ≠ "ShaderNodeOutputMaterial" → n' = n)).

(** The tree [tree'] is [tree] with its links, its nodes kept, and further
    nodes after them. *)
Local Abbreviation grows tree tree' :=
  (Bpy.tree_links tree' = Bpy.tree_links tree ∧
   ∃ l' added, Bpy.tree_nodes tree' = l' ++ added ∧
               Forall2 kept (Bpy.tree_nodes tree) l').

(** The node [node], referred to by [v], is what is planned for [info]:
    an output node, or a fresh node of the planned type with the planned
    label and the location of the Cycles node. *)
Local Abbreviation made_as_by node_types info made idname v node :=
  (match made with
   | NodeCreation.Reused => Bpy.node_idname node = "ShaderNodeOutputMaterial"
   | _ =>
       ∃ fresh, node_types idname%string = Some fresh ∧
                node = Bpy.mkNode v idname (NodeCreation.planned_label info made fresh)
                         (ShaderDetection.location info)
                         (Bpy.node_inputs fresh) (Bpy.node_outputs fresh)
                         (Bpy.node_props fresh) (Bpy.node_image fresh)
                         (Bpy.node_color_ramp fresh)
   end).

(** The target tree has an output node, or the host can make one. *)
Local Abbreviation output_available_by node_types tree :=
  (is_Some (node_types "ShaderNodeOutputMaterial") ∨
   ∃ n, n ∈ Bpy.tree_nodes tree ∧ Bpy.node_idname n = "ShaderNodeOutputMaterial").

Section TreeGrowth.
Import Py Bpy ShaderDetection ConversionEngine NodeCreation.

Lemma kept_refl n : kept n n.
Proof. done. Qed.

Lemma kept_all_refl (l : list Node) : Forall2 kept l l.
Proof. induction l; constructor; done. Qed.

Lemma kept_trans n1 n2 n3 : kept n1 n2 → kept n2 n3 → kept n1 n3.
Proof.
  intros (N1 & I1 & U1) (N2 & I2 & U2).
  split; [by rewrite N2|]. split; [by rewrite I2|].
  intros Hne. pose proof (U1 Hne) as ->. by apply U2.
Qed.

Lemma grows_refl tree : grows tree tree.
Proof.
  split; [done|]. exists (tree_nodes tree), []. rewrite app_nil_r.
  split; [done|apply kept_all_refl].
Qed.

Lemma grows_trans t1 t2 t3 : grows t1 t2 → grows t2 t3 → grows t1 t3.
Proof.
  intros (L1 & l2 & a2 & N2 & F2) (L2 & l3 & a3 & N3 & F3).
  split; [congruence|]. rewrite N2 in F3.
  apply Forall2_app_inv_l in F3 as (l3a & l3b & F3a & F3b & ->).
  exists l3a, (l3b ++ a3). rewrite N3, app_assoc. split; [done|].
  clear -F2 F3a. revert l3a F3a.
  induction F2 as [|a b l1 l2 Hab F2 IH]; intros l3a F3a.
  - by inversion F3a.
  - inversion F3a as [|b' c l2' l3' Hbc F3']; subst.
    constructor; [by eapply kept_trans|by apply IH].
Qed.

Lemma tree_node_app l added ls x :
  tree_node (mkNodeTree (l ++ added) ls) x
  = match tree_node (mkNodeTree l ls) x with
    | Some n => Some n
    | None => tree_node (mkNodeTree added ls) x
    end.
Proof.
  induction l as [|a l IH]; [done|].
  rewrite <- app_comm_cons, !tree_node_cons. by case_decide.
Qed.

Lemma grows_lookup tree tree' x n :
  grows tree tree' → tree_node tree x = Some n →
  ∃ n', tree_node tree' x = Some n' ∧ kept n n'.
Proof.
  destruct tree as [l ls], tree' as [l2 ls2]. simpl.
  intros (_ & l' & added & -> & HF) Hn.
  rewrite tree_node_app.
  destruct (related_lookup kept l l' ls ls2 x n) as (n' & -> & Hk);
    [by intros a a' (? & _)|done|done|].
  by exists n'.
Qed.

Lemma grows_names tree tree' :
  grows tree tree' →
  ∃ added, node_name <$> tree_nodes tree' = (node_name <$> tree_nodes tree) ++ added.
Proof.
  intros (_ & l' & added & -> & HF). exists (node_name <$> added).
  rewrite fmap_app. f_equal.
  apply (related_names kept); [by intros a a' (? & _)|done].
Qed.

Lemma tree_node_NoDup tree n :
  NoDup (node_name <$> tree_nodes tree) → n ∈ tree_nodes tree →
  tree_node tree (node_name n) = Some n.
Proof.
  destruct tree as [l ls]. simpl. induction l as [|a l IH]; intros Hnd Hn.
  { by apply elem_of_nil in Hn. }
  rewrite fmap_cons in Hnd. apply NoDup_cons in Hnd as [Ha Hnd].
  rewrite tree_node_cons. apply elem_of_cons in Hn as [->|Hn].
  - by rewrite decide_True.
  - rewrite decide_False; [by apply IH|].
    intros Heq. apply Ha. rewrite Heq. apply list_elem_of_fmap. by exists n.
Qed.

Lemma update_node_names tree name f :
  (∀ n, node_name (f n) = node_name n) →
  node_name <$> tree_nodes (update_node tree name f) = node_name <$> tree_nodes tree.
Proof.
  intros Hf. unfold update_node. simpl. rewrite <- list_fmap_compose.
  apply list_fmap_ext. intros i n _. simpl. by case_decide.
Qed.

(** An assignment to the node just made. *)
Lemma update_node_new l new ls f :
  node_name new ∉ node_name <$> l →
  update_node (mkNodeTree (l ++ [new]) ls) (node_name new) f
  = mkNodeTree (l ++ [f new]) ls.
Proof.
  intros Hfresh. unfold update_node. simpl. f_equal.
  rewrite fmap_app. simpl. rewrite decide_True by done. f_equal.
  induction l as [|a l IH]; [done|].
  rewrite fmap_cons in Hfresh. apply not_elem_of_cons in Hfresh as [Hne Hfresh].
  rewrite fmap_cons, IH by done. by rewrite decide_False.
Qed.

(** An assignment to an output node of the tree. *)
Lemma update_node_output tree x n f :
  NoDup (node_name <$> tree_nodes tree) →
  tree_node tree x = Some n →
  node_idname n = "ShaderNodeOutputMaterial" →
  (∀ m, node_name (f m) = node_name m ∧ node_idname (f m) = node_idname m) →
  grows tree (update_node tree x f).
Proof.
  intros Hnd Hn Hout Hf. split; [done|].
  exists (tree_nodes (update_node tree x f)), []. rewrite app_nil_r. split; [done|].
  unfold update_node. simpl.
  assert (∀ m, m ∈ tree_nodes tree → node_name m = x → m = n) as Honly.
  { intros m Hm Hname. pose proof (tree_node_NoDup tree m Hnd Hm) as Hlook.
    rewrite Hname, Hn in Hlook. by injection Hlook. }
  revert Honly. clear -Hf Hout. induction (tree_nodes tree) as [|a l IH]; intros Honly; [done|].
  rewrite fmap_cons. constructor.
  - case_decide as Ha; [|apply kept_refl]. destruct (Hf a) as [? ?].
    split; [done|]. split; [done|]. intros Hne. exfalso. apply Hne.
    rewrite (Honly a); [done|by left|done].
  - apply IH. intros m Hm. apply Honly. by right.
Qed.

End TreeGrowth.

Section Creation.
Import Py Bpy ShaderDetection ConversionEngine NodeCreation.
Variable node_types : string → option Node.
Variable unique_name : list string → string → string.
Hypothesis unique_name_fresh : ∀ taken base, unique_name taken base ∉ taken.

Local Abbreviation nodes_new' := (nodes_new node_types unique_name).
Local Abbreviation create_first' := (create_first node_types unique_name).
Local Abbreviation create_octane_node' := (create_octane_node node_types unique_name).
Local Abbreviation create_fallback' := (create_fallback node_types unique_name).
Local Abbreviation place_output' := (place_output node_types unique_name).
Local Abbreviation create_step' := (create_step node_types unique_name).
Local Abbreviation create_nodes' := (create_nodes node_types unique_name).
Local Abbreviation first_known' := (first_known node_types).
Local Abbreviation planned' := (planned node_types).

(** The node made of the fresh node [fresh] of type [idname]. *)
Local Abbreviation fresh_node name idname fresh :=
  (mkNode name idname (node_label fresh) (node_location fresh)
     (node_inputs fresh) (node_outputs fresh) (node_props fresh)
     (node_image fresh) (node_color_ramp fresh)).

Local Abbreviation made_as info made idname v node :=
  (made_as_by node_types info made idname v node).

Lemma first_known_cons c cs :
  first_known' (c :: cs)
  = if decide (is_Some (node_types c)) then Some c else first_known' cs.
Proof.
  unfold first_known. simpl. case_decide; [done|].
  by destruct (list_find _ cs) as [[i x]|].
Qed.

Lemma first_known_Some cs idname :
  first_known' cs = Some idname → is_Some (node_types idname).
Proof.
  unfold first_known. destruct (list_find _ cs) as [[i x]|] eqn:Hfind; [|done].
  intros [= <-]. by apply list_find_Some in Hfind as (_ & ? & _).
Qed.

Lemma nodes_new_known tree idname fresh :
  node_types idname = Some fresh →
  nodes_new' tree idname
  = Ok (unique_name (node_name <$> tree_nodes tree) (node_name fresh),
        mkNodeTree
          (tree_nodes tree ++
           [fresh_node (unique_name (node_name <$> tree_nodes tree) (node_name fresh))
              idname fresh])
          (tree_links tree)).
Proof. unfold nodes_new. by intros ->. Qed.

Lemma nodes_new_unknown tree idname :
  node_types idname = None → nodes_new' tree idname = Raise RuntimeError.
Proof. unfold nodes_new. by intros ->. Qed.

Lemma create_first_spec tree cs lab :
  create_first' tree cs lab
  = Ok match first_known' cs with
       | Some idname =>
           match nodes_new' tree idname with
           | Ok (name, tree') => (Some name, update_node tree' name lab)
           | Raise _ => (None, tree)
           end
       | None => (None, tree)
       end.
Proof.
  induction cs as [|c cs IH]; [done|].
  rewrite first_known_cons. simpl.
  destruct (node_types c) as [fresh|] eqn:Hc.
  - rewrite decide_True by done. by rewrite (nodes_new_known _ _ _ Hc).
  - rewrite decide_False by (by intros [? [=]]).
    by rewrite (nodes_new_unknown _ _ Hc).
Qed.

(** A node made, labelled and placed. *)
Lemma created_node tree idname fresh lab loc :
  node_types idname = Some fresh →
  NoDup (node_name <$> tree_nodes tree) →
  (∀ n, node_name (lab n) = node_name n) →
  ∃ name tree1,
    nodes_new' tree idname = Ok (name, tree1) ∧
    (name ∉ node_name <$> tree_nodes tree) ∧
    update_node (update_node tree1 name lab) name (fun n => with_location n loc)
    = mkNodeTree
        (tree_nodes tree ++ [with_location (lab (fresh_node name idname fresh)) loc])
        (tree_links tree).
Proof.
  intros Hfresh Hnd Hlab. eexists _, _. split; [by apply nodes_new_known|].
  split; [apply unique_name_fresh|].
  set (name := unique_name _ _).
  pose proof (update_node_new (tree_nodes tree) (fresh_node name idname fresh)
                (tree_links tree) lab (unique_name_fresh _ _)) as Hupd.
  simpl in Hupd. rewrite Hupd.
  pose proof (update_node_new (tree_nodes tree) (lab (fresh_node name idname fresh))
                (tree_links tree) (fun n => with_location n loc)) as Hupd2.
  rewrite Hlab in Hupd2. simpl in Hupd2. apply Hupd2. apply unique_name_fresh.
Qed.

Lemma added_node tree new :
  NoDup (node_name <$> tree_nodes tree) →
  node_name new ∉ node_name <$> tree_nodes tree →
  grows tree (mkNodeTree (tree_nodes tree ++ [new]) (tree_links tree)) ∧
  NoDup (node_name <$> tree_nodes tree ++ [new]) ∧
  tree_node (mkNodeTree (tree_nodes tree ++ [new]) (tree_links tree)) (node_name new)
  = Some new.
Proof.
  destruct tree as [l ls]. simpl. intros Hnd Hfresh. split; [|split].
  - split; [done|]. exists l, [new]. split; [done|apply kept_all_refl].
  - rewrite fmap_app. apply NoDup_app. split; [done|]. split; [|apply NoDup_singleton].
    intros x Hx ->%list_elem_of_singleton. done.
  - rewrite tree_node_app.
    destruct (tree_node (mkNodeTree l ls) (node_name new)) eqn:Hold.
    + exfalso. apply Hfresh. apply (tree_node_is_Some (mkNodeTree l ls)). by eexists.
    + rewrite tree_node_cons. by rewrite decide_True.
Qed.

(** A node made, labelled and placed is what was planned. *)
Lemma made_and_placed tree idname fresh lab info node_map k made :
  node_types idname = Some fresh →
  NoDup (node_name <$> tree_nodes tree) →
  (∀ n, node_name (lab n) = node_name n) →
  (∀ name, with_location (lab (fresh_node name idname fresh)) (location info)
           = mkNode name idname (planned_label info made fresh) (location info)
               (node_inputs fresh) (node_outputs fresh) (node_props fresh)
               (node_image fresh) (node_color_ramp fresh)) →
  made ≠ Reused →
  ∃ name tree1,
    nodes_new' tree idname = Ok (name, tree1) ∧
    let st' := place node_map (update_node tree1 name lab) k info name in
    grows tree st'.2 ∧ NoDup (node_name <$> tree_nodes st'.2) ∧
    ∃ v node, st'.1 = dict_set k v node_map ∧ tree_node st'.2 v = Some node ∧
              made_as info made idname v node.
Proof.
  intros Hfresh Hnd Hlab Hnode Hmade.
  destruct (created_node tree idname fresh lab (location info) Hfresh Hnd Hlab)
    as (name & tree1 & Hnew & Hname & Htree).
  exists name, tree1. split; [done|]. unfold place. cbn [fst snd]. rewrite Htree, Hnode.
  set (node := mkNode name idname _ _ _ _ _ _ _).
  destruct (added_node tree node Hnd Hname) as (Hgrows & Hnd' & Hlook).
  split; [done|]. split; [done|]. exists name, node. split; [done|]. split; [done|].
  destruct made; [done|by exists fresh..].
Qed.

Lemma setattr_keeps node attr value :
  node_name (default node (node_setattr node attr value)) = node_name node ∧
  node_idname (default node (node_setattr node attr value)) = node_idname node.
Proof.
  unfold node_setattr. destruct (dict_get attr (node_props node)); [|done].
  by case_match.
Qed.

Lemma place_output_spec tree node_map k info node_map' tree' :
  NoDup (node_name <$> tree_nodes tree) →
  place_output' node_map tree k info = Ok (node_map', tree') →
  grows tree tree' ∧ NoDup (node_name <$> tree_nodes tree') ∧
  ∃ v node, node_map' = dict_set k v node_map ∧ tree_node tree' v = Some node ∧
            node_idname node = "ShaderNodeOutputMaterial".
Proof.
  intros Hnd. unfold place_output.
  destruct (list_find _ (tree_nodes tree)) as [[i n]|] eqn:Hfind.
  - cbn [mbind result_bind]. unfold place. intros [= <- <-].
    apply list_find_Some in Hfind as (Hi & Hout & _).
    apply list_elem_of_lookup_2 in Hi.
    pose proof (tree_node_NoDup tree n Hnd Hi) as Hn.
    set (t1 := update_node tree (node_name n) _).
    assert (grows tree t1) as G1.
    { apply (update_node_output tree (node_name n) n); try done.
      intros m. apply setattr_keeps. }
    assert (node_name <$> tree_nodes t1 = node_name <$> tree_nodes tree) as N1.
    { apply update_node_names. intros m. apply setattr_keeps. }
    destruct (grows_lookup tree t1 (node_name n) n G1 Hn) as (n1 & Hn1 & _ & Hid1 & _).
    set (t2 := update_node t1 (node_name n) _).
    assert (grows t1 t2) as G2.
    { apply (update_node_output t1 (node_name n) n1); try done; congruence. }
    assert (node_name <$> tree_nodes t2 = node_name <$> tree_nodes t1) as N2
      by by apply update_node_names.
    destruct (grows_lookup t1 t2 (node_name n) n1 G2 Hn1) as (n2 & Hn2 & _ & Hid2 & _).
    split; [by eapply grows_trans|]. split; [congruence|].
    exists (node_name n), n2. split; [done|]. split; [done|]. congruence.
  - destruct (node_types "ShaderNodeOutputMaterial") as [fresh|] eqn:Hfresh.
    2:{ by rewrite (nodes_new_unknown _ _ Hfresh). }
    destruct (created_node tree "ShaderNodeOutputMaterial" fresh
                (fun n => default n (node_setattr n "target" (VStr "octane")))
                (location info) Hfresh Hnd) as (name & tree1 & Hnew & Hname & Htree).
    { intros m. apply setattr_keeps. }
    rewrite Hnew. cbn [mbind result_bind]. unfold place. rewrite Htree.
    intros [= <- <-].
    set (node := with_location _ _).
    assert (node_name node = name) as Hnn by apply setattr_keeps.
    rewrite <- Hnn in Hname.
    destruct (added_node tree node Hnd Hname) as (Hgrows & Hnd' & Hlook).
    split; [done|]. split; [done|]. exists name, node. split; [done|].
    split; [by rewrite <- Hnn|]. apply setattr_keeps.
Qed.

Lemma create_step_spec analysis node_map tree k node_map' tree' :
  NoDup (node_name <$> tree_nodes tree) →
  create_step' analysis (node_map, tree) k = Ok (node_map', tree') →
  grows tree tree' ∧ NoDup (node_name <$> tree_nodes tree') ∧
  match dict_get k (nodes analysis) with
  | Some info =>
      match planned' info with
      | Some (made, idname) =>
          ∃ v node, node_map' = dict_set k v node_map ∧
                    tree_node tree' v = Some node ∧ made_as info made idname v node
      | None => node_map' = node_map ∧ tree' = tree
      end
  | None => node_map' = node_map ∧ tree' = tree
  end.
Proof.
  intros Hnd. unfold create_step.
  destruct (dict_get k (nodes analysis)) as [info|];
    [|intros [= <- <-]; split; [apply grows_refl|done]].
  unfold planned.
  destruct (decide (bl_idname info ∈ SKIP_TYPES));
    [intros [= <- <-]; split; [apply grows_refl|done]|].
  destruct (decide (bl_idname info ∈ PASSTHROUGH_TYPES)).
  { destruct (decide (bl_idname info = "ShaderNodeOutputMaterial"));
      [|intros [= <- <-]; split; [apply grows_refl|done]].
    intros (G & N & v & node & ? & ? & ?)%place_output_spec; [|done].
    split; [done|]. split; [done|]. by exists v, node. }
  assert (∀ st : NodeMap * NodeTree,
            match first_known' (default [] (dict_get (bl_idname info) NODE_TYPE_MAP)) with
            | Some idname =>
                ∃ name tree1,
                  create_octane_node' tree (bl_idname info) (label info)
                  = Ok (Some name, tree1) ∧
                  let st' := place node_map tree1 k info name in
                  grows tree st'.2 ∧ NoDup (node_name <$> tree_nodes st'.2) ∧
                  ∃ v node, st'.1 = dict_set k v node_map ∧
                            tree_node st'.2 v = Some node ∧
                            made_as info Standard idname v node
            | None =>
                create_octane_node' tree (bl_idname info) (label info) = Ok (None, tree)
            end) as Hstandard.
  { intros _. unfold create_octane_node. rewrite create_first_spec.
    destruct (first_known' _) as [idname|] eqn:Hknown; [|done].
    destruct (first_known_Some _ _ Hknown) as [fresh Hfresh].
    destruct (made_and_placed tree idname fresh
                (fun new_node => if decide (label info ≠ "")
                                 then with_label new_node (label info) else new_node)
                info node_map k Standard Hfresh Hnd)
      as (name & tree1 & Hnew & Hplaced); [| |done|].
    - intros m. by case_decide.
    - intros name. simpl. by case_decide.
    - rewrite Hnew. eexists name, _. split; [done|]. exact Hplaced. }
  specialize (Hstandard (node_map, tree)).
  destruct (if decide (bl_idname info ∈ ["ShaderNodeMixRGB"; "ShaderNodeMix"])
            then _ else _) as [[candidates|]|e]; [| |done]; cbn [mbind result_bind].
  - rewrite create_first_spec.
    destruct (first_known' candidates) as [idname|] eqn:Hknown.
    + destruct (first_known_Some _ _ Hknown) as [fresh Hfresh].
      destruct (made_and_placed tree idname fresh
                  (fun n => with_label n (label info))
                  info node_map k Special Hfresh Hnd)
        as (name & tree1 & Hnew & G & N & v & node & Hmap & Hlook & Hmade); try done.
      rewrite Hnew. cbn [mbind result_bind]. intros [= <- <-].
      split; [done|]. split; [done|]. by exists v, node.
    + cbn [mbind result_bind].
      destruct (first_known' _) as [idname|].
      * destruct Hstandard as (name & tree1 & -> & G & N & v & node & Hmap & Hlook & Hmade).
        cbn [mbind result_bind fmap option_fmap option_map]. intros [= <- <-].
        split; [done|]. split; [done|]. by exists v, node.
      * rewrite Hstandard. cbn [mbind result_bind fmap option_fmap option_map].
        intros [= <- <-]. split; [apply grows_refl|done].
  - destruct (first_known' _) as [idname|].
    + destruct Hstandard as (name & tree1 & -> & G & N & v & node & Hmap & Hlook & Hmade).
      cbn [mbind result_bind]. intros [= <- <-].
      split; [done|]. split; [done|]. by exists v, node.
    + rewrite Hstandard. cbn [mbind result_bind]. unfold create_fallback.
      rewrite !first_known_cons.
      destruct (node_types "ShaderNodeOctRGBColorTex") as [fresh|] eqn:Hfirst.
      * rewrite decide_True by done.
        destruct (made_and_placed tree "ShaderNodeOctRGBColorTex" fresh
                    (fun n => with_label n ("[UNSUPPORTED] " ++ label info))
                    info node_map k Fallback Hfirst Hnd)
          as (name & tree1 & Hnew & G & N & v & node & Hmap & Hlook & Hmade); try done.
        rewrite Hnew. intros [= <- <-].
        split; [done|]. split; [done|]. by exists v, node.
      * rewrite decide_False by (by intros [? [=]]).
        rewrite (nodes_new_unknown _ _ Hfirst).
        destruct (node_types "OctaneRGBColor") as [fresh|] eqn:Hsecond.
        -- rewrite decide_True by done.
           destruct (made_and_placed tree "OctaneRGBColor" fresh
                       (fun n => with_label n ("[UNSUPPORTED] " ++ label info))
                       info node_map k Fallback Hsecond Hnd)
             as (name & tree1 & Hnew & G & N & v & node & Hmap & Hlook & Hmade); try done.
           rewrite Hnew. intros [= <- <-].
           split; [done|]. split; [done|]. by exists v, node.
        -- rewrite decide_False by (by intros [? [=]]).
           rewrite (nodes_new_unknown _ _ Hsecond).
           intros [= <- <-]. split; [apply grows_refl|done].
Qed.

Lemma first_known_elem cs idname : first_known' cs = Some idname → idname ∈ cs.
Proof.
  unfold first_known. destruct (list_find _ cs) as [[i x]|] eqn:Hfind; [|done].
  intros [= <-]. apply list_find_Some in Hfind as (Hi & _).
  by eapply list_elem_of_lookup_2.
Qed.

Lemma dict_get_elem {V} (k : string) (v : V) (d : dict V) :
  dict_get k d = Some v → (k, v) ∈ d.
Proof.
  induction d as [|[k' v'] d IH]; [done|]. simpl.
  case_decide as Hk; [intros [= ->]; subst; by left|]. intros ?%IH. by right.
Qed.

(** No table names the output node as a candidate. *)
Lemma standard_not_output bl_id :
  "ShaderNodeOutputMaterial" ∉ default [] (dict_get bl_id NODE_TYPE_MAP).
Proof.
  destruct (dict_get bl_id NODE_TYPE_MAP) as [cs|] eqn:Hget; [|by intros ?%elem_of_nil].
  apply dict_get_elem in Hget. simpl.
  assert (Forall (fun kv : string * list string => "ShaderNodeOutputMaterial" ∉ kv.2)
            NODE_TYPE_MAP) as Hall.
  { apply (bool_decide_unpack _). vm_compute. exact I. }
  rewrite Forall_forall in Hall. by apply (Hall (bl_id, cs)).
Qed.

Lemma blend_not_output bt cs :
  blend_candidates bt = Ok (Some cs) → "ShaderNodeOutputMaterial" ∉ cs.
Proof.
  destruct bt as [| |s| | | |]; try done. unfold blend_candidates.
  destruct (dict_get s BLEND_TYPE_MAP) as [cs'|] eqn:Hget; [|done]. intros [= <-].
  apply dict_get_elem in Hget.
  assert (Forall (fun kv : string * list string => "ShaderNodeOutputMaterial" ∉ kv.2)
            BLEND_TYPE_MAP) as Hall.
  { apply (bool_decide_unpack _). vm_compute. exact I. }
  rewrite Forall_forall in Hall. by apply (Hall (s, cs')).
Qed.

Lemma planned_not_output info made idname :
  planned' info = Some (made, idname) → made ≠ Reused →
  idname ≠ "ShaderNodeOutputMaterial".
Proof.
  unfold planned.
  destruct (decide (bl_idname info ∈ SKIP_TYPES)); [done|].
  destruct (decide (bl_idname info ∈ PASSTHROUGH_TYPES)).
  { case_decide; [|done]. by intros [= <- <-]. }
  pose proof (standard_not_output (bl_idname info)) as Hstd.
  destruct (if decide (bl_idname info ∈ ["ShaderNodeMixRGB"; "ShaderNodeMix"])
            then _ else _) as [[candidates|]|e] eqn:Hspecial; [| |done].
  - assert ("ShaderNodeOutputMaterial" ∉ candidates) as Hcs.
    { case_decide; [by eapply blend_not_output|done]. }
    destruct (first_known' candidates) as [c|] eqn:Hc.
    + intros [= <- <-] _ ->. by apply first_known_elem in Hc.
    + destruct (first_known' (default [] _)) as [c|] eqn:Hs; [|done].
      intros [= <- <-] _ ->. by apply first_known_elem in Hs.
  - destruct (first_known' (default [] _)) as [c|] eqn:Hs.
    + intros [= <- <-] _ ->. by apply first_known_elem in Hs.
    + destruct (first_known' [_; _]) as [c|] eqn:Hf; [|done].
      intros [= <- <-] _ ->. apply first_known_elem in Hf.
      by repeat (apply elem_of_cons in Hf as [Hf|Hf]; [done|]); apply elem_of_nil in Hf.
Qed.

(** The entries of the map are what is planned for the nodes among [done]
    of the analysis. *)
Local Abbreviation mapped analysis processed node_map tree :=
  (∀ k,
     match dict_get k node_map with
     | Some v =>
         k ∈ processed ∧
         ∃ info made idname node,
           dict_get k (nodes analysis) = Some info ∧
           planned' info = Some (made, idname) ∧
           tree_node tree v = Some node ∧ made_as info made idname v node
     | None =>
         k ∈ processed → ∀ info, dict_get k (nodes analysis) = Some info →
                                 planned' info = None
     end).

Lemma made_as_kept info made idname v node node' :
  planned' info = Some (made, idname) →
  made_as info made idname v node → kept node node' →
  made_as info made idname v node'.
Proof.
  intros Hplan Hmade (Hname & Hid & Hsame).
  destruct made; [congruence|..];
    (destruct Hmade as (fresh & Hfresh & ->); exists fresh; split; [done|];
     apply Hsame; simpl; by eapply planned_not_output).
Qed.

Lemma create_loop analysis : ∀ todo processed node_map tree node_map' tree',
  NoDup (processed ++ todo) →
  NoDup (node_name <$> tree_nodes tree) →
  fold_result (create_step' analysis) (node_map, tree) todo = Ok (node_map', tree') →
  mapped analysis processed node_map tree →
  grows tree tree' ∧ NoDup (node_name <$> tree_nodes tree') ∧
  mapped analysis (processed ++ todo) node_map' tree'.
Proof.
  induction todo as [|k todo IH];
    intros processed node_map tree node_map' tree' Hsched Hnd Hrun Hmapped.
  { injection Hrun as <- <-. rewrite app_nil_r. split; [apply grows_refl|done]. }
  rewrite fold_result_cons in Hrun.
  apply bind_Ok in Hrun as ([node_map1 tree1] & Hstep & Hrun).
  apply create_step_spec in Hstep as (G1 & N1 & Hk); [|done].
  rewrite (cons_middle k processed todo), app_assoc in Hsched |- *.
  assert (k ∉ processed) as Hfresh.
  { apply NoDup_app in Hsched as (Hsched & _). apply NoDup_app in Hsched as (_ & Hd & _).
    intros Hin. apply (Hd k Hin). by left. }
  destruct (IH (processed ++ [k]) node_map1 tree1 node_map' tree' Hsched N1 Hrun)
    as (G2 & N2 & Hmapped'); [|split; [by eapply grows_trans|done]].
  intros k'. destruct (decide (k' = k)) as [->|Hne].
  - specialize (Hmapped k).
    destruct (dict_get k (nodes analysis)) as [info|] eqn:Hinfo.
    + destruct (planned' info) as [[made idname]|] eqn:Hplan.
      * destruct Hk as (v & node & -> & Hlook & Hmade). rewrite dict_get_set_eq.
        split; [apply elem_of_app; right; by left|]. by exists info, made, idname, node.
      * destruct Hk as [-> ->]. destruct (dict_get k node_map); [by destruct Hmapped|].
        intros _ info' [= <-]. done.
    + destruct Hk as [-> ->]. destruct (dict_get k node_map); [by destruct Hmapped|].
      done.
  - assert (dict_get k' node_map1 = dict_get k' node_map) as ->.
    { destruct (dict_get k (nodes analysis)) as [info|]; [|by destruct Hk as [-> _]].
      destruct (planned' info) as [[made idname]|]; [|by destruct Hk as [-> _]].
      destruct Hk as (v & node & -> & _). by apply dict_get_set_ne. }
    specialize (Hmapped k'). destruct (dict_get k' node_map) as [v|].
    + destruct Hmapped as (Hin & info & made & idname & node & ? & Hplan & Hlook & Hmade).
      split; [apply elem_of_app; by left|].
      destruct (grows_lookup tree tree1 v node G1 Hlook) as (node1 & Hlook1 & Hkept).
      exists info, made, idname, node1. split; [done|]. split; [done|].
      split; [done|]. by eapply made_as_kept.
    + intros [Hin|Hin%list_elem_of_singleton]%elem_of_app; [by apply Hmapped|done].
Qed.

Lemma compute_schedule_some set_iter analysis :
  GraphEngine.iterates_sets set_iter →
  ∃ schedule, GraphEngine.compute_schedule set_iter analysis = Some schedule ∧
              NoDup schedule.
Proof.
  intros Hiter. unfold GraphEngine.compute_schedule.
  destruct (GraphEngine.output_nodes analysis) as [|o outs] eqn:Hout.
  - destruct (compute_schedule_runs set_iter analysis (dict_keys (nodes analysis)) Hiter)
      as (st & -> & Hnd & _); [done|]. by eexists.
  - destruct (compute_schedule_runs set_iter analysis (o :: outs) Hiter)
      as (st & -> & Hnd & _); [|by eexists].
    intros x Hx. apply output_nodes_keys. by rewrite Hout.
Qed.

(** X28. For a host that gives new nodes fresh names, and a target tree
    with distinct node names: [create_nodes] maps exactly the scheduled
    nodes for which a node is planned. The output node is mapped to an
    output node of the tree; every other node to a new node of the first
    candidate type that the host has registered (the blend-type candidates
    before the standard ones for a Mix node with a special blend type, the
    two fallback types after the standard ones otherwise), with the
    sockets and attributes of a fresh node of that type, the location of
    the Cycles node and the planned label. Frames, group nodes and the
    other pass-through nodes are never mapped, and a Mix node with a
    special blend type gets no fallback node. *)
Theorem create_nodes_planned set_iter analysis t node_map t' :
  GraphEngine.iterates_sets set_iter →
  NoDup (node_name <$> tree_nodes t) →
  create_nodes' set_iter analysis t = Ok (node_map, t') →
  ∃ schedule,
    GraphEngine.compute_schedule set_iter analysis = Some schedule ∧
    ∀ k,
      match dict_get k node_map with
      | Some v =>
          k ∈ schedule ∧
          ∃ info made idname node,
            dict_get k (nodes analysis) = Some info ∧
            planned' info = Some (made, idname) ∧
            tree_node t' v = Some node ∧ made_as info made idname v node
      | None =>
          k ∈ schedule → ∀ info, dict_get k (nodes analysis) = Some info →
                                 planned' info = None
      end.
Proof.
  intros Hiter Hnd. unfold create_nodes.
  destruct (compute_schedule_some set_iter analysis Hiter) as (schedule & -> & Hsched).
  intros Hrun. exists schedule. split; [done|].
  apply (create_loop analysis schedule [] [] t node_map t') in Hrun as (_ & _ & ?);
    [done|done|done|].
  by intros k ?%elem_of_nil.
Qed.

(** X29. Under the same conditions [create_nodes] only adds to the tree:
    the links stay, the nodes of the tree come first in their order and
    the new nodes after them, all names stay distinct, and every node that
    is no output node is unchanged. Every value of the map names a node
    of the resulting tree. *)
Theorem create_nodes_grows set_iter analysis t node_map t' :
  GraphEngine.iterates_sets set_iter →
  NoDup (node_name <$> tree_nodes t) →
  create_nodes' set_iter analysis t = Ok (node_map, t') →
  grows t t' ∧
  NoDup (node_name <$> tree_nodes t') ∧
  (∀ k v, dict_get k node_map = Some v → is_Some (tree_node t' v)).
Proof.
  intros Hiter Hnd. unfold create_nodes.
  destruct (compute_schedule_some set_iter analysis Hiter) as (schedule & -> & Hsched).
  intros Hrun.
  apply (create_loop analysis schedule [] [] t node_map t') in Hrun as (G & N & Hmapped);
    [|done|done|by intros k ?%elem_of_nil].
  split; [done|]. split; [done|]. intros k v Hk. specialize (Hmapped k).
  rewrite Hk in Hmapped. destruct Hmapped as (_ & _ & _ & _ & node & _ & _ & Hlook & _).
  by exists node.
Qed.

Local Abbreviation output_available tree := (output_available_by node_types tree).

Lemma output_available_grows tree tree' :
  grows tree tree' → output_available tree → output_available tree'.
Proof.
  intros (_ & l' & added & Hnodes & HF) [?|(n & Hn & Hout)]; [by left|right].
  apply list_elem_of_lookup_1 in Hn as [i Hi].
  destruct (Forall2_lookup_l _ _ _ _ _ HF Hi) as (n' & Hi' & _ & Hid & _).
  exists n'. split; [|congruence].
  rewrite Hnodes. apply elem_of_app. left. by eapply list_elem_of_lookup_2.
Qed.

Lemma create_step_runs analysis node_map tree k :
  output_available tree →
  (∀ k info stops, dict_get k (nodes analysis) = Some info →
                   dict_get "blend_type" (properties info) ≠ Some (VStops stops)) →
  ∃ st', create_step' analysis (node_map, tree) k = Ok st'.
Proof.
  intros Hout Hblend. unfold create_step.
  destruct (dict_get k (nodes analysis)) as [info|] eqn:Hinfo; [|by eexists].
  destruct (decide (bl_idname info ∈ SKIP_TYPES)) as [?|_]; [by eexists|].
  destruct (decide (bl_idname info ∈ PASSTHROUGH_TYPES)) as [_|_].
  { destruct (decide (bl_idname info = "ShaderNodeOutputMaterial")); [|by eexists].
    unfold place_output.
    destruct (list_find _ (tree_nodes tree)) as [[i out]|] eqn:Hfind; [by eexists|].
    destruct Hout as [[fresh Hfresh]|(out & Hn & Hid)].
    - rewrite (nodes_new_known _ _ _ Hfresh). by eexists.
    - exfalso. rewrite list_find_None, Forall_forall in Hfind. by apply (Hfind out). }
  assert (∃ special,
            (if decide (bl_idname info ∈ ["ShaderNodeMixRGB"; "ShaderNodeMix"])
             then blend_candidates
                    (default (VStr "MIX") (dict_get "blend_type" (properties info)))
             else Ok None) = Ok special) as [special ->].
  { case_decide; [|by eexists].
    destruct (dict_get "blend_type" (properties info)) as [bt|] eqn:Hbt; [|by eexists].
    destruct bt; try by eexists. by destruct (Hblend k info stops Hinfo). }
  cbn [mbind result_bind]. unfold create_octane_node.
  destruct special as [candidates|].
  - rewrite create_first_spec. cbn [mbind result_bind].
    destruct (match first_known' candidates with Some _ => _ | None => _ end)
      as [[new_node|] tree1]; cbn [mbind result_bind]; [by eexists|].
    rewrite create_first_spec. cbn [mbind result_bind].
    destruct (match first_known' _ with Some _ => _ | None => _ end)
      as [[new_node|] tree2]; by eexists.
  - rewrite create_first_spec. cbn [mbind result_bind].
    destruct (match first_known' _ with Some _ => _ | None => _ end)
      as [[new_node|] tree1]; by eexists.
Qed.

Lemma create_loop_runs analysis : ∀ todo node_map tree,
  NoDup (node_name <$> tree_nodes tree) →
  output_available tree →
  (∀ k info stops, dict_get k (nodes analysis) = Some info →
                   dict_get "blend_type" (properties info) ≠ Some (VStops stops)) →
  ∃ st', fold_result (create_step' analysis) (node_map, tree) todo = Ok st'.
Proof.
  induction todo as [|k todo IH]; intros node_map tree Hnd Hout Hblend; [by eexists|].
  rewrite fold_result_cons.
  destruct (create_step_runs analysis node_map tree k Hout Hblend)
    as ([node_map1 tree1] & Hstep).
  rewrite Hstep. cbn [mbind result_bind].
  apply create_step_spec in Hstep as (G & N & _); [|done].
  apply IH; [done| |done]. by eapply output_available_grows.
Qed.

(** X30. Creation and the link passes compose. For a host that gives new
    nodes fresh names, a target tree with distinct node names that has an
    output node (or a host that can make one), and an analysis in which no
    [blend_type] is a list: [create_nodes] returns, and on the map and the
    tree it returns [_rebuild_links], [_handle_alpha],
    [_handle_emission_post] and [handle_volumetrics] all return. *)
Theorem create_nodes_then_links set_iter analysis t :
  GraphEngine.iterates_sets set_iter →
  NoDup (node_name <$> tree_nodes t) →
  output_available t →
  (∀ k info stops, dict_get k (nodes analysis) = Some info →
                   dict_get "blend_type" (properties info) ≠ Some (VStops stops)) →
  ∃ node_map t',
    create_nodes' set_iter analysis t = Ok (node_map, t') ∧
    (∃ t'', ConversionPasses._rebuild_links analysis node_map t' = Ok t'') ∧
    (∃ t'', ConversionPasses._handle_alpha analysis node_map t' = Ok t'') ∧
    (∃ t'', ConversionPasses._handle_emission_post analysis node_map t' = Ok t'') ∧
    (∃ t'', VolumetricHandler.handle_volumetrics analysis node_map t' = Ok t'').
Proof.
  intros Hiter Hnd Hout Hblend. unfold create_nodes.
  destruct (compute_schedule_some set_iter analysis Hiter) as (schedule & -> & Hsched).
  destruct (create_loop_runs analysis schedule [] t Hnd Hout Hblend)
    as ([node_map t'] & Hrun).
  exists node_map, t'. split; [done|]. apply link_passes_run.
  apply (create_loop analysis schedule [] [] t node_map t') in Hrun as (_ & _ & Hmapped);
    [|done|done|by intros k ?%elem_of_nil].
  intros k v Hk. specialize (Hmapped k).
  rewrite Hk in Hmapped. destruct Hmapped as (_ & _ & _ & _ & node & _ & _ & Hlook & _).
  by exists node.
Qed.

End Creation.

Section CreationExamples.
Import Py Bpy ShaderDetection ConversionEngine NodeCreation.

Lemma length_append (s1 s2 : string) :
  String.length (s1 ++ s2) = String.length s1 + String.length s2.
Proof. induction s1 as [|c s1 IH]; simpl; [done|]. by rewrite IH. Qed.

Lemma fresh_name_fresh taken base : Fixtures.fresh_name taken base ∉ taken.
Proof.
  unfold Fixtures.fresh_name. case_decide as Hbase; [|done].
  assert (∀ x, x ∈ taken →
               String.length x ≤ String.length (foldr String.append "" taken)) as Hlen.
  { clear. induction taken as [|y taken IH]; intros x Hx; [by apply elem_of_nil in Hx|].
    simpl. rewrite length_append.
    apply elem_of_cons in Hx as [->|Hx]; [lia|]. specialize (IH x Hx). lia. }
  intros Hin. apply Hlen in Hin. rewrite !length_append in Hin. simpl in Hin. lia.
Qed.

Lemma create_nodes_planned_witness :
  ∃ schedule,
    GraphEngine.compute_schedule Examples.elements_iter Fixtures.foggy_analysis
    = Some schedule ∧
    ∀ k,
      match dict_get k Fixtures.foggy_created.1 with
      | Some v =>
          k ∈ schedule ∧
          ∃ info made idname node,
            dict_get k (nodes Fixtures.foggy_analysis) = Some info ∧
            planned Fixtures.octane_host info = Some (made, idname) ∧
            tree_node Fixtures.foggy_created.2 v = Some node ∧
            made_as_by Fixtures.octane_host info made idname v node
      | None =>
          k ∈ schedule → ∀ info, dict_get k (nodes Fixtures.foggy_analysis) = Some info →
                                 planned Fixtures.octane_host info = None
      end.
Proof.
  apply (create_nodes_planned Fixtures.octane_host Fixtures.fresh_name fresh_name_fresh
           Examples.elements_iter Fixtures.foggy_analysis Fixtures.output_only_tree).
  - intros k s. reflexivity.
  - apply (bool_decide_unpack _). vm_compute. exact I.
  - vm_compute. reflexivity.
Defined.

Lemma create_nodes_grows_witness :
  grows Fixtures.output_only_tree Fixtures.foggy_created.2 ∧
  NoDup (node_name <$> tree_nodes Fixtures.foggy_created.2) ∧
  (∀ k v, dict_get k Fixtures.foggy_created.1 = Some v →
          is_Some (tree_node Fixtures.foggy_created.2 v)).
Proof.
  apply (create_nodes_grows Fixtures.octane_host Fixtures.fresh_name fresh_name_fresh
           Examples.elements_iter Fixtures.foggy_analysis Fixtures.output_only_tree).
  - intros k s. reflexivity.
  - apply (bool_decide_unpack _). vm_compute. exact I.
  - vm_compute. reflexivity.
Defined.

Lemma create_nodes_then_links_witness :
  ∃ node_map t',
    create_nodes Fixtures.octane_host Fixtures.fresh_name Examples.elements_iter
      Fixtures.foggy_analysis Fixtures.output_only_tree = Ok (node_map, t') ∧
    (∃ t'', ConversionPasses._rebuild_links Fixtures.foggy_analysis node_map t' = Ok t'') ∧
    (∃ t'', ConversionPasses._handle_alpha Fixtures.foggy_analysis node_map t' = Ok t'') ∧
    (∃ t'', ConversionPasses._handle_emission_post Fixtures.foggy_analysis node_map t'
            = Ok t'') ∧
    (∃ t'', VolumetricHandler.handle_volumetrics Fixtures.foggy_analysis node_map t'
            = Ok t'').
Proof.
  apply (create_nodes_then_links Fixtures.octane_host Fixtures.fresh_name fresh_name_fresh
           Examples.elements_iter Fixtures.foggy_analysis Fixtures.output_only_tree).
  - intros k s. reflexivity.
  - apply (bool_decide_unpack _). vm_compute. exact I.
  - right. eexists. split; [by left|done].
  - intros k info stops Hinfo. simpl in Hinfo.
    repeat case_decide; try done; by injection Hinfo as <-.
Defined.

End CreationExamples.
